(* ===== verification/_CoqProject ===== *)
-Q . S2P
Prelude.v
Text.v
Enums.v
Entities.v
F64.v
RetryPolicy.v
Db.v
Fixture.v
Steps.v
JobRepository.v
Repositories.v
Externals.v
JobService.v
QueueService.v
DlqService.v
SchedulerCore.v
Executor.v
Poller.v
OutboxRelay.v
WebSocket.v
ProjectService.v
WorkflowService.v
Lifecycle.v
AuthService.v
CircuitBreaker.v
RateLimit.v
Requests.v
Api.v
History.v
Board.v
Settings.v
System.v
Safety.v
Submission.v
Refinement.v
Integrity.v
Pipeline.v
