(* ===== verification/Prelude.v ===== *)
(** * Distributed job scheduler: verification library (root file)

    The program ([src/], Rust) is a job scheduler without a master: identical
    processes share a PostgreSQL store and a Redis server. Clients submit jobs
    over HTTP; the pollers of all processes claim jobs from the store, an
    executor runs each claimed job and settles its outcome in one transaction;
    background loops promote due jobs, take jobs back from silent workers, and
    publish the events that the transactions left in an outbox table. The
    processes communicate through the store only, so nearly all that makes the
    program correct is what its SQL does under interleaving and failure.

    ** The model

    [Db.v] is the world the program acts on. The tables of
    [migrations/0001_initial_schema.sql] are finite maps with the schema's keys,
    unique indexes and foreign keys; a statement ([stmt]) is an executable
    function that answers and changes the store, or is refused by a constraint.
    An [async fn] is a [prog]: atomic steps (a statement, a transaction, a Redis
    command, a clock reading, a generated UUID, an access to a shared counter)
    with pure code in between, [Spawn] for [tokio::spawn] and [Panic] for a
    panic. Everything a step does not decide is its environment [Env]: the
    server's clock, readings of [Utc::now()], UUIDs, rows locked by other
    transactions, and for each request whether it is answered, lost before it
    took effect, or applied with its answer lost. [exec] and [run] run one
    program alone, [pool_step] interleaves any number of tasks. Theorems
    quantify over all environments unless they say [quiet] (no fault).

    A transaction is one step: its statements see the store it began with and
    their own changes. Under the server's READ COMMITTED a later statement of a
    transaction can also see what others committed meanwhile. The program's
    transactions read nothing they have not locked (they insert new rows, and
    update a row by its key, which keeps it locked until the end), so such a
    transaction acts like one step at its COMMIT; the exception is the policy
    the executor reads through the pool, which no statement changes.
    Aborted transactions are as in PostgreSQL: after a failed statement every
    other one fails, and COMMIT rolls back without an error.

    Integers keep their width: [i32], [i64] wrap (a release build),
    [as usize] and [f64 as i64] are written out, [F64.v] is binary64 arithmetic.
    A timestamp is a number of microseconds. [JSON] is [Value].

    ** Files and the code they model

    - [Enums.v], [Entities.v], [RetryPolicy.v], [F64.v]: [crates/domain] (enums,
      structs, the job life cycle, back-off strategies).
    - [Db.v]: the store, programs and their two semantics; [Steps.v]: the rules
      to reason about them ([steps_sat], [sql_outcome], [tx_post], [tx_clean],
      [safe] and the interleaving rules); [Fixture.v]: a small concrete store.
    - [JobRepository.v], [Repositories.v]: [crates/repositories], one Module per
      repository, one Definition per query, with the [WHERE], [SET] and
      [ORDER BY] parts of the long ones as definitions of their own.
    - [Externals.v]: third-party crates (uuid, chrono, serde_json, cron, bcrypt,
      jsonwebtoken) as type classes of functions, with classes of the documented
      laws the theorems use and [Toy] instances that satisfy the laws.
    - [JobService.v], [QueueService.v], [DlqService.v], [ProjectService.v],
      [WorkflowService.v], [AuthService.v]: [crates/services].
    - [SchedulerCore.v]: [crates/scheduler-core] (promoter, stale recovery, next
      occurrence of a recurring job).
    - [Executor.v], [Poller.v]: [crates/worker].
    - [OutboxRelay.v], [CircuitBreaker.v]: [crates/infrastructure].
    - [RateLimit.v], [Requests.v], [Api.v], [WebSocket.v]: [crates/api] and
      [crates/common] (middleware, request bodies, handlers, error responses,
      routes, state; the WebSocket feed).
    - [Text.v], [Settings.v]: the environment variables of [src/main.rs] and what
      is used of [str] to read them.
    - [System.v]: [src/main.rs], [server.rs] and the route table: a process from
      its start to its shutdown, and pools of processes. Its second part takes
      the program apart into its statements once: [Tolerated], [ToleratesRetry]
      and [ToleratedWorker] list them, and the files below instantiate the lists.
    - [Lifecycle.v]: the job life cycle of the domain against the SQL.
    - [History.v], [Safety.v]: what every statement keeps, one [Table] instance
      per table, and the theorems about any number of processes in any
      interleaving.
    - [Submission.v]: the HTTP round trip of a job through the whole system.
    - [Integrity.v]: references between rows and the width of counters, one
      [TypedTable] instance per table.
    - [Board.v], [Refinement.v]: the abstract specification of the scheduler (a
      board of jobs, a log of runs, the dead letters, and the tickets of workers
      and of manual retries), and the proof that every step of the program, in
      every interleaving, is one step of it or none.
    - [Pipeline.v]: promoter, poller and executor composed: the retry chain of a
      failing job.

    ** What the theorems show

    - Whole system ([Safety.v], [Integrity.v]): in every interleaving of any
      number of processes, with every fault, keys and unique indexes hold,
      references resolve, ownership of jobs is consistent, no job, execution,
      dead letter or event is lost or rewritten; every execution and dead letter
      has its outbox event, and an event marked published was sent.
    - Refinement ([Refinement.v]): the stores an interleaving goes through are a
      history of the job board, step by step, and a job succeeds at most once
      plus once for each time recovery or a manual retry reopened it; a run of
      two processes reaches the bound.
    - The retry chain ([Pipeline.v]): a failing job runs exactly as often as it
      has attempts, then rests in the dead-letter queue.
    - Claiming, promotion, recovery ([JobRepository.v], [SchedulerCore.v],
      [Poller.v]): claims are exclusive and return the best due job; the promoter
      and the recovery change exactly the rows they are meant for; the promoter
      loop is live; a heartbeat protects its worker; a poll respects pause and
      limit as the code checks them.
    - Execution ([Executor.v]): the outcome of a job is atomic under every fault;
      without faults a run settles its job, or panics when the retry time is out
      of range.
    - Services ([JobService.v] to [AuthService.v]): creation is authorized,
      idempotent, all or nothing; retries, cancellation, pausing, project
      creation, dependencies, registration, login, refresh and logout on every
      branch.
    - HTTP ([Api.v], [RateLimit.v], [WebSocket.v]): no handler runs without a
      verified token; each protected route that writes needs its permission; a
      client error changed nothing (the creation of a project excepted, which
      answers 400 to every failure); the token bucket bounds each client in every
      window, as long as the checks come in the order of the processes' clock; a
      dashboard sees what is published on the jobs channel, in order and without
      gaps.
    - Round trips ([Submission.v], [Settings.v]): the job a submission names is
      shown under that name, with what was submitted, whatever the scheduler did
      in between; the list of queues round trips through its text.
    - Arithmetic ([RetryPolicy.v], [Executor.v]): the [f64] back-off equals its
      integer specification; the built-in delay wraps at attempt 61.
    - Circuit breaker ([CircuitBreaker.v]): the cycle of a breaker call by call,
      and recovery in every interleaving of calls.

    Some theorems state where the code falls short of its documentation (a
    counter that is multiplied by a join, a job that is never promoted, a
    deadlocked cycle, an organization anybody can rename): their doc comments
    say so.

    ** Bounds

    A [loop] is its first [n] rounds, for every [n] ([ticks]); a process has a
    number of rounds and a list of requests, both arbitrary. Nothing else uses
    fuel: programs are inductive trees, so a run always ends.

    ** Not modelled

    Connection pools, Redis connection management, CORS, logging (I/O without
    state of the program: a connection attempt, the migrations and the bind of
    the socket are steps that succeed or fail); the tables [job_logs] and [audit_logs], which nothing uses;
    extraction and serialization of HTTP bodies, which is framework or generated
    code ([Serialize] is an argument). The front end is not Rust.

    ** Plan

    Next: statements of a transaction interleaved with other tasks, and the
    proof that the atomic transactions above are a refinement of them; liveness
    of the pipeline for several jobs under fair schedules; progress of the feed. *)
From stdpp Require Export base gmap strings list sorting.
From Stdlib Require Export ZArith Lia.

#[global] Open Scope Z_scope.

(** ** Record update, written like an SQL [SET] list *)

(** [Setter proj] gives the update function of one field of a record. *)
Class Setter {R T : Type} (proj : R -> T) := set_field : (T -> T) -> R -> R.
#[global] Arguments set_field {R T} proj {_} f r : assert.

Declare Scope sched_scope.
Delimit Scope sched_scope with sched.
#[global] Open Scope sched_scope.

Notation "r <| proj := v |>" := (set_field proj (fun _ => v) r)
  (at level 1, left associativity, v at level 99) : sched_scope.
Notation "r <| proj ::= f |>" := (set_field proj f r)
  (at level 1, left associativity, f at level 99) : sched_scope.

(** ** Rust's [Result] and [Option] combinators *)

Inductive result (A E : Type) : Type :=
| Ok (a : A)
| Err (e : E).
Arguments Ok {A E} a.
Arguments Err {A E} e.

Definition map_err {A E F : Type} (f : E -> F) (r : result A E) : result A F :=
  match r with Ok a => Ok a | Err e => Err (f e) end.

Definition ok_or {A E : Type} (o : option A) (e : E) : result A E :=
  match o with Some a => Ok a | None => Err e end.

Definition result_ok {A E : Type} (r : result A E) : option A :=
  match r with Ok a => Some a | Err _ => None end.

Definition is_ok {A E : Type} (r : result A E) : bool :=
  match r with Ok _ => true | Err _ => false end.

Definition unwrap_or {A : Type} (o : option A) (d : A) : A :=
  match o with Some a => a | None => d end.

Definition option_or {A : Type} (o1 o2 : option A) : option A :=
  match o1 with Some a => Some a | None => o2 end.

Definition is_some {A : Type} (o : option A) : bool :=
  match o with Some _ => true | None => false end.

(** ** Machine integers: values are [Z], wrap-around is written out *)

Definition wrap (w z : Z) : Z := (z + 2 ^ (w - 1)) mod 2 ^ w - 2 ^ (w - 1).
Definition in_width (w z : Z) : Prop := - 2 ^ (w - 1) <= z < 2 ^ (w - 1).
Create HintDb sched discriminated.

Definition i32 (z : Z) : Z := wrap 32 z.
Definition i64 (z : Z) : Z := wrap 64 z.
Definition u32 (z : Z) : Z := z mod 2 ^ 32.
Definition I64_MAX : Z := 2 ^ 63 - 1.
Definition I64_MIN : Z := - 2 ^ 63.

(** ** SQL: nullable comparison, [ORDER BY], [LIMIT]/[OFFSET] *)

(** [a <= b] where [a] may be NULL, as a [WHERE] condition sees it: an unknown
    truth value selects nothing. *)
Definition sql_le (a : option Z) (b : Z) : bool :=
  match a with Some x => x <=? b | None => false end.

(** [COALESCE(a, b)] *)
Definition coalesce {A : Type} (a b : option A) : option A := option_or a b.

Definition order_by {A : Type} (R : A -> A -> Prop) `{!forall x y, Decision (R x y)}
  (l : list A) : list A := merge_sort R l.

(** [LIMIT n OFFSET m] for non-negative [n] and [m]. *)
Definition limit_offset {A : Type} (limit offset : Z) (l : list A) : list A :=
  take (Z.to_nat limit) (drop (Z.to_nat offset) l).

(** The rows of a table that satisfy a [WHERE] condition. *)
Definition select {K V : Type} `{Countable K} (p : V -> bool) (t : gmap K V) : list V :=
  List.filter p (snd <$> map_to_list t).

(** [UPDATE t SET f WHERE p] *)
Definition update_where {K V : Type} `{Countable K} (p : V -> bool) (f : V -> V)
  (t : gmap K V) : gmap K V := (fun v => if p v then f v else v) <$> t.

(** Rows a statement with condition [p] touches: PostgreSQL's [rows_affected]. *)
Definition rows_affected {K V : Type} `{Countable K} (p : V -> bool) (t : gmap K V) : Z :=
  Z.of_nat (length (select p t)).

(** [SELECT COUNT( * ) ... WHERE p] *)
Definition sql_count {A : Type} (p : A -> bool) (l : list A) : Z :=
  Z.of_nat (length (List.filter p l)).

(** ** Tactics *)

(** Split every [match]/[if] of the goal, closing impossible branches. *)
Ltac split_match :=
  repeat (case_match; simplify_eq/=; try done).

(** Invert the boolean guards of the code into propositions. *)
Ltac bool_to_prop :=
  repeat match goal with
  | H : _ && _ = true |- _ => apply andb_true_iff in H as [? ?]
  | H : _ || _ = false |- _ => apply orb_false_iff in H as [? ?]
  | H : (_ <=? _)%Z = true |- _ => apply Z.leb_le in H
  | H : (_ <=? _)%Z = false |- _ => apply Z.leb_gt in H
  | H : (_ <? _)%Z = true |- _ => apply Z.ltb_lt in H
  | H : (_ <? _)%Z = false |- _ => apply Z.ltb_ge in H
  | H : (_ =? _)%Z = true |- _ => apply Z.eqb_eq in H
  | H : (_ =? _)%Z = false |- _ => apply Z.eqb_neq in H
  | H : bool_decide _ = true |- _ => apply bool_decide_eq_true in H
  | H : bool_decide _ = false |- _ => apply bool_decide_eq_false in H
  | H : negb _ = true |- _ => apply negb_true_iff in H
  | H : negb _ = false |- _ => apply negb_false_iff in H
  end.

(** Prove a decidable proposition by evaluating its decision. *)
Ltac compute_decide := refine (bool_decide_unpack _ _); vm_compute; exact I.

(** ** Lemmas on widths *)

Lemma wrap_id w z : 0 < w -> in_width w z -> wrap w z = z.
Proof.
  unfold in_width, wrap; intros Hw Hz.
  assert (2 ^ w = 2 * 2 ^ (w - 1)) as Hp.
  { rewrite <- Z.pow_succ_r by lia. f_equal; lia. }
  rewrite Z.mod_small; lia.
Qed.

Lemma wrap_in_width w z : 0 < w -> in_width w (wrap w z).
Proof.
  unfold in_width, wrap; intros Hw.
  assert (2 ^ w = 2 * 2 ^ (w - 1)) as Hp.
  { rewrite <- Z.pow_succ_r by lia. f_equal; lia. }
  assert (0 < 2 ^ (w - 1)) by (apply Z.pow_pos_nonneg; lia).
  pose proof (Z.mod_pos_bound (z + 2 ^ (w - 1)) (2 ^ w)). lia.
Qed.

Lemma i32_id z : in_width 32 z -> i32 z = z.
Proof. apply wrap_id; lia. Qed.
Lemma i64_id z : in_width 64 z -> i64 z = z.
Proof. apply wrap_id; lia. Qed.

(** ** Lemmas on tables *)

Section tables.
Context {K V : Type} `{Countable K}.
Implicit Types (t : gmap K V) (p : V -> bool) (f : V -> V).

Lemma elem_of_select p t v :
  v ∈ select p t <-> p v = true /\ exists k, t !! k = Some v.
Proof.
  unfold select. rewrite list_elem_of_In, filter_In, <- list_elem_of_In, list_elem_of_fmap.
  split.
  - intros [[[k v'] [-> Hin]] Hp]. apply elem_of_map_to_list in Hin. eauto.
  - intros [Hp [k Hk]]. split; [|done]. exists (k, v).
    by rewrite elem_of_map_to_list.
Qed.

Lemma lookup_update_where p f t k :
  update_where p f t !! k = (fun v => if p v then f v else v) <$> t !! k.
Proof. apply lookup_fmap. Qed.

Lemma lookup_update_where_Some p f t k v :
  t !! k = Some v -> update_where p f t !! k = Some (if p v then f v else v).
Proof. intros Hk. by rewrite lookup_update_where, Hk. Qed.

Lemma lookup_update_where_inv p f t k v' :
  update_where p f t !! k = Some v' ->
  exists v, t !! k = Some v /\ v' = if p v then f v else v.
Proof.
  rewrite lookup_update_where. destruct (t !! k) as [v|] eqn:E; simpl; [|done].
  intros [= <-]. eauto.
Qed.

Lemma select_nil_update_where p f t : select p t = [] -> update_where p f t = t.
Proof.
  intros Hnil. apply map_eq. intros k. rewrite lookup_update_where.
  destruct (t !! k) as [v|] eqn:E; simpl; [|done]. destruct (p v) eqn:Hp; [|done].
  exfalso. cut (v ∈ select p t); [rewrite Hnil; set_solver|].
  apply elem_of_select; eauto.
Qed.

Lemma rows_affected_zero p t :
  rows_affected p t = 0 <-> forall k v, t !! k = Some v -> p v = false.
Proof.
  unfold rows_affected. split.
  - intros Hz k v Hk. destruct (p v) eqn:Hp; [|done].
    assert (v ∈ select p t) as Hin by (apply elem_of_select; eauto).
    destruct (select p t); [set_solver|simpl in Hz; lia].
  - intros Hall. destruct (select p t) as [|v l] eqn:E; [done|].
    assert (v ∈ select p t) as Hin by (rewrite E; set_solver).
    apply elem_of_select in Hin as [Hp [k Hk]]. rewrite (Hall k v Hk) in Hp. done.
Qed.

(** Counting the keys of the rows a condition selects. *)
Lemma size_filter_select (P : K * V -> Prop) `{!forall x, Decision (P x)} p t :
  (forall k v, t !! k = Some v -> P (k, v) <-> p v = true) ->
  size (filter P t) = length (select p t).
Proof.
  intros Hp. rewrite <- length_map_to_list.
  rewrite (Permutation_length (l' := filter P (map_to_list t))).
  - unfold select. assert (forall k v, (k, v) ∈ map_to_list t -> P (k, v) <-> p v = true) as Hl
      by (intros k v Hin; by apply Hp, elem_of_map_to_list).
    revert Hl. induction (map_to_list t) as [|[k v] l IH]; intros Hl; [done|]. csimpl.
    assert (P (k, v) <-> p v = true) as Hkv by (apply Hl; set_solver).
    assert (length (filter P l) = length (List.filter p (snd <$> l))) as Hrest
      by (apply IH; intros; apply Hl; set_solver).
    rewrite filter_cons. destruct (decide (P (k, v))) as [Hd|Hd]; destruct (p v); csimpl; naive_solver.
  - apply NoDup_Permutation.
    + apply NoDup_map_to_list.
    + apply NoDup_filter, NoDup_map_to_list.
    + intros [k v]. rewrite list_elem_of_filter, !elem_of_map_to_list, map_lookup_filter_Some. tauto.
Qed.
End tables.

Section sorting.
Context {A : Type} (R : A -> A -> Prop) `{!forall x y, Decision (R x y)}.

Lemma order_by_Permutation l : order_by R l ≡ₚ l.
Proof. apply merge_sort_Permutation. Qed.

Lemma elem_of_order_by l x : x ∈ order_by R l <-> x ∈ l.
Proof. by rewrite order_by_Permutation. Qed.

Lemma order_by_sorted `{!Transitive R, !Total R} l : StronglySorted R (order_by R l).
Proof. by apply StronglySorted_merge_sort. Qed.

(** The first row of an ordered query is related to every row. *)
Lemma order_by_head `{!Transitive R, !Total R} l x y :
  head (order_by R l) = Some x -> y ∈ l -> x = y \/ R x y.
Proof.
  intros Hhd Hy. pose proof (order_by_sorted l) as Hs.
  rewrite <- elem_of_order_by in Hy.
  destruct (order_by R l) as [|x' l']; simplify_eq/=.
  inversion Hs as [|? ? _ Hall]; subst.
  apply elem_of_cons in Hy as [->|Hy]; [by left|right].
  rewrite Forall_forall in Hall. auto.
Qed.

Lemma order_by_head_elem l x : head (order_by R l) = Some x -> x ∈ l.
Proof.
  intros Hhd. apply elem_of_order_by. destruct (order_by R l); simplify_eq/=. set_solver.
Qed.

(** The first row that passes a filter applied after the ordering. *)
Lemma order_by_head_filter `{!Transitive R, !Total R} (p : A -> bool) l x y :
  head (List.filter p (order_by R l)) = Some x -> y ∈ l -> p y = true -> x = y \/ R x y.
Proof.
  intros Hhd Hy Hp. pose proof (order_by_sorted l) as Hs.
  rewrite <- elem_of_order_by in Hy. revert Hhd Hy.
  induction Hs as [|z l' Hs IH Hall]; [done|]. simpl. rewrite elem_of_cons.
  destruct (p z) eqn:Ez; simpl.
  - intros [= ->] [->|Hy]; [by left|right]. rewrite Forall_forall in Hall. auto.
  - intros Hhd [->|Hy]; [congruence|auto].
Qed.

Lemma order_by_head_None l : head (order_by R l) = None -> l = [].
Proof.
  intros Hhd. apply Permutation_nil_r. rewrite <- (order_by_Permutation l).
  by destruct (order_by R l).
Qed.
End sorting.

Lemma head_filter_elem {A} (p : A -> bool) l x :
  head (List.filter p l) = Some x -> x ∈ l /\ p x = true.
Proof.
  intros Hhd. destruct (List.filter p l) as [|x' l'] eqn:E; simplify_eq/=.
  rewrite list_elem_of_In, <- filter_In, E. simpl. auto.
Qed.

Lemma head_filter_None {A} (p : A -> bool) l x :
  head (List.filter p l) = None -> x ∈ l -> p x = false.
Proof.
  intros Hhd Hx. destruct (p x) eqn:Hp; [|done].
  assert (List.In x (List.filter p l)) by (apply filter_In; rewrite <- list_elem_of_In; auto).
  destruct (List.filter p l); done.
Qed.

#[global] Instance filter_Permutation {A} (p : A -> bool) :
  Proper (Permutation ==> Permutation) (List.filter p).
Proof.
  induction 1 as [|x l1 l2 _ IH|x y l|l1 l2 l3 _ IH1 _ IH2]; simpl; [done| | |by etrans].
  - destruct (p x); [by constructor|done].
  - destruct (p x), (p y); try done. constructor.
Qed.

Lemma limit_offset_length {A} (n m : Z) (l : list A) :
  0 <= n -> Z.of_nat (length (limit_offset n m l)) <= n.
Proof. intros Hn. unfold limit_offset. rewrite length_take. lia. Qed.

Lemma elem_of_limit_offset {A} (n m : Z) (l : list A) x : x ∈ limit_offset n m l -> x ∈ l.
Proof.
  unfold limit_offset. intros Hx. apply (subseteq_take (Z.to_nat n)) in Hx.
  by apply (subseteq_drop (Z.to_nat m)) in Hx.
Qed.

(** ** Text *)

Lemma app_string_assoc a b c : (a +:+ (b +:+ c) = (a +:+ b) +:+ c)%string.
Proof.
  induction a as [|x a IH]; [done|].
  change (String x (a +:+ (b +:+ c)) = String x ((a +:+ b) +:+ c)). by rewrite IH.
Qed.
