(* ===== verification/Text.v ===== *)
(** * Text: what the program uses of [str]

    Splitting, trimming and parsing of numbers are the standard library's, on
    the bytes of UTF-8. *)
From Stdlib Require Import Ascii.
From S2P Require Import Prelude.

(** [s.split(c)]: the pieces between the separators. *)
Fixpoint split (sep : ascii) (s : string) : list string :=
  match s with
  | EmptyString => [EmptyString]
  | String c s =>
      if Ascii.eqb c sep then EmptyString :: split sep s
      else match split sep s with
           | piece :: rest => String c piece :: rest
           | [] => [String c EmptyString]
           end
  end.

(** [char::is_whitespace], on the UTF-8 encoding: U+0009 to U+000D, U+0020;
    U+0085, U+00A0; U+1680, U+2000 to U+200A, U+2028, U+2029, U+202F, U+205F,
    U+3000. *)
Definition space1 (a : nat) : bool := ((9 <=? a) && (a <=? 13) || (a =? 32))%nat.
Definition space2 (a b : nat) : bool := ((a =? 194) && ((b =? 133) || (b =? 160)))%nat.
Definition space3 (a b c : nat) : bool :=
  ((a =? 225) && (b =? 154) && (c =? 128) ||
   (a =? 226) && (b =? 128) && ((128 <=? c) && (c <=? 138) || (c =? 168) || (c =? 169) || (c =? 175)) ||
   (a =? 226) && (b =? 129) && (c =? 159) ||
   (a =? 227) && (b =? 128) && (c =? 128))%nat.

(** [str::trim] *)
Fixpoint trim_start (s : string) : string :=
  match s with
  | String a s1 =>
      let a := nat_of_ascii a in
      if space1 a then trim_start s1 else
      match s1 with
      | String b s2 =>
          let b := nat_of_ascii b in
          if space2 a b then trim_start s2 else
          match s2 with
          | String c s3 => if space3 a b (nat_of_ascii c) then trim_start s3 else s
          | EmptyString => s
          end
      | EmptyString => s
      end
  | EmptyString => EmptyString
  end.
Definition blank (s : string) : bool :=
  match trim_start s with EmptyString => true | _ => false end.
Fixpoint trim_end (s : string) : string :=
  match s with
  | String c s' => if blank s then EmptyString else String c (trim_end s')
  | EmptyString => EmptyString
  end.
Definition trim (s : string) : string := trim_end (trim_start s).

(** [u16::from_str]: an optional plus sign and decimal digits, in range. *)
Definition digit (c : ascii) : option Z :=
  let n := Z.of_nat (nat_of_ascii c) in
  if (48 <=? n) && (n <=? 57) then Some (n - 48) else None.
Fixpoint digits (acc : Z) (s : string) : option Z :=
  match s with
  | EmptyString => Some acc
  | String c s =>
      match digit c with
      | Some n => if acc * 10 + n <? 2 ^ 16 then digits (acc * 10 + n) s else None
      | None => None
      end
  end.
Definition parse_u16 (s : string) : option Z :=
  let s := match s with
           | String c s' => if Ascii.eqb c "+"%char then s' else s
           | EmptyString => s
           end in
  match s with EmptyString => None | _ => digits 0 s end.
