(* ===== verification/Enums.v ===== *)
(** * Enumerations of the domain ([crates/domain/src/enums.rs])

    One Module per Rust enum, with the source's constructors, its [Display]
    text, and the PostgreSQL enum of [migrations/0001_initial_schema.sql] it is
    stored as: [cast] is the server's text-to-enum cast ([$n::job_status]),
    which fails on a text that is not a label of the type. *)
From S2P Require Import Prelude.

Module JobStatus.
Inductive t := Pending | Queued | Claimed | Running | Completed | Scheduled | Failed.
#[global] Instance t_eq_dec : EqDecision t.
Proof. solve_decision. Defined.

(** Every value. *)
Definition all : list t := [Claimed; Completed; Failed; Pending; Queued; Running; Scheduled].

Definition to_string (s : t) : string :=
  match s with
  | Pending => "pending" | Queued => "queued" | Claimed => "claimed"
  | Running => "running" | Completed => "completed"
  | Scheduled => "scheduled" | Failed => "failed"
  end.

Definition cast (x : string) : option t :=
  match x with
  | "pending" => Some Pending | "queued" => Some Queued | "claimed" => Some Claimed
  | "running" => Some Running | "completed" => Some Completed
  | "scheduled" => Some Scheduled | "failed" => Some Failed
  | _ => None
  end%string.
End JobStatus.

Module JobType.
Inductive t := Immediate | Delayed | Scheduled | Recurring | Batch.
#[global] Instance t_eq_dec : EqDecision t.
Proof. solve_decision. Defined.

Definition to_string (s : t) : string :=
  match s with
  | Immediate => "immediate" | Delayed => "delayed" | Scheduled => "scheduled"
  | Recurring => "recurring" | Batch => "batch"
  end.

Definition cast (x : string) : option t :=
  match x with
  | "immediate" => Some Immediate | "delayed" => Some Delayed
  | "scheduled" => Some Scheduled | "recurring" => Some Recurring
  | "batch" => Some Batch
  | _ => None
  end%string.
End JobType.

Module JobPriority.
Inductive t := Low | Normal | High | Critical.
#[global] Instance t_eq_dec : EqDecision t.
Proof. solve_decision. Defined.

Definition to_string (s : t) : string :=
  match s with
  | Low => "low" | Normal => "normal" | High => "high" | Critical => "critical"
  end.

Definition cast (x : string) : option t :=
  match x with
  | "low" => Some Low | "normal" => Some Normal
  | "high" => Some High | "critical" => Some Critical
  | _ => None
  end%string.

(** [impl Default for JobPriority] *)
Definition default : t := Normal.

(** [#[derive(PartialOrd, Ord)]]: the order of declaration. *)
Definition discriminant (s : t) : Z :=
  match s with Low => 0 | Normal => 1 | High => 2 | Critical => 3 end.
Definition cmp (a b : t) : comparison := Z.compare (discriminant a) (discriminant b).
End JobPriority.

Module BackoffStrategy.
Inductive t := Fixed | Linear | Exponential.
#[global] Instance t_eq_dec : EqDecision t.
Proof. solve_decision. Defined.
End BackoffStrategy.

Module UserRole.
Inductive t := Admin | Member | Viewer.
#[global] Instance t_eq_dec : EqDecision t.
Proof. solve_decision. Defined.

Definition to_string (s : t) : string :=
  match s with Admin => "admin" | Member => "member" | Viewer => "viewer" end.

Definition cast (x : string) : option t :=
  match x with
  | "admin" => Some Admin | "member" => Some Member | "viewer" => Some Viewer
  | _ => None
  end%string.

(** [impl Default for UserRole] *)
Definition default : t := Member.
End UserRole.

Module OutboxEventType.
Inductive t :=
| JobCompleted | JobFailed | JobRetryScheduled | JobMovedToDlq
| JobClaimed | QueuePaused | QueueResumed.
#[global] Instance t_eq_dec : EqDecision t.
Proof. solve_decision. Defined.

Definition to_string (s : t) : string :=
  match s with
  | JobCompleted => "job_completed" | JobFailed => "job_failed"
  | JobRetryScheduled => "job_retry_scheduled"
  | JobMovedToDlq => "job_moved_to_dlq" | JobClaimed => "job_claimed"
  | QueuePaused => "queue_paused" | QueueResumed => "queue_resumed"
  end.

Definition cast (x : string) : option t :=
  match x with
  | "job_completed" => Some JobCompleted | "job_failed" => Some JobFailed
  | "job_retry_scheduled" => Some JobRetryScheduled
  | "job_moved_to_dlq" => Some JobMovedToDlq
  | "job_claimed" => Some JobClaimed
  | "queue_paused" => Some QueuePaused | "queue_resumed" => Some QueueResumed
  | _ => None
  end%string.
End OutboxEventType.

(** ** Facts shared by the statements that bind an enum as text *)

Lemma job_status_cast_to_string s : JobStatus.cast (JobStatus.to_string s) = Some s.
Proof. by destruct s. Qed.
Lemma job_type_cast_to_string s : JobType.cast (JobType.to_string s) = Some s.
Proof. by destruct s. Qed.
Lemma job_priority_cast_to_string s : JobPriority.cast (JobPriority.to_string s) = Some s.
Proof. by destruct s. Qed.
Lemma user_role_cast_to_string s : UserRole.cast (UserRole.to_string s) = Some s.
Proof. by destruct s. Qed.
Lemma outbox_event_type_cast_to_string s :
  OutboxEventType.cast (OutboxEventType.to_string s) = Some s.
Proof. by destruct s. Qed.
Create Rewrite HintDb casts.
#[export] Hint Rewrite job_status_cast_to_string job_type_cast_to_string
  job_priority_cast_to_string user_role_cast_to_string
  outbox_event_type_cast_to_string : casts.

Lemma job_priority_cmp_total a b :
  JobPriority.cmp a b = Eq <-> a = b.
Proof. destruct a, b; done. Qed.

#[local] Ltac cast_inv H :=
  repeat match type of H with
  | context [match ?x with _ => _ end] => destruct x; simplify_eq/=; try done
  end.

(** Text that the server accepts as a job status is the [Display] text of the
    status it is read as: no other spelling is stored. *)
Lemma job_status_cast_inv x s : JobStatus.cast x = Some s -> x = JobStatus.to_string s.
Proof. unfold JobStatus.cast. intros Hx. cast_inv Hx. Qed.
Lemma outbox_event_type_cast_inv x s :
  OutboxEventType.cast x = Some s -> x = OutboxEventType.to_string s.
Proof. unfold OutboxEventType.cast. intros Hx. cast_inv Hx. Qed.
