(* ===== verification/Entities.v ===== *)
(** * Domain entities ([crates/domain/src/entities], [crates/domain/src/error.rs])

    The structs of the domain crate as Records, one Module each, and the
    methods they carry: the job life cycle ([Job.can_transition_to],
    [Job.transition_to]), the dead-letter test, [Queue.is_accepting_jobs],
    [Worker.is_stale] and [OutboxEvent.new].

    A [Uuid] is a 128-bit number, a timestamp is a number of microseconds since
    the epoch (PostgreSQL's resolution), an [i32] or [i64] field is a [Z]. *)
From S2P Require Import Prelude Enums.

Abbreviation Uuid := N (only parsing).
Abbreviation Timestamp := Z (only parsing).

(** One second, in timestamp units. *)
Definition SECOND : Z := 1000000.

(** [serde_json::Value]; numbers are the integers the program stores, and an
    object lists its fields as the source writes them. *)
Inductive Value :=
| VNull
| VBool (b : bool)
| VNumber (n : Z)
| VString (s : string)
| VArray (l : list Value)
| VObject (fields : list (string * Value)).

Module DomainError.
Inductive t :=
| InvalidStateTransition (from to : string)
| MaxAttemptsExceeded (max : Z)
| QueueConcurrencyLimitReached (limit : Z)
| QueuePaused
| InvalidCronExpression (expr : string)
| RetryPolicyNotFound
| WorkflowCyclicDependency
| Validation (msg : string).
End DomainError.

Module Job.
Record t := Mk {
  id : Uuid;
  queue_id : Uuid;
  project_id : Uuid;
  job_type : JobType.t;
  name : string;
  payload : Value;
  status : JobStatus.t;
  priority : JobPriority.t;
  attempt_count : Z;
  max_attempts : Z;
  scheduled_at : option Timestamp;
  next_attempt_at : option Timestamp;
  cron_expression : option string;
  worker_id : option Uuid;
  claimed_at : option Timestamp;
  idempotency_key : option string;
  correlation_id : Uuid;
  batch_id : option Uuid;
  retry_policy_id : option Uuid;
  created_at : Timestamp;
  updated_at : Timestamp;
  completed_at : option Timestamp;
}.

#[local] Abbreviation upd j st ac na wi ca ua co :=
  (Mk (id j) (queue_id j) (project_id j) (job_type j) (name j) (payload j) st
     (priority j) ac (max_attempts j) (scheduled_at j) na (cron_expression j) wi ca
     (idempotency_key j) (correlation_id j) (batch_id j) (retry_policy_id j)
     (created_at j) ua co) (only parsing).

#[global] Instance set_status : Setter status := fun f j =>
  upd j (f (status j)) (attempt_count j) (next_attempt_at j) (worker_id j)
    (claimed_at j) (updated_at j) (completed_at j).
#[global] Instance set_attempt_count : Setter attempt_count := fun f j =>
  upd j (status j) (f (attempt_count j)) (next_attempt_at j) (worker_id j)
    (claimed_at j) (updated_at j) (completed_at j).
#[global] Instance set_next_attempt_at : Setter next_attempt_at := fun f j =>
  upd j (status j) (attempt_count j) (f (next_attempt_at j)) (worker_id j)
    (claimed_at j) (updated_at j) (completed_at j).
#[global] Instance set_worker_id : Setter worker_id := fun f j =>
  upd j (status j) (attempt_count j) (next_attempt_at j) (f (worker_id j))
    (claimed_at j) (updated_at j) (completed_at j).
#[global] Instance set_claimed_at : Setter claimed_at := fun f j =>
  upd j (status j) (attempt_count j) (next_attempt_at j) (worker_id j)
    (f (claimed_at j)) (updated_at j) (completed_at j).
#[global] Instance set_updated_at : Setter updated_at := fun f j =>
  upd j (status j) (attempt_count j) (next_attempt_at j) (worker_id j)
    (claimed_at j) (f (updated_at j)) (completed_at j).
#[global] Instance set_completed_at : Setter completed_at := fun f j =>
  upd j (status j) (attempt_count j) (next_attempt_at j) (worker_id j)
    (claimed_at j) (updated_at j) (f (completed_at j)).

(** [Job::can_transition_to] *)
Definition can_transition_to (self : t) (next : JobStatus.t) : bool :=
  match status self, next with
  | JobStatus.Pending, JobStatus.Queued
  | JobStatus.Queued, JobStatus.Claimed
  | JobStatus.Claimed, JobStatus.Running
  | JobStatus.Running, JobStatus.Completed
  | JobStatus.Running, JobStatus.Scheduled
  | JobStatus.Running, JobStatus.Failed
  | JobStatus.Scheduled, JobStatus.Queued => true
  | _, _ => false
  end.

(** [Job::transition_to]; [now] is the reading of [Utc::now()], and the
    second component is [*self] after the call. *)
Definition transition_to (self : t) (next : JobStatus.t) (now : Timestamp)
  : result unit DomainError.t * t :=
  if negb (can_transition_to self next) then
    (Err (DomainError.InvalidStateTransition
            (JobStatus.to_string (status self)) (JobStatus.to_string next)), self)
  else (Ok tt, self <| status := next |> <| updated_at := now |>).

(** [Job::should_move_to_dlq] *)
Definition should_move_to_dlq (self : t) : bool := max_attempts self <=? attempt_count self.

(** [Job::is_recurring] *)
Definition is_recurring (self : t) : bool :=
  bool_decide (job_type self = JobType.Recurring) && is_some (cron_expression self).
End Job.

Module JobSummary.
Record t := Mk {
  id : Uuid; name : string; queue_id : Uuid; status : JobStatus.t;
  priority : JobPriority.t; job_type : JobType.t; attempt_count : Z;
  max_attempts : Z; created_at : Timestamp; updated_at : Timestamp;
}.
End JobSummary.

Module JobExecution.
Record t := Mk {
  id : Uuid; job_id : Uuid; worker_id : Uuid; attempt_number : Z;
  started_at : Timestamp; finished_at : option Timestamp; success : bool;
  error_message : option string; duration_ms : option Z; correlation_id : Uuid;
}.
End JobExecution.

Module Queue.
Record t := Mk {
  id : Uuid; project_id : Uuid; name : string; description : option string;
  concurrency_limit : Z; retry_policy_id : option Uuid; is_paused : bool;
  shard : option Z; created_at : Timestamp; updated_at : Timestamp;
}.
#[global] Instance set_is_paused : Setter is_paused := fun f q =>
  Mk (id q) (project_id q) (name q) (description q) (concurrency_limit q)
    (retry_policy_id q) (f (is_paused q)) (shard q) (created_at q) (updated_at q).
#[global] Instance set_updated_at : Setter updated_at := fun f q =>
  Mk (id q) (project_id q) (name q) (description q) (concurrency_limit q)
    (retry_policy_id q) (is_paused q) (shard q) (created_at q) (f (updated_at q)).

(** [Queue::is_accepting_jobs] *)
Definition is_accepting_jobs (self : t) : bool := negb (is_paused self).
End Queue.

Module QueueStats.
Record t := Mk {
  queue_id : Uuid; queue_name : string; queued_count : Z; running_count : Z;
  failed_count : Z; completed_count : Z; dlq_count : Z;
}.
End QueueStats.

Module Worker.
Record t := Mk {
  id : Uuid; name : string; hostname : string; is_active : bool;
  registered_at : Timestamp; deregistered_at : option Timestamp;
}.
#[global] Instance set_is_active : Setter is_active := fun f w =>
  Mk (id w) (name w) (hostname w) (f (is_active w)) (registered_at w) (deregistered_at w).
#[global] Instance set_deregistered_at : Setter deregistered_at := fun f w =>
  Mk (id w) (name w) (hostname w) (is_active w) (registered_at w) (f (deregistered_at w)).

(** [Worker::is_stale]: [num_seconds] truncates towards zero. *)
Definition is_stale (now last_seen : Timestamp) (threshold_seconds : Z) : bool :=
  threshold_seconds <? Z.quot (now - last_seen) SECOND.
End Worker.

Module WorkerHeartbeat.
Record t := Mk { id : Uuid; worker_id : Uuid; last_seen : Timestamp; active_jobs : Z }.
#[global] Instance set_last_seen : Setter last_seen := fun f h =>
  Mk (id h) (worker_id h) (f (last_seen h)) (active_jobs h).
#[global] Instance set_active_jobs : Setter active_jobs := fun f h =>
  Mk (id h) (worker_id h) (last_seen h) (f (active_jobs h)).
End WorkerHeartbeat.

Module Organization.
Record t := Mk { id : Uuid; name : string; slug : string; created_at : Timestamp }.
#[global] Instance set_name : Setter name := fun f o =>
  Mk (id o) (f (name o)) (slug o) (created_at o).
End Organization.

Module Project.
Record t := Mk {
  id : Uuid; organization_id : Uuid; name : string; slug : string;
  description : option string; created_at : Timestamp; updated_at : Timestamp;
}.
End Project.

Module User.
Record t := Mk {
  id : Uuid; email : string; password_hash : string; display_name : option string;
  is_active : bool; created_at : Timestamp; updated_at : Timestamp;
}.
End User.

Module ProjectMember.
Record t := Mk {
  id : Uuid; project_id : Uuid; user_id : Uuid; role : UserRole.t; created_at : Timestamp;
}.
End ProjectMember.

Module RefreshToken.
Record t := Mk {
  id : Uuid; user_id : Uuid; token_hash : string; expires_at : Timestamp;
  revoked : bool; created_at : Timestamp;
}.
#[global] Instance set_revoked : Setter revoked := fun f r =>
  Mk (id r) (user_id r) (token_hash r) (expires_at r) (f (revoked r)) (created_at r).
End RefreshToken.

Module OutboxEvent.
Record t := Mk {
  id : Uuid; event_type : OutboxEventType.t; aggregate_id : Uuid; payload : Value;
  published : bool; published_at : option Timestamp; created_at : Timestamp;
  correlation_id : Uuid;
}.
#[global] Instance set_published : Setter published := fun f e =>
  Mk (id e) (event_type e) (aggregate_id e) (payload e) (f (published e))
    (published_at e) (created_at e) (correlation_id e).
#[global] Instance set_published_at : Setter published_at := fun f e =>
  Mk (id e) (event_type e) (aggregate_id e) (payload e) (published e)
    (f (published_at e)) (created_at e) (correlation_id e).

(** [OutboxEvent::new]; [fresh] is [Uuid::new_v4()], [now] is [Utc::now()]. *)
Definition new (fresh : Uuid) (now : Timestamp) (event_type : OutboxEventType.t)
  (aggregate_id : Uuid) (payload : Value) (correlation_id : Uuid) : t :=
  Mk fresh event_type aggregate_id payload false None now correlation_id.
End OutboxEvent.

Module DeadLetterEntry.
Record t := Mk {
  id : Uuid; job_id : Uuid; queue_id : Uuid; project_id : Uuid; job_name : string;
  payload : Value; last_error : option string; attempt_count : Z;
  ai_summary : option string; moved_to_dlq_at : Timestamp;
  manually_retried_at : option Timestamp; manually_retried_by : option Uuid;
}.
#[global] Instance set_manually_retried_at : Setter manually_retried_at := fun f d =>
  Mk (id d) (job_id d) (queue_id d) (project_id d) (job_name d) (payload d)
    (last_error d) (attempt_count d) (ai_summary d) (moved_to_dlq_at d)
    (f (manually_retried_at d)) (manually_retried_by d).
#[global] Instance set_manually_retried_by : Setter manually_retried_by := fun f d =>
  Mk (id d) (job_id d) (queue_id d) (project_id d) (job_name d) (payload d)
    (last_error d) (attempt_count d) (ai_summary d) (moved_to_dlq_at d)
    (manually_retried_at d) (f (manually_retried_by d)).
End DeadLetterEntry.

(** A row of [job_dependencies]. *)
Module JobDependency.
Record t := Mk { id : Uuid; dependent_job_id : Uuid; dependency_job_id : Uuid }.
End JobDependency.

