(* ===== verification/F64.v ===== *)
(** * Rust's [f64] on the operations the retry policy uses

    binary64 arithmetic of the Standard Library's [SpecFloat] (round to nearest,
    ties to even), the casts [i64 as f64] and [f64 as i64] (the latter truncates
    and saturates), and [f64::powi], which the compiler lowers to the runtime's
    square-and-multiply loop. *)
From Stdlib Require Import SpecFloat.
From S2P Require Import Prelude.

Abbreviation f64 := spec_float (only parsing).
Definition PREC : Z := 53.
Definition EMAX : Z := 1024.

Definition f64_of_i64 (z : Z) : f64 := binary_normalize PREC EMAX z 0 false.
Definition f64_mul (x y : f64) : f64 := SFmul PREC EMAX x y.
Definition f64_div (x y : f64) : f64 := SFdiv PREC EMAX x y.
Definition f64_one : f64 := f64_of_i64 1.
Definition f64_two : f64 := f64_of_i64 2.

(** The integer part of a finite float, towards zero. *)
Definition f64_trunc (s : bool) (m : positive) (e : Z) : Z :=
  let a := if 0 <=? e then Z.pos m * 2 ^ e else Z.pos m / 2 ^ (- e) in
  if s then - a else a.

(** [x as i64] *)
Definition i64_of_f64 (x : f64) : Z :=
  match x with
  | S754_nan | S754_zero _ => 0
  | S754_infinity s => if s then I64_MIN else I64_MAX
  | S754_finite s m e => Z.max I64_MIN (Z.min I64_MAX (f64_trunc s m e))
  end.

(** Square and multiply over the bits of the exponent, least significant
    first: [r] collects the product, [a] is the current square. *)
Fixpoint powi_loop (p : positive) (a r : f64) : f64 :=
  match p with
  | xH => f64_mul r a
  | xO p' => powi_loop p' (f64_mul a a) r
  | xI p' => powi_loop p' (f64_mul a a) (f64_mul r a)
  end.

(** [x.powi(n)] *)
Definition powi (x : f64) (n : Z) : f64 :=
  match n with
  | Z0 => f64_one
  | Zpos p => powi_loop p x f64_one
  | Zneg p => f64_div f64_one (powi_loop p x f64_one)
  end.

(** ** Exactness on products with powers of two *)

Lemma iter_xO_mul m n : Pos.iter xO m n = (m * 2 ^ n)%positive.
Proof.
  revert m. induction n as [|n IH] using Pos.peano_ind; intros m; [simpl; lia|].
  rewrite Pos.iter_succ, IH, Pos.pow_succ_r. lia.
Qed.

Lemma digits2_iter_xO m n : digits2_pos (Pos.iter xO m n) = (digits2_pos m + n)%positive.
Proof.
  revert m. induction n as [|n IH] using Pos.peano_ind; intros m; [simpl; lia|].
  rewrite Pos.iter_succ. simpl. rewrite IH. lia.
Qed.

Lemma digits2_pos_bounds m :
  2 ^ (Z.pos (digits2_pos m) - 1) <= Z.pos m < 2 ^ Z.pos (digits2_pos m).
Proof.
  induction m as [m IH|m IH|]; simpl digits2_pos; [| |simpl; lia];
    rewrite Pos2Z.inj_succ; replace (Z.succ (Z.pos (digits2_pos m)) - 1)
      with (Z.succ (Z.pos (digits2_pos m) - 1)) by lia;
    rewrite !Z.pow_succ_r by lia; lia.
Qed.

Lemma digits2_pos_le m k : 0 < k -> Z.pos m < 2 ^ k -> Z.pos (digits2_pos m) <= k.
Proof.
  intros Hk Hm. destruct (Z.le_gt_cases (Z.pos (digits2_pos m)) k) as [|Hlt]; [done|].
  pose proof (digits2_pos_bounds m) as [Hlo _].
  assert (2 ^ k <= 2 ^ (Z.pos (digits2_pos m) - 1)) by (apply Z.pow_le_mono_r; lia). lia.
Qed.

Lemma shr_1_iter n m :
  SpecFloat.iter_pos shr_1 n (Build_shr_record (Z.pos (Pos.iter xO m n)) false false)
  = Build_shr_record (Z.pos m) false false.
Proof.
  revert m. induction n as [n IH|n IH|]; intros m; simpl; [| |done].
  - by rewrite !IH.
  - by rewrite !IH.
Qed.

(** A mantissa of 53 digits followed by [n] zero bits is rounded to itself. *)
Lemma binary_round_aux_exact s m n e :
  Z.pos (digits2_pos m) = PREC -> -1000 <= e -> e + Z.pos n <= EMAX - PREC ->
  binary_round_aux PREC EMAX s (Z.pos (m * 2 ^ n)) e loc_Exact
  = S754_finite s m (e + Z.pos n).
Proof.
  intros Hd Hlo Hhi. unfold binary_round_aux, shr_fexp.
  rewrite <- iter_xO_mul. simpl Zdigits2. rewrite digits2_iter_xO, Pos2Z.inj_add, Hd.
  unfold fexp, emin, PREC, EMAX in *.
  replace (Z.max (53 + Z.pos n + e - 53) (3 - 1024 - 53) - e) with (Z.pos n) by lia.
  simpl shr. rewrite shr_1_iter. simpl. rewrite Hd.
  replace (Z.max (53 + (e + Z.pos n) - 53) (3 - 1024 - 53) - (e + Z.pos n)) with 0 by lia.
  simpl. destruct (Z.leb_spec (e + Z.pos n) (1024 - 53)); [done|lia].
Qed.

Lemma binary_round_aux_canonical s m e :
  Z.pos (digits2_pos m) = PREC -> -1000 <= e <= EMAX - PREC ->
  binary_round_aux PREC EMAX s (Z.pos m) e loc_Exact = S754_finite s m e.
Proof.
  intros Hd He. unfold binary_round_aux, shr_fexp. simpl Zdigits2. rewrite Hd.
  unfold fexp, emin, PREC, EMAX in *.
  replace (Z.max (53 + e - 53) (3 - 1024 - 53) - e) with 0 by lia.
  simpl. rewrite Hd.
  replace (Z.max (53 + e - 53) (3 - 1024 - 53) - e) with 0 by lia.
  simpl. destruct (Z.leb_spec e (1024 - 53)); [done|lia].
Qed.

(** The canonical mantissa and exponent of an integer below [2^53]. *)
Definition canon (b : positive) : positive * Z :=
  match 53 - Z.pos (digits2_pos b) with
  | Zpos d => (Pos.iter xO b d, - Z.pos d)
  | _ => (b, 0)
  end.

Lemma canon_spec b : Z.pos b < 2 ^ 53 ->
  Z.pos (digits2_pos (canon b).1) = PREC /\ -52 <= (canon b).2 <= 0 /\
  Z.pos (canon b).1 = Z.pos b * 2 ^ (- (canon b).2).
Proof.
  intros Hb. apply digits2_pos_le in Hb; [|lia]. unfold canon, PREC.
  destruct (53 - Z.pos (digits2_pos b)) as [|d|d] eqn:Hd; simpl; [lia| |lia].
  rewrite digits2_iter_xO, iter_xO_mul. split; [lia|split; [lia|]].
  by rewrite Pos2Z.inj_mul, Pos2Z.inj_pow.
Qed.

Lemma f64_of_i64_exact b : Z.pos b < 2 ^ 53 ->
  f64_of_i64 (Z.pos b) = S754_finite false (canon b).1 (canon b).2.
Proof.
  intros Hb. pose proof (canon_spec b Hb) as (Hd & He & _).
  unfold f64_of_i64, binary_normalize, binary_round, shl_align.
  replace (fexp PREC EMAX (Z.pos (digits2_pos b) + 0) - 0) with (- (53 - Z.pos (digits2_pos b)))
    by (unfold fexp, emin, PREC, EMAX; lia).
  replace (fexp PREC EMAX (Z.pos (digits2_pos b) + 0)) with (- (53 - Z.pos (digits2_pos b)))
    by (unfold fexp, emin, PREC, EMAX; lia).
  apply digits2_pos_le in Hb; [|lia]. unfold canon in *.
  destruct (53 - Z.pos (digits2_pos b)) as [|d|d] eqn:Ed; simpl in *; [| |lia].
  - apply binary_round_aux_canonical; [done|unfold EMAX, PREC; lia].
  - apply binary_round_aux_canonical; [done|unfold EMAX, PREC; lia].
Qed.

(** The powers of two that [powi] meets before the exponent range ends. *)
Definition powi_two_check (n : nat) : bool :=
  match powi f64_two (Z.of_nat n) with
  | S754_finite false m e => Pos.eqb m (2 ^ 52) && (e =? Z.of_nat n - 52)
  | _ => false
  end.

Lemma powi_two_checked : forallb powi_two_check (List.seq 0 1000) = true.
Proof. vm_compute. reflexivity. Qed.

Lemma powi_two n : 0 <= n < 1000 ->
  powi f64_two n = S754_finite false (2 ^ 52) (n - 52).
Proof.
  intros Hn. pose proof powi_two_checked as Hall. rewrite forallb_forall in Hall.
  specialize (Hall (Z.to_nat n)). rewrite in_seq in Hall. specialize (Hall ltac:(lia)).
  unfold powi_two_check in Hall. rewrite Z2Nat.id in Hall by lia.
  destruct (powi f64_two n) as [| | |[] m e]; try done.
  apply andb_true_iff in Hall as [->%Pos.eqb_eq ->%Z.eqb_eq]. done.
Qed.

Lemma f64_mul_pow2 b n : Z.pos b < 2 ^ 53 -> 0 <= n < 900 ->
  f64_mul (f64_of_i64 (Z.pos b)) (powi f64_two n)
  = S754_finite false (canon b).1 ((canon b).2 + n).
Proof.
  intros Hb Hn. pose proof (canon_spec b Hb) as (Hd & He & _).
  rewrite f64_of_i64_exact, powi_two by lia. unfold f64_mul. cbn -[binary_round_aux Pos.pow Pos.mul].
  rewrite binary_round_aux_exact; [f_equal; lia|done|lia|unfold EMAX, PREC; lia].
Qed.

(** [(b as f64 * 2.0.powi(n)) as i64] is [b * 2^n], saturated. *)
Lemma i64_of_f64_mul_pow2 b n : 0 <= b < 2 ^ 53 -> 0 <= n < 900 ->
  i64_of_f64 (f64_mul (f64_of_i64 b) (powi f64_two n)) = Z.min I64_MAX (b * 2 ^ n).
Proof.
  intros Hb Hn. destruct b as [|b|b]; [rewrite powi_two by lia; done| |lia].
  destruct Hb as [_ Hb]. pose proof (canon_spec b Hb) as (Hd & He & Hm).
  rewrite f64_mul_pow2 by lia. unfold i64_of_f64.
  enough (f64_trunc false (canon b).1 ((canon b).2 + n) = Z.pos b * 2 ^ n) as ->.
  { unfold I64_MIN, I64_MAX.
    assert (0 <= Z.pos b * 2 ^ n) by (apply Z.mul_nonneg_nonneg; lia). lia. }
  unfold f64_trunc. rewrite Hm. set (e := (canon b).2) in *.
  destruct (Z.leb_spec 0 (e + n)).
  - rewrite <- Z.mul_assoc, <- Z.pow_add_r by lia. do 2 f_equal. lia.
  - replace (- e) with (n + (- (e + n))) by lia.
    rewrite Z.pow_add_r, Z.mul_assoc, Z.div_mul; [done| |lia|lia].
    pose proof (Z.pow_pos_nonneg 2 (- (e + n))). lia.
Qed.
