(* ===== verification/RetryPolicy.v ===== *)
(** * Retry policies ([crates/domain/src/entities/retry_policy.rs])

    The backoff strategies of [RetryPolicy::next_delay_seconds]: the [i64]
    arithmetic wraps as in a release build, the exponential strategy goes
    through [f64] ([F64.v]). *)
From Stdlib Require Import SpecFloat.
From S2P Require Import Prelude Enums Entities F64.

Module RetryPolicy.
Record t := Mk {
  id : Uuid;
  name : string;
  max_attempts : Z;
  backoff_strategy : BackoffStrategy.t;
  base_delay_seconds : Z;
  max_delay_seconds : option Z;
  multiplier : option f64;
  created_at : Timestamp;
}.

(** [RetryPolicy::next_delay_seconds] *)
Definition next_delay_seconds (self : t) (attempt : Z) : Z :=
  let base := base_delay_seconds self in
  match backoff_strategy self with
  | BackoffStrategy.Fixed => base
  | BackoffStrategy.Linear => i64 (base * attempt)
  | BackoffStrategy.Exponential =>
      let mult := unwrap_or (multiplier self) f64_two in
      let raw := i64_of_f64 (f64_mul (f64_of_i64 base) (powi mult (i32 (attempt - 1)))) in
      match max_delay_seconds self with
      | Some max => Z.min raw max
      | None => raw
      end
  end.

(** [tests::make_policy] *)
Definition make_policy (strategy : BackoffStrategy.t) : t :=
  Mk 0%N "test" 5 strategy 10 (Some 300) (Some f64_two) 0.

(** The unit tests, one list of assertions each. *)
Definition fixed_strategy_always_same_delay : list bool :=
  let p := make_policy BackoffStrategy.Fixed in
  [next_delay_seconds p 1 =? 10; next_delay_seconds p 3 =? 10; next_delay_seconds p 5 =? 10].
Definition linear_strategy_grows_linearly : list bool :=
  let p := make_policy BackoffStrategy.Linear in
  [next_delay_seconds p 1 =? 10; next_delay_seconds p 2 =? 20; next_delay_seconds p 4 =? 40].
Definition exponential_strategy_doubles_each_attempt : list bool :=
  let p := make_policy BackoffStrategy.Exponential in
  [next_delay_seconds p 1 =? 10; next_delay_seconds p 2 =? 20; next_delay_seconds p 3 =? 40].
Definition exponential_caps_at_max_delay : list bool :=
  let p := make_policy BackoffStrategy.Exponential in [next_delay_seconds p 10 =? 300].

(** The policy the migration seeds. *)
Definition seed : t :=
  Mk 1%N "Default Exponential" 5 BackoffStrategy.Exponential 10 (Some 300) (Some f64_two) 0.

(** The doubling backoff a policy describes, capped when it has a cap. *)
Definition capped_doubling (base : Z) (cap : option Z) (attempt : Z) : Z :=
  let raw := Z.min I64_MAX (base * 2 ^ (attempt - 1)) in
  match cap with Some max => Z.min raw max | None => raw end.

(** A policy whose exponential strategy doubles: no multiplier, or [2.0]. *)
Definition doubling (self : t) : Prop :=
  backoff_strategy self = BackoffStrategy.Exponential /\
  unwrap_or (multiplier self) f64_two = f64_two.

(** A configuration an operator would write: a non-negative base below 2^53
    seconds and a non-negative cap. *)
Definition sensible (self : t) : Prop :=
  0 <= base_delay_seconds self < 2 ^ 53 /\
  match max_delay_seconds self with Some max => 0 <= max | None => True end.
End RetryPolicy.

(** ** The strategies *)

Lemma exponential_capped_doubling p attempt :
  RetryPolicy.doubling p -> 0 <= RetryPolicy.base_delay_seconds p < 2 ^ 53 ->
  1 <= attempt <= 900 ->
  RetryPolicy.next_delay_seconds p attempt =
  RetryPolicy.capped_doubling (RetryPolicy.base_delay_seconds p)
    (RetryPolicy.max_delay_seconds p) attempt.
Proof.
  intros [Hs Hm] Hb Ha. unfold RetryPolicy.next_delay_seconds, RetryPolicy.capped_doubling.
  rewrite Hs, Hm, i32_id by (unfold in_width; lia).
  by rewrite i64_of_f64_mul_pow2 by lia.
Qed.

Lemma capped_doubling_mono base cap a b :
  0 <= base -> 1 <= a <= b ->
  RetryPolicy.capped_doubling base cap a <= RetryPolicy.capped_doubling base cap b.
Proof.
  intros Hb Hab. unfold RetryPolicy.capped_doubling.
  assert (base * 2 ^ (a - 1) <= base * 2 ^ (b - 1)).
  { apply Z.mul_le_mono_nonneg_l; [done|]. apply Z.pow_le_mono_r; lia. }
  destruct cap; lia.
Qed.

(** The policy of the crate's unit tests, on the values they assert. *)
Lemma unit_tests :
  forallb id RetryPolicy.fixed_strategy_always_same_delay &&
  forallb id RetryPolicy.linear_strategy_grows_linearly &&
  forallb id RetryPolicy.exponential_strategy_doubles_each_attempt &&
  forallb id RetryPolicy.exponential_caps_at_max_delay = true.
Proof. vm_compute. reflexivity. Qed.

(** C23: an exponential policy whose multiplier is 2 (explicitly or by default)
    waits [base * 2^(attempt-1)] seconds before retry [attempt], saturated at
    the [i64] range and cut at the policy's cap, exactly, in spite of the
    detour through [f64]: for every base below 2^53 and the first 900 attempts. *)
Theorem exponential_backoff_exact (p : RetryPolicy.t) (attempt : Z) :
  RetryPolicy.doubling p -> 0 <= RetryPolicy.base_delay_seconds p < 2 ^ 53 ->
  1 <= attempt <= 900 ->
  RetryPolicy.next_delay_seconds p attempt =
  let raw := Z.min I64_MAX (RetryPolicy.base_delay_seconds p * 2 ^ (attempt - 1)) in
  match RetryPolicy.max_delay_seconds p with Some max => Z.min raw max | None => raw end.
Proof. apply exponential_capped_doubling. Qed.

Lemma exponential_backoff_exact_witness :
  RetryPolicy.next_delay_seconds RetryPolicy.seed 4 = 80.
Proof.
  rewrite (exponential_backoff_exact RetryPolicy.seed 4).
  - reflexivity.
  - split; reflexivity.
  - split; [discriminate|reflexivity].
  - split; discriminate.
Defined.

(** Under every strategy the delay never shrinks from one attempt to the
    next, stays non-negative, and an exponential policy never waits longer than
    its cap (sensible configuration; a linear product that fits in [i64]). *)
Theorem backoff_monotone (p : RetryPolicy.t) (a b : Z) :
  RetryPolicy.sensible p -> 1 <= a <= b -> b <= 900 ->
  (RetryPolicy.backoff_strategy p = BackoffStrategy.Linear ->
   in_width 64 (RetryPolicy.base_delay_seconds p * b)) ->
  (RetryPolicy.backoff_strategy p = BackoffStrategy.Exponential -> RetryPolicy.doubling p) ->
  0 <= RetryPolicy.next_delay_seconds p a <= RetryPolicy.next_delay_seconds p b /\
  (RetryPolicy.backoff_strategy p = BackoffStrategy.Exponential ->
   forall max, RetryPolicy.max_delay_seconds p = Some max ->
   RetryPolicy.next_delay_seconds p b <= max).
Proof.
  intros [Hbase Hcap] Hab Hb Hlin Hexp.
  destruct (RetryPolicy.backoff_strategy p) eqn:Hs.
  - unfold RetryPolicy.next_delay_seconds. rewrite Hs. split; [lia|done].
  - specialize (Hlin eq_refl). unfold in_width in Hlin.
    assert (0 <= RetryPolicy.base_delay_seconds p * a <= RetryPolicy.base_delay_seconds p * b)
      by nia.
    unfold RetryPolicy.next_delay_seconds. rewrite Hs, !i64_id by (unfold in_width; lia).
    split; [lia|done].
  - specialize (Hexp eq_refl). rewrite !exponential_capped_doubling by (done || lia).
    pose proof (capped_doubling_mono (RetryPolicy.base_delay_seconds p)
      (RetryPolicy.max_delay_seconds p) a b ltac:(lia) Hab).
    assert (0 <= RetryPolicy.base_delay_seconds p * 2 ^ (a - 1)) by
      (apply Z.mul_nonneg_nonneg; [lia|apply Z.pow_nonneg; lia]).
    split; [split; [|done]|intros _ max Hmax];
      unfold RetryPolicy.capped_doubling, I64_MAX in *.
    + destruct (RetryPolicy.max_delay_seconds p); lia.
    + rewrite Hmax. lia.
Qed.

Lemma backoff_monotone_witness :
  0 <= RetryPolicy.next_delay_seconds RetryPolicy.seed 2
    <= RetryPolicy.next_delay_seconds RetryPolicy.seed 9.
Proof.
  apply (backoff_monotone RetryPolicy.seed 2 9).
  - split; [split; [discriminate|reflexivity]|discriminate].
  - split; discriminate.
  - discriminate.
  - discriminate.
  - intros _. split; reflexivity.
Defined.
