(* ===== verification/Db.v ===== *)
(** * The store and the programs that act on it

    PostgreSQL tables as finite maps keyed by primary key, SQL statements as
    executable functions that either change the store or are refused by a
    constraint, and the code's [async] functions as resumable programs ([prog]):
    a program is a sequence of atomic steps (one SQL statement, one transaction,
    one Redis command, one reading of a clock) with pure code in between.

    Two semantics share the programs: [exec] runs one program alone and returns
    its result, [pool_step] interleaves the steps of many tasks. What the code
    cannot control is an input of each step, the environment [Env]: the clock,
    generated UUIDs, rows locked by other transactions, and connection faults,
    before the server saw the statement ([LostBefore]) or after it applied it
    ([LostAfter]). *)
From S2P Require Import Prelude Enums Entities RetryPolicy.

(** ** Errors *)

(** Why the server refuses a statement. *)
Inductive violation :=
| UniqueViolation (constraint : string)
| ForeignKeyViolation (column : string)
| InvalidText (enum : string)
| NumericOutOfRange
| InvalidRowCount
| InFailedSqlTransaction.

(** [sqlx::Error], as far as the program can tell errors apart. *)
Inductive sqlx_error :=
| RowNotFound
| Database (v : violation)
| Io.

(** ** Tables ([migrations/0001_initial_schema.sql]) *)

Record Db := MkDb {
  organizations : gmap N Organization.t;
  users : gmap N User.t;
  refresh_tokens : gmap N RefreshToken.t;
  projects : gmap N Project.t;
  project_members : gmap N ProjectMember.t;
  retry_policies : gmap N RetryPolicy.t;
  queues : gmap N Queue.t;
  workers : gmap N Worker.t;
  worker_heartbeats : gmap N WorkerHeartbeat.t;
  jobs : gmap N Job.t;
  job_executions : gmap N JobExecution.t;
  dead_letter_queue : gmap N DeadLetterEntry.t;
  outbox_events : gmap N OutboxEvent.t;
  job_dependencies : gmap N JobDependency.t;
}.

Section setters.
#[local] Abbreviation mk d a b c e f g h i j k l m n o :=
  (MkDb (a (organizations d)) (b (users d)) (c (refresh_tokens d)) (e (projects d))
     (f (project_members d)) (g (retry_policies d)) (h (queues d)) (i (workers d))
     (j (worker_heartbeats d)) (k (jobs d)) (l (job_executions d))
     (m (dead_letter_queue d)) (n (outbox_events d)) (o (job_dependencies d)))
  (only parsing).
#[local] Abbreviation I := (fun x => x) (only parsing).

#[global] Instance set_organizations : Setter organizations :=
  fun f d => mk d f I I I I I I I I I I I I I.
#[global] Instance set_users : Setter users :=
  fun f d => mk d I f I I I I I I I I I I I I.
#[global] Instance set_refresh_tokens : Setter refresh_tokens :=
  fun f d => mk d I I f I I I I I I I I I I I.
#[global] Instance set_projects : Setter projects :=
  fun f d => mk d I I I f I I I I I I I I I I.
#[global] Instance set_project_members : Setter project_members :=
  fun f d => mk d I I I I f I I I I I I I I I.
#[global] Instance set_queues : Setter queues :=
  fun f d => mk d I I I I I I f I I I I I I I.
#[global] Instance set_workers : Setter workers :=
  fun f d => mk d I I I I I I I f I I I I I I.
#[global] Instance set_worker_heartbeats : Setter worker_heartbeats :=
  fun f d => mk d I I I I I I I I f I I I I I.
#[global] Instance set_jobs : Setter jobs :=
  fun f d => mk d I I I I I I I I I f I I I I.
#[global] Instance set_job_executions : Setter job_executions :=
  fun f d => mk d I I I I I I I I I I f I I I.
#[global] Instance set_dead_letter_queue : Setter dead_letter_queue :=
  fun f d => mk d I I I I I I I I I I I f I I.
#[global] Instance set_outbox_events : Setter outbox_events :=
  fun f d => mk d I I I I I I I I I I I I f I.
#[global] Instance set_job_dependencies : Setter job_dependencies :=
  fun f d => mk d I I I I I I I I I I I I I f.
End setters.

Definition empty_db : Db := MkDb ∅ ∅ ∅ ∅ ∅ ∅ ∅ ∅ ∅ ∅ ∅ ∅ ∅ ∅.

(** ** Constraints checked by an insertion *)

Definition has {V : Type} (t : gmap N V) (k : N) : bool := is_some (t !! k).
Definition has_opt {V : Type} (t : gmap N V) (k : option N) : bool :=
  match k with Some k => has t k | None => true end.
Definition exists_row {V : Type} (p : V -> bool) (t : gmap N V) : bool :=
  negb (bool_decide (select p t = [])).

(** The constraints of a table, in the order they are listed: the first one
    that fails is the error. *)
Fixpoint first_violation (checks : list (bool * violation)) : option violation :=
  match checks with
  | [] => None
  | (holds, v) :: rest => if (holds : bool) then first_violation rest else Some v
  end.

Definition jobs_constraints (d : Db) (j : Job.t) : list (bool * violation) :=
  [ (negb (has (jobs d) (Job.id j)), UniqueViolation "jobs_pkey");
    (match Job.idempotency_key j with
     | None => true
     | Some key => negb (exists_row (fun j' =>
         bool_decide (Job.queue_id j' = Job.queue_id j)
         && bool_decide (Job.idempotency_key j' = Some key)) (jobs d))
     end, UniqueViolation "jobs_queue_id_idempotency_key_key");
    (has (queues d) (Job.queue_id j), ForeignKeyViolation "queue_id");
    (has (projects d) (Job.project_id j), ForeignKeyViolation "project_id");
    (has_opt (workers d) (Job.worker_id j), ForeignKeyViolation "worker_id");
    (has_opt (retry_policies d) (Job.retry_policy_id j), ForeignKeyViolation "retry_policy_id") ].

Definition job_executions_constraints (d : Db) (x : JobExecution.t) : list (bool * violation) :=
  [ (negb (has (job_executions d) (JobExecution.id x)), UniqueViolation "job_executions_pkey");
    (has (jobs d) (JobExecution.job_id x), ForeignKeyViolation "job_id") ].

Definition dead_letter_queue_constraints (d : Db) (x : DeadLetterEntry.t)
  : list (bool * violation) :=
  [ (negb (has (dead_letter_queue d) (DeadLetterEntry.id x)),
      UniqueViolation "dead_letter_queue_pkey");
    (has (jobs d) (DeadLetterEntry.job_id x), ForeignKeyViolation "job_id");
    (has_opt (users d) (DeadLetterEntry.manually_retried_by x),
      ForeignKeyViolation "manually_retried_by") ].

Definition outbox_events_constraints (d : Db) (x : OutboxEvent.t) : list (bool * violation) :=
  [ (negb (has (outbox_events d) (OutboxEvent.id x)), UniqueViolation "outbox_events_pkey") ].

Definition queues_constraints (d : Db) (q : Queue.t) : list (bool * violation) :=
  [ (negb (has (queues d) (Queue.id q)), UniqueViolation "queues_pkey");
    (negb (exists_row (fun q' => bool_decide (Queue.project_id q' = Queue.project_id q)
         && bool_decide (Queue.name q' = Queue.name q)) (queues d)),
      UniqueViolation "queues_project_id_name_key");
    (has (projects d) (Queue.project_id q), ForeignKeyViolation "project_id");
    (has_opt (retry_policies d) (Queue.retry_policy_id q),
      ForeignKeyViolation "retry_policy_id") ].

Definition projects_constraints (d : Db) (p : Project.t) : list (bool * violation) :=
  [ (negb (has (projects d) (Project.id p)), UniqueViolation "projects_pkey");
    (negb (exists_row (fun p' =>
         bool_decide (Project.organization_id p' = Project.organization_id p)
         && bool_decide (Project.slug p' = Project.slug p)) (projects d)),
      UniqueViolation "projects_organization_id_slug_key");
    (has (organizations d) (Project.organization_id p), ForeignKeyViolation "organization_id") ].

Definition project_members_constraints (d : Db) (m : ProjectMember.t)
  : list (bool * violation) :=
  [ (negb (has (project_members d) (ProjectMember.id m)), UniqueViolation "project_members_pkey");
    (negb (exists_row (fun m' =>
         bool_decide (ProjectMember.project_id m' = ProjectMember.project_id m)
         && bool_decide (ProjectMember.user_id m' = ProjectMember.user_id m))
         (project_members d)),
      UniqueViolation "project_members_project_id_user_id_key");
    (has (projects d) (ProjectMember.project_id m), ForeignKeyViolation "project_id");
    (has (users d) (ProjectMember.user_id m), ForeignKeyViolation "user_id") ].

Definition users_constraints (d : Db) (u : User.t) : list (bool * violation) :=
  [ (negb (has (users d) (User.id u)), UniqueViolation "users_pkey");
    (negb (exists_row (fun u' => bool_decide (User.email u' = User.email u)) (users d)),
      UniqueViolation "users_email_key") ].

Definition refresh_tokens_constraints (d : Db) (r : RefreshToken.t)
  : list (bool * violation) :=
  [ (negb (has (refresh_tokens d) (RefreshToken.id r)), UniqueViolation "refresh_tokens_pkey");
    (negb (exists_row (fun r' =>
         bool_decide (RefreshToken.token_hash r' = RefreshToken.token_hash r))
         (refresh_tokens d)),
      UniqueViolation "refresh_tokens_token_hash_key");
    (has (users d) (RefreshToken.user_id r), ForeignKeyViolation "user_id") ].

Definition job_dependencies_constraints (d : Db) (x : JobDependency.t)
  : list (bool * violation) :=
  [ (negb (has (job_dependencies d) (JobDependency.id x)),
      UniqueViolation "job_dependencies_pkey");
    (negb (exists_row (fun x' =>
         bool_decide (JobDependency.dependent_job_id x' = JobDependency.dependent_job_id x)
         && bool_decide (JobDependency.dependency_job_id x' = JobDependency.dependency_job_id x))
         (job_dependencies d)),
      UniqueViolation "job_dependencies_dependent_job_id_dependency_job_id_key");
    (has (jobs d) (JobDependency.dependent_job_id x), ForeignKeyViolation "dependent_job_id");
    (has (jobs d) (JobDependency.dependency_job_id x), ForeignKeyViolation "dependency_job_id") ].

(** ** Statements *)

(** What a statement reads of its surroundings: [NOW()], generated UUIDs and
    the job rows another transaction holds a lock on. *)
Record Ctx := MkCtx { now : Timestamp; fresh : nat -> Uuid; locked : Uuid -> bool }.

(** A statement returns its rows and the changed store, or is refused. *)
Definition stmt (A : Type) : Type := Ctx -> Db -> result (A * Db) violation.

Definition query {A : Type} (f : Db -> A) : stmt A := fun _ d => Ok (f d, d).

Definition insert_row {V : Type} (table : Db -> gmap N V) `{!Setter table} (key : V -> N)
  (constraints : Db -> V -> list (bool * violation)) (row : V) : stmt V := fun _ d =>
  match first_violation (constraints d row) with
  | Some v => Err v
  | None => Ok (row, d <| table ::= <[key row := row]> |>)
  end.

(** [UPDATE table SET f WHERE p], answering the number of rows. *)
Definition update_rows {V : Type} (table : Db -> gmap N V) `{!Setter table}
  (p : V -> bool) (f : V -> V) : stmt Z := fun _ d =>
  Ok (rows_affected p (table d), d <| table ::= update_where p f |>).

(** [UPDATE table SET f WHERE id = key], answering the number of rows. *)
Definition update_row {V : Type} (table : Db -> gmap N V) `{!Setter table}
  (key : N) (f : V -> V) : stmt Z := fun _ d =>
  match table d !! key with
  | Some v => Ok (1, d <| table ::= <[key := f v]> |>)
  | None => Ok (0, d)
  end.

(** The server's cast of a bound text to an enum: [$n::type]. *)
Definition cast_as {A : Type} (enum : string) (o : option A) : result A violation :=
  ok_or o (InvalidText enum).

(** A statement whose [SET] list mentions [NOW()]. *)
Definition with_ctx {A : Type} (f : Ctx -> stmt A) : stmt A := fun c => f c c.

(** [SELECT ... ORDER BY ... LIMIT n OFFSET m]: negative bounds are refused. *)
Definition page {A : Type} (limit offset : Z) (f : Db -> list A) : stmt (list A) := fun _ d =>
  if (limit <? 0) || (offset <? 0) then Err InvalidRowCount
  else Ok (limit_offset limit offset (f d), d).

(** ** Steps *)

(** The fate of a request: answered; lost or cancelled before it took effect;
    applied, with the answer lost. Inside a transaction the last two both fail
    the statement. *)
Inductive Fault := NoFault | LostBefore | LostAfter.

Record Env := MkEnv {
  e_now : Timestamp;                (** the server's clock when the step starts *)
  e_clock : nat -> Timestamp;       (** readings of [Utc::now()] inside the step *)
  e_uuid : nat -> nat -> Uuid;      (** UUIDs generated by the n-th action of the step *)
  e_locked : Uuid -> bool;          (** job rows locked by other transactions *)
  e_fault : nat -> Fault;           (** fate of the n-th request of the step *)
  e_timer : bool;                   (** in a [select!], the timer's branch is taken *)
}.

Definition ctx_of (e : Env) (n : nat) : Ctx := MkCtx (e_now e) (e_uuid e n) (e_locked e).

(** A frame sent on a WebSocket. *)
Inductive Frame := TextFrame (payload : string) | PingFrame.

(** Everything outside the tasks: the database, the messages published on
    Redis channels (oldest first), the Redis keys of the rate limiter (value and
    expiry), the in-flight counter of each worker process, and the frames each
    WebSocket client has been sent. *)
Record World := MkWorld {
  w_db : Db;
  w_bus : list (string * string);
  w_kv : gmap string (Z * Timestamp);
  w_active : gmap N Z;
  w_clients : gmap N (list Frame);
}.
#[global] Instance set_w_db : Setter w_db := fun f w =>
  MkWorld (f (w_db w)) (w_bus w) (w_kv w) (w_active w) (w_clients w).
#[global] Instance set_w_bus : Setter w_bus := fun f w =>
  MkWorld (w_db w) (f (w_bus w)) (w_kv w) (w_active w) (w_clients w).
#[global] Instance set_w_kv : Setter w_kv := fun f w =>
  MkWorld (w_db w) (w_bus w) (f (w_kv w)) (w_active w) (w_clients w).
#[global] Instance set_w_active : Setter w_active := fun f w =>
  MkWorld (w_db w) (w_bus w) (w_kv w) (f (w_active w)) (w_clients w).
#[global] Instance set_w_clients : Setter w_clients := fun f w =>
  MkWorld (w_db w) (w_bus w) (w_kv w) (w_active w) (f (w_clients w)).

(** ** Programs *)

Inductive prog (A : Type) : Type :=
| Ret (a : A)
| Panic
| Step {B : Type} (f : Env -> World -> B * World) (k : B -> prog A)
| Spawn (task : prog unit) (k : prog A).
Arguments Ret {A} a.
Arguments Panic {A}.
Arguments Step {A B} f k.
Arguments Spawn {A} task k.

Fixpoint bind {A B : Type} (p : prog A) (k : A -> prog B) : prog B :=
  match p with
  | Ret a => k a
  | Panic => Panic
  | Step f k' => Step f (fun b => bind (k' b) k)
  | Spawn t p' => Spawn t (bind p' k)
  end.

Notation "x <- p ;; k" := (bind p (fun x => k))
  (at level 100, p at next level, right associativity) : sched_scope.
Notation "p ;;; k" := (bind p (fun _ => k)) (at level 100, right associativity) : sched_scope.

(** [x <-? p ;; k] is [let x = p.await?; k]: an [Err] ends the function, converted
    by [from] ([From::from]). *)
Notation "x <-? p 'via' from ;; k" :=
  (bind p (fun r => match r with Ok x => k | Err e => Ret (Err (from e)) end))
  (at level 100, p at next level, from at next level, right associativity) : sched_scope.

(** [o.ok_or(e)?] and [if guard { return Err(e) }] *)
Notation "x <-! o 'else' e ;; k" := (match o with Some x => k | None => Ret (Err e) end)
  (at level 100, o at next level, e at next level, right associativity) : sched_scope.

(** One statement on its own connection (autocommit). *)
Definition sql {A : Type} (s : stmt A) : prog (result A sqlx_error) :=
  Step (fun e w =>
    match e_fault e 0 with
    | LostBefore => (Err Io, w)
    | fault =>
        match s (ctx_of e 0) (w_db w) with
        | Err v => (Err (match fault with LostAfter => Io | _ => Database v end), w)
        | Ok (a, d) =>
            (match fault with LostAfter => Err Io | _ => Ok a end, w <| w_db := d |>)
        end
    end) Ret.

(** [fetch_one]: no row is an error. *)
Definition fetch_one {A : Type} (s : stmt (option A)) : prog (result A sqlx_error) :=
  r <- sql s ;;
  Ret match r with
      | Ok (Some a) => Ok a
      | Ok None => Err RowNotFound
      | Err e => Err e
      end.

(** [Utc::now()], [Uuid::new_v4()] *)
Definition utc_now : prog Timestamp := Step (fun e w => (e_clock e 0, w)) Ret.
Definition new_v4 : prog Uuid := Step (fun e w => (e_uuid e 0%nat 0%nat, w)) Ret.

(** A step that cannot fail: an access to shared memory. *)
Definition atomically (f : World -> World) : prog unit := Step (fun _ w => (tt, f w)) Ret.

(** The first [n] rounds of a [loop { ticker.tick().await; body }]. *)
Fixpoint ticks (n : nat) (body : prog unit) : prog unit :=
  match n with
  | O => Ret tt
  | S n => body ;;; ticks n body
  end.

(** [for x in l { body }] *)
Fixpoint for_each {A : Type} (l : list A) (body : A -> prog unit) : prog unit :=
  match l with
  | [] => Ret tt
  | x :: l => body x ;;; for_each l body
  end.

(** ** Transactions

    A transaction is one step: its statements run on a private copy of the
    store, the first failure aborts it, and only [COMMIT] of a transaction that
    is not aborted publishes the copy. [COMMIT] of an aborted transaction is a
    rollback that the server does not report as an error. *)
Record Tx := MkTx { tx_base : Db; tx_db : Db; tx_aborted : bool; tx_n : nat }.

(** [None] is a panic of the task. *)
Definition txm (A : Type) : Type := Env -> Tx -> option A * Tx.

Definition tx_ret {A : Type} (a : A) : txm A := fun _ t => (Some a, t).
Definition tx_panic {A : Type} : txm A := fun _ t => (None, t).
Definition tx_bind {A B : Type} (m : txm A) (k : A -> txm B) : txm B := fun e t =>
  match m e t with
  | (Some a, t') => k a e t'
  | (None, t') => (None, t')
  end.

Notation "x <-tx m ;; k" := (tx_bind m (fun x => k))
  (at level 100, m at next level, right associativity) : sched_scope.

Definition tx_abort (t : Tx) : Tx := MkTx (tx_base t) (tx_db t) true (S (tx_n t)).

(** A statement inside the transaction. *)
Definition tx_sql {A : Type} (s : stmt A) : txm (result A sqlx_error) := fun e t =>
  if tx_aborted t then (Some (Err (Database InFailedSqlTransaction)), tx_abort t)
  else match e_fault e (tx_n t) with
  | NoFault =>
      match s (ctx_of e (tx_n t)) (tx_db t) with
      | Ok (a, d) => (Some (Ok a), MkTx (tx_base t) d false (S (tx_n t)))
      | Err v => (Some (Err (Database v)), tx_abort t)
      end
  | _ => (Some (Err Io), tx_abort t)
  end.

(** A query sent through the pool while the transaction is open: it runs on
    another connection and sees the committed store. *)
Definition tx_pool_query {A : Type} (f : Db -> A) : txm (result A sqlx_error) := fun e t =>
  (Some (match e_fault e (tx_n t) with NoFault => Ok (f (tx_base t)) | _ => Err Io end),
   MkTx (tx_base t) (tx_db t) (tx_aborted t) (S (tx_n t))).

Definition tx_utc_now : txm Timestamp := fun e t =>
  (Some (e_clock e (tx_n t)), MkTx (tx_base t) (tx_db t) (tx_aborted t) (S (tx_n t))).
Definition tx_new_v4 : txm Uuid := fun e t =>
  (Some (e_uuid e (tx_n t) 0%nat), MkTx (tx_base t) (tx_db t) (tx_aborted t) (S (tx_n t))).

(** How the body of a transaction ends: dropped without [commit()], or
    committed, with what the function makes of the answer to [COMMIT]. *)
Inductive tx_exit (A : Type) :=
| Rollback (a : A)
| Commit (k : result unit sqlx_error -> A).
Arguments Rollback {A} a.
Arguments Commit {A} k.

Definition finish_tx {A : Type} (e : Env) (base : Db) (x : option (tx_exit A)) (t : Tx)
  : option A * Db :=
  match x with
  | None => (None, base)
  | Some (Rollback a) => (Some a, base)
  | Some (Commit k) =>
      match tx_aborted t, e_fault e (tx_n t) with
      | true, NoFault => (Some (k (Ok tt)), base)
      | false, NoFault => (Some (k (Ok tt)), tx_db t)
      | false, LostAfter => (Some (k (Err Io)), tx_db t)
      | _, _ => (Some (k (Err Io)), base)
      end
  end.

(** [pool.begin()], the body, and its end. [Err] is a failed [begin]. *)
Definition transaction {A : Type} (body : txm (tx_exit A)) : prog (result A sqlx_error) :=
  Step (fun e w =>
    match e_fault e 0 with
    | NoFault =>
        let '(x, t) := body e (MkTx (w_db w) (w_db w) false 1) in
        let '(r, d) := finish_tx e (w_db w) x t in
        (match r with Some a => Some (Ok a) | None => None end, w <| w_db := d |>)
    | _ => (Some (Err Io), w)
    end)
    (fun r => match r with Some a => Ret a | None => Panic end).

(** ** Running one program alone *)

Inductive outcome (A : Type) := Returned (a : A) | Panicked.
Arguments Returned {A} a.
Arguments Panicked {A}.

(** [exec p env n w]: the result, the world it leaves, the number of steps used
    and the tasks it spawned. [env i] is the environment of the i-th step. *)
Fixpoint exec {A : Type} (p : prog A) (env : nat -> Env) (n : nat) (w : World)
  : outcome A * World * nat * list (prog unit) :=
  match p with
  | Ret a => (Returned a, w, n, [])
  | Panic => (Panicked, w, n, [])
  | Step f k => let '(b, w') := f (env n) w in exec (k b) env (S n) w'
  | Spawn t k => let '(r, w', n', ts) := exec k env n w in (r, w', n', t :: ts)
  end.

Definition run {A : Type} (p : prog A) (env : nat -> Env) (w : World) : outcome A * World :=
  let '(r, w', _, _) := exec p env 0 w in (r, w').

(** ** Interleaving many tasks *)

(** One step of a task, in environment [e]; [None] when the task has ended. *)
Definition task_step (e : Env) (t : prog unit) (w : World)
  : option (prog unit * list (prog unit) * World) :=
  match t with
  | Ret _ | Panic => None
  | Step f k => let '(b, w') := f e w in Some (k b, [], w')
  | Spawn s k => Some (k, [s], w)
  end.

Definition pool : Type := list (prog unit).

(** The scheduler picks a task; a spawned task joins the end of the pool. *)
Inductive pool_step : pool * World -> pool * World -> Prop :=
| PoolStep i e t t' spawned ts w w' :
    ts !! i = Some t -> task_step e t w = Some (t', spawned, w') ->
    pool_step (ts, w) (<[i := t']> ts ++ spawned, w').

(** A schedule, as an executable: the task and the environment of each step. *)
Fixpoint run_pool (schedule : list (nat * Env)) (c : pool * World) : pool * World :=
  match schedule with
  | [] => c
  | (i, e) :: rest =>
      let '(ts, w) := c in
      match ts !! i with
      | Some t =>
          match task_step e t w with
          | Some (t', spawned, w') => run_pool rest (<[i := t']> ts ++ spawned, w')
          | None => run_pool rest c
          end
      | None => run_pool rest c
      end
  end.
