(* ===== verification/Fixture.v ===== *)
(** * A small concrete store

    One organization, one project with an admin, a member and a viewer, one
    queue, one live worker and a few jobs: the input on which the library's
    statements are instantiated and evaluated. *)
From S2P Require Import Prelude Enums Entities RetryPolicy Db.

Module Fixture.
Definition org : Uuid := 1%N.
Definition project : Uuid := 2%N.
Definition admin : Uuid := 3%N.
Definition member : Uuid := 4%N.
Definition viewer : Uuid := 5%N.
Definition stranger : Uuid := 6%N.
Definition queue : Uuid := 7%N.
Definition worker : Uuid := 8%N.
Definition dead_worker : Uuid := 9%N.

(** The clock of the fixture: one hour after the epoch. *)
Definition noon : Timestamp := 3600 * SECOND.

Definition job (id : Uuid) (status : JobStatus.t) (priority : JobPriority.t)
  (created_at : Timestamp) : Job.t :=
  Job.Mk id queue project JobType.Immediate "job" (VObject []) status priority 0 3
    None None None None None None (100 + id)%N None None created_at created_at None.

Definition held (id w : Uuid) (status : JobStatus.t) : Job.t :=
  (job id status JobPriority.Normal 0) <| Job.worker_id := Some w |>
    <| Job.claimed_at := Some 0 |>.

Definition user (id : Uuid) (email : string) : User.t :=
  User.Mk id email ("hash of " +:+ email) None true 0 0.
Definition membership (id user_id : Uuid) (role : UserRole.t) : ProjectMember.t :=
  ProjectMember.Mk id project user_id role 0.
Definition queue_row (limit : Z) (paused : bool) : Queue.t :=
  Queue.Mk queue project "default" None limit (Some 1%N) paused None 0 0.

Definition with_jobs (js : list Job.t) : Db :=
  MkDb
    {[ org := Organization.Mk org "Acme" "acme" 0 ]}
    (list_to_map [(admin, user admin "a@x"); (member, user member "m@x");
                  (viewer, user viewer "v@x"); (stranger, user stranger "s@x")])
    ∅
    {[ project := Project.Mk project org "Core" "core" None 0 0 ]}
    (list_to_map [(31%N, membership 31 admin UserRole.Admin);
                  (32%N, membership 32 member UserRole.Member);
                  (33%N, membership 33 viewer UserRole.Viewer)])
    {[ 1%N := RetryPolicy.seed ]}
    {[ queue := queue_row 1 false ]}
    (list_to_map [(worker, Worker.Mk worker "worker-a" "host" true 0 None);
                  (dead_worker, Worker.Mk dead_worker "worker-b" "host" true 0 None)])
    (list_to_map [(41%N, WorkerHeartbeat.Mk 41 worker noon 0);
                  (42%N, WorkerHeartbeat.Mk 42 dead_worker (noon - 100 * SECOND) 0)])
    (list_to_map ((fun j => (Job.id j, j)) <$> js))
    ∅ ∅ ∅ ∅.

(** Two queued jobs, the older one with the lower priority. *)
Definition two_queued : Db :=
  with_jobs [ job 20 JobStatus.Queued JobPriority.Normal 10;
              job 21 JobStatus.Queued JobPriority.High 20 ].

(** A dead-letter entry of a job of the fixture. *)
Definition dead (id job_id : Uuid) : DeadLetterEntry.t :=
  DeadLetterEntry.Mk id job_id queue project "job" (VObject []) (Some "boom") 3 None 0 None None.
Definition with_dlq (entries : list DeadLetterEntry.t) (d : Db) : Db :=
  d <| dead_letter_queue := list_to_map ((fun x => (DeadLetterEntry.id x, x)) <$> entries) |>.

(** A step at time [t] with no fault and no row locked; action [n] of step [i]
    generates its own UUIDs. *)
Definition env_at (t : Timestamp) (i : nat) : Env :=
  MkEnv t (fun _ => t) (fun n m => (1000 + 100 * N.of_nat i + 10 * N.of_nat n + N.of_nat m)%N)
    (fun _ => false) (fun _ => NoFault) false.

Definition world (d : Db) : World := MkWorld d [] ∅ ∅ ∅.
End Fixture.
