(* ===== verification/Steps.v ===== *)
(** * Reasoning about programs

    The lemmas the components share: how [exec] goes through [bind], statements
    and transactions; the guarantee [steps_sat P p] (every step of [p] and of
    the tasks it spawns satisfies the two-state relation [P]); and the rule that
    turns such guarantees into invariants of every interleaving. *)
From S2P Require Import Prelude Enums Entities RetryPolicy Db.

(** ** Definitions *)

(** Every step of the program, and of the tasks it spawns, relates the world
    before to the world after by [P]. *)
Fixpoint steps_sat (P : Env -> World -> World -> Prop) {A : Type} (p : prog A) : Prop :=
  match p with
  | Ret _ | Panic => True
  | Step f k => (forall e w, P e w (f e w).2) /\ forall b, steps_sat P (k b)
  | Spawn t k => steps_sat P t /\ steps_sat P k
  end.

(** The statement changes the store only as [R] allows. *)
Definition stmt_sat {A : Type} (R : Db -> Db -> Prop) (s : stmt A) : Prop :=
  forall c d a d', s c d = Ok (a, d') -> R d d'.

(** The same for the private copy of a transaction, whose base stays. *)
Definition txm_sat {A : Type} (R : Db -> Db -> Prop) (m : txm A) : Prop :=
  forall e t r t', m e t = (r, t') -> R (tx_db t) (tx_db t') /\ tx_base t' = tx_base t.

(** A relation between stores, as a relation between worlds: database steps
    publish nothing. *)
Definition on_db (R : Db -> Db -> Prop) : Env -> World -> World -> Prop :=
  fun _ w w' => R (w_db w) (w_db w') /\ w_bus w' = w_bus w.

(** The relation of an invariant. *)
Definition preserves (Inv : Db -> Prop) : Db -> Db -> Prop := fun d d' => Inv d -> Inv d'.
#[global] Instance preserves_preorder Inv : PreOrder (preserves Inv).
Proof. split; unfold preserves; repeat intro; auto. Qed.

(** ** Programs *)

Lemma bind_ret_r {A} (p : prog A) w env n : exec (bind p Ret) env n w = exec p env n w.
Proof.
  revert n w. induction p as [A a|A|A B f k IH|A t _ k IH]; intros n w; simpl; [done|done| |].
  - destruct (f (env n) w). apply IH.
  - by rewrite IH.
Qed.

(** Running [p] and then its continuation. *)
Lemma exec_bind {A B} (p : prog A) (k : A -> prog B) env n w :
  exec (bind p k) env n w =
  let '(r, w', n', ts) := exec p env n w in
  match r with
  | Returned a => let '(r', w'', n'', ts') := exec (k a) env n' w' in (r', w'', n'', ts ++ ts')
  | Panicked => (Panicked, w', n', ts)
  end.
Proof.
  revert B k n w. induction p as [A a|A|A B f k0 IH|A t _ p IH]; intros B' k n w; simpl.
  - by destruct (exec (k a) env n w) as [[[? ?] ?] ?].
  - done.
  - destruct (f (env n) w) as [b w']. apply IH.
  - rewrite IH. destruct (exec p env n w) as [[[[a|] ?] ?] ?]; [|done].
    by destruct (exec (k a) _ _ _) as [[[? ?] ?] ?].
Qed.

Section sat.
Context (P : Env -> World -> World -> Prop).

Lemma steps_sat_bind {A B} (p : prog A) (k : A -> prog B) :
  steps_sat P p -> (forall a, steps_sat P (k a)) -> steps_sat P (bind p k).
Proof.
  revert B k. induction p as [A a|A|A B f k0 IH|A t _ p IH]; intros B' k Hp Hk; simpl in *.
  - auto.
  - done.
  - destruct Hp as [Hf Hp]. split; [done|]. intros b. auto.
  - destruct Hp. split; auto.
Qed.

Lemma steps_sat_exec {A} (p : prog A) env n w r w' n' ts :
  (forall e, Reflexive (P e)) ->
  steps_sat P p -> exec p env n w = (r, w', n', ts) ->
  Forall (steps_sat P) ts.
Proof.
  intros HR. revert n w r w' n' ts.
  induction p as [A a|A|A B f k IH|A t _ p IH]; intros n w r w' n' ts Hp Hx; simpl in *.
  - by simplify_eq.
  - by simplify_eq.
  - destruct Hp as [_ Hk]. destruct (f (env n) w) as [b w1] eqn:E. eauto.
  - destruct Hp as [Ht Hp]. destruct (exec p env n w) as [[[r1 w1] n1] ts1] eqn:E.
    simplify_eq. constructor; eauto.
Qed.
End sat.

Lemma steps_sat_mono (P Q : Env -> World -> World -> Prop) {A} (p : prog A) :
  (forall e w w', P e w w' -> Q e w w') -> steps_sat P p -> steps_sat Q p.
Proof.
  intros HPQ. induction p as [A a|A|A B f k IH|A t IHt p IH]; simpl; [done|done| |]; intros []; eauto.
Qed.

(** A guarantee that is a preorder relates the ends of a run. *)
Lemma exec_guarantee (R : World -> World -> Prop) `{!PreOrder R} {A} (p : prog A) env n w r w' n' ts :
  steps_sat (fun _ => R) p -> exec p env n w = (r, w', n', ts) -> R w w'.
Proof.
  revert n w r w' n' ts.
  induction p as [A a|A|A B f k IH|A t _ p IH]; intros n w r w' n' ts Hp Hx; simpl in *.
  - by simplify_eq.
  - by simplify_eq.
  - destruct Hp as [Hf Hk]. specialize (Hf (env n) w).
    destruct (f (env n) w) as [b w1]. etrans; eauto.
  - destruct Hp as [_ Hp]. destruct (exec p env n w) as [[[r1 w1] n1] ts1] eqn:E.
    simplify_eq. eauto.
Qed.

(** ** Statements and transactions *)

Section stmts.
Context (R : Db -> Db -> Prop) `{!Reflexive R}.

Lemma stmt_sat_query {A} (f : Db -> A) : stmt_sat R (query f).
Proof. intros c d a d' [= _ <-]. done. Qed.

Lemma stmt_sat_page {A} l o (f : Db -> list A) : stmt_sat R (page l o f).
Proof. intros c d a d'. unfold page. case_match; intros [= _ <-]. done. Qed.

Lemma stmt_sat_with_ctx {A} (f : Ctx -> stmt A) :
  (forall c, stmt_sat R (f c)) -> stmt_sat R (with_ctx f).
Proof. intros Hf c d a d' Hs. by apply (Hf c c d a). Qed.

Lemma steps_sat_sql {A} (s : stmt A) : stmt_sat R s -> steps_sat (on_db R) (sql s).
Proof.
  intros Hs. split; [|done]. intros e w. unfold on_db.
  destruct (e_fault e 0) eqn:Ef; [| |]; try done;
    destruct (s (ctx_of e 0) (w_db w)) as [[a d]|v] eqn:E; try done; simpl; (split; [eauto|done]).
Qed.

Lemma steps_sat_fetch_one {A} (s : stmt (option A)) :
  stmt_sat R s -> steps_sat (on_db R) (fetch_one s).
Proof. intros. apply steps_sat_bind; [by apply steps_sat_sql|done]. Qed.

Lemma steps_sat_utc_now : steps_sat (on_db R) utc_now.
Proof. split; [|done]. intros e w. unfold on_db. done. Qed.
Lemma steps_sat_new_v4 : steps_sat (on_db R) new_v4.
Proof. split; [|done]. intros e w. unfold on_db. done. Qed.

End stmts.

Section txms.
Context (R : Db -> Db -> Prop) `{!PreOrder R}.

Lemma txm_sat_ret {A} (a : A) : txm_sat R (tx_ret a).
Proof. by intros e t r t' [= _ <-]. Qed.
Lemma txm_sat_panic {A} : txm_sat R (tx_panic (A:=A)).
Proof. by intros e t r t' [= _ <-]. Qed.

Lemma txm_sat_bind {A B} (m : txm A) (k : A -> txm B) :
  txm_sat R m -> (forall a, txm_sat R (k a)) -> txm_sat R (tx_bind m k).
Proof.
  intros Hm Hk e t r t'. unfold tx_bind. destruct (m e t) as [[a|] t1] eqn:E; intros Hx.
  - apply Hm in E as [? ?]. apply Hk in Hx as [? ?]. split; [by etrans|congruence].
  - simplify_eq. by apply Hm in E.
Qed.

Lemma txm_sat_sql {A} (s : stmt A) : stmt_sat R s -> txm_sat R (tx_sql s).
Proof.
  intros Hs e t r t'. unfold tx_sql, tx_abort.
  destruct (tx_aborted t); [by intros [= _ <-]|].
  destruct (e_fault e (tx_n t)); try (by intros [= _ <-]).
  destruct (s _ (tx_db t)) as [[a d]|v] eqn:E; intros [= _ <-]; simpl; [eauto|done].
Qed.

Lemma txm_sat_pool_query {A} (f : Db -> A) : txm_sat R (tx_pool_query f).
Proof. intros e t r t' [= _ <-]. by split. Qed.
Lemma txm_sat_utc_now : txm_sat R tx_utc_now.
Proof. intros e t r t' [= _ <-]. by split. Qed.
Lemma txm_sat_new_v4 : txm_sat R tx_new_v4.
Proof. intros e t r t' [= _ <-]. by split. Qed.

Lemma finish_tx_sat {A} e base (x : option (tx_exit A)) t r d :
  R base (tx_db t) -> finish_tx e base x t = (r, d) -> R base d.
Proof.
  intros HR. unfold finish_tx. repeat case_match; intros [= _ <-]; done.
Qed.

Lemma steps_sat_transaction {A} (body : txm (tx_exit A)) :
  txm_sat R body -> steps_sat (on_db R) (transaction body).
Proof.
  intros Hb. split; [|by intros [?|]]. intros e w. unfold on_db.
  destruct (e_fault e 0); try done.
  destruct (body e _) as [x t] eqn:Eb. apply Hb in Eb as [HR _]. simpl in HR.
  destruct (finish_tx e (w_db w) x t) as [r d] eqn:Ef. simpl.
  split; [by eapply finish_tx_sat|done].
Qed.
End txms.

(** ** Sequential runs, request by request *)

(** What one autocommit statement does to the world, and what its caller sees:
    nothing happened, it was refused, it was applied, or it was applied and the
    answer was lost. *)
Inductive sql_outcome {A : Type} (s : stmt A) (e : Env) (w : World)
  : result A sqlx_error -> World -> Prop :=
| sql_lost : sql_outcome s e w (Err Io) w
| sql_refused v err : s (ctx_of e 0) (w_db w) = Err v -> sql_outcome s e w (Err err) w
| sql_done a d : s (ctx_of e 0) (w_db w) = Ok (a, d) ->
    sql_outcome s e w (Ok a) (w <| w_db := d |>)
| sql_done_lost a d : s (ctx_of e 0) (w_db w) = Ok (a, d) ->
    sql_outcome s e w (Err Io) (w <| w_db := d |>).

Lemma exec_sql {A B} (s : stmt A) (k : result A sqlx_error -> prog B) env n w :
  exists r w1, exec (bind (sql s) k) env n w = exec (k r) env (S n) w1 /\
    sql_outcome s (env n) w r w1.
Proof.
  unfold sql. simpl. destruct (e_fault (env n) 0) eqn:Ef.
  - destruct (s _ (w_db w)) as [[a d]|v] eqn:Es.
    + eexists _, _. split; [done|]. by constructor.
    + eexists _, _. split; [done|]. by eapply sql_refused.
  - eexists _, _. split; [done|]. constructor.
  - destruct (s _ (w_db w)) as [[a d]|v] eqn:Es.
    + eexists _, _. split; [done|]. by econstructor.
    + eexists _, _. split; [done|]. by eapply sql_refused.
Qed.

Lemma world_db_id w : w <| w_db := w_db w |> = w.
Proof. by destruct w. Qed.

(** A read changes nothing; it answers or the connection is lost. *)
Lemma exec_query {A B} (f : Db -> A) (k : result A sqlx_error -> prog B) env n w :
  exists r, exec (bind (sql (query f)) k) env n w = exec (k r) env (S n) w /\
    (r = Ok (f (w_db w)) \/ r = Err Io).
Proof.
  destruct (exec_sql (query f) k env n w) as (r & w1 & Hx & Ho).
  inversion Ho as [|v err Hs|a d Hs|a d Hs]; subst; unfold query in *; simplify_eq;
    rewrite ?world_db_id in *; eauto.
Qed.

(** Environments in which no connection is lost. *)
Definition quiet (env : nat -> Env) : Prop := forall n i, e_fault (env n) i = NoFault.

Lemma exec_sql_quiet {A B} (s : stmt A) (k : result A sqlx_error -> prog B) env n w :
  quiet env -> exec (bind (sql s) k) env n w =
  match s (ctx_of (env n) 0) (w_db w) with
  | Ok (a, d) => exec (k (Ok a)) env (S n) (w <| w_db := d |>)
  | Err v => exec (k (Err (Database v))) env (S n) w
  end.
Proof. intros Hq. unfold sql. simpl. rewrite Hq. by destruct (s _ _) as [[a d]|v]. Qed.

Lemma exec_query_quiet {A B} (f : Db -> A) (k : result A sqlx_error -> prog B) env n w :
  quiet env -> exec (bind (sql (query f)) k) env n w = exec (k (Ok (f (w_db w)))) env (S n) w.
Proof. intros Hq. rewrite exec_sql_quiet by done. simpl. by rewrite world_db_id. Qed.

Lemma bind_assoc {A B C} (p : prog A) (k : A -> prog B) (k' : B -> prog C) env n w :
  exec (bind (bind p k) k') env n w = exec (bind p (fun a => bind (k a) k')) env n w.
Proof.
  revert n w. induction p as [A a|A|A X f k0 IH|A t _ p IH]; intros n w; simpl; [done|done| |].
  - destruct (f (env n) w). apply IH.
  - by rewrite IH.
Qed.

Lemma exec_utc_now {B} (k : Timestamp -> prog B) env n w :
  exec (bind utc_now k) env n w = exec (k (e_clock (env n) 0)) env (S n) w.
Proof. done. Qed.
Lemma exec_new_v4 {B} (k : Uuid -> prog B) env n w :
  exec (bind new_v4 k) env n w = exec (k (e_uuid (env n) 0%nat 0%nat)) env (S n) w.
Proof. done. Qed.

(** In [H : exec (bind (sql (query f)) k) env n w = _], consider the two answers
    of the read. *)
Ltac exec_read H :=
  match type of H with
  | exec (bind (sql (query ?f)) ?k) ?env ?n ?w = _ =>
      let r := fresh "r" in let Hx := fresh "Hx" in
      destruct (exec_query f k env n w) as (r & Hx & [->| ->]); rewrite Hx in H; clear Hx
  end.

(** [x] ran alone from the start. *)
Lemma run_exec {A} (p : prog A) env w r w' :
  run p env w = (r, w') -> exists n' ts, exec p env 0 w = (r, w', n', ts).
Proof. unfold run. destruct (exec p env 0 w) as [[[r1 w1] n1] ts1]. intros [= <- <-]. eauto. Qed.

(** ** Transactions, request by request *)

Lemma exec_transaction {A B} (body : txm (tx_exit A)) (k : result A sqlx_error -> prog B) env n w :
  exec (bind (transaction body) k) env n w =
  match e_fault (env n) 0 with
  | NoFault =>
      let '(x, t) := body (env n) (MkTx (w_db w) (w_db w) false 1) in
      let '(r, d) := finish_tx (env n) (w_db w) x t in
      match r with
      | Some a => exec (k (Ok a)) env (S n) (w <| w_db := d |>)
      | None => (Panicked, w <| w_db := d |>, S n, [])
      end
  | _ => exec (k (Err Io)) env (S n) w
  end.
Proof.
  unfold transaction. simpl. destruct (e_fault (env n) 0); try done.
  destruct (body _ _) as [x t]. by destruct (finish_tx _ _ x t) as [[a|] d].
Qed.

(** A transaction that is not aborted after a statement ran that statement. *)
Lemma tx_sql_ok {A} (s : stmt A) e t r t' : tx_sql s e t = (r, t') -> tx_aborted t' = false ->
  exists a, r = Some (Ok a) /\ s (ctx_of e (tx_n t)) (tx_db t) = Ok (a, tx_db t') /\
    tx_aborted t = false /\ tx_base t' = tx_base t.
Proof.
  unfold tx_sql, tx_abort. destruct (tx_aborted t) eqn:Ea; [by intros [= <- <-]|].
  destruct (e_fault e (tx_n t)); try (by intros [= <- <-]).
  destruct (s _ (tx_db t)) as [[a d]|v] eqn:Es; intros [= <- <-]; [|done]. simpl. eauto.
Qed.

(** The bookkeeping of a transaction survives its statements; an answer is
    never a panic. *)
Lemma tx_sql_some {A} (s : stmt A) e t : exists r t', tx_sql s e t = (Some r, t') /\
  tx_base t' = tx_base t /\ (is_ok r = true <-> tx_aborted t' = false).
Proof.
  unfold tx_sql, tx_abort. destruct (tx_aborted t); [|destruct (e_fault e (tx_n t))];
    [| destruct (s _ (tx_db t)) as [[a d]|v] | |];
    (eexists _, _; split; [reflexivity|]; split; [reflexivity|]; simpl; split; congruence).
Qed.

(** [tx_post base e m Q]: in a transaction begun at [base] in environment [e], if the transaction is
    not aborted after [m], it was not before, and what [m] returned and did to
    the private copy satisfies [Q]. *)
Definition tx_post {A : Type} (base : Db) (e : Env) (m : txm A) (Q : Db -> A -> Db -> Prop) : Prop :=
  forall t r t', tx_base t = base -> m e t = (r, t') ->
    tx_base t' = base /\
    (tx_aborted t' = false -> tx_aborted t = false /\
       forall a, r = Some a -> Q (tx_db t) a (tx_db t')).

(** A step that only reads keeps the copy. *)
Definition tx_reads {A : Type} (m : txm A) : Prop :=
  forall e t, exists a, m e t = (Some a, MkTx (tx_base t) (tx_db t) (tx_aborted t) (S (tx_n t))).

Section tx_post.
Context (base : Db) (e : Env).

Lemma tx_post_ret {A} (a : A) : tx_post base e (tx_ret a) (fun d b d' => b = a /\ d' = d).
Proof.
  intros t r t' Hb [= <- <-]. split; [done|]. intros Ha. split; [done|]. by intros ? [= ->].
Qed.

Lemma tx_post_panic {A} Q : tx_post base e (tx_panic (A:=A)) Q.
Proof. intros t r t' Hb [= <- <-]. by split. Qed.

Lemma tx_post_bind {A B} (m : txm A) (k : A -> txm B) Q1 Q2 :
  tx_post base e m Q1 -> (forall a, tx_post base e (k a) (Q2 a)) ->
  tx_post base e (tx_bind m k) (fun d b d' => exists a d1, Q1 d a d1 /\ Q2 a d1 b d').
Proof.
  intros Hm Hk t r t' Hb. unfold tx_bind. destruct (m e t) as [[a|] t1] eqn:E.
  - intros Hx. apply Hm in E as [Hb1 Hq1]; [|done]. apply Hk in Hx as [Hb2 Hq2]; [|done].
    split; [done|]. intros Ha. destruct (Hq2 Ha) as [Ha1 Hq]. destruct (Hq1 Ha1) as [Ha0 Hq'].
    split; [done|]. intros b Hr. exists a, (tx_db t1). split; auto.
  - intros [= <- <-]. apply Hm in E as [Hb1 Hq1]; [|done]. split; [done|]. intros Ha.
    destruct (Hq1 Ha). by split.
Qed.

Lemma tx_post_mono {A} (m : txm A) (Q Q' : Db -> A -> Db -> Prop) :
  tx_post base e m Q -> (forall d a d', Q d a d' -> Q' d a d') -> tx_post base e m Q'.
Proof.
  intros Hm HQ t r t' Hb Hx. apply Hm in Hx as [? Hq]; [|done]. split; [done|]. intros Ha.
  destruct (Hq Ha). split; eauto.
Qed.

Lemma tx_post_sql {A} (s : stmt A) :
  tx_post base e (tx_sql s) (fun d r d' => exists a c, r = Ok a /\ s c d = Ok (a, d')).
Proof.
  intros t r t' Hb Hx. split.
  - destruct (tx_sql_some s e t) as (? & ? & E & ? & _). congruence.
  - intros Ha. apply tx_sql_ok in Hx as (a & -> & Hs & ? & _); [|done].
    split; [done|]. intros ? [= <-]. eauto.
Qed.

Lemma tx_post_reads {A} (m : txm A) : tx_reads m -> tx_post base e m (fun d _ d' => d' = d).
Proof.
  intros Hm t r t' Hb Hx. destruct (Hm e t) as [a E]. rewrite E in Hx. simplify_eq/=.
  split; [done|]. auto.
Qed.

Lemma tx_post_utc_now :
  tx_post base e tx_utc_now (fun d t d' => d' = d /\ exists i, t = e_clock e i).
Proof.
  intros t r t' Hb [= <- <-]. simpl. split; [done|]. intros Ha. split; [done|].
  intros a [= <-]. eauto.
Qed.

(** A query through the pool sees the store the transaction began at. *)
Lemma tx_post_pool_query {A} (f : Db -> A) :
  tx_post base e (tx_pool_query f) (fun d r d' => d' = d /\
    (r = Ok (f base) \/ r = Err Io /\ exists i, e_fault e i <> NoFault)).
Proof.
  intros t r t' Hb [= <- <-]. simpl. split; [done|]. intros Ha. split; [done|].
  intros a [= <-]. split; [done|]. rewrite Hb.
  destruct (e_fault e _) eqn:Ef; [by left|right; split; [done|eexists; by rewrite Ef]..].
Qed.
End tx_post.

Lemma tx_reads_utc_now : tx_reads tx_utc_now.
Proof. intros e t. by eexists. Qed.
Lemma tx_reads_new_v4 : tx_reads tx_new_v4.
Proof. intros e t. by eexists. Qed.
#[export] Hint Resolve tx_reads_utc_now tx_reads_new_v4 : sched.

(** What a transaction publishes: nothing, or, when it commits without having
    been aborted, its private copy. *)
Lemma finish_tx_cases {A} e base (x : option (tx_exit A)) t r d :
  finish_tx e base x t = (r, d) ->
  d = base \/ exists k, x = Some (Commit k) /\ tx_aborted t = false /\ d = tx_db t /\
    (r = Some (k (Ok tt)) \/ r = Some (k (Err Io))).
Proof.
  unfold finish_tx. destruct x as [[a|k]|]; [by intros [= _ <-]; left| |by intros [= _ <-]; left].
  destruct (tx_aborted t), (e_fault e (tx_n t)); intros [= <- <-];
    first [by left | right; exists k; split_and!; [reflexivity..|]; by (left + right)].
Qed.

(** A part of a transaction that does not panic. *)
Definition tx_total {A : Type} (m : txm A) : Prop := forall e t, exists a t', m e t = (Some a, t').
Lemma tx_total_ret {A} (a : A) : tx_total (tx_ret a).
Proof. intros e t. by eexists _, _. Qed.
Lemma tx_total_bind {A B} (m : txm A) (k : A -> txm B) :
  tx_total m -> (forall a, tx_total (k a)) -> tx_total (tx_bind m k).
Proof.
  intros Hm Hk e t. unfold tx_bind. destruct (Hm e t) as (a & t' & ->). apply Hk.
Qed.
Lemma tx_total_sql {A} (s : stmt A) : tx_total (tx_sql s).
Proof. intros e t. destruct (tx_sql_some s e t) as (r & t' & -> & _). eauto. Qed.
Lemma tx_total_reads {A} (m : txm A) : tx_reads m -> tx_total m.
Proof. intros Hm e t. destruct (Hm e t) as [a ->]. eauto. Qed.
#[export] Hint Resolve tx_total_ret tx_total_bind tx_total_sql tx_total_reads : sched.

(** A run through a transaction: [begin] failed; the body panicked; or the
    caller goes on with an answer, over a store that is the old one or one the
    body's guarantee describes. *)
Lemma exec_transaction_post {A B} (body : txm (tx_exit A)) Q (k : result A sqlx_error -> prog B)
  env n w x :
  tx_post (w_db w) (env n) body Q -> exec (bind (transaction body) k) env n w = x ->
  exec (k (Err Io)) env (S n) w = x \/
  (x = (Panicked, w, S n, []) /\ ~ tx_total body) \/
  exists a w1, exec (k (Ok a)) env (S n) w1 = x /\
    (w1 = w \/ exists kk d, w1 = w <| w_db := d |> /\ Q (w_db w) (Commit kk) d /\
       (a = kk (Ok tt) \/ a = kk (Err Io))).
Proof.
  intros HQ Hx. rewrite exec_transaction in Hx. destruct (e_fault (env n) 0); [|by left..].
  destruct (body _ _) as [o t] eqn:Eb.
  destruct (finish_tx _ _ o t) as [r d] eqn:Ef.
  apply HQ in Eb as Hq; [|done]. destruct Hq as [_ Hq].
  apply finish_tx_cases in Ef as Hc. destruct Hc as [->|(kk & -> & Ha & -> & Hr)].
  - rewrite world_db_id in Hx. destruct r as [a|]; [right; right; eauto|].
    right. left. split; [done|]. intros Ht. destruct (Ht (env n) (MkTx (w_db w) (w_db w) false 1))
      as (a & t' & E). rewrite E in Eb. simplify_eq. unfold finish_tx in Ef.
    repeat case_match; simplify_eq.
  - destruct (Hq Ha) as [_ Hq']. specialize (Hq' _ eq_refl). simpl in Hq'.
    destruct Hr as [-> | ->]; right; right; eexists _, _; (split; [exact Hx|]); right;
      eexists _, _; split_and!; eauto.
Qed.

(** ** Transactions without faults *)

(** [tx_clean P base e m d Q]: without faults, [m] runs from the copy [d] without
    aborting the transaction, to an answer and a copy that satisfy [Q]; or it
    panics, for the reason [P]. *)
Definition tx_clean {A : Type} (P : Prop) (base : Db) (e : Env) (m : txm A) (d : Db)
  (Q : A -> Db -> Prop) : Prop :=
  forall n, (exists a d' n', m e (MkTx base d false n) = (Some a, MkTx base d' false n') /\ Q a d') \/
    (P /\ exists t, m e (MkTx base d false n) = (None, t)).

Section tx_clean.
Context (P : Prop) (base : Db) (e : Env) (Hq : forall i, e_fault e i = NoFault).

Lemma tx_clean_ret {A} (a : A) d (Q : A -> Db -> Prop) : Q a d -> tx_clean P base e (tx_ret a) d Q.
Proof. intros HQ n. left. by exists a, d, n. Qed.

Lemma tx_clean_panic {A} d (Q : A -> Db -> Prop) : P -> tx_clean P base e tx_panic d Q.
Proof. intros HP n. right. split; [done|]. by eexists. Qed.

Lemma tx_clean_bind {A B} (m : txm A) (k : A -> txm B) d Q1 Q2 :
  tx_clean P base e m d Q1 -> (forall a d1, Q1 a d1 -> tx_clean P base e (k a) d1 Q2) ->
  tx_clean P base e (tx_bind m k) d Q2.
Proof.
  intros Hm Hk n. unfold tx_bind. destruct (Hm n) as [(a & d1 & n1 & -> & Ha)|(HP & t & ->)];
    [|right; eauto]. by apply Hk.
Qed.

Lemma tx_clean_sql {A} (s : stmt A) d (Q : result A sqlx_error -> Db -> Prop) :
  (forall n, exists a d', s (ctx_of e n) d = Ok (a, d') /\ Q (Ok a) d') ->
  tx_clean P base e (tx_sql s) d Q.
Proof.
  intros Hs n. destruct (Hs n) as (a & d' & E & HQ). left. exists (Ok a), d', (S n). split; [|done].
  unfold tx_sql. simpl. by rewrite Hq, E.
Qed.

Lemma tx_clean_new_v4 d (Q : Uuid -> Db -> Prop) :
  (forall n, Q (e_uuid e n 0%nat) d) -> tx_clean P base e tx_new_v4 d Q.
Proof. intros HQ n. left. by eexists _, d, (S n). Qed.
Lemma tx_clean_utc_now d (Q : Timestamp -> Db -> Prop) :
  (forall n, Q (e_clock e n) d) -> tx_clean P base e tx_utc_now d Q.
Proof. intros HQ n. left. by eexists _, d, (S n). Qed.
Lemma tx_clean_pool_query {A} (f : Db -> A) d (Q : result A sqlx_error -> Db -> Prop) :
  Q (Ok (f base)) d -> tx_clean P base e (tx_pool_query f) d Q.
Proof.
  intros HQ n. left. exists (Ok (f base)), d, (S n). split; [|done].
  unfold tx_pool_query. simpl. by rewrite Hq.
Qed.
End tx_clean.

(** A clean transaction that ends in [commit()] is published; a panic leaves
    nothing. *)
Lemma exec_transaction_clean {A B} (P : Prop) (body : txm (tx_exit A)) Q
  (k : result A sqlx_error -> prog B) env n w :
  quiet env -> tx_post (w_db w) (env n) body Q ->
  tx_clean P (w_db w) (env n) body (w_db w) (fun x _ => exists kk, x = Commit kk) ->
  (exists kk d, Q (w_db w) (Commit kk) d /\
    exec (bind (transaction body) k) env n w
      = exec (k (Ok (kk (Ok tt)))) env (S n) (w <| w_db := d |>)) \/
  P /\ exec (bind (transaction body) k) env n w = (Panicked, w, S n, []).
Proof.
  intros Hq Hp Hb. rewrite exec_transaction, Hq. unfold finish_tx.
  destruct (Hb 1%nat) as [(x & d & n1 & E & kk & ->)|(HP & t & ->)].
  - left. exists kk, d. rewrite E. simpl. rewrite Hq. split; [|done].
    apply Hp in E as [_ HQ]; [|done]. destruct (HQ eq_refl) as [_ HQ']. by apply HQ'.
  - right. by rewrite world_db_id.
Qed.

(** ** Insertions *)

Lemma first_violation_None checks :
  first_violation checks = None <-> Forall (fun x => x.1 = true) checks.
Proof.
  induction checks as [|[b v] rest IH]; simpl; [split; [constructor|done]|].
  rewrite Forall_cons, <- IH. destruct b; simpl; naive_solver.
Qed.

Lemma insert_row_Ok {V} (table : Db -> gmap N V) `{!Setter table} key constraints row c d a d' :
  insert_row table key constraints row c d = Ok (a, d') ->
  a = row /\ Forall (fun x => x.1 = true) (constraints d row) /\
  d' = d <| table ::= <[key row := row]> |>.
Proof.
  unfold insert_row. destruct (first_violation _) eqn:E; [done|]. intros [= <- <-].
  by apply first_violation_None in E.
Qed.

Lemma insert_row_succeeds {V} (table : Db -> gmap N V) `{!Setter table} key constraints row c d :
  Forall (fun x => x.1 = true) (constraints d row) ->
  insert_row table key constraints row c d = Ok (row, d <| table ::= <[key row := row]> |>).
Proof. intros Hc. unfold insert_row. by apply first_violation_None in Hc as ->. Qed.

Lemma has_false {V} (t : gmap N V) k : has t k = false <-> t !! k = None.
Proof. unfold has, is_some. destruct (t !! k); naive_solver. Qed.
Lemma has_true {V} (t : gmap N V) k : has t k = true <-> is_Some (t !! k).
Proof.
  unfold has, is_some. split; [destruct (t !! k) eqn:E; [eauto|done]|by intros [? ->]].
Qed.

Lemma exists_row_false {V} (p : V -> bool) (t : gmap N V) :
  exists_row p t = false <-> forall k v, t !! k = Some v -> p v = false.
Proof.
  unfold exists_row. rewrite negb_false_iff, bool_decide_eq_true.
  rewrite <- rows_affected_zero. unfold rows_affected. destruct (select p t); simpl; naive_solver lia.
Qed.

(** ** Rely and guarantee

    [safe R p w]: started in [w], whatever steps of other tasks come in between
    as long as they are in [R], every step of [p] is in [R]. What a step
    established is available to the next one, when [R] keeps it. *)
Section rely.
Context (R : World -> World -> Prop) `{!PreOrder R}.

Fixpoint safe {A : Type} (p : prog A) (w : World) : Prop :=
  match p with
  | Ret _ | Panic => True
  | Step f k => forall e w0, R w w0 -> R w0 (f e w0).2 /\ safe (k (f e w0).1) (f e w0).2
  | Spawn t k => safe t w /\ safe k w
  end.

Lemma safe_mono {A} (p : prog A) w w' : R w w' -> safe p w -> safe p w'.
Proof.
  revert w w'. induction p as [A a|A|A B f k IH|A t IHt p IH]; simpl; intros w w' HR; [done|done| |].
  - intros Hp e w0 HR0. apply Hp. by etrans.
  - intros []; eauto.
Qed.

Lemma safe_bind {A B} (p : prog A) (k : A -> prog B) w :
  safe p w -> (forall a w', R w w' -> safe (k a) w') -> safe (bind p k) w.
Proof.
  revert B k w. induction p as [A a|A|A X f k0 IH|A t _ p IH]; simpl; intros B k w Hp Hk.
  - by apply Hk.
  - done.
  - intros e w0 HR. destruct (Hp e w0 HR) as [HG Hs]. split; [done|].
    apply IH; [done|]. intros a w' HR'. apply Hk. by repeat (etrans; [eassumption|]).
  - destruct Hp. split; eauto.
Qed.

Lemma safe_of_steps_sat {A} (P : Env -> World -> World -> Prop) (p : prog A) w :
  (forall e w w', P e w w' -> R w w') -> steps_sat P p -> safe p w.
Proof.
  intros HP. revert w. induction p as [A a|A|A B f k IH|A t IHt p IH]; simpl; intros w Hp; [done|done| |].
  - destruct Hp as [Hf Hk]. intros e w0 _. split; [by eapply HP|]. by apply IH.
  - destruct Hp. split; auto.
Qed.

(** Every interleaving of safe tasks is in [R]. *)
Lemma safe_pool ts w ts' w' :
  Forall (fun t => safe t w) ts -> rtc pool_step (ts, w) (ts', w') -> R w w'.
Proof.
  intros Hts Hrtc. change (R (ts, w).2 (ts', w').2).
  change (Forall (fun t => safe t (ts, w).2) (ts, w).1) in Hts. revert Hts.
  induction Hrtc as [c|[ts1 w1] [ts2 w2] c3 Hstep _ IH]; simpl; [done|]. intros Hts.
  inversion Hstep as [i e t t' sp ? ? ? Hi Ht]; subst.
  pose proof (Forall_lookup_1 _ _ _ _ Hts Hi) as Hsafe.
  assert (R w1 w2 /\ safe t' w2 /\ Forall (fun t => safe t w2) sp) as (HR & Ht' & Hsp).
  { destruct t as [a| |B f k|s k]; simpl in *; simplify_eq.
    - destruct (Hsafe e w1 ltac:(done)) as [HG Hk]. destruct (f e w1). by simplify_eq/=.
    - destruct Hsafe. by repeat constructor. }
  etrans; [exact HR|]. apply IH. simpl. apply Forall_app. split; [|done].
  apply Forall_insert; [|done]. eapply Forall_impl; [exact Hts|]. intros. by eapply safe_mono.
Qed.
End rely.

(** ** Interleavings *)

Section pools.
Context (P : Env -> World -> World -> Prop).

Lemma task_step_sat e t w t' spawned w' :
  steps_sat P t -> task_step e t w = Some (t', spawned, w') ->
  (P e w w' \/ w' = w) /\ steps_sat P t' /\ Forall (steps_sat P) spawned.
Proof.
  destruct t as [a| |B f k|s k]; simpl; intros Ht Hx; simplify_eq.
  - destruct Ht as [Hf Hk]. specialize (Hf e w). destruct (f e w). simplify_eq. auto.
  - destruct Ht. auto.
Qed.

(** A step of the pool is a step of one task: the world changes as the tasks
    guarantee, and the guarantee is kept by the pool. *)
Lemma pool_step_sat ts w ts' w' :
  Forall (steps_sat P) ts -> pool_step (ts, w) (ts', w') ->
  Forall (steps_sat P) ts' /\ (w' = w \/ exists e, P e w w').
Proof.
  intros Hts Hstep. inversion Hstep as [i e t t' sp ? ? ? Hi Ht]; subst.
  pose proof (Forall_lookup_1 _ _ _ _ Hts Hi) as Hsat.
  apply (task_step_sat _ _ _ _ _ _ Hsat) in Ht as (HP & Ht' & Hsp).
  split; [|destruct HP; eauto]. apply Forall_app. split; [|done]. by apply Forall_insert.
Qed.

(** Rule induction over interleavings: what every step keeps, every
    interleaving keeps. *)
Lemma pool_invariant (Inv : World -> Prop) ts w ts' w' :
  (forall e w w', P e w w' -> Inv w -> Inv w') ->
  Forall (steps_sat P) ts -> rtc pool_step (ts, w) (ts', w') ->
  Inv w -> Inv w'.
Proof.
  intros HI Hts Hrtc. change (Inv (ts, w).2 -> Inv (ts', w').2).
  change (Forall (steps_sat P) (ts, w).1) in Hts. revert Hts.
  induction Hrtc as [c|[ts1 w1] [ts2 w2] c3 Hstep _ IH]; simpl; [done|]. intros Hts Hw.
  apply pool_step_sat in Hstep as [Hts2 Hw2]; [|done].
  apply IH; [done|]. destruct Hw2 as [->|[e HP]]; simpl; eauto.
Qed.
End pools.

Lemma pool_db_invariant (Inv : Db -> Prop) ts w ts' w' :
  Forall (steps_sat (on_db (preserves Inv))) ts -> rtc pool_step (ts, w) (ts', w') ->
  Inv (w_db w) -> Inv (w_db w').
Proof.
  intros Hts Hrtc. apply (pool_invariant (on_db (preserves Inv)) (fun w => Inv (w_db w)) ts w ts' w');
    [|done|done]. unfold on_db, preserves. naive_solver.
Qed.

(** A schedule is an interleaving, and every interleaving has a schedule. *)
Lemma run_pool_sound schedule c : rtc pool_step c (run_pool schedule c).
Proof.
  revert c. induction schedule as [|[i e] rest IH]; intros [ts w]; simpl; [done|].
  destruct (ts !! i) as [t|] eqn:Hi; [|apply IH].
  destruct (task_step e t w) as [[[t' sp] w']|] eqn:Ht; [|apply IH].
  eapply rtc_l; [by econstructor|]. apply IH.
Qed.

Lemma run_pool_complete c c' : rtc pool_step c c' -> exists schedule, run_pool schedule c = c'.
Proof.
  induction 1 as [c|c1 c2 c3 Hstep _ [s Hs]]; [by exists []|].
  inversion Hstep as [i e t t' sp ts w w' Hi Ht]; subst.
  exists ((i, e) :: s). simpl. by rewrite Hi, Ht.
Qed.

(** A context of a program: a continuation, or nothing. *)
Definition context {A} (c : prog A -> prog unit) : Prop :=
  (forall B (f : Env -> World -> B * World) k, c (Step f k) = Step f (fun b => c (k b))) /\
  (forall t p, c (Spawn t p) = Spawn t (c p)).
Lemma context_bind {A} (k : A -> prog unit) : context (fun p => bind p k).
Proof. done. Qed.
Lemma context_id : context (fun p => p).
Proof. done. Qed.

(** A task run to its end while the others wait is an interleaving. *)
Lemma exec_pool {A} (p : prog A) (c : prog A -> prog unit) env n w r w' n' ts
  (l : list (prog unit)) i : context c ->
  exec p env n w = (r, w', n', ts) -> l !! i = Some (c p) ->
  exists p', rtc pool_step (l, w) (<[i := c p']> l ++ ts, w') /\ forall a, r = Returned a -> p' = Ret a.
Proof.
  intros [HcS HcT]. revert c HcS HcT n w r w' n' ts l.
  induction p as [A a|A|A B f k0 IH|A t _ p IH];
    intros c HcS HcT n w r w' n' ts l Hx Hi; simpl in Hx.
  - simplify_eq. exists (Ret a). rewrite list_insert_id, app_nil_r by done. split; [done|]. by intros ? [= ->].
  - simplify_eq. exists Panic. rewrite list_insert_id, app_nil_r by done. by split.
  - destruct (f (env n) w) as [b w1] eqn:Ef. rewrite HcS in Hi.
    assert (i < length l)%nat as Hlt by (by eapply lookup_lt_Some).
    destruct (IH b c HcS HcT _ _ _ _ _ _ (<[i := c (k0 b)]> l) Hx) as (p' & Hr & Hp').
    { by apply list_lookup_insert_eq. }
    exists p'. rewrite list_insert_insert_eq in Hr. split; [|done]. eapply rtc_l; [|exact Hr].
    pose proof (PoolStep i (env n) _ (c (k0 b)) [] l w w1 Hi) as Hs.
    rewrite app_nil_r in Hs. apply Hs. simpl. by rewrite Ef.
  - destruct (exec p env n w) as [[[r1 w1] n1] ts1] eqn:Ex. simplify_eq. rewrite HcT in Hi.
    assert (i < length l)%nat as Hlt by (by eapply lookup_lt_Some).
    destruct (IH c HcS HcT _ _ _ _ _ _ (<[i := c p]> l ++ [t]) Ex) as (p' & Hr & Hp').
    { rewrite lookup_app_l by (by rewrite length_insert). by apply list_lookup_insert_eq. }
    exists p'. rewrite insert_app_l, list_insert_insert_eq, <- app_assoc in Hr by (by rewrite length_insert).
    split; [|done]. eapply rtc_l; [|exact Hr]. by eapply (PoolStep _ (env n)).
Qed.

(** Some tasks of the pool, run one after the other. *)
Lemma run_each_pool (env : nat -> Env) ts (l post : list (prog unit)) w : exists rest,
  rtc pool_step (l ++ ts ++ post, w) (l ++ rest, foldl (fun w t => (run t env w).2) w ts).
Proof.
  revert l post w. induction ts as [|t ts IH]; intros l post w; [by exists post|]. simpl.
  destruct (exec t env 0 w) as [[[r w1] n1] ts1] eqn:Ex.
  destruct (exec_pool t _ _ _ _ _ _ _ _ (l ++ t :: ts ++ post) (length l) context_id Ex) as (p' & Hr & _).
  { by apply list_lookup_middle. }
  rewrite insert_app_r_alt, Nat.sub_diag in Hr by lia. simpl in Hr.
  destruct (IH (l ++ [p']) (post ++ ts1) w1) as [rest Hrest]. rewrite <- !app_assoc in *. simpl in *.
  rewrite <- app_assoc in Hr.
  exists (p' :: rest). unfold run at 2. rewrite Ex. simpl. by etrans.
Qed.

#[export] Hint Resolve steps_sat_bind steps_sat_utc_now steps_sat_new_v4
  txm_sat_ret txm_sat_panic txm_sat_bind txm_sat_pool_query txm_sat_utc_now
  txm_sat_new_v4 stmt_sat_query stmt_sat_page : sched.

(** Reduce a guarantee of a program to guarantees of its statements; [known]
    discharges the parts that have a lemma. *)
Ltac steps_tac_with known :=
  repeat first
    [ progress intros
    | known
    | match goal with
      | |- steps_sat _ (Ret _) => exact I
      | |- steps_sat _ Panic => exact I
      | |- True => exact I
      | |- steps_sat _ (bind _ _) => apply steps_sat_bind
      | |- steps_sat _ (Spawn _ _) => split
      | |- steps_sat (on_db _) utc_now => apply steps_sat_utc_now
      | |- steps_sat (on_db _) new_v4 => apply steps_sat_new_v4
      | |- steps_sat (on_db _) (sql _) => apply steps_sat_sql; [typeclasses eauto|]
      | |- steps_sat (on_db _) (fetch_one _) => apply steps_sat_fetch_one; [typeclasses eauto|]
      | |- steps_sat (on_db _) (transaction _) =>
          apply steps_sat_transaction; [typeclasses eauto|]
      | |- txm_sat _ (tx_ret _) => apply txm_sat_ret; typeclasses eauto
      | |- txm_sat _ tx_panic => apply txm_sat_panic; typeclasses eauto
      | |- txm_sat _ (tx_bind _ _) => apply txm_sat_bind; [typeclasses eauto|..]
      | |- txm_sat _ (tx_sql _) => apply txm_sat_sql; [typeclasses eauto|]
      | |- txm_sat _ (tx_pool_query _) => apply txm_sat_pool_query; typeclasses eauto
      | |- txm_sat _ tx_utc_now => apply txm_sat_utc_now; typeclasses eauto
      | |- txm_sat _ tx_new_v4 => apply txm_sat_new_v4; typeclasses eauto
      | |- stmt_sat _ (query _) => apply stmt_sat_query; typeclasses eauto
      | |- stmt_sat _ (page _ _ _) => apply stmt_sat_page; typeclasses eauto
      | |- steps_sat _ (match ?x with _ => _ end) => destruct x
      | |- txm_sat _ (match ?x with _ => _ end) => destruct x
      end ].
Ltac steps_tac := steps_tac_with fail.
