(* ===== verification/JobRepository.v ===== *)
(** * Job repository ([crates/repositories/src/job_repository.rs])

    Every query of [JobRepository], in the order of the file: the claim query
    (row choice, row lock, update), the status updates, the promotion of due
    jobs, the recovery of jobs held by stale workers, and the reads. *)
From S2P Require Import Prelude Enums Entities RetryPolicy Db Fixture Steps.

Module JobRepository.

(** [CASE priority WHEN 'critical' THEN 20 ...] *)
Definition priority_weight (p : JobPriority.t) : Z :=
  match p with
  | JobPriority.Critical => 20
  | JobPriority.High => 10
  | JobPriority.Normal => 5
  | JobPriority.Low => 1
  end.

(** [ORDER BY weight DESC, created_at ASC] *)
Definition claim_order (a b : Job.t) : Prop :=
  priority_weight (Job.priority b) < priority_weight (Job.priority a) \/
  priority_weight (Job.priority a) = priority_weight (Job.priority b) /\
  Job.created_at a <= Job.created_at b.
#[global] Instance claim_order_dec a b : Decision (claim_order a b).
Proof. unfold claim_order. apply _. Defined.

(** The [WHERE] condition of the inner [SELECT]. *)
Definition claimable (queue_id : Uuid) (now : Timestamp) (j : Job.t) : bool :=
  bool_decide (Job.status j = JobStatus.Queued)
  && bool_decide (Job.queue_id j = queue_id)
  && (negb (is_some (Job.scheduled_at j)) || sql_le (Job.scheduled_at j) now).

(** [SELECT id ... FOR UPDATE SKIP LOCKED LIMIT 1]: the first row of the
    ordered candidates that no other transaction has locked. *)
Definition claim_candidate (c : Ctx) (queue_id : Uuid) (d : Db) : option Job.t :=
  head (List.filter (fun j => negb (locked c (Job.id j)))
          (order_by claim_order (select (claimable queue_id (now c)) (jobs d)))).

(** The [SET] list of the claim. *)
Definition set_claimed (worker_id : Uuid) (now : Timestamp) (j : Job.t) : Job.t :=
  j <| Job.status := JobStatus.Claimed |>
    <| Job.worker_id := Some worker_id |>
    <| Job.claimed_at := Some now |>
    <| Job.updated_at := now |>.

Definition claim_stmt (queue_id worker_id : Uuid) : stmt (option Job.t) := fun c d =>
  match claim_candidate c queue_id d with
  | None => Ok (None, d)
  | Some j =>
      if has (workers d) worker_id then
        let j' := set_claimed worker_id (now c) j in
        Ok (Some j', d <| jobs ::= <[Job.id j := j']> |>)
      else Err (ForeignKeyViolation "worker_id")
  end.

(** [JobRepository::claim_next_job] *)
Definition claim_next_job (queue_id worker_id : Uuid)
  : prog (result (option Job.t) sqlx_error) := sql (claim_stmt queue_id worker_id).

(** [JobRepository::find_by_id] *)
Definition find_by_id (id : Uuid) : prog (result (option Job.t) sqlx_error) :=
  sql (query (fun d => jobs d !! id)).

Definition summary (j : Job.t) : JobSummary.t :=
  JobSummary.Mk (Job.id j) (Job.name j) (Job.queue_id j) (Job.status j) (Job.priority j)
    (Job.job_type j) (Job.attempt_count j) (Job.max_attempts j) (Job.created_at j)
    (Job.updated_at j).

(** [ORDER BY created_at DESC] *)
Definition newest_first (a b : Job.t) : Prop := Job.created_at b <= Job.created_at a.
#[global] Instance newest_first_dec a b : Decision (newest_first a b).
Proof. unfold newest_first. apply _. Defined.

(** [JobRepository::list_by_queue] *)
Definition list_by_queue (queue_id : Uuid) (limit offset : Z)
  : prog (result (list JobSummary.t) sqlx_error) :=
  sql (page limit offset (fun d =>
    summary <$> order_by newest_first
      (select (fun j => bool_decide (Job.queue_id j = queue_id)) (jobs d)))).

(** [JobRepository::mark_running] *)
Definition mark_running_stmt (job_id : Uuid) : stmt Z := with_ctx (fun c =>
  update_row jobs job_id (fun j =>
    j <| Job.status := JobStatus.Running |> <| Job.updated_at := now c |>)).
Definition mark_running (job_id : Uuid) : prog (result unit sqlx_error) :=
  r <-? sql (mark_running_stmt job_id) via (fun e => e) ;; Ret (Ok tt).

(** [JobRepository::mark_completed]; the executor sends the same [UPDATE]. *)
Definition mark_completed_stmt (job_id : Uuid) : stmt Z := with_ctx (fun c =>
  update_row jobs job_id (fun j =>
    j <| Job.status := JobStatus.Completed |>
      <| Job.completed_at := Some (now c) |>
      <| Job.updated_at := now c |>
      <| Job.worker_id := None |>)).
Definition mark_completed (job_id : Uuid) : prog (result unit sqlx_error) :=
  r <-? sql (mark_completed_stmt job_id) via (fun e => e) ;; Ret (Ok tt).

(** [attempt_count + 1] of an [INT] column. *)
Definition bump_attempt (f : Job.t -> Job.t) (job_id : Uuid) : stmt Z := fun c d =>
  match jobs d !! job_id with
  | Some j =>
      if Job.attempt_count j + 1 <? 2 ^ 31 then
        update_row jobs job_id (fun j => f (j <| Job.attempt_count ::= Z.succ |>)) c d
      else Err NumericOutOfRange
  | None => Ok (0, d)
  end.

(** [JobRepository::schedule_retry] *)
Definition schedule_retry (job_id : Uuid) (next_attempt_at : Timestamp)
  : prog (result unit sqlx_error) :=
  r <-? sql (with_ctx (fun c => bump_attempt (fun j =>
    j <| Job.status := JobStatus.Scheduled |>
      <| Job.next_attempt_at := Some next_attempt_at |>
      <| Job.worker_id := None |>
      <| Job.updated_at := now c |>) job_id)) via (fun e => e) ;;
  Ret (Ok tt).

(** [JobRepository::mark_failed] *)
Definition mark_failed (job_id : Uuid) : prog (result unit sqlx_error) :=
  r <-? sql (with_ctx (fun c => bump_attempt (fun j =>
    j <| Job.status := JobStatus.Failed |>
      <| Job.worker_id := None |>
      <| Job.updated_at := now c |>) job_id)) via (fun e => e) ;;
  Ret (Ok tt).

(** [WHERE status = 'scheduled' AND COALESCE(next_attempt_at, scheduled_at) <= NOW()] *)
Definition due (now : Timestamp) (j : Job.t) : bool :=
  bool_decide (Job.status j = JobStatus.Scheduled)
  && sql_le (coalesce (Job.next_attempt_at j) (Job.scheduled_at j)) now.

Definition set_queued (now : Timestamp) (j : Job.t) : Job.t :=
  j <| Job.status := JobStatus.Queued |> <| Job.updated_at := now |>.

Definition re_queue_stmt : stmt Z := with_ctx (fun c =>
  update_rows jobs (due (now c)) (set_queued (now c))).

(** [JobRepository::re_queue_scheduled_jobs] *)
Definition re_queue_scheduled_jobs : prog (result Z sqlx_error) := sql re_queue_stmt.

(** [MAX(last_seen) ... GROUP BY worker_id], NULL for a worker without rows. *)
Definition last_seen_of (d : Db) (worker : Uuid) : option Timestamp :=
  foldr (fun h acc =>
      Some (match acc with
            | Some t => Z.max (WorkerHeartbeat.last_seen h) t
            | None => WorkerHeartbeat.last_seen h
            end)) None
    (select (fun h => bool_decide (WorkerHeartbeat.worker_id h = worker))
       (worker_heartbeats d)).

(** [hb.last_seen IS NULL OR EXTRACT(EPOCH FROM (NOW() - hb.last_seen)) > $1] *)
Definition stale_worker (now : Timestamp) (threshold_seconds : Z) (d : Db) (worker : Uuid)
  : bool :=
  has (workers d) worker &&
  match last_seen_of d worker with
  | None => true
  | Some t => threshold_seconds * SECOND <? now - t
  end.

(** [WHERE status IN ('claimed', 'running') AND worker_id IN (...)] *)
Definition held_by_stale (now : Timestamp) (threshold_seconds : Z) (d : Db) (j : Job.t)
  : bool :=
  (bool_decide (Job.status j = JobStatus.Claimed)
   || bool_decide (Job.status j = JobStatus.Running))
  && match Job.worker_id j with
     | Some w => stale_worker now threshold_seconds d w
     | None => false
     end.

Definition release (now : Timestamp) (j : Job.t) : Job.t :=
  j <| Job.status := JobStatus.Queued |>
    <| Job.worker_id := None |>
    <| Job.claimed_at := None |>
    <| Job.updated_at := now |>.

Definition recover_stmt (threshold_seconds : Z) : stmt Z := fun c d =>
  update_rows jobs (held_by_stale (now c) threshold_seconds d) (release (now c)) c d.

(** [JobRepository::recover_stale_jobs] *)
Definition recover_stale_jobs (stale_threshold_seconds : Z) : prog (result Z sqlx_error) :=
  sql (recover_stmt stale_threshold_seconds).

(** [JobRepository::insert_execution] *)
Definition insert_execution (execution : JobExecution.t) : prog (result unit sqlx_error) :=
  r <-? sql (insert_row job_executions JobExecution.id job_executions_constraints execution)
    via (fun e => e) ;;
  Ret (Ok tt).

(** [JobRepository::find_by_idempotency_key] *)
Definition find_by_idempotency_key (key : string) (queue_id : Uuid)
  : prog (result (option Job.t) sqlx_error) :=
  sql (query (fun d => head (select (fun j =>
    bool_decide (Job.idempotency_key j = Some key)
    && bool_decide (Job.queue_id j = queue_id)) (jobs d)))).

(** [JobRepository::count_by_status_and_queue] *)
Definition count_by_status_and_queue (queue_id : Uuid) (status : JobStatus.t)
  : prog (result Z sqlx_error) :=
  sql (fun _ d =>
    match cast_as "job_status" (JobStatus.cast (JobStatus.to_string status)) with
    | Err v => Err v
    | Ok s => Ok (rows_affected (fun j => bool_decide (Job.queue_id j = queue_id)
                    && bool_decide (Job.status j = s)) (jobs d), d)
    end).

(** [ORDER BY attempt_number DESC] *)
Definition latest_attempt_first (a b : JobExecution.t) : Prop :=
  JobExecution.attempt_number b <= JobExecution.attempt_number a.
#[global] Instance latest_attempt_first_dec a b : Decision (latest_attempt_first a b).
Proof. unfold latest_attempt_first. apply _. Defined.

(** [JobRepository::list_executions] *)
Definition list_executions (job_id : Uuid)
  : prog (result (list JobExecution.t) sqlx_error) :=
  sql (query (fun d => order_by latest_attempt_first
    (select (fun x => bool_decide (JobExecution.job_id x = job_id)) (job_executions d)))).
End JobRepository.

(** ** The claim query *)

(** Rows are stored under their primary key. *)
Definition jobs_keyed (d : Db) : Prop := forall k j, jobs d !! k = Some j -> Job.id j = k.

Section claim.
Import JobRepository.

#[global] Instance claim_order_transitive : Transitive claim_order.
Proof. intros a b c. unfold claim_order. lia. Qed.
#[global] Instance claim_order_total : Total claim_order.
Proof. intros a b. unfold claim_order. lia. Qed.

(** The weights of the query order the priorities as the enum does. *)
Lemma priority_weight_cmp a b :
  Z.compare (priority_weight a) (priority_weight b) = JobPriority.cmp a b.
Proof. by destruct a, b. Qed.

Lemma priority_weight_inj a b : priority_weight a = priority_weight b -> a = b.
Proof. by destruct a, b. Qed.

Lemma claimable_true q t j : claimable q t j = true <->
  Job.status j = JobStatus.Queued /\ Job.queue_id j = q /\
  (forall s, Job.scheduled_at j = Some s -> s <= t).
Proof.
  unfold claimable, sql_le. rewrite !andb_true_iff, !bool_decide_eq_true, orb_true_iff.
  destruct (Job.scheduled_at j) as [s|]; simpl; rewrite ?Z.leb_le; naive_solver.
Qed.

Lemma claim_candidate_Some c q d j : claim_candidate c q d = Some j ->
  claimable q (now c) j = true /\ locked c (Job.id j) = false /\
  (exists k, jobs d !! k = Some j) /\
  forall k j', jobs d !! k = Some j' -> claimable q (now c) j' = true ->
    locked c (Job.id j') = false -> j = j' \/ claim_order j j'.
Proof.
  unfold claim_candidate. intros Hc. pose proof Hc as Hel.
  apply head_filter_elem in Hel as [Hel Hl]. apply negb_true_iff in Hl.
  rewrite elem_of_order_by, elem_of_select in Hel. destruct Hel as [Hp Hk].
  split_and!; [done..|]. intros k j' Hk' Hp' Hl'.
  eapply (order_by_head_filter claim_order); [done| |by simpl; rewrite Hl'].
  apply elem_of_select; eauto.
Qed.

Lemma claim_candidate_None c q d : claim_candidate c q d = None <->
  forall k j, jobs d !! k = Some j -> claimable q (now c) j = true ->
    locked c (Job.id j) = true.
Proof.
  split.
  - unfold claim_candidate. intros Hc k j Hk Hp.
    apply negb_false_iff. eapply (head_filter_None _ _ j Hc).
    rewrite elem_of_order_by, elem_of_select. eauto.
  - intros Hall. destruct (claim_candidate c q d) as [j|] eqn:E; [|done].
    apply claim_candidate_Some in E as (Hp & Hl & [k Hk] & _).
    rewrite (Hall k j Hk Hp) in Hl. done.
Qed.

Lemma claim_stmt_Some c d q w j' d' : jobs_keyed d ->
  claim_stmt q w c d = Ok (Some j', d') ->
  exists j, claim_candidate c q d = Some j /\ jobs d !! Job.id j = Some j /\
    j' = set_claimed w (now c) j /\ d' = d <| jobs ::= <[Job.id j := j']> |>.
Proof.
  unfold claim_stmt. intros Hkey. destruct (claim_candidate c q d) as [j|] eqn:E; [|done].
  destruct (has (workers d) w); [|done]. intros [= <- <-].
  exists j. split_and!; [done| |done..].
  apply claim_candidate_Some in E as (_ & _ & [k Hk] & _). by rewrite (Hkey k j Hk).
Qed.
End claim.

(** C9: a claim that returns a job returns the best one: it was queued in the
    polled queue, due and not locked by another transaction; every other such
    job has a lower priority in the enum's order, or the same priority and was
    not created earlier (FIFO); the row becomes claimed by this worker, and
    nothing else in the store changes. *)
Theorem claim_returns_best (c : Ctx) (d : Db) (queue_id worker_id : Uuid) (j' : Job.t) (d' : Db) :
  jobs_keyed d ->
  JobRepository.claim_stmt queue_id worker_id c d = Ok (Some j', d') ->
  exists j, jobs d !! Job.id j = Some j /\
    Job.status j = JobStatus.Queued /\ Job.queue_id j = queue_id /\
    (forall s, Job.scheduled_at j = Some s -> s <= now c) /\ locked c (Job.id j) = false /\
    j' = j <| Job.status := JobStatus.Claimed |> <| Job.worker_id := Some worker_id |>
           <| Job.claimed_at := Some (now c) |> <| Job.updated_at := now c |> /\
    d' = d <| jobs ::= <[Job.id j := j']> |> /\
    forall k o, jobs d !! k = Some o -> k <> Job.id j ->
      JobRepository.claimable queue_id (now c) o = true -> locked c (Job.id o) = false ->
      JobPriority.cmp (Job.priority o) (Job.priority j) = Lt \/
      Job.priority o = Job.priority j /\ Job.created_at j <= Job.created_at o.
Proof.
  intros Hkey Hs. apply claim_stmt_Some in Hs as (j & Hc & Hj & -> & ->); [|done].
  apply claim_candidate_Some in Hc as (Hp & Hl & _ & Hbest). apply claimable_true in Hp as (?&?&?).
  exists j. split_and!; [done..|]. intros k o Hk Hne Ho Hlo.
  destruct (Hbest k o Hk Ho Hlo) as [<-|[Hlt|[Heq Hle]]].
  - by apply Hkey in Hk.
  - left. by rewrite <- priority_weight_cmp, Z.compare_lt_iff.
  - right. split; [|done]. symmetry. by apply priority_weight_inj.
Qed.

(** A claim answers "no job" exactly when every claimable job of the queue
    is locked by another transaction, and then changes nothing. *)
Theorem claim_none_iff (c : Ctx) (d : Db) (queue_id worker_id : Uuid) (d' : Db) :
  JobRepository.claim_stmt queue_id worker_id c d = Ok (None, d') <->
  d' = d /\ forall k j, jobs d !! k = Some j ->
    Job.status j = JobStatus.Queued -> Job.queue_id j = queue_id ->
    (forall s, Job.scheduled_at j = Some s -> s <= now c) -> locked c (Job.id j) = true.
Proof.
  unfold JobRepository.claim_stmt. split.
  - destruct (JobRepository.claim_candidate c queue_id d) as [j|] eqn:E;
      [by destruct (has _ _)|]. intros [= <-]. split; [done|].
    intros k j Hk ???. rewrite claim_candidate_None in E.
    apply (E k j Hk). by apply claimable_true.
  - intros [-> Hall]. destruct (JobRepository.claim_candidate c queue_id d) eqn:E; [|done].
    exfalso. apply claim_candidate_Some in E as (Hp & Hl & [k Hk] & _).
    apply claimable_true in Hp as (?&?&?). by rewrite (Hall k t) in Hl.
Qed.

Lemma jobs_keyed_map_Forall d : map_Forall (fun k j => Job.id j = k) (jobs d) <-> jobs_keyed d.
Proof. done. Qed.

Lemma two_queued_keyed : jobs_keyed Fixture.two_queued.
Proof. apply jobs_keyed_map_Forall. compute_decide. Qed.

Lemma claim_returns_best_witness :
  exists j, jobs Fixture.two_queued !! 21%N = Some j /\ Job.status j = JobStatus.Queued.
Proof.
  destruct (claim_returns_best (ctx_of (Fixture.env_at Fixture.noon 0) 0) Fixture.two_queued
    Fixture.queue Fixture.worker
    (JobRepository.set_claimed Fixture.worker Fixture.noon
       (Fixture.job 21 JobStatus.Queued JobPriority.High 20))
    (Fixture.two_queued <| jobs ::= <[21%N := JobRepository.set_claimed Fixture.worker
       Fixture.noon (Fixture.job 21 JobStatus.Queued JobPriority.High 20)]> |>))
    as (j & Hj & Hst & _ & _ & _ & Heq & _).
  - exact two_queued_keyed.
  - vm_compute. reflexivity.
  - apply (f_equal Job.id) in Heq. simpl in Heq. rewrite <- Heq in Hj.
    exists j. split; [exact Hj|exact Hst].
Defined.

(** ** Exclusive claims *)

(** A list of claim attempts, by any workers on any queues, at any times and
    with any rows locked, in the order in which they reach the server; [None]
    stands for an attempt refused or without a job. *)
Fixpoint claim_all (attempts : list (Ctx * Uuid * Uuid)) (d : Db) : list Job.t * Db :=
  match attempts with
  | [] => ([], d)
  | (c, queue_id, worker_id) :: rest =>
      match JobRepository.claim_stmt queue_id worker_id c d with
      | Ok (Some j, d1) => let '(js, d') := claim_all rest d1 in (j :: js, d')
      | Ok (None, d1) => claim_all rest d1
      | Err _ => claim_all rest d
      end
  end.

(** Claimed rows stay as they are. *)
Definition claims_kept (d d' : Db) : Prop :=
  forall k j, jobs d !! k = Some j -> Job.status j = JobStatus.Claimed -> jobs d' !! k = Some j.
#[global] Instance claims_kept_preorder : PreOrder claims_kept.
Proof. split; [by intros d k j|]. intros d1 d2 d3 H1 H2 k j Hk Hs. eauto. Qed.

Lemma set_claimed_id w t j : Job.id (JobRepository.set_claimed w t j) = Job.id j.
Proof. done. Qed.

Lemma claim_stmt_keyed c d q w r d' : jobs_keyed d ->
  JobRepository.claim_stmt q w c d = Ok (r, d') -> jobs_keyed d'.
Proof.
  intros Hkey Hs. destruct r as [j'|].
  - apply claim_stmt_Some in Hs as (j & _ & Hj & -> & ->); [|done].
    intros k x. simpl. intros [[<- <-]|[? Hk]]%lookup_insert_Some; [done|by apply Hkey].
  - by apply claim_none_iff in Hs as [-> _].
Qed.

Lemma claim_stmt_kept c d q w r d' : jobs_keyed d ->
  JobRepository.claim_stmt q w c d = Ok (r, d') -> claims_kept d d'.
Proof.
  intros Hkey Hs. destruct r as [j'|].
  - apply claim_stmt_Some in Hs as (j & Hc & Hj & -> & ->); [|done].
    intros k x Hx Hst. simpl. apply lookup_insert_Some.
    destruct (decide (Job.id j = k)) as [<-|]; [|by right].
    apply claim_candidate_Some in Hc as (Hp & _). apply claimable_true in Hp as [? _].
    congruence.
  - by apply claim_none_iff in Hs as [-> _].
Qed.

Lemma claim_all_spec attempts d js d' : jobs_keyed d -> claim_all attempts d = (js, d') ->
  claims_kept d d' /\ NoDup (Job.id <$> js) /\
  forall j, j ∈ js -> jobs d' !! Job.id j = Some j /\
    exists j0, jobs d !! Job.id j = Some j0 /\ Job.status j0 = JobStatus.Queued.
Proof.
  revert d js d'. induction attempts as [|[[c q] w] rest IH]; intros d js d' Hkey; simpl.
  { intros [= <- <-]. split_and!; [done|constructor|set_solver]. }
  destruct (JobRepository.claim_stmt q w c d) as [[[j|] d1]|v] eqn:E; [| |by apply IH].
  - pose proof (claim_stmt_kept _ _ _ _ _ _ Hkey E) as Hk1.
    pose proof (claim_stmt_keyed _ _ _ _ _ _ Hkey E) as Hkey1.
    apply claim_stmt_Some in E as (j0 & Hc & Hj0 & -> & ->); [|done].
    apply claim_candidate_Some in Hc as (Hp & _). apply claimable_true in Hp as [Hq _].
    destruct (claim_all rest _) as [js1 d2] eqn:Er. intros [= <- <-].
    apply IH in Er as (Hk2 & Hnd & Hall); [|done].
    assert (jobs d2 !! Job.id j0 = Some (JobRepository.set_claimed w (now c) j0)) as Hj2.
    { apply Hk2; [|done]. simpl. apply lookup_insert_eq. }
    split_and!; [by etrans| |].
    + simpl. constructor; [|done]. intros (j & Hid & Hin)%list_elem_of_fmap.
      destruct (Hall j Hin) as (_ & j1 & Hj1 & Hq1). rewrite <- Hid in Hj1. simpl in Hj1.
      rewrite lookup_insert_eq in Hj1. simplify_eq.
    + intros j [->|Hin]%elem_of_cons; [eauto|].
      destruct (Hall j Hin) as (Hj & j1 & Hj1 & Hq1). split; [done|].
      simpl in Hj1. apply lookup_insert_Some in Hj1 as [[? <-]|[? ?]]; [done|eauto].
  - apply claim_none_iff in E as [-> _]. by apply IH.
Qed.

(** C8: however many workers race for jobs, on whatever queues, at whatever
    times and skipping whatever locked rows, no job is handed out twice: the
    claims that succeed return distinct jobs, each of them was queued when the
    race began, and at the end each row is still held by the worker that got it. *)
Theorem claims_exclusive (attempts : list (Ctx * Uuid * Uuid)) (d d' : Db) (js : list Job.t) :
  jobs_keyed d -> claim_all attempts d = (js, d') ->
  NoDup (Job.id <$> js) /\
  forall j, j ∈ js -> jobs d' !! Job.id j = Some j /\
    exists j0, jobs d !! Job.id j = Some j0 /\ Job.status j0 = JobStatus.Queued.
Proof. intros Hkey Hc. by apply claim_all_spec in Hc as [_ ?]. Qed.

(** Three workers race for two jobs. *)
Lemma claims_exclusive_witness :
  let c := ctx_of (Fixture.env_at Fixture.noon 0) 0 in
  let attempts := [(c, Fixture.queue, Fixture.worker); (c, Fixture.queue, Fixture.dead_worker);
                   (c, Fixture.queue, Fixture.worker)] in
  Job.id <$> (claim_all attempts Fixture.two_queued).1 = [21%N; 20%N] /\ NoDup [21%N; 20%N].
Proof.
  intros c attempts. split; [vm_compute; reflexivity|].
  exact (proj1 (claims_exclusive attempts Fixture.two_queued
    (claim_all attempts Fixture.two_queued).2 (claim_all attempts Fixture.two_queued).1
    two_queued_keyed (surjective_pairing _))).
Defined.

(** ** Promotion of due jobs *)

Section promotion.
Import JobRepository.

Lemma due_true t j : due t j = true <->
  Job.status j = JobStatus.Scheduled /\
  exists s, coalesce (Job.next_attempt_at j) (Job.scheduled_at j) = Some s /\ s <= t.
Proof.
  unfold due, sql_le. rewrite andb_true_iff, bool_decide_eq_true.
  destruct (coalesce _ _) as [s|]; rewrite ?Z.leb_le; naive_solver.
Qed.

Lemma due_set_queued t t' j : due t (set_queued t' j) = false.
Proof. done. Qed.

Lemma re_queue_lookup c d n d' k : re_queue_stmt c d = Ok (n, d') ->
  jobs d' !! k = (fun j => if due (now c) j then set_queued (now c) j else j) <$> jobs d !! k.
Proof. intros [= _ <-]. simpl. apply lookup_update_where. Qed.
End promotion.

(** C20: one run of the promoter at time [t] queues exactly the scheduled jobs
    whose [COALESCE(next_attempt_at, scheduled_at)] has passed, reports their
    number, leaves every other row and every other table alone, and a second
    run at the same time finds nothing left to do. *)
Theorem promoter_exact (c : Ctx) (d d' : Db) (n : Z) :
  JobRepository.re_queue_stmt c d = Ok (n, d') ->
  (forall k j, jobs d !! k = Some j ->
     jobs d' !! k = Some j /\ ~ (Job.status j = JobStatus.Scheduled /\
       exists s, coalesce (Job.next_attempt_at j) (Job.scheduled_at j) = Some s /\ s <= now c) \/
     jobs d' !! k = Some (j <| Job.status := JobStatus.Queued |> <| Job.updated_at := now c |>) /\
       Job.status j = JobStatus.Scheduled /\
       exists s, coalesce (Job.next_attempt_at j) (Job.scheduled_at j) = Some s /\ s <= now c) /\
  n = Z.of_nat (length (select (JobRepository.due (now c)) (jobs d))) /\
  d' = d <| jobs := jobs d' |> /\
  JobRepository.re_queue_stmt c d' = Ok (0, d').
Proof.
  intros Hs. pose proof (fun k => re_queue_lookup c d n d' k Hs) as Hl.
  split_and!.
  - intros k j Hk. rewrite Hl, Hk. simpl.
    destruct (JobRepository.due (now c) j) eqn:E.
    + right. apply due_true in E. by split.
    + left. split; [done|]. rewrite <- due_true. congruence.
  - by injection Hs.
  - injection Hs as _ <-. done.
  - assert (forall k j, jobs d' !! k = Some j -> JobRepository.due (now c) j = false) as Hnone.
    { intros k j. rewrite Hl. destruct (jobs d !! k) as [j0|]; [|done]. simpl.
      destruct (JobRepository.due (now c) j0) eqn:E; intros [= <-]; [|done].
      apply due_set_queued. }
    unfold JobRepository.re_queue_stmt, with_ctx, update_rows.
    rewrite (proj2 (rows_affected_zero _ _) Hnone). do 2 f_equal. destruct d'. simpl in *.
    unfold set_field, set_jobs. simpl. f_equal. apply map_eq. intros k.
    rewrite lookup_update_where. destruct (_ !! k) eqn:E; [|done].
    simpl. by rewrite (Hnone k).
Qed.

(** A delayed or scheduled job that was stored without a time and has not
    been retried is never promoted: the comparison with NULL holds at no time,
    so its row is the same after every run of the promoter. *)
Theorem untimed_job_never_promoted (c : Ctx) (d d' : Db) (n : Z) (k : Uuid) (j : Job.t) :
  jobs d !! k = Some j -> Job.scheduled_at j = None -> Job.next_attempt_at j = None ->
  JobRepository.re_queue_stmt c d = Ok (n, d') -> jobs d' !! k = Some j.
Proof.
  intros Hk Hs Hn Hq. rewrite (re_queue_lookup _ _ _ _ _ Hq), Hk. simpl.
  destruct (JobRepository.due (now c) j) eqn:E; [|done].
  apply due_true in E as (_ & s & Hc & _). rewrite Hs, Hn in Hc. done.
Qed.

Definition delayed_job (id : Uuid) (scheduled_at : option Timestamp) : Job.t :=
  Job.Mk id Fixture.queue Fixture.project JobType.Delayed "later" VNull JobStatus.Scheduled
    JobPriority.Normal 0 3 scheduled_at None None None None None 0%N None None 0 0 None.
Definition delayed_db : Db := Fixture.with_jobs
  [ delayed_job 20 (Some Fixture.noon); delayed_job 21 (Some (Fixture.noon + 1)); delayed_job 22 None ].

Lemma promoter_exact_witness :
  let c := ctx_of (Fixture.env_at Fixture.noon 0) 0 in
  exists d', JobRepository.re_queue_stmt c delayed_db = Ok (1, d') /\
    JobRepository.re_queue_stmt c d' = Ok (0, d').
Proof.
  intros c.
  destruct (JobRepository.re_queue_stmt c delayed_db) as [[n d']|v] eqn:E; [|discriminate E].
  destruct (promoter_exact c delayed_db d' n E) as (_ & Hn & _ & Hidem).
  assert (n = 1) as -> by (rewrite Hn; vm_compute; reflexivity).
  exists d'. split; [reflexivity|exact Hidem].
Defined.

Lemma untimed_job_never_promoted_witness :
  let c := ctx_of (Fixture.env_at (10 ^ 18) 0) 0 in
  exists n d', JobRepository.re_queue_stmt c delayed_db = Ok (n, d') /\
    jobs d' !! 22%N = Some (delayed_job 22 None).
Proof.
  intros c.
  destruct (JobRepository.re_queue_stmt c delayed_db) as [[n d']|v] eqn:E; [|discriminate E].
  exists n, d'. split; [reflexivity|].
  apply (untimed_job_never_promoted c delayed_db d' n 22%N (delayed_job 22 None));
    [vm_compute; reflexivity|reflexivity|reflexivity|exact E].
Defined.

(** ** Recovery of jobs held by stale workers *)

Section recovery.
Import JobRepository.

Lemma held_by_stale_true t thr d j : held_by_stale t thr d j = true <->
  (Job.status j = JobStatus.Claimed \/ Job.status j = JobStatus.Running) /\
  exists w, Job.worker_id j = Some w /\ stale_worker t thr d w = true.
Proof.
  unfold held_by_stale. rewrite andb_true_iff, orb_true_iff, !bool_decide_eq_true.
  destruct (Job.worker_id j) as [w|]; naive_solver.
Qed.

Lemma last_seen_fold_ge (l : list WorkerHeartbeat.t) h :
  h ∈ l -> exists t, foldr (fun h acc => Some (match acc with
      | Some t => Z.max (WorkerHeartbeat.last_seen h) t
      | None => WorkerHeartbeat.last_seen h end)) None l = Some t /\
    WorkerHeartbeat.last_seen h <= t.
Proof.
  induction l as [|h0 l IH]; [set_solver|]. intros [->|Hin]%elem_of_cons; simpl.
  - eexists. split; [done|]. destruct (foldr _ _ _); lia.
  - destruct (IH Hin) as (t & -> & Hle). eexists. split; [done|]. lia.
Qed.

(** The age of a worker is that of its latest heartbeat. *)
Lemma last_seen_of_ge d w k h : worker_heartbeats d !! k = Some h ->
  WorkerHeartbeat.worker_id h = w ->
  exists t, last_seen_of d w = Some t /\ WorkerHeartbeat.last_seen h <= t.
Proof.
  intros Hk Hw. apply last_seen_fold_ge. apply elem_of_select.
  rewrite bool_decide_eq_true. eauto.
Qed.

(** A stale worker is registered, and all its heartbeats are too old. *)
Lemma last_seen_fold_max (l : list WorkerHeartbeat.t) : match
    foldr (fun h acc => Some (match acc with
      | Some t => Z.max (WorkerHeartbeat.last_seen h) t
      | None => WorkerHeartbeat.last_seen h end)) None l with
  | None => l = []
  | Some t => exists h, h ∈ l /\ t = WorkerHeartbeat.last_seen h
  end.
Proof.
  induction l as [|h l IH]; [done|]. simpl. destruct (foldr _ _ _) as [t|].
  - destruct IH as (h' & Hin & ->).
    destruct (Z.max_spec (WorkerHeartbeat.last_seen h) (WorkerHeartbeat.last_seen h')) as [[_ ->]|[_ ->]];
      set_solver.
  - exists h. set_solver.
Qed.

Lemma stale_worker_true t thr d w : stale_worker t thr d w = true <->
  is_Some (workers d !! w) /\
  forall i h, worker_heartbeats d !! i = Some h -> WorkerHeartbeat.worker_id h = w ->
    thr * SECOND < t - WorkerHeartbeat.last_seen h.
Proof.
  unfold stale_worker. rewrite andb_true_iff, has_true. apply and_iff_compat_l.
  pose proof (last_seen_fold_max (select (fun h => bool_decide (WorkerHeartbeat.worker_id h = w))
    (worker_heartbeats d))) as Hm. fold (last_seen_of d w) in Hm.
  split.
  - intros Ht i h Hi Hw. destruct (last_seen_of_ge d w i h Hi Hw) as (t' & Hs & Hle).
    rewrite Hs in Ht. apply Z.ltb_lt in Ht. lia.
  - intros Hall. destruct (last_seen_of d w) as [t'|]; [|done]. destruct Hm as (h & Hin & ->).
    apply elem_of_select in Hin as [Hp [i Hi]]. bool_to_prop. apply Z.ltb_lt. eauto.
Qed.

Lemma recover_lookup thr c d n d' k : recover_stmt thr c d = Ok (n, d') ->
  jobs d' !! k = (fun j => if held_by_stale (now c) thr d j then release (now c) j else j)
    <$> jobs d !! k.
Proof. intros [= _ <-]. simpl. apply lookup_update_where. Qed.

Lemma recover_stale_same thr c d n d' t w : recover_stmt thr c d = Ok (n, d') ->
  stale_worker t thr d' w = stale_worker t thr d w.
Proof. by intros [= _ <-]. Qed.
End recovery.

(** C18: one run of stale recovery releases exactly the claimed or running jobs
    of a registered worker none of whose heartbeats is within the threshold (a
    worker without heartbeats included): back to queued, with no worker, no claim
    time and everything else as it was; every other job is untouched. Afterwards
    no such worker holds a job, and the number reported is that of the jobs
    released. *)
Theorem recovery_exact (thr : Z) (c : Ctx) (d d' : Db) (n : Z) :
  JobRepository.recover_stmt thr c d = Ok (n, d') ->
  let abandoned (j : Job.t) := exists w, Job.worker_id j = Some w /\ is_Some (workers d !! w) /\
    forall i h, worker_heartbeats d !! i = Some h -> WorkerHeartbeat.worker_id h = w ->
      thr * SECOND < now c - WorkerHeartbeat.last_seen h in
  exists released : gset Uuid,
  (forall k, k ∈ released <-> exists j, jobs d !! k = Some j /\
     (Job.status j = JobStatus.Claimed \/ Job.status j = JobStatus.Running) /\ abandoned j) /\
  (forall k, jobs d' !! k =
     if decide (k ∈ released)
     then (fun j => j <| Job.status := JobStatus.Queued |> <| Job.worker_id := None |>
             <| Job.claimed_at := None |> <| Job.updated_at := now c |>) <$> jobs d !! k
     else jobs d !! k) /\
  d' = d <| jobs := jobs d' |> /\
  (forall k j, jobs d' !! k = Some j ->
     Job.status j = JobStatus.Claimed \/ Job.status j = JobStatus.Running -> ~ abandoned j) /\
  n = Z.of_nat (size released).
Proof.
  intros Hr abandoned. pose proof (fun k => recover_lookup thr c d n d' k Hr) as Hl.
  set (held := JobRepository.held_by_stale (now c) thr d) in *.
  assert (forall j, held j = true <->
    (Job.status j = JobStatus.Claimed \/ Job.status j = JobStatus.Running) /\ abandoned j) as Hheld.
  { intros j. unfold held. rewrite held_by_stale_true. unfold abandoned. by setoid_rewrite stale_worker_true. }
  assert (forall k, k ∈ dom (filter (fun kj => held kj.2 = true) (jobs d)) <->
    exists j, jobs d !! k = Some j /\ held j = true) as Hdom.
  { intros k. rewrite elem_of_dom. unfold is_Some. by setoid_rewrite map_lookup_filter_Some. }
  exists (dom (filter (fun kj => held kj.2 = true) (jobs d))). split_and!.
  - intros k. rewrite Hdom. by setoid_rewrite Hheld.
  - intros k. rewrite Hl. destruct (jobs d !! k) as [j|] eqn:Hk; [|by case_decide]. simpl.
    destruct (held j) eqn:E; case_decide as Hin; try done; rewrite Hdom in Hin; [exfalso; eauto|].
    destruct Hin as (j' & Hj' & E'). congruence.
  - by injection Hr as _ <-.
  - intros k j Hk Hst Ha. rewrite Hl in Hk. destruct (jobs d !! k) as [j0|]; [|done]. simpl in Hk.
    destruct (held j0) eqn:E; simplify_eq/=; [naive_solver|].
    rewrite (proj2 (Hheld j)) in E by done. done.
  - injection Hr as <- _. unfold rows_affected. rewrite size_dom. f_equal. symmetry.
    by apply size_filter_select.
Qed.

(** Recovery is safe for live workers: a worker with a heartbeat no older
    than the threshold keeps every job it holds. *)
Theorem recovery_spares_live_workers (thr : Z) (c : Ctx) (d d' : Db) (n : Z) (k hk : Uuid)
  (j : Job.t) (h : WorkerHeartbeat.t) :
  JobRepository.recover_stmt thr c d = Ok (n, d') ->
  jobs d !! k = Some j -> worker_heartbeats d !! hk = Some h ->
  Job.worker_id j = Some (WorkerHeartbeat.worker_id h) ->
  now c - WorkerHeartbeat.last_seen h <= thr * SECOND ->
  jobs d' !! k = Some j.
Proof.
  intros Hr Hk Hh Hw Hage. rewrite (recover_lookup _ _ _ _ _ _ Hr), Hk. simpl.
  destruct (JobRepository.held_by_stale (now c) thr d j) eqn:E; [|done].
  apply held_by_stale_true in E as (_ & w & Hw' & Hs). rewrite Hw in Hw'. simplify_eq.
  destruct (last_seen_of_ge d _ hk h Hh eq_refl) as (t & Ht & Hle).
  unfold JobRepository.stale_worker in Hs. rewrite Ht in Hs. bool_to_prop. lia.
Qed.

Definition held_db : Db := Fixture.with_jobs
  [ Fixture.held 20 Fixture.worker JobStatus.Running;
    Fixture.held 21 Fixture.dead_worker JobStatus.Claimed ].

Lemma recovery_exact_witness :
  let c := ctx_of (Fixture.env_at Fixture.noon 0) 0 in
  exists n d', JobRepository.recover_stmt 60 c held_db = Ok (n, d') /\
    Job.status <$> (jobs d' !! 21%N) = Some JobStatus.Queued.
Proof.
  intros c.
  destruct (JobRepository.recover_stmt 60 c held_db) as [[n d']|v] eqn:E; [|discriminate E].
  destruct (recovery_exact 60 c held_db d' n E) as (released & Hin & Hall & _ & _ & _).
  exists n, d'. split; [reflexivity|]. rewrite Hall. rewrite decide_True; [vm_compute; reflexivity|].
  apply Hin. exists (Fixture.held 21 Fixture.dead_worker JobStatus.Claimed).
  split; [vm_compute; reflexivity|]. split; [left; reflexivity|].
  exists Fixture.dead_worker. split; [reflexivity|].
  split; [eexists; vm_compute; reflexivity|]. intros i h Hi Hw.
  apply (map_Forall_lookup_1 (fun _ h => WorkerHeartbeat.worker_id h = Fixture.dead_worker ->
    60 * SECOND < now c - WorkerHeartbeat.last_seen h) (worker_heartbeats held_db)) with (i := i);
    [compute_decide|exact Hi|exact Hw].
Defined.

Lemma recovery_spares_live_workers_witness :
  let c := ctx_of (Fixture.env_at Fixture.noon 0) 0 in
  exists n d', JobRepository.recover_stmt 60 c held_db = Ok (n, d') /\
    jobs d' !! 20%N = Some (Fixture.held 20 Fixture.worker JobStatus.Running).
Proof.
  intros c.
  destruct (JobRepository.recover_stmt 60 c held_db) as [[n d']|v] eqn:E; [|discriminate E].
  exists n, d'. split; [reflexivity|].
  apply (recovery_spares_live_workers 60 c held_db d' n 20%N 41%N
    (Fixture.held 20 Fixture.worker JobStatus.Running)
    (WorkerHeartbeat.Mk 41 Fixture.worker Fixture.noon 0) E);
    [vm_compute; reflexivity|vm_compute; reflexivity|reflexivity|vm_compute; discriminate].
Defined.
