(* ===== verification/Repositories.v ===== *)
(** * The other repositories ([crates/repositories/src])

    Queues, workers and their heartbeats, outbox, dead-letter queue, users and
    refresh tokens, projects and memberships: one Module per repository, one
    Definition per query, in the order of the files. *)
From S2P Require Import Prelude Enums Entities RetryPolicy Db Fixture.

(** [ORDER BY name]: byte order, the [C] collation. *)
Definition name_order {A : Type} (name : A -> string) (a b : A) : Prop :=
  String.leb (name a) (name b) = true.
#[global] Instance name_order_dec {A : Type} (name : A -> string) a b :
  Decision (name_order name a b).
Proof. unfold name_order. apply _. Defined.

Module QueueRepository.

(** [QueueRepository::find_by_id] *)
Definition find_by_id (id : Uuid) : prog (result (option Queue.t) sqlx_error) :=
  sql (query (fun d => queues d !! id)).

(** [QueueRepository::list_by_project] *)
Definition list_by_project (project_id : Uuid) : prog (result (list Queue.t) sqlx_error) :=
  sql (query (fun d => order_by (name_order Queue.name)
    (select (fun q => bool_decide (Queue.project_id q = project_id)) (queues d)))).

(** [QueueRepository::create] *)
Definition create (project_id : Uuid) (name : string) (description : option string)
  (concurrency_limit : Z) (retry_policy_id : option Uuid)
  : prog (result Queue.t sqlx_error) :=
  sql (with_ctx (fun c => insert_row queues Queue.id queues_constraints
    (Queue.Mk (fresh c 0) project_id name description concurrency_limit retry_policy_id
       false None (now c) (now c)))).

Definition set_paused_stmt (queue_id : Uuid) (paused : bool) : stmt Z := with_ctx (fun c =>
  update_row queues queue_id (fun q =>
    q <| Queue.is_paused := paused |> <| Queue.updated_at := now c |>)).

(** [QueueRepository::set_paused] *)
Definition set_paused (queue_id : Uuid) (paused : bool) : prog (result unit sqlx_error) :=
  r <-? sql (set_paused_stmt queue_id paused) via (fun e => e) ;; Ret (Ok tt).

(** The right side of a [LEFT JOIN]: one row of NULLs when nothing matches. *)
Definition left_join_rows {A : Type} (l : list A) : list (option A) :=
  match l with [] => [None] | _ => Some <$> l end.

(** [FROM queues q LEFT JOIN jobs j ON ... LEFT JOIN dead_letter_queue d ON ...]:
    every pair of a job row and a dead-letter row of the queue. *)
Definition stats_rows (queue_id : Uuid) (d : Db)
  : list (option Job.t * option DeadLetterEntry.t) :=
  let js := select (fun j => bool_decide (Job.queue_id j = queue_id)) (jobs d) in
  let ds := select (fun x => bool_decide (DeadLetterEntry.queue_id x = queue_id))
              (dead_letter_queue d) in
  List.flat_map (fun j => List.map (fun x => (j, x)) (left_join_rows ds)) (left_join_rows js).

(** [COUNT(CASE WHEN j.status = s THEN 1 END)] *)
Definition count_status (s : JobStatus.t)
  (rows : list (option Job.t * option DeadLetterEntry.t)) : Z :=
  sql_count (fun r => match r.1 with
                      | Some j => bool_decide (Job.status j = s)
                      | None => false
                      end) rows.

Definition stats_of (queue_id : Uuid) (d : Db) : option QueueStats.t :=
  match queues d !! queue_id with
  | None => None
  | Some q =>
      let rows := stats_rows queue_id d in
      Some (QueueStats.Mk (Queue.id q) (Queue.name q)
        (count_status JobStatus.Queued rows) (count_status JobStatus.Running rows)
        (count_status JobStatus.Failed rows) (count_status JobStatus.Completed rows)
        (sql_count (fun r => is_some r.2) rows))
  end.

(** [QueueRepository::get_stats] *)
Definition get_stats (queue_id : Uuid) : prog (result QueueStats.t sqlx_error) :=
  fetch_one (query (stats_of queue_id)).

Definition running_count (queue_id : Uuid) (d : Db) : Z :=
  rows_affected (fun j => bool_decide (Job.queue_id j = queue_id)
    && bool_decide (Job.status j = JobStatus.Running)) (jobs d).

(** [QueueRepository::count_running_jobs] *)
Definition count_running_jobs (queue_id : Uuid) : prog (result Z sqlx_error) :=
  sql (query (running_count queue_id)).
End QueueRepository.

Module WorkerRepository.

Definition register_stmt (worker_id : Uuid) (name hostname : string) : stmt Worker.t :=
  fun c d =>
    let w := match workers d !! worker_id with
             | Some w => w <| Worker.is_active := true |> <| Worker.deregistered_at := None |>
             | None => Worker.Mk worker_id name hostname true (now c) None
             end in
    Ok (w, d <| workers ::= <[worker_id := w]> |>).

(** [WorkerRepository::register] *)
Definition register (worker_id : Uuid) (name hostname : string)
  : prog (result Worker.t sqlx_error) := sql (register_stmt worker_id name hostname).

Definition deregister_stmt (worker_id : Uuid) : stmt Z := with_ctx (fun c =>
  update_row workers worker_id (fun w =>
    w <| Worker.is_active := false |> <| Worker.deregistered_at := Some (now c) |>)).

(** [WorkerRepository::deregister] *)
Definition deregister (worker_id : Uuid) : prog (result unit sqlx_error) :=
  r <-? sql (deregister_stmt worker_id) via (fun e => e) ;; Ret (Ok tt).

(** [INSERT ... ON CONFLICT (worker_id) DO UPDATE ...] *)
Definition upsert_heartbeat_stmt (worker_id : Uuid) (active_jobs : Z) : stmt Z := fun c d =>
  let mine h := bool_decide (WorkerHeartbeat.worker_id h = worker_id) in
  if exists_row mine (worker_heartbeats d) then
    update_rows worker_heartbeats mine (fun h =>
      h <| WorkerHeartbeat.last_seen := now c |>
        <| WorkerHeartbeat.active_jobs := active_jobs |>) c d
  else
    let h := WorkerHeartbeat.Mk (fresh c 0) worker_id (now c) active_jobs in
    match first_violation
      [ (negb (has (worker_heartbeats d) (fresh c 0)), UniqueViolation "worker_heartbeats_pkey");
        (has (workers d) worker_id, ForeignKeyViolation "worker_id") ] with
    | Some v => Err v
    | None => Ok (1, d <| worker_heartbeats ::= <[fresh c 0 := h]> |>)
    end.

(** [WorkerRepository::upsert_heartbeat] *)
Definition upsert_heartbeat (worker_id : Uuid) (active_jobs : Z)
  : prog (result unit sqlx_error) :=
  r <-? sql (upsert_heartbeat_stmt worker_id active_jobs) via (fun e => e) ;; Ret (Ok tt).

Definition latest_seen_first (a b : WorkerHeartbeat.t) : Prop :=
  WorkerHeartbeat.last_seen b <= WorkerHeartbeat.last_seen a.
#[global] Instance latest_seen_first_dec a b : Decision (latest_seen_first a b).
Proof. unfold latest_seen_first. apply _. Defined.

(** [WorkerRepository::list_active] *)
Definition list_active : prog (result (list WorkerHeartbeat.t) sqlx_error) :=
  sql (query (fun d => order_by latest_seen_first
    (select (fun _ => true) (worker_heartbeats d)))).
End WorkerRepository.

Module OutboxRepository.

Definition insert_stmt (event : OutboxEvent.t) : stmt OutboxEvent.t := fun c d =>
  match cast_as "outbox_event_type"
          (OutboxEventType.cast (OutboxEventType.to_string (OutboxEvent.event_type event))) with
  | Err v => Err v
  | Ok ty =>
      insert_row outbox_events OutboxEvent.id outbox_events_constraints
        (OutboxEvent.Mk (OutboxEvent.id event) ty (OutboxEvent.aggregate_id event)
           (OutboxEvent.payload event) false None (OutboxEvent.created_at event)
           (OutboxEvent.correlation_id event)) c d
  end.

(** [OutboxRepository::insert_in_tx] *)
Definition insert_in_tx (event : OutboxEvent.t) : txm (result OutboxEvent.t sqlx_error) :=
  tx_sql (insert_stmt event).
End OutboxRepository.

Module DlqRepository.

(** [DlqRepository::insert] *)
Definition insert (entry : DeadLetterEntry.t) : prog (result unit sqlx_error) :=
  r <-? sql (insert_row dead_letter_queue DeadLetterEntry.id dead_letter_queue_constraints
       (entry <| DeadLetterEntry.manually_retried_at := None |>
              <| DeadLetterEntry.manually_retried_by := None |>)) via (fun e => e) ;;
  Ret (Ok tt).

Definition latest_moved_first (a b : DeadLetterEntry.t) : Prop :=
  DeadLetterEntry.moved_to_dlq_at b <= DeadLetterEntry.moved_to_dlq_at a.
#[global] Instance latest_moved_first_dec a b : Decision (latest_moved_first a b).
Proof. unfold latest_moved_first. apply _. Defined.

(** [DlqRepository::list_by_project] *)
Definition list_by_project (project_id : Uuid) (limit offset : Z)
  : prog (result (list DeadLetterEntry.t) sqlx_error) :=
  sql (page limit offset (fun d => order_by latest_moved_first
    (select (fun x => bool_decide (DeadLetterEntry.project_id x = project_id))
       (dead_letter_queue d)))).

(** [DlqRepository::find_by_id] *)
Definition find_by_id (dlq_id : Uuid) : prog (result (option DeadLetterEntry.t) sqlx_error) :=
  sql (query (fun d => dead_letter_queue d !! dlq_id)).

(** [SET manually_retried_at = NOW(), manually_retried_by = $2], a foreign key *)
Definition mark_retried_stmt (dlq_id retried_by : Uuid) : stmt Z := fun c d =>
  match dead_letter_queue d !! dlq_id with
  | None => Ok (0, d)
  | Some _ =>
      if has (users d) retried_by then
        update_row dead_letter_queue dlq_id (fun x =>
          x <| DeadLetterEntry.manually_retried_at := Some (now c) |>
            <| DeadLetterEntry.manually_retried_by := Some retried_by |>) c d
      else Err (ForeignKeyViolation "manually_retried_by")
  end.

(** [DlqRepository::mark_retried] *)
Definition mark_retried (dlq_id retried_by : Uuid) : prog (result unit sqlx_error) :=
  r <-? sql (mark_retried_stmt dlq_id retried_by) via (fun e => e) ;; Ret (Ok tt).
End DlqRepository.

Module UserRepository.

(** [UserRepository::find_by_email] *)
Definition find_by_email (email : string) : prog (result (option User.t) sqlx_error) :=
  sql (query (fun d => head (select (fun u => bool_decide (User.email u = email)) (users d)))).

(** [UserRepository::find_by_id] *)
Definition find_by_id (id : Uuid) : prog (result (option User.t) sqlx_error) :=
  sql (query (fun d => users d !! id)).

(** [UserRepository::create] *)
Definition create (email password_hash : string) (display_name : option string)
  : prog (result User.t sqlx_error) :=
  sql (with_ctx (fun c => insert_row users User.id users_constraints
    (User.Mk (fresh c 0) email password_hash display_name true (now c) (now c)))).

(** [UserRepository::store_refresh_token]: [revoked] and [created_at] take the
    column defaults. *)
Definition store_refresh_token (token : RefreshToken.t) : prog (result unit sqlx_error) :=
  r <-? sql (with_ctx (fun c => insert_row refresh_tokens RefreshToken.id
       refresh_tokens_constraints
       (RefreshToken.Mk (RefreshToken.id token) (RefreshToken.user_id token)
          (RefreshToken.token_hash token) (RefreshToken.expires_at token) false (now c))))
       via (fun e => e) ;;
  Ret (Ok tt).

Definition newest_token_first (a b : RefreshToken.t) : Prop :=
  RefreshToken.created_at b <= RefreshToken.created_at a.
#[global] Instance newest_token_first_dec a b : Decision (newest_token_first a b).
Proof. unfold newest_token_first. apply _. Defined.

Definition token_active (now : Timestamp) (r : RefreshToken.t) : bool :=
  negb (RefreshToken.revoked r) && (now <? RefreshToken.expires_at r).

Definition active_tokens_stmt : stmt (list RefreshToken.t) := with_ctx (fun c =>
  page 1000 0 (fun d => order_by newest_token_first
    (select (token_active (now c)) (refresh_tokens d)))).

(** [UserRepository::find_all_active_refresh_tokens] *)
Definition find_all_active_refresh_tokens : prog (result (list RefreshToken.t) sqlx_error) :=
  sql active_tokens_stmt.

(** [UserRepository::find_refresh_token] *)
Definition find_refresh_token (token_hash : string)
  : prog (result (option RefreshToken.t) sqlx_error) :=
  sql (query (fun d => head (select (fun r =>
    bool_decide (RefreshToken.token_hash r = token_hash) && negb (RefreshToken.revoked r))
    (refresh_tokens d)))).

Definition revoke_stmt (token_hash : string) : stmt Z :=
  update_rows refresh_tokens (fun r => bool_decide (RefreshToken.token_hash r = token_hash))
    (fun r => r <| RefreshToken.revoked := true |>).

(** [UserRepository::revoke_refresh_token] *)
Definition revoke_refresh_token (token_hash : string) : prog (result unit sqlx_error) :=
  r <-? sql (revoke_stmt token_hash) via (fun e => e) ;; Ret (Ok tt).
End UserRepository.

Module ProjectRepository.

(** [ProjectRepository::find_by_id] *)
Definition find_by_id (id : Uuid) : prog (result (option Project.t) sqlx_error) :=
  sql (query (fun d => projects d !! id)).

Definition insert_project_stmt (org_id : Uuid) (name slug : string)
  (description : option string) : stmt Project.t := with_ctx (fun c =>
  insert_row projects Project.id projects_constraints
    (Project.Mk (fresh c 0) org_id name slug description (now c) (now c))).

(** [ProjectRepository::create] *)
Definition create (org_id : Uuid) (name slug : string) (description : option string)
  : prog (result Project.t sqlx_error) := sql (insert_project_stmt org_id name slug description).

Definition role_of (d : Db) (project_id user_id : Uuid) : option UserRole.t :=
  ProjectMember.role <$> head (select (fun m =>
    bool_decide (ProjectMember.project_id m = project_id)
    && bool_decide (ProjectMember.user_id m = user_id)) (project_members d)).

(** [ProjectRepository::get_member_role] *)
Definition get_member_role (project_id user_id : Uuid)
  : prog (result (option UserRole.t) sqlx_error) :=
  sql (query (fun d => role_of d project_id user_id)).

(** [ProjectRepository::add_member] *)
Definition add_member (project_id user_id : Uuid) (role : UserRole.t)
  : prog (result ProjectMember.t sqlx_error) :=
  sql (fun c d =>
    match cast_as "user_role" (UserRole.cast (UserRole.to_string role)) with
    | Err v => Err v
    | Ok r => insert_row project_members ProjectMember.id project_members_constraints
                (ProjectMember.Mk (fresh c 0) project_id user_id r (now c)) c d
    end).

(** [ProjectRepository::list_by_user]: the projects joined with the user's
    memberships. *)
Definition list_by_user (user_id : Uuid) : prog (result (list Project.t) sqlx_error) :=
  sql (query (fun d => order_by (name_order Project.name)
    (omap (fun m => projects d !! ProjectMember.project_id m)
       (select (fun m => bool_decide (ProjectMember.user_id m = user_id))
          (project_members d))))).
End ProjectRepository.

(** ** Queue statistics *)

Section stats.
Import QueueRepository.

Lemma left_join_rows_length {A} (l : list A) :
  Z.of_nat (length (left_join_rows l)) = Z.max 1 (Z.of_nat (length l)).
Proof. destruct l; [done|]. unfold left_join_rows. rewrite length_fmap. simpl. lia. Qed.

Lemma left_join_rows_some {A} (l : list A) :
  length (List.filter is_some (left_join_rows l)) = length l.
Proof.
  destruct l as [|a l]; [done|].
  change (left_join_rows (a :: l)) with (Some <$> (a :: l)). generalize (a :: l). clear.
  induction l as [|a l IH]; csimpl; congruence.
Qed.

Lemma length_filter_map_pair {A B} (p : A * B -> bool) (a : A) (l : list B) (b : bool) :
  (forall x, p (a, x) = b) ->
  length (List.filter p (List.map (fun x => (a, x)) l)) = if b then length l else 0%nat.
Proof.
  intros Hp. induction l as [|x l IH]; simpl; [by destruct b|].
  rewrite Hp. destruct b; simpl; congruence.
Qed.

(** A count over the left columns of a product is repeated for every right row. *)
Lemma product_count_l {A B} (p : A -> bool) (l : list A) (m : list B) :
  length (List.filter (fun r => p r.1) (List.flat_map (fun a => List.map (fun b => (a, b)) m) l))
  = (length (List.filter p l) * length m)%nat.
Proof.
  induction l as [|a l IH]; simpl; [done|]. rewrite List.filter_app, length_app, IH.
  rewrite (length_filter_map_pair _ a m (p a)) by done. destruct (p a); simpl; lia.
Qed.

Lemma length_filter_map_r {A B} (p : B -> bool) (a : A) (m : list B) :
  length (List.filter (fun r => p r.2) (List.map (fun b => (a, b)) m))
  = length (List.filter p m).
Proof. induction m as [|b m IH]; simpl; [done|]. destruct (p b); simpl; congruence. Qed.

Lemma product_count_r {A B} (p : B -> bool) (l : list A) (m : list B) :
  length (List.filter (fun r => p r.2) (List.flat_map (fun a => List.map (fun b => (a, b)) m) l))
  = (length l * length (List.filter p m))%nat.
Proof.
  induction l as [|a l IH]; simpl; [done|].
  by rewrite List.filter_app, length_app, IH, length_filter_map_r.
Qed.

Lemma left_join_count {A} (p : A -> bool) (l : list A) :
  length (List.filter (fun o => match o with Some a => p a | None => false end)
    (left_join_rows l)) = length (List.filter p l).
Proof.
  destruct l as [|a l]; [done|].
  change (left_join_rows (a :: l)) with (Some <$> (a :: l)). generalize (a :: l). clear.
  induction l as [|a l IH]; csimpl; [done|]. destruct (p a); csimpl; congruence.
Qed.
End stats.

(** The dashboard's counters of a queue are not the counts they are named
    after once the queue has dead-letter entries: the query joins jobs and
    dead-letter entries, so each job counter is the number of jobs in that
    status times the number of dead-letter entries (times one when there is
    none), and [dlq_count] is the number of entries times the number of jobs. *)
Theorem queue_stats_multiply (queue_id : Uuid) (d : Db) (q : Queue.t) (st : QueueStats.t) :
  queues d !! queue_id = Some q -> QueueRepository.stats_of queue_id d = Some st ->
  let js := select (fun j => bool_decide (Job.queue_id j = queue_id)) (jobs d) in
  let entries := Z.of_nat (length (select
    (fun x => bool_decide (DeadLetterEntry.queue_id x = queue_id)) (dead_letter_queue d))) in
  let count s := sql_count (fun j => bool_decide (Job.status j = s)) js in
  QueueStats.queued_count st = count JobStatus.Queued * Z.max 1 entries /\
  QueueStats.running_count st = count JobStatus.Running * Z.max 1 entries /\
  QueueStats.failed_count st = count JobStatus.Failed * Z.max 1 entries /\
  QueueStats.completed_count st = count JobStatus.Completed * Z.max 1 entries /\
  QueueStats.dlq_count st = Z.max 1 (Z.of_nat (length js)) * entries.
Proof.
  intros Hq Hst js entries count. unfold QueueRepository.stats_of in Hst. rewrite Hq in Hst.
  injection Hst as <-. simpl.
  assert (forall s, QueueRepository.count_status s (QueueRepository.stats_rows queue_id d)
    = count s * Z.max 1 entries) as Hcount.
  { intros s. unfold QueueRepository.count_status, QueueRepository.stats_rows, sql_count, count.
    fold js. rewrite (product_count_l (fun o => match o with
      | Some j => bool_decide (Job.status j = s) | None => false end)).
    rewrite left_join_count, Nat2Z.inj_mul, left_join_rows_length. done. }
  rewrite !Hcount. split_and!; [done..|].
  unfold QueueRepository.stats_rows, sql_count, entries. fold js.
  rewrite product_count_r, left_join_rows_some, Nat2Z.inj_mul, left_join_rows_length. done.
Qed.

(** Two jobs and two dead-letter entries: one queued job is reported as two,
    two entries as four. *)
Definition stats_db : Db := Fixture.with_dlq [Fixture.dead 50 20; Fixture.dead 51 20]
  (Fixture.with_jobs [ Fixture.job 20 JobStatus.Failed JobPriority.Normal 0;
                       Fixture.job 21 JobStatus.Queued JobPriority.Normal 0 ]).

Lemma queue_stats_multiply_witness :
  exists st, QueueRepository.stats_of Fixture.queue stats_db = Some st /\
    QueueStats.queued_count st = 2 /\ QueueStats.dlq_count st = 4.
Proof.
  destruct (QueueRepository.stats_of Fixture.queue stats_db) as [st|] eqn:E; [|discriminate E].
  assert (queues stats_db !! Fixture.queue = Some (Fixture.queue_row 1 false)) as Hq
    by (vm_compute; reflexivity).
  destruct (queue_stats_multiply Fixture.queue stats_db _ st Hq E) as (H1 & _ & _ & _ & H2).
  exists st. split; [reflexivity|]. rewrite H1, H2. split; vm_compute; reflexivity.
Defined.
