(* ===== verification/Externals.v ===== *)
(** * Third-party code the sources call

    One class per crate: its functions are arguments of the definitions that
    use them, and a second class states the documented behaviour the theorems
    rely on. [Toy] instances, at the end, show the laws can hold. *)
From Stdlib Require Import Ascii NArith DecimalN DecimalString.
From S2P Require Import Prelude Enums Entities.

(** [uuid]: [Uuid::to_string] and [Uuid::parse_str]. *)
Class UuidText := {
  uuid_to_string : Uuid -> string;
  parse_str : string -> option Uuid;
}.
(** A UUID is written with lower-case hexadecimal digits and hyphens. *)
Definition uuid_char (c : Ascii.ascii) : bool :=
  let n := Ascii.nat_of_ascii c in
  ((48 <=? n) && (n <=? 57) || (97 <=? n) && (n <=? 102) || (n =? 45))%nat.
Class UuidTextSpec `{!UuidText} : Prop := {
  parse_to_string u : parse_str (uuid_to_string u) = Some u;
  to_string_chars u : forallb uuid_char (String.list_ascii_of_string (uuid_to_string u)) = true;
  parse_empty : parse_str "" = None;
  to_string_long u : (36 <= String.length (uuid_to_string u))%nat;
}.

(** [chrono] with [serde]: the RFC 3339 text a timestamp is serialized to. *)
Class ChronoText := { rfc3339 : Timestamp -> string }.

(** [chrono]: [t + Duration::seconds(n)], [None] where it panics: a number of
    seconds that a [Duration] cannot hold, or a sum outside the calendar. *)
Class Chrono := { add_seconds : Timestamp -> Z -> option Timestamp }.
(** Year 9999, well inside chrono's calendar. *)
Definition YEAR_10000 : Timestamp := 253402300800 * SECOND.
Class ChronoSpec `{!Chrono} : Prop := {
  add_seconds_in_calendar t n : 0 <= t < YEAR_10000 -> 0 <= n <= 10 ^ 9 ->
    add_seconds t n = Some (t + n * SECOND);
  add_seconds_out_of_range t n : I64_MAX / 1000 < Z.abs n -> add_seconds t n = None;
}.

(** [redis]: whether [Client::open] accepts a URL. *)
Class RedisUrl := { client_open : string -> bool }.

(** [serde_json]: [Value::to_string]. *)
Class JsonText := { json_to_string : Value -> string }.

(** [cron]: parsing an expression, and the first occurrence of a schedule after
    an instant ([schedule.upcoming(Utc).next()]). *)
Class Cron := {
  Schedule : Type;
  cron_parse : string -> option Schedule;
  upcoming : Schedule -> Timestamp -> option Timestamp;
}.
Class CronSpec `{!Cron} : Prop := {
  upcoming_after s t t' : upcoming s t = Some t' -> t < t';
}.

(** [bcrypt]: [hash(password, cost)] with the salt it draws, and [verify]. *)
Class Bcrypt := {
  bcrypt_hash : string -> Z -> N -> result string string;
  bcrypt_verify : string -> string -> result bool string;
}.
Class BcryptSpec `{!Bcrypt} : Prop := {
  verify_hash password cost salt h :
    bcrypt_hash password cost salt = Ok h -> bcrypt_verify password h = Ok true;
}.

(** The claims of an access token ([services::auth_service::Claims]). *)
Module Claims.
Record t := Mk { sub : string; email : string; exp : Z; iat : Z }.
End Claims.

(** [jsonwebtoken]: [encode] with a secret, and [decode] with the default
    validation at the second [now]: the signature is checked, and [exp] with a
    leeway of 60 seconds. *)
Class Jwt := {
  jwt_encode : Claims.t -> string -> result string string;
  jwt_decode : string -> string -> Z -> option Claims.t;
}.
Definition JWT_LEEWAY : Z := 60.
Class JwtSpec `{!Jwt} : Prop := {
  jwt_decode_encode claims secret token now : jwt_encode claims secret = Ok token ->
    jwt_decode token secret now =
      if now - JWT_LEEWAY <=? Claims.exp claims then Some claims else None;
}.

(** ** Instances for evaluation *)

Module Toy.
Definition decimal (n : N) : string := NilEmpty.string_of_uint (N.to_uint n).
Definition of_decimal (s : string) : option N := N.of_uint <$> NilEmpty.uint_of_string s.

Lemma of_decimal_decimal n : of_decimal (decimal n) = Some n.
Proof.
  unfold decimal, of_decimal. rewrite NilEmpty.usu. simpl. by rewrite DecimalN.Unsigned.of_to.
Qed.

(** A UUID is written in decimal, with leading zeros. *)
Fixpoint zeros (n : nat) (s : string) : string :=
  match n with O => s | S n => String "0"%char (zeros n s) end.

#[export] Instance uuid_text : UuidText := {|
  uuid_to_string := fun u => zeros (36 - String.length (decimal u)) (decimal u);
  parse_str := fun s => match s with EmptyString => None | _ => of_decimal s end |}.

Lemma of_decimal_zeros n s : of_decimal (zeros n s) = of_decimal s.
Proof.
  induction n as [|n IH]; [done|]. rewrite <- IH. unfold of_decimal. simpl.
  by destruct (NilEmpty.uint_of_string (zeros n s)).
Qed.
Lemma length_zeros n s : String.length (zeros n s) = (n + String.length s)%nat.
Proof. induction n; simpl; [done|]. by f_equal. Qed.
Lemma chars_zeros n s : forallb uuid_char (String.list_ascii_of_string (zeros n s)) =
  forallb uuid_char (String.list_ascii_of_string s).
Proof. by induction n. Qed.
Lemma chars_uint d : forallb uuid_char (String.list_ascii_of_string (NilEmpty.string_of_uint d)) = true.
Proof. by induction d. Qed.

#[export] Instance uuid_text_spec : UuidTextSpec.
Proof.
  assert (forall u, (36 <= String.length (uuid_to_string u))%nat) as Hlong
    by (intros u; simpl; rewrite length_zeros; lia).
  split; try done; intros u.
  - pose proof (Hlong u) as Hu. cbn [parse_str uuid_text]. destruct (uuid_to_string u) eqn:E; [simpl in Hu; lia|].
    rewrite <- E. cbn [uuid_to_string uuid_text]. by rewrite of_decimal_zeros, of_decimal_decimal.
  - simpl. rewrite chars_zeros. apply chars_uint.
Qed.

#[export] Instance chrono_text : ChronoText := {| rfc3339 := fun t => decimal (Z.to_N t) |}.

#[export] Instance chrono : Chrono := {| add_seconds := fun t n =>
  if (Z.abs n <=? I64_MAX / 1000) && (Z.abs (t + n * SECOND) <=? 32 * YEAR_10000)
  then Some (t + n * SECOND) else None |}.
#[export] Instance chrono_spec : ChronoSpec.
Proof.
  split; intros t n; simpl.
  - intros Ht Hn. unfold YEAR_10000, SECOND, I64_MAX in *.
    replace ((2 ^ 63 - 1) / 1000) with 9223372036854775 by reflexivity.
    destruct (Z.leb_spec (Z.abs n) 9223372036854775); [|lia].
    destruct (Z.leb_spec (Z.abs (t + n * 1000000)) (32 * (253402300800 * 1000000))); [done|lia].
  - intros Hn. by destruct (Z.leb_spec (Z.abs n) (I64_MAX / 1000)); [lia|].
Qed.

#[export] Instance redis_url : RedisUrl := {| client_open := fun _ => true |}.

(** The strings of a value, in order. *)
Fixpoint value_strings (v : Value) : string :=
  match v with
  | VNull => "null"
  | VBool b => if b then "true" else "false"
  | VNumber n => decimal (Z.to_N n)
  | VString s => s
  | VArray l => String.concat "," (map value_strings l)
  | VObject fields => String.concat "," (map (fun kv => value_strings kv.2) fields)
  end.
#[export] Instance json_text : JsonText := {| json_to_string := value_strings |}.

(** A schedule is a period in seconds, in decimal. *)
#[export] Instance cron : Cron := {|
  Schedule := N;
  cron_parse := fun x => match of_decimal x with Some 0%N | None => None | Some n => Some n end;
  upcoming := fun period t => if (0 <? period)%N then Some (t + Z.of_N period * SECOND) else None |}.
#[export] Instance cron_spec : CronSpec.
Proof.
  split. intros s t t'. simpl. destruct (N.ltb_spec 0 s); [|done]. intros [= <-].
  unfold SECOND. lia.
Qed.

#[export] Instance bcrypt : Bcrypt := {|
  bcrypt_hash := fun p _ salt => Ok (p +:+ "$" +:+ decimal salt);
  bcrypt_verify := fun p h => Ok (String.prefix (p +:+ "$") h) |}.

Lemma prefix_app a b : String.prefix a (a +:+ b) = true.
Proof. induction a as [|c a IH]; simpl; [by destruct b|]. destruct (Ascii.ascii_dec c c); done. Qed.

#[export] Instance bcrypt_spec : BcryptSpec.
Proof.
  split. intros p cost salt h. simpl. intros [= <-]. f_equal.
  change (String.prefix (p +:+ "$") (p +:+ ("$" +:+ decimal salt)) = true).
  by rewrite app_string_assoc, prefix_app.
Qed.

(** A token is the claims and the secret, in binary. *)
Fixpoint binary (p : positive) : string :=
  match p with
  | xH => ""
  | xO p => String "0"%char (binary p)
  | xI p => String "1"%char (binary p)
  end.
Fixpoint of_binary (s : string) : positive :=
  match s with
  | EmptyString => xH
  | String c s => if Ascii.eqb c "1"%char then xI (of_binary s) else xO (of_binary s)
  end.
Lemma of_binary_binary p : of_binary (binary p) = p.
Proof. by induction p as [p IH|p IH|]; simpl; rewrite ?IH. Qed.

#[export] Instance jwt : Jwt := {|
  jwt_encode := fun c secret => Ok (binary (encode
    (Claims.sub c, Claims.email c, Claims.exp c, Claims.iat c, secret)));
  jwt_decode := fun token secret now =>
    match decode (A:=string * string * Z * Z * string) (of_binary token) with
    | Some (s, e, x, i, secret') =>
        if bool_decide (secret' = secret) && (now - JWT_LEEWAY <=? x)
        then Some (Claims.Mk s e x i) else None
    | None => None
    end |}.
#[export] Instance jwt_spec : JwtSpec.
Proof.
  split. intros claims secret token now. simpl. intros [= <-].
  rewrite of_binary_binary, decode_encode, bool_decide_eq_true_2 by done. simpl. by destruct claims.
Qed.
End Toy.
