(* ===== verification/JobService.v ===== *)
(** * Job service ([crates/services/src/job_service.rs])

    Job creation (idempotency check, queue and role checks, the factory that
    chooses the initial state, the insertion), the reads, and cancellation. *)
From S2P Require Import Prelude Enums Entities RetryPolicy Db Fixture Steps JobRepository.
From S2P Require Import Repositories Externals.

Module CreateJobRequest.
Record t := Mk {
  name : string;
  payload : Value;
  job_type : JobType.t;
  priority : option JobPriority.t;
  max_attempts : option Z;
  scheduled_at : option Timestamp;
  cron_expression : option string;
  idempotency_key : option string;
  batch_id : option Uuid;
  retry_policy_id : option Uuid;
}.
End CreateJobRequest.

Module JobServiceError.
Inductive t :=
| QueueNotFound (queue_id : Uuid)
| QueuePaused (queue_id : Uuid)
| Forbidden
| InvalidCronExpression (expr : string)
| Database (e : sqlx_error).
End JobServiceError.

Module JobService.
Import JobServiceError.

(** The factory: initial status and schedule of each job type. *)
Definition initial_state (req : CreateJobRequest.t) : JobStatus.t * option Timestamp :=
  match CreateJobRequest.job_type req with
  | JobType.Immediate => (JobStatus.Queued, None)
  | JobType.Delayed | JobType.Scheduled =>
      (JobStatus.Scheduled, CreateJobRequest.scheduled_at req)
  | JobType.Recurring => (JobStatus.Queued, None)
  | JobType.Batch => (JobStatus.Queued, None)
  end.

(** The cron check of recurring jobs: the error, if any. *)
Definition cron_error `{!Cron} (req : CreateJobRequest.t) : option JobServiceError.t :=
  if bool_decide (CreateJobRequest.job_type req = JobType.Recurring) then
    match CreateJobRequest.cron_expression req with
    | Some expr => if is_some (cron_parse expr) then None else Some (InvalidCronExpression expr)
    | None => None
    end
  else None.

(** [INSERT INTO jobs ... RETURNING ...] *)
Definition insert_job_stmt (queue_id project_id : Uuid) (req : CreateJobRequest.t)
  (status : JobStatus.t) (priority : JobPriority.t) (max_attempts : Z)
  (scheduled_at : option Timestamp) (correlation_id : Uuid)
  (retry_policy_id : option Uuid) : stmt Job.t := fun c d =>
  match cast_as "job_type" (JobType.cast (JobType.to_string (CreateJobRequest.job_type req))),
        cast_as "job_status" (JobStatus.cast (JobStatus.to_string status)),
        cast_as "job_priority" (JobPriority.cast (JobPriority.to_string priority)) with
  | Ok ty, Ok st, Ok pr =>
      insert_row jobs Job.id jobs_constraints
        (Job.Mk (fresh c 0) queue_id project_id ty (CreateJobRequest.name req)
           (CreateJobRequest.payload req) st pr 0 max_attempts scheduled_at None
           (CreateJobRequest.cron_expression req) None None
           (CreateJobRequest.idempotency_key req) correlation_id
           (CreateJobRequest.batch_id req) retry_policy_id (now c) (now c) None) c d
  | Err v, _, _ | _, Err v, _ | _, _, Err v => Err v
  end.

(** [JobService::create_job] *)
Definition create_job `{!Cron} (queue_id user_id : Uuid) (req : CreateJobRequest.t)
  : prog (result Job.t JobServiceError.t) :=
  existing <-? match CreateJobRequest.idempotency_key req with
               | Some key => JobRepository.find_by_idempotency_key key queue_id
               | None => Ret (Ok None)
               end via Database ;;
  match existing with
  | Some existing => Ret (Ok existing)
  | None =>
    queue <-? QueueRepository.find_by_id queue_id via Database ;;
    queue <-! queue else QueueNotFound queue_id ;;
    if negb (Queue.is_accepting_jobs queue) then Ret (Err (QueuePaused queue_id)) else
    role <-? ProjectRepository.get_member_role (Queue.project_id queue) user_id via Database ;;
    role <-! role else Forbidden ;;
    if bool_decide (role = UserRole.Viewer) then Ret (Err Forbidden) else
    correlation_id <- new_v4 ;;
    let priority := unwrap_or (CreateJobRequest.priority req) JobPriority.default in
    let max_attempts := unwrap_or (CreateJobRequest.max_attempts req) 3 in
    let '(status, scheduled_at) := initial_state req in
    match cron_error req with
    | Some e => Ret (Err e)
    | None =>
      let retry_policy_id :=
        option_or (CreateJobRequest.retry_policy_id req) (Queue.retry_policy_id queue) in
      job <-? sql (insert_job_stmt queue_id (Queue.project_id queue) req status priority
                     max_attempts scheduled_at correlation_id retry_policy_id) via Database ;;
      Ret (Ok job)
    end
  end.

(** [JobService::get_job] *)
Definition get_job (job_id : Uuid) : prog (result (option Job.t) sqlx_error) :=
  JobRepository.find_by_id job_id.

(** [JobService::list_jobs] *)
Definition list_jobs (queue_id : Uuid) (limit offset : Z)
  : prog (result (list JobSummary.t) sqlx_error) :=
  JobRepository.list_by_queue queue_id limit offset.

(** [JobService::list_executions] *)
Definition list_executions (job_id : Uuid)
  : prog (result (list JobExecution.t) sqlx_error) := JobRepository.list_executions job_id.

(** [UPDATE jobs SET status = 'failed' WHERE id = $1 AND status IN (...)] *)
Definition cancellable (s : JobStatus.t) : bool :=
  match s with
  | JobStatus.Pending | JobStatus.Queued | JobStatus.Scheduled => true
  | _ => false
  end.

Definition cancel_stmt (job_id : Uuid) : stmt Z := fun c d =>
  match jobs d !! job_id with
  | Some j =>
      if cancellable (Job.status j) then
        update_row jobs job_id (fun j =>
          j <| Job.status := JobStatus.Failed |> <| Job.updated_at := now c |>) c d
      else Ok (0, d)
  | None => Ok (0, d)
  end.

(** [JobService::cancel_job] *)
Definition cancel_job (job_id user_id : Uuid) : prog (result unit JobServiceError.t) :=
  job <-? JobRepository.find_by_id job_id via Database ;;
  job <-! job else QueueNotFound job_id ;;
  role <-? ProjectRepository.get_member_role (Job.project_id job) user_id via Database ;;
  role <-! role else Forbidden ;;
  if bool_decide (role = UserRole.Viewer) then Ret (Err Forbidden) else
  r <-? sql (cancel_stmt job_id) via Database ;;
  Ret (Ok tt).
End JobService.

(** ** Creation *)

(** The user is an admin or a member of the project. *)
Definition writer (d : Db) (project_id user_id : Uuid) : Prop :=
  ProjectRepository.role_of d project_id user_id = Some UserRole.Admin \/
  ProjectRepository.role_of d project_id user_id = Some UserRole.Member.

Lemma writer_intro d p u role :
  ProjectRepository.role_of d p u = Some role -> bool_decide (role = UserRole.Viewer) = false ->
  writer d p u.
Proof. unfold writer. intros ->. destruct role; naive_solver. Qed.

(** The row [create_job] builds for a request, from the queue it found. *)
Definition new_job (c : Ctx) (q : Queue.t) (queue_id correlation_id : Uuid)
  (req : CreateJobRequest.t) : Job.t :=
  Job.Mk (fresh c 0) queue_id (Queue.project_id q) (CreateJobRequest.job_type req)
    (CreateJobRequest.name req) (CreateJobRequest.payload req)
    (JobService.initial_state req).1
    (unwrap_or (CreateJobRequest.priority req) JobPriority.Normal) 0
    (unwrap_or (CreateJobRequest.max_attempts req) 3) (JobService.initial_state req).2 None
    (CreateJobRequest.cron_expression req) None None (CreateJobRequest.idempotency_key req)
    correlation_id (CreateJobRequest.batch_id req)
    (option_or (CreateJobRequest.retry_policy_id req) (Queue.retry_policy_id q))
    (now c) (now c) None.

Section creation.
Context `{!Cron}.
Import JobService.

Lemma insert_job_stmt_eq queue_id q req corr c d :
  insert_job_stmt queue_id (Queue.project_id q) req (initial_state req).1
    (unwrap_or (CreateJobRequest.priority req) JobPriority.default)
    (unwrap_or (CreateJobRequest.max_attempts req) 3) (initial_state req).2 corr
    (option_or (CreateJobRequest.retry_policy_id req) (Queue.retry_policy_id q)) c d
  = insert_row jobs Job.id jobs_constraints (new_job c q queue_id corr req) c d.
Proof.
  unfold insert_job_stmt. autorewrite with casts. done.
Qed.

Definition keyed_job (d : Db) (key : string) (queue_id : Uuid) : option Job.t :=
  head (select (fun j => bool_decide (Job.idempotency_key j = Some key)
    && bool_decide (Job.queue_id j = queue_id)) (jobs d)).

(** The part of [create_job] after the idempotency check. *)
Definition create_checked (queue_id user_id : Uuid) (req : CreateJobRequest.t)
  : prog (result Job.t JobServiceError.t) :=
  queue <-? QueueRepository.find_by_id queue_id via JobServiceError.Database ;;
  queue <-! queue else JobServiceError.QueueNotFound queue_id ;;
  if negb (Queue.is_accepting_jobs queue)
  then Ret (Err (JobServiceError.QueuePaused queue_id)) else
  role <-? ProjectRepository.get_member_role (Queue.project_id queue) user_id
    via JobServiceError.Database ;;
  role <-! role else JobServiceError.Forbidden ;;
  if bool_decide (role = UserRole.Viewer) then Ret (Err JobServiceError.Forbidden) else
  correlation_id <- new_v4 ;;
  let priority := unwrap_or (CreateJobRequest.priority req) JobPriority.default in
  let max_attempts := unwrap_or (CreateJobRequest.max_attempts req) 3 in
  let '(status, scheduled_at) := initial_state req in
  match cron_error req with
  | Some e => Ret (Err e)
  | None =>
    let retry_policy_id :=
      option_or (CreateJobRequest.retry_policy_id req) (Queue.retry_policy_id queue) in
    job <-? sql (insert_job_stmt queue_id (Queue.project_id queue) req status priority
                   max_attempts scheduled_at correlation_id retry_policy_id)
      via JobServiceError.Database ;;
    Ret (Ok job)
  end.

Lemma create_checked_cases q u req env n w r w' n' ts :
  exec (create_checked q u req) env n w = (r, w', n', ts) ->
  w' = w /\ (exists e, r = Returned (Err e)) \/
  exists queue corr c, queues (w_db w) !! q = Some queue /\ Queue.is_paused queue = false /\
    writer (w_db w) (Queue.project_id queue) u /\ cron_error req = None /\
    Forall (fun x => x.1 = true) (jobs_constraints (w_db w) (new_job c queue q corr req)) /\
    w' = w <| w_db ::= set_field jobs
      (insert (Job.id (new_job c queue q corr req)) (new_job c queue q corr req)) |> /\
    (r = Returned (Ok (new_job c queue q corr req)) \/
     r = Returned (Err (JobServiceError.Database Io))).
Proof.
  unfold create_checked, QueueRepository.find_by_id, ProjectRepository.get_member_role.
  intros Hx. exec_read Hx; [|simplify_eq/=; eauto].
  destruct (queues (w_db w) !! q) as [queue|] eqn:Hq; [|simplify_eq/=; eauto].
  destruct (negb (Queue.is_accepting_jobs queue)) eqn:Hp; [simplify_eq/=; eauto|].
  exec_read Hx; [|simplify_eq/=; eauto].
  destruct (ProjectRepository.role_of _ _ u) as [role|] eqn:Hr; [|simplify_eq/=; eauto].
  destruct (bool_decide (role = UserRole.Viewer)) eqn:Hv; [simplify_eq/=; eauto|].
  rewrite exec_new_v4, (surjective_pairing (initial_state req)) in Hx.
  cbv beta iota zeta in Hx. destruct (cron_error req) eqn:Hc; [simplify_eq/=; eauto|].
  match type of Hx with exec (bind (sql ?s) ?k) _ ?m _ = _ =>
    destruct (exec_sql s k env m w) as (r1 & w1 & Hs & Ho) end.
  rewrite Hs in Hx. clear Hs. apply negb_false_iff, negb_true_iff in Hp.
  destruct Ho as [|v err _|a d Hi|a d Hi]; [simplify_eq/=; eauto..| |];
    rewrite insert_job_stmt_eq in Hi; apply insert_row_Ok in Hi as (-> & Hall & ->);
    simplify_eq/=; right; eexists _, _, _;
    (split_and!; [done|done|by eapply writer_intro|done|exact Hall|reflexivity|]); auto.
Qed.

Lemma create_job_cases q u req env n w r w' n' ts :
  exec (create_job q u req) env n w = (r, w', n', ts) ->
  w' = w /\ (exists e, r = Returned (Err e)) \/
  (exists key j, CreateJobRequest.idempotency_key req = Some key /\
     keyed_job (w_db w) key q = Some j /\ w' = w /\ r = Returned (Ok j)) \/
  (forall key, CreateJobRequest.idempotency_key req = Some key ->
     keyed_job (w_db w) key q = None) /\
  exists m, exec (create_checked q u req) env m w = (r, w', n', ts).
Proof.
  unfold create_job. destruct (CreateJobRequest.idempotency_key req) as [key|] eqn:Hkey.
  - unfold JobRepository.find_by_idempotency_key. intros Hx. exec_read Hx.
    + fold (keyed_job (w_db w) key q) in Hx.
      destruct (keyed_job (w_db w) key q) as [j|] eqn:Hj.
      * simplify_eq/=. right. left. eauto 10.
      * right. right. split; [intros ? [= <-]; done|]. eexists. exact Hx.
    + simplify_eq/=. left. eauto.
  - intros Hx. right. right. split; [done|]. eexists. exact Hx.
Qed.
End creation.

(** A status a job is created with. *)
Definition created_status (ty : JobType.t) : JobStatus.t :=
  match ty with
  | JobType.Delayed | JobType.Scheduled => JobStatus.Scheduled
  | _ => JobStatus.Queued
  end.

Lemma initial_state_status req :
  (JobService.initial_state req).1 = created_status (CreateJobRequest.job_type req).
Proof. unfold JobService.initial_state. by destruct (CreateJobRequest.job_type req). Qed.

(** C13: whatever the faults and the times, [create_job] either leaves the store
    alone or adds exactly one row, and then the queue exists and is not paused,
    the user is an admin or member of its project, a recurring job's cron
    expression parses, and the row is a fresh job of that queue and project:
    no attempt, no worker, scheduled for delayed and scheduled jobs and queued
    otherwise. A row that was added is returned, unless the answer was lost. *)
Theorem create_job_safe `{!Cron} (queue_id user_id : Uuid) (req : CreateJobRequest.t)
  (env : nat -> Env) (w w' : World) (r : outcome (result Job.t JobServiceError.t)) :
  run (JobService.create_job queue_id user_id req) env w = (r, w') ->
  w' = w \/
  exists q j,
    queues (w_db w) !! queue_id = Some q /\ Queue.is_paused q = false /\
    writer (w_db w) (Queue.project_id q) user_id /\
    JobService.cron_error req = None /\
    jobs (w_db w) !! Job.id j = None /\
    Job.queue_id j = queue_id /\ Job.project_id j = Queue.project_id q /\
    Job.attempt_count j = 0 /\ Job.worker_id j = None /\
    Job.status j = created_status (CreateJobRequest.job_type req) /\
    w' = w <| w_db ::= fun d => d <| jobs ::= <[Job.id j := j]> |> |> /\
    (r = Returned (Ok j) \/ r = Returned (Err (JobServiceError.Database Io))).
Proof.
  intros (n' & ts & Hx)%run_exec.
  apply create_job_cases in Hx as [[? _]|[(? & ? & _ & _ & ? & _)|[_ [m Hx]]]]; [by left..|].
  apply create_checked_cases in Hx as [[? _]|(q & corr & c & Hq & Hp & Hw & Hcron & Hall & Hw' & Hr)];
    [by left|right].
  exists q, (new_job c q queue_id corr req). apply Forall_cons in Hall as [Hid _]; simpl in Hid.
  apply negb_true_iff, has_false in Hid.
  split_and!; try done. apply initial_state_status.
Qed.

(** ** Idempotent submission *)

(** No two jobs of a queue share an idempotency key: the [UNIQUE] constraint. *)
Definition unique_keys (d : Db) : Prop := forall k1 k2 j1 j2 key,
  jobs d !! k1 = Some j1 -> jobs d !! k2 = Some j2 ->
  Job.queue_id j1 = Job.queue_id j2 ->
  Job.idempotency_key j1 = Some key -> Job.idempotency_key j2 = Some key -> k1 = k2.

Lemma keyed_job_Some d key q j : keyed_job d key q = Some j ->
  (exists k, jobs d !! k = Some j) /\ Job.idempotency_key j = Some key /\ Job.queue_id j = q.
Proof.
  unfold keyed_job. intros Hh. pose proof Hh as Hx.
  destruct (select _ _) as [|j' l] eqn:E; simplify_eq/=.
  assert (j ∈ j :: l) as Hin by set_solver. rewrite <- E in Hin.
  apply elem_of_select in Hin as [Hp Hk]. bool_to_prop. auto.
Qed.

Lemma keyed_job_unique d key k j : unique_keys d -> jobs d !! k = Some j ->
  Job.idempotency_key j = Some key -> keyed_job d key (Job.queue_id j) = Some j.
Proof.
  intros Hu Hk Hkey. destruct (keyed_job d key (Job.queue_id j)) as [j'|] eqn:E.
  - apply keyed_job_Some in E as ([k' Hk'] & Hkey' & Hq).
    assert (k' = k) as -> by (eapply Hu; eauto). congruence.
  - exfalso. unfold keyed_job in E. destruct (select _ _) as [|? ?] eqn:Es; [|done].
    cut (j ∈ @nil Job.t); [set_solver|]. rewrite <- Es. apply elem_of_select.
    rewrite !bool_decide_eq_true_2 by done. eauto.
Qed.

Lemma jobs_constraints_key d j : Forall (fun x => x.1 = true) (jobs_constraints d j) ->
  forall key k j', Job.idempotency_key j = Some key -> jobs d !! k = Some j' ->
    Job.idempotency_key j' = Some key -> Job.queue_id j' <> Job.queue_id j.
Proof.
  intros (_ & [Hu _]%Forall_cons)%Forall_cons key k j' Hkey Hk Hkey' Hq. simpl in Hu.
  rewrite Hkey in Hu. apply negb_true_iff in Hu.
  pose proof (proj1 (exists_row_false _ _) Hu k j' Hk) as Hf. simpl in Hf.
  rewrite !bool_decide_eq_true_2 in Hf by done. done.
Qed.

Lemma insert_unique_keys d j : unique_keys d ->
  Forall (fun x => x.1 = true) (jobs_constraints d j) ->
  unique_keys (d <| jobs ::= <[Job.id j := j]> |>).
Proof.
  intros Hu Hc k1 k2 j1 j2 key. simpl.
  intros [[<- <-]|[? H1]]%lookup_insert_Some [[<- <-]|[? H2]]%lookup_insert_Some Hq Hk1 Hk2.
  - done.
  - destruct (jobs_constraints_key d j Hc key k2 j2); auto.
  - destruct (jobs_constraints_key d j Hc key k1 j1); auto.
  - eapply Hu; eauto.
Qed.

(** C14: submitting again is safe: once a job was created (or found) under an
    idempotency key, any later submission with that key to that queue, whatever
    its user, content, times and faults, changes nothing, and its answer is the
    job of the first submission, unless the connection is lost. *)
Theorem create_job_idempotent `{!Cron} (queue_id user_id user_id' : Uuid)
  (req req' : CreateJobRequest.t) (key : string) (env env' : nat -> Env)
  (w w1 w2 : World) (j : Job.t) (r : outcome (result Job.t JobServiceError.t)) :
  unique_keys (w_db w) ->
  CreateJobRequest.idempotency_key req = Some key ->
  CreateJobRequest.idempotency_key req' = Some key ->
  run (JobService.create_job queue_id user_id req) env w = (Returned (Ok j), w1) ->
  run (JobService.create_job queue_id user_id' req') env' w1 = (r, w2) ->
  w2 = w1 /\ (r = Returned (Ok j) \/ r = Returned (Err (JobServiceError.Database Io))).
Proof.
  intros Hu Hkey Hkey' (n1 & ts1 & Hx1)%run_exec (n2 & ts2 & Hx2)%run_exec.
  assert (keyed_job (w_db w1) key queue_id = Some j) as Hj.
  { apply create_job_cases in Hx1 as [[_ [? ?]]|[(key' & j' & Hk & Hj & -> & Hr)|[_ [m Hx1]]]];
      [done|by simplify_eq|].
    apply create_checked_cases in Hx1 as [[_ [? ?]]|(q & corr & c & _ & _ & _ & _ & Hall & -> & Hr)];
      [done|]. destruct Hr; simplify_eq. simpl.
    change queue_id with (Job.queue_id (new_job c q queue_id corr req)).
    apply keyed_job_unique with (k := Job.id (new_job c q queue_id corr req)); [|apply lookup_insert_eq|done].
    by apply insert_unique_keys. }
  unfold JobService.create_job in Hx2. rewrite Hkey' in Hx2.
  unfold JobRepository.find_by_idempotency_key in Hx2. exec_read Hx2.
  - fold (keyed_job (w_db w1) key queue_id) in Hx2. rewrite Hj in Hx2. simplify_eq/=. auto.
  - simplify_eq/=. auto.
Qed.

(** An immediate job under the key ["k"], in the fixture's queue. *)
Definition keyed_request : CreateJobRequest.t :=
  CreateJobRequest.Mk "report" (VObject []) JobType.Immediate None None None None (Some "k") None None.

Section examples.
Import Toy.

Definition keyed_run (user : Uuid) (w : World) : outcome (result Job.t JobServiceError.t) * World :=
  run (JobService.create_job Fixture.queue user keyed_request) (Fixture.env_at Fixture.noon) w.

Lemma create_job_safe_witness :
  exists j, Job.status j = JobStatus.Queued /\
    jobs (w_db (keyed_run Fixture.member (Fixture.world Fixture.two_queued)).2) !! Job.id j = Some j.
Proof.
  destruct (create_job_safe Fixture.queue Fixture.member keyed_request _ _ _ _
    (surjective_pairing (keyed_run Fixture.member (Fixture.world Fixture.two_queued))))
    as [H|(q & j & _ & _ & _ & _ & _ & _ & _ & _ & _ & Hst & Hw & _)].
  - exfalso. apply (f_equal (fun w => size (jobs (w_db w)))) in H. vm_compute in H. discriminate H.
  - exists j. split; [exact Hst|]. rewrite Hw. apply lookup_insert_eq.
Defined.

Lemma create_job_idempotent_witness :
  let w1 := (keyed_run Fixture.member (Fixture.world Fixture.two_queued)).2 in
  (keyed_run Fixture.stranger w1).2 = w1.
Proof.
  intros w1.
  destruct (keyed_run Fixture.member (Fixture.world Fixture.two_queued)) as [[[j|e]|] w1'] eqn:E;
    [|exfalso; apply (f_equal fst) in E; vm_compute in E; discriminate E..].
  apply (create_job_idempotent Fixture.queue Fixture.member Fixture.stranger keyed_request
    keyed_request "k" (Fixture.env_at Fixture.noon) (Fixture.env_at Fixture.noon)
    (Fixture.world Fixture.two_queued) w1 _ j (keyed_run Fixture.stranger w1).1); [|reflexivity|reflexivity|exact E|].
  - intros k1 k2 j1 j2 key H1 _ _ Hk _. exfalso. revert k1 j1 H1 Hk.
    assert (map_Forall (fun _ j => Job.idempotency_key j = None) (jobs Fixture.two_queued)) as Hn
      by compute_decide.
    intros k1 j1 H1 Hk. rewrite (Hn k1 j1 H1) in Hk. discriminate Hk.
  - apply surjective_pairing.
Defined.
End examples.

(** ** Cancellation *)

Definition cancelled (now : Timestamp) (j : Job.t) : Job.t :=
  j <| Job.status := JobStatus.Failed |> <| Job.updated_at := now |>.

Lemma cancel_stmt_eq c d k : JobService.cancel_stmt k c d =
  match jobs d !! k with
  | Some j => if JobService.cancellable (Job.status j)
              then Ok (1, d <| jobs ::= <[k := cancelled (now c) j]> |>) else Ok (0, d)
  | None => Ok (0, d)
  end.
Proof.
  unfold JobService.cancel_stmt, update_row. destruct (jobs d !! k) as [j|]; [|done].
  by destruct (JobService.cancellable _).
Qed.

Lemma cancel_job_cases k u env n w r w' n' ts :
  exec (JobService.cancel_job k u) env n w = (r, w', n', ts) ->
  w' = w \/
  exists j t, jobs (w_db w) !! k = Some j /\ JobService.cancellable (Job.status j) = true /\
    writer (w_db w) (Job.project_id j) u /\
    w' = w <| w_db ::= fun d => d <| jobs ::= <[k := cancelled t j]> |> |> /\
    (r = Returned (Ok tt) \/ r = Returned (Err (JobServiceError.Database Io))).
Proof.
  unfold JobService.cancel_job, JobRepository.find_by_id, ProjectRepository.get_member_role.
  intros Hx. exec_read Hx; [|simplify_eq/=; auto].
  destruct (jobs (w_db w) !! k) as [j|] eqn:Hj; [|simplify_eq/=; auto].
  exec_read Hx; [|simplify_eq/=; auto].
  destruct (ProjectRepository.role_of _ _ u) as [role|] eqn:Hr; [|simplify_eq/=; auto].
  destruct (bool_decide (role = UserRole.Viewer)) eqn:Hv; [simplify_eq/=; auto|].
  match type of Hx with exec (bind (sql ?s) ?k) _ ?m _ = _ =>
    destruct (exec_sql s k env m w) as (r1 & w1 & Hs & Ho) end.
  rewrite Hs in Hx. clear Hs.
  destruct Ho as [|v err _|a d Hc|a d Hc]; [simplify_eq/=; by left..| |];
    rewrite cancel_stmt_eq, Hj in Hc;
    (destruct (JobService.cancellable (Job.status j)) eqn:Hcan; simplify_eq/=;
      [right; eauto 10 using writer_intro|left; apply world_db_id]).
Qed.

(** The statuses a job can be cancelled in. *)
Lemma cancellable_true s : JobService.cancellable s = true <->
  s ∈ [JobStatus.Pending; JobStatus.Queued; JobStatus.Scheduled].
Proof. rewrite !elem_of_cons, elem_of_nil. destruct s; naive_solver. Qed.

(** C40: [cancel_job] changes at most one row: the named job, when it is
    pending, queued or scheduled and the user is an admin or member of its
    project, becomes failed, with the time of the update and nothing else
    changed. In every other case, a claimed or running job included, the store is
    left alone; without connection faults an authorized user gets [Ok] all the
    same, and the job is failed exactly when it was pending, queued or
    scheduled. *)
Theorem cancel_job_effect (job_id user_id : Uuid) (env : nat -> Env) (w w' : World)
  (r : outcome (result unit JobServiceError.t)) :
  run (JobService.cancel_job job_id user_id) env w = (r, w') ->
  let waiting j := Job.status j ∈ [JobStatus.Pending; JobStatus.Queued; JobStatus.Scheduled] in
  (w' = w \/
   exists j t, jobs (w_db w) !! job_id = Some j /\ waiting j /\
     writer (w_db w) (Job.project_id j) user_id /\
     w' = w <| w_db ::= fun d => d <| jobs ::=
       <[job_id := j <| Job.status := JobStatus.Failed |> <| Job.updated_at := t |>]> |> |>) /\
  (forall j, quiet env -> jobs (w_db w) !! job_id = Some j ->
     writer (w_db w) (Job.project_id j) user_id ->
     r = Returned (Ok tt) /\ (waiting j <-> w' <> w) /\
     (waiting j -> Job.status <$> (jobs (w_db w') !! job_id) = Some JobStatus.Failed)).
Proof.
  intros (n' & ts & Hx)%run_exec waiting. unfold waiting. split.
  - apply cancel_job_cases in Hx as [?|(j & t & Hj & Hc%cancellable_true & Hw & -> & _)];
      [by left|right; eauto 6].
  - intros j Hq Hj Hw. rewrite <- cancellable_true.
    unfold JobService.cancel_job, JobRepository.find_by_id, ProjectRepository.get_member_role in Hx.
    rewrite exec_query_quiet, Hj in Hx by done.
    rewrite exec_query_quiet in Hx by done.
    destruct (ProjectRepository.role_of _ _ user_id) as [role|] eqn:Hr;
      [|unfold writer in Hw; destruct Hw; congruence].
    rewrite bool_decide_eq_false_2 in Hx by (unfold writer in Hw; destruct Hw; congruence).
    rewrite exec_sql_quiet, cancel_stmt_eq, Hj in Hx by done.
    destruct (JobService.cancellable (Job.status j)) eqn:Hcan; simplify_eq/=; (split; [done|]).
    + rewrite lookup_insert_eq. split; [|done]. split; [|done]. intros _ Heq.
      apply (f_equal (fun w => jobs (w_db w) !! job_id)) in Heq.
      simpl in Heq. rewrite lookup_insert_eq, Hj in Heq. simplify_eq.
      apply (f_equal Job.status) in Heq. simpl in Heq. by rewrite <- Heq in Hcan.
    + rewrite world_db_id. by split.
Qed.

Definition cancel_run (job_id : Uuid) : outcome (result unit JobServiceError.t) * World :=
  run (JobService.cancel_job job_id Fixture.member) (Fixture.env_at Fixture.noon)
    (Fixture.world (Fixture.with_jobs [ Fixture.job 20 JobStatus.Queued JobPriority.Normal 0;
       Fixture.held 21 Fixture.worker JobStatus.Running ])).

(** Cancelling a running job answers [Ok] and does nothing. *)
Lemma cancel_job_effect_witness :
  (cancel_run 21).1 = Returned (Ok tt) /\ ~ ((cancel_run 21).2 <> Fixture.world (Fixture.with_jobs
    [ Fixture.job 20 JobStatus.Queued JobPriority.Normal 0;
      Fixture.held 21 Fixture.worker JobStatus.Running ])).
Proof.
  destruct (cancel_job_effect 21 Fixture.member _ _ _ _ (surjective_pairing (cancel_run 21)))
    as [_ Hok].
  destruct (Hok (Fixture.held 21 Fixture.worker JobStatus.Running)) as (Hr & Hiff & _).
  - intros n i. reflexivity.
  - vm_compute. reflexivity.
  - right. vm_compute. reflexivity.
  - split; [exact Hr|]. intros Hne. apply Hiff in Hne. simpl in Hne.
    rewrite !elem_of_cons, elem_of_nil in Hne. destruct Hne as [H|[H|[H|H]]]; (discriminate H || exact H).
Defined.
