(* ===== verification/QueueService.v ===== *)
(** * Queue service ([crates/services/src/queue_service.rs])

    Queue creation, pausing and resuming, statistics and listing, behind the
    membership checks [require_project_member] and [require_project_writer]. *)
From S2P Require Import Prelude Enums Entities RetryPolicy Db Fixture Steps Repositories.
From S2P Require Import Externals JobService.

Module QueueServiceError.
Inductive t :=
| QueueNotFound (queue_id : Uuid)
| Forbidden
| Database (e : sqlx_error).
End QueueServiceError.

Module QueueService.
Import QueueServiceError.

(** [QueueService::require_project_member] *)
Definition require_project_member (project_id user_id : Uuid)
  : prog (result UserRole.t QueueServiceError.t) :=
  role <-? ProjectRepository.get_member_role project_id user_id via Database ;;
  Ret (ok_or role Forbidden).

(** [QueueService::require_project_writer] *)
Definition require_project_writer (project_id user_id : Uuid)
  : prog (result unit QueueServiceError.t) :=
  role <-? require_project_member project_id user_id via (fun e => e) ;;
  if bool_decide (role = UserRole.Viewer) then Ret (Err Forbidden) else Ret (Ok tt).

(** [QueueService::queue_for_action] *)
Definition queue_for_action (queue_id user_id : Uuid) (require_writer : bool)
  : prog (result Queue.t QueueServiceError.t) :=
  queue <-? QueueRepository.find_by_id queue_id via Database ;;
  queue <-! queue else QueueNotFound queue_id ;;
  if require_writer then
    r <-? require_project_writer (Queue.project_id queue) user_id via (fun e => e) ;;
    Ret (Ok queue)
  else
    r <-? require_project_member (Queue.project_id queue) user_id via (fun e => e) ;;
    Ret (Ok queue).

(** [QueueService::create_queue] *)
Definition create_queue (user_id project_id : Uuid) (name : string)
  (description : option string) (concurrency_limit : Z) (retry_policy_id : option Uuid)
  : prog (result Queue.t QueueServiceError.t) :=
  r <-? require_project_writer project_id user_id via (fun e => e) ;;
  q <-? QueueRepository.create project_id name description concurrency_limit retry_policy_id
    via Database ;;
  Ret (Ok q).

(** [QueueService::pause_queue] *)
Definition pause_queue (user_id queue_id : Uuid) : prog (result unit QueueServiceError.t) :=
  queue <-? queue_for_action queue_id user_id true via (fun e => e) ;;
  r <-? QueueRepository.set_paused (Queue.id queue) true via Database ;;
  Ret (Ok tt).

(** [QueueService::resume_queue] *)
Definition resume_queue (user_id queue_id : Uuid) : prog (result unit QueueServiceError.t) :=
  queue <-? queue_for_action queue_id user_id true via (fun e => e) ;;
  r <-? QueueRepository.set_paused (Queue.id queue) false via Database ;;
  Ret (Ok tt).

(** [QueueService::get_stats] *)
Definition get_stats (user_id queue_id : Uuid) : prog (result QueueStats.t QueueServiceError.t) :=
  queue <-? queue_for_action queue_id user_id false via (fun e => e) ;;
  s <-? QueueRepository.get_stats queue_id via Database ;;
  Ret (Ok s).

(** [QueueService::list_by_project] *)
Definition list_by_project (user_id project_id : Uuid)
  : prog (result (list Queue.t) QueueServiceError.t) :=
  role <-? require_project_member project_id user_id via (fun e => e) ;;
  qs <-? QueueRepository.list_by_project project_id via Database ;;
  Ret (Ok qs).
End QueueService.

(** ** The checks *)

Section checks.
Import QueueService QueueServiceError.

(** What follows a membership check runs in the same world, with a role the
    store gives the user; otherwise the check's error is the answer. *)
Lemma exec_require_member {A} p u (k : result UserRole.t QueueServiceError.t -> prog A) env n w :
  exists n' r, exec (bind (require_project_member p u) k) env n w = exec (k r) env n' w /\
    (forall role, r = Ok role -> ProjectRepository.role_of (w_db w) p u = Some role).
Proof.
  unfold require_project_member, ProjectRepository.get_member_role. rewrite bind_assoc.
  match goal with |- context [exec (bind (sql (query ?f)) ?k) ?env ?n ?w] =>
    destruct (exec_query f k env n w) as (r & -> & [->| ->]) end; simpl.
  - eexists _, _. split; [done|]. intros role. by destruct (ProjectRepository.role_of _ _ _); intros; simplify_eq/=.
  - eexists _, _. by split.
Qed.

Lemma exec_require_writer {A} p u (k : result unit QueueServiceError.t -> prog A) env n w :
  exists n' r, exec (bind (require_project_writer p u) k) env n w = exec (k r) env n' w /\
    (r = Ok tt -> writer (w_db w) p u).
Proof.
  unfold require_project_writer. rewrite bind_assoc.
  match goal with |- context [exec (bind (require_project_member _ _) ?k) ?env ?n ?w] =>
    destruct (exec_require_member p u k env n w) as (n1 & r & -> & Hr) end.
  destruct r as [role|e]; simpl; [|eexists _, _; by split].
  destruct (bool_decide (role = UserRole.Viewer)) eqn:Hv; simpl; eexists _, _; (split; [done|]).
  - done.
  - intros _. eapply writer_intro; eauto.
Qed.

Lemma exec_queue_for_action {A} q u (k : result Queue.t QueueServiceError.t -> prog A) env n w :
  exists n' r, exec (bind (queue_for_action q u true) k) env n w = exec (k r) env n' w /\
    (forall queue, r = Ok queue -> queues (w_db w) !! q = Some queue /\
       writer (w_db w) (Queue.project_id queue) u).
Proof.
  unfold queue_for_action, QueueRepository.find_by_id. rewrite bind_assoc.
  match goal with |- context [exec (bind (sql (query ?f)) ?k) ?env ?n ?w] =>
    destruct (exec_query f k env n w) as (r & -> & [->| ->]) end;
    [|eexists _, _; by split].
  destruct (queues (w_db w) !! q) as [queue|]; [|eexists _, _; by split].
  rewrite bind_assoc.
  match goal with |- context [exec (bind (require_project_writer _ _) ?k) ?env ?n ?w] =>
    destruct (exec_require_writer (Queue.project_id queue) u k env n w) as (n1 & r & -> & Hr) end.
  destruct r as [[]|e]; simpl; eexists _, _; split; try done.
  intros queue' [= <-]. auto.
Qed.
End checks.

(** ** Creation *)

Lemma create_queue_cases u p name desc limit policy env n w r w' n' ts :
  exec (QueueService.create_queue u p name desc limit policy) env n w = (r, w', n', ts) ->
  (w' = w /\ exists e, r = Returned (Err e)) \/
  exists q, writer (w_db w) p u /\ queues (w_db w) !! Queue.id q = None /\
    (forall k q', queues (w_db w) !! k = Some q' -> Queue.project_id q' = p -> Queue.name q' <> name) /\
    Queue.project_id q = p /\ Queue.name q = name /\ Queue.concurrency_limit q = limit /\
    Queue.is_paused q = false /\
    w' = w <| w_db ::= fun d => d <| queues ::= <[Queue.id q := q]> |> |> /\
    (r = Returned (Ok q) \/ r = Returned (Err (QueueServiceError.Database Io))).
Proof.
  unfold QueueService.create_queue, QueueRepository.create. intros Hx.
  match type of Hx with exec (bind _ ?k) _ _ _ = _ =>
    destruct (exec_require_writer p u k env n w) as (n1 & r1 & Hs & Hr) end.
  rewrite Hs in Hx. clear Hs. destruct r1 as [[]|e]; [|simplify_eq/=; left; eauto].
  match type of Hx with exec (bind (sql ?s) ?k) _ ?m _ = _ =>
    destruct (exec_sql s k env m w) as (r2 & w1 & Hs & Ho) end.
  rewrite Hs in Hx. clear Hs. unfold with_ctx in Ho.
  destruct Ho as [|v err _|a d Hd|a d Hd]; [simplify_eq/=; left; eauto..| |];
    apply insert_row_Ok in Hd as (-> & Hc & ->);
    apply Forall_cons in Hc as [Hid [Hname _]%Forall_cons]; simpl in Hid, Hname;
    apply negb_true_iff, has_false in Hid; apply negb_true_iff in Hname;
    (assert (forall k q', queues (w_db w) !! k = Some q' -> Queue.project_id q' = p ->
       Queue.name q' <> name) as Hfresh by
      (intros k q' Hk Hp Hn; pose proof (proj1 (exists_row_false _ _) Hname k q' Hk) as Hf;
       simpl in Hf; rewrite Hp, Hn, !bool_decide_eq_true_2 in Hf by done; done));
    simplify_eq/=; right;
    exists (Queue.Mk (e_uuid (env n1) 0%nat 0%nat) p name desc limit policy false None
      (e_now (env n1)) (e_now (env n1))); split_and!;
    first [by apply Hr|exact Hid|exact Hfresh|reflexivity|by left|by right].
Qed.

(** Creating a queue: only an admin or member of the project adds one, it is
    new, open, and its name is new in the project; every other outcome leaves
    the store alone. *)
Theorem create_queue_safe (user_id project_id : Uuid) (name : string) (desc : option string)
  (limit : Z) (policy : option Uuid) (env : nat -> Env) (w w' : World)
  (r : outcome (result Queue.t QueueServiceError.t)) :
  run (QueueService.create_queue user_id project_id name desc limit policy) env w = (r, w') ->
  (w' = w /\ exists e, r = Returned (Err e)) \/
  exists q, writer (w_db w) project_id user_id /\ queues (w_db w) !! Queue.id q = None /\
    (forall k q', queues (w_db w) !! k = Some q' -> Queue.project_id q' = project_id ->
       Queue.name q' <> name) /\
    Queue.project_id q = project_id /\ Queue.name q = name /\ Queue.concurrency_limit q = limit /\
    Queue.is_paused q = false /\
    w' = w <| w_db ::= fun d => d <| queues ::= <[Queue.id q := q]> |> |> /\
    (r = Returned (Ok q) \/ r = Returned (Err (QueueServiceError.Database Io))).
Proof. intros (n' & ts & Hx)%run_exec. by apply create_queue_cases in Hx. Qed.

Lemma create_queue_safe_witness :
  exists q, queues (w_db (run (QueueService.create_queue Fixture.member Fixture.project "mail" None 5 None)
    (Fixture.env_at Fixture.noon) (Fixture.world Fixture.two_queued)).2) !! Queue.id q = Some q /\
    Queue.concurrency_limit q = 5.
Proof.
  destruct (create_queue_safe Fixture.member Fixture.project "mail" None 5 None
    (Fixture.env_at Fixture.noon) (Fixture.world Fixture.two_queued) _ _ (surjective_pairing _))
    as [[H _]|(q & _ & _ & _ & _ & _ & Hl & _ & Hw & _)].
  - exfalso. apply (f_equal (fun w => size (queues (w_db w)))) in H. vm_compute in H. discriminate H.
  - exists q. split; [|exact Hl]. rewrite Hw. apply lookup_insert_eq.
Defined.

(** ** Pausing and resuming *)

(** The queue row with its pause flag set. *)
Definition paused_at (t : Timestamp) (b : bool) (q : Queue.t) : Queue.t :=
  q <| Queue.is_paused := b |> <| Queue.updated_at := t |>.

(** Rows are stored under their primary key. *)
Definition queues_keyed (d : Db) : Prop := forall k q, queues d !! k = Some q -> Queue.id q = k.

Lemma exec_set_paused {A} q b (k : result unit sqlx_error -> prog A) env n w :
  exists n' r w', exec (bind (QueueRepository.set_paused q b) k) env n w = exec (k r) env n' w' /\
    (w' = w \/ exists row t, queues (w_db w) !! q = Some row /\
       w' = w <| w_db ::= fun d => d <| queues ::= <[q := paused_at t b row]> |> |> /\
       (r = Ok tt \/ r = Err Io)) /\
    (forall row, r = Ok tt -> queues (w_db w) !! q = Some row -> exists t,
       w' = w <| w_db ::= fun d => d <| queues ::= <[q := paused_at t b row]> |> |>).
Proof.
  unfold QueueRepository.set_paused. rewrite bind_assoc.
  match goal with |- context [exec (bind (sql ?s) ?k) ?env ?n ?w] =>
    destruct (exec_sql s k env n w) as (r & w1 & -> & Ho) end.
  unfold QueueRepository.set_paused_stmt, with_ctx, update_row in Ho.
  destruct Ho as [|v err _|a d Hs|a d Hs]; simpl; eexists _, _, _; (split; [done|]).
  1,2: split; [by left|done].
  - destruct (queues (w_db w) !! q) as [row|] eqn:Hq; simplify_eq/=; unfold paused_at.
    + split; [right; eauto 6|]. intros row' _ [= <-]. eauto.
    + split; [left; apply world_db_id|done].
  - split; [|done]. destruct (queues (w_db w) !! q) as [row|] eqn:Hq; simplify_eq/=.
    + right. unfold paused_at. eauto 6.
    + left. apply world_db_id.
Qed.

(** [pause_queue] ([b] true) and [resume_queue] ([b] false). *)
Definition set_pause (b : bool) : Uuid -> Uuid -> prog (result unit QueueServiceError.t) :=
  if b then QueueService.pause_queue else QueueService.resume_queue.

Lemma set_pause_cases b u q env n w r w' n' ts : queues_keyed (w_db w) ->
  exec (set_pause b u q) env n w = (r, w', n', ts) ->
  (w' = w /\ exists e, r = Returned (Err e)) \/
  exists row t, queues (w_db w) !! q = Some row /\ writer (w_db w) (Queue.project_id row) u /\
    ((w' = w /\ exists e, r = Returned (Err e)) \/
     w' = w <| w_db ::= fun d => d <| queues ::= <[q := paused_at t b row]> |> |> /\
     (r = Returned (Ok tt) \/ r = Returned (Err (QueueServiceError.Database Io)))).
Proof.
  intros Hkey Hx. assert (exec (queue <-? QueueService.queue_for_action q u true via (fun e => e) ;;
    r <-? QueueRepository.set_paused (Queue.id queue) b via QueueServiceError.Database ;;
    Ret (Ok tt)) env n w = (r, w', n', ts)) as Hx' by (by destruct b).
  clear Hx. cbv beta in Hx'.
  match type of Hx' with exec (bind _ ?k) _ _ _ = _ =>
    destruct (exec_queue_for_action q u k env n w) as (n1 & r1 & Hs & Hr) end.
  rewrite Hs in Hx'. destruct r1 as [queue|e]; [|simplify_eq/=; left; eauto].
  destruct (Hr queue eq_refl) as [Hq Hw]. right. exists queue.
  match type of Hx' with exec (bind _ ?k) ?env ?n ?w = _ =>
    destruct (exec_set_paused (Queue.id queue) b k env n w) as (n2 & r2 & w2 & Hs2 & Hch & Hok) end.
  rewrite Hs2 in Hx'. rewrite (Hkey q queue Hq) in *.
  destruct Hch as [->|(row & t & Hrow & -> & Hr2)].
  - destruct r2 as [[]|e].
    + destruct (Hok queue eq_refl Hq) as [t Ht]. simplify_eq/=. exists t.
      split_and!; [done..|]. right. split; [done|by left].
    + simplify_eq/=. exists 0. split_and!; eauto.
  - exists t. rewrite Hq in Hrow. injection Hrow as <-. split_and!; [done..|]. right.
    destruct Hr2 as [->| ->]; simplify_eq/=; auto.
Qed.

(** C37: pausing and resuming: a user who is neither admin nor member of the
    queue's project changes nothing; for the others, an [Ok] means that exactly
    this queue's flag (and update time) changed, whatever the faults; a paused
    queue then refuses new jobs. *)
Theorem pause_and_resume (b : bool) (user_id queue_id : Uuid) (env : nat -> Env)
  (w w' : World) (r : outcome (result unit QueueServiceError.t)) :
  queues_keyed (w_db w) -> run (set_pause b user_id queue_id) env w = (r, w') ->
  (w' <> w -> exists q, queues (w_db w) !! queue_id = Some q /\
     writer (w_db w) (Queue.project_id q) user_id) /\
  (r = Returned (Ok tt) -> exists q q' t, queues (w_db w) !! queue_id = Some q /\
     q' = q <| Queue.is_paused := b |> <| Queue.updated_at := t |> /\
     w' = w <| w_db ::= fun d => d <| queues ::= <[queue_id := q']> |> |> /\
     Queue.is_accepting_jobs q' = negb b).
Proof.
  intros Hkey (n' & ts & Hx)%run_exec. apply set_pause_cases in Hx; [|done].
  destruct Hx as [[-> [e ->]]|(q & t & Hq & Hw & [[-> [e ->]]|[-> _]])].
  - by split.
  - by split.
  - split; [eauto|]. intros _. eexists q, _, t. split_and!; [done|reflexivity|reflexivity|done].
Qed.

Lemma pause_and_resume_witness :
  let w := Fixture.world Fixture.two_queued in
  let x := run (set_pause true Fixture.member Fixture.queue) (Fixture.env_at Fixture.noon) w in
  exists q, queues (w_db x.2) !! Fixture.queue = Some q /\ Queue.is_accepting_jobs q = false.
Proof.
  intros w x.
  destruct (pause_and_resume true Fixture.member Fixture.queue (Fixture.env_at Fixture.noon) w x.2 x.1)
    as [_ Hok].
  - intros k q. apply (map_Forall_lookup_1 (fun k q => Queue.id q = k) (queues (w_db w))).
    compute_decide.
  - apply surjective_pairing.
  - destruct Hok as (q & q' & t & _ & _ & Hw & Hacc); [vm_compute; reflexivity|].
    exists q'. split; [|exact Hacc]. rewrite Hw. apply lookup_insert_eq.
Defined.

(** A paused queue takes no new job: [create_job] on it fails and adds
    nothing, for every user and request (a resubmission of a known idempotency
    key is the one answer that still names a job). *)
Theorem paused_queue_refuses `{!Cron} (queue_id user_id : Uuid) (req : CreateJobRequest.t)
  (env : nat -> Env) (w w' : World) (r : outcome (result Job.t JobServiceError.t)) (q : Queue.t) :
  queues (w_db w) !! queue_id = Some q -> Queue.is_paused q = true ->
  run (JobService.create_job queue_id user_id req) env w = (r, w') ->
  w' = w /\ forall j, r = Returned (Ok j) ->
    exists key, CreateJobRequest.idempotency_key req = Some key /\
      keyed_job (w_db w) key queue_id = Some j.
Proof.
  intros Hq Hp (n' & ts & Hx)%run_exec.
  apply create_job_cases in Hx as [[-> [e ->]]|[(key & j & Hk & Hj & -> & ->)|[_ [m Hx]]]].
  - by split.
  - split; [done|]. intros j' [= <-]. eauto.
  - apply create_checked_cases in Hx as [[-> [e ->]]|(q' & ? & ? & Hq' & Hp' & _)]; [by split|].
    congruence.
Qed.

Lemma paused_queue_refuses_witness :
  let w := Fixture.world (Fixture.two_queued
    <| queues := {[ Fixture.queue := Fixture.queue_row 1 true ]} |>) in
  exists r, run (JobService.create_job (H := Toy.cron) Fixture.queue Fixture.admin keyed_request)
    (Fixture.env_at Fixture.noon) w = (r, w).
Proof.
  intros w. set (x := run (JobService.create_job (H := Toy.cron) Fixture.queue Fixture.admin
    keyed_request) (Fixture.env_at Fixture.noon) w).
  exists x.1. transitivity (x.1, x.2); [apply surjective_pairing|]. apply (f_equal (pair x.1)).
  apply (paused_queue_refuses (H := Toy.cron) Fixture.queue Fixture.admin keyed_request
    (Fixture.env_at Fixture.noon) w x.2 x.1 (Fixture.queue_row 1 true)).
  - vm_compute. reflexivity.
  - reflexivity.
  - apply surjective_pairing.
Defined.
