(* ===== verification/DlqService.v ===== *)
(** * Dead-letter service ([crates/services/src/dlq_service.rs])

    Listing, and the manual retry: three checks on their own connections, then
    one transaction that re-queues the job and marks the entry. *)
From S2P Require Import Prelude Enums Entities RetryPolicy Db Fixture Steps JobRepository.
From S2P Require Import Repositories JobService.

Module DlqServiceError.
Inductive t :=
| DlqEntryNotFound (id : Uuid)
| AlreadyRetried (id : Uuid)
| JobNotFound (id : Uuid)
| Forbidden
| Database (e : sqlx_error).
End DlqServiceError.

Module DlqService.
Import DlqServiceError.

(** [DlqService::list] *)
Definition list (project_id : Uuid) (limit offset : Z)
  : prog (result (Datatypes.list DeadLetterEntry.t) sqlx_error) :=
  DlqRepository.list_by_project project_id limit offset.

Definition set_requeued (now : Timestamp) (j : Job.t) : Job.t :=
  j <| Job.status := JobStatus.Queued |>
    <| Job.worker_id := None |>
    <| Job.claimed_at := None |>
    <| Job.next_attempt_at := None |>
    <| Job.completed_at := None |>
    <| Job.updated_at := now |>.

(** [UPDATE jobs SET status = 'queued', ... WHERE id = $1] *)
Definition requeue_stmt (job_id : Uuid) : stmt Z := with_ctx (fun c =>
  update_row jobs job_id (set_requeued (now c))).

(** The transaction of [retry_job]: an early return drops it uncommitted. *)
Definition retry_tx (job_id dlq_id retried_by : Uuid)
  : txm (tx_exit (result unit DlqServiceError.t)) :=
  updated <-tx tx_sql (requeue_stmt job_id) ;;
  match updated with
  | Err e => tx_ret (Rollback (Err (Database e)))
  | Ok n =>
      if n =? 0 then tx_ret (Rollback (Err (JobNotFound job_id))) else
      marked <-tx tx_sql (DlqRepository.mark_retried_stmt dlq_id retried_by) ;;
      match marked with
      | Err e => tx_ret (Rollback (Err (Database e)))
      | Ok _ => tx_ret (Commit (map_err Database))
      end
  end.

(** [DlqService::retry_job] *)
Definition retry_job (dlq_id retried_by : Uuid) : prog (result unit DlqServiceError.t) :=
  entry <-? DlqRepository.find_by_id dlq_id via Database ;;
  entry <-! entry else DlqEntryNotFound dlq_id ;;
  if is_some (DeadLetterEntry.manually_retried_at entry)
  then Ret (Err (AlreadyRetried dlq_id)) else
  role <-? ProjectRepository.get_member_role (DeadLetterEntry.project_id entry) retried_by
    via Database ;;
  role <-! role else Forbidden ;;
  if bool_decide (role = UserRole.Viewer) then Ret (Err Forbidden) else
  r <-? transaction (retry_tx (DeadLetterEntry.job_id entry) dlq_id retried_by) via Database ;;
  Ret r.
End DlqService.

(** ** The transaction *)

(** The store after a successful retry at time [t]. *)
Definition retried (t t' : Timestamp) (dlq_id by_user : Uuid) (x : DeadLetterEntry.t)
  (j : Job.t) (d : Db) : Db :=
  d <| jobs ::= <[DeadLetterEntry.job_id x := DlqService.set_requeued t j]> |>
    <| dead_letter_queue ::= <[dlq_id :=
         x <| DeadLetterEntry.manually_retried_at := Some t' |>
           <| DeadLetterEntry.manually_retried_by := Some by_user |>]> |>.

Section retry.
Import DlqService.

Lemma requeue_stmt_Ok k c d n d' : requeue_stmt k c d = Ok (n, d') -> n <> 0 ->
  exists j, jobs d !! k = Some j /\ d' = d <| jobs ::= <[k := set_requeued (now c) j]> |>.
Proof.
  unfold requeue_stmt, with_ctx, update_row. destruct (jobs d !! k) as [j|]; intros; simplify_eq.
  eauto.
Qed.

Lemma mark_retried_stmt_Ok q u c d n d' x : dead_letter_queue d !! q = Some x ->
  DlqRepository.mark_retried_stmt q u c d = Ok (n, d') ->
  d' = d <| dead_letter_queue ::= <[q := x <| DeadLetterEntry.manually_retried_at := Some (now c) |>
         <| DeadLetterEntry.manually_retried_by := Some u |>]> |>.
Proof.
  unfold DlqRepository.mark_retried_stmt, update_row. intros ->.
  destruct (has (users d) u); intros; by simplify_eq.
Qed.

Lemma retry_tx_cases e d x q u r tx : dead_letter_queue d !! q = Some x ->
  retry_tx (DeadLetterEntry.job_id x) q u e (MkTx d d false 1) = (r, tx) ->
  (exists err, r = Some (Rollback (Err err))) \/
  exists j t t', r = Some (Commit (map_err DlqServiceError.Database)) /\
    jobs d !! DeadLetterEntry.job_id x = Some j /\
    tx_aborted tx = false /\ tx_db tx = retried t t' q u x j d.
Proof.
  intros Hx. unfold retry_tx, tx_bind.
  destruct (tx_sql_some (requeue_stmt (DeadLetterEntry.job_id x)) e (MkTx d d false 1))
    as (r1 & t1 & E1 & _ & Hok1). rewrite E1.
  destruct r1 as [n|err]; [|intros [= <- _]; eauto].
  destruct (n =? 0) eqn:Hn; [intros [= <- _]; eauto|].
  apply tx_sql_ok in E1 as (a & ? & Hs1 & _ & _); [|by apply Hok1]. simplify_eq.
  apply requeue_stmt_Ok in Hs1 as (j & Hj & Hd1); [|by apply Z.eqb_neq]. simpl in *.
  destruct (tx_sql_some (DlqRepository.mark_retried_stmt q u) e t1) as (r2 & t2 & E2 & _ & Hok2).
  rewrite E2. destruct r2 as [n2|err]; [|intros [= <- _]; eauto].
  intros [= <- <-]. right. pose proof (proj1 Hok2 eq_refl) as Ha.
  apply tx_sql_ok in E2 as (? & _ & Hs2 & _); [|done].
  apply (mark_retried_stmt_Ok _ _ _ _ _ _ x) in Hs2; [|by rewrite Hd1].
  eexists j, _, _. split_and!; [done..|]. unfold retried. rewrite Hs2, Hd1. reflexivity.
Qed.

Lemma retry_job_cases q u env n w r w' n' ts :
  exec (retry_job q u) env n w = (r, w', n', ts) ->
  (w' = w /\ r <> Returned (Ok tt)) \/
  exists x j t t', dead_letter_queue (w_db w) !! q = Some x /\
    DeadLetterEntry.manually_retried_at x = None /\
    writer (w_db w) (DeadLetterEntry.project_id x) u /\
    jobs (w_db w) !! DeadLetterEntry.job_id x = Some j /\
    w' = w <| w_db ::= retried t t' q u x j |> /\
    (r = Returned (Ok tt) \/ r = Returned (Err (DlqServiceError.Database Io))).
Proof.
  unfold retry_job, DlqRepository.find_by_id, ProjectRepository.get_member_role. intros Hx.
  exec_read Hx; [|simplify_eq/=; by left].
  destruct (dead_letter_queue (w_db w) !! q) as [x|] eqn:Hq; [|simplify_eq/=; by left].
  destruct (DeadLetterEntry.manually_retried_at x) eqn:Hm; cbn [is_some] in Hx;
    [simplify_eq/=; by left|].
  exec_read Hx; [|simplify_eq/=; by left].
  destruct (ProjectRepository.role_of _ _ u) as [role|] eqn:Hr; [|simplify_eq/=; by left].
  destruct (bool_decide (role = UserRole.Viewer)) eqn:Hv; [simplify_eq/=; by left|].
  rewrite exec_transaction in Hx.
  destruct (e_fault (env (S (S n))) 0%nat) eqn:Ef; cycle 1; [simplify_eq/=; by left..|].
  destruct (retry_tx _ q u _ _) as [x1 tx] eqn:Et.
  destruct (finish_tx _ _ x1 tx) as [a d] eqn:Efin.
  apply retry_tx_cases in Et; [|done].
  destruct Et as [[err ->]|(j & t & t' & -> & Hj & Ha & Hd)].
  { simpl in Efin. simplify_eq/=. left. by rewrite world_db_id. }
  unfold finish_tx in Efin. rewrite Ha in Efin.
  destruct (e_fault (env (S (S n))) (tx_n tx)); simplify_eq/=.
  - right. exists x, j, t, t'. rewrite Hd. split_and!; eauto using writer_intro.
  - left. by rewrite world_db_id.
  - right. exists x, j, t, t'. rewrite Hd. split_and!; eauto using writer_intro.
Qed.
End retry.

(** C21: a manual retry is all or nothing, whatever statement or connection
    fails: the store is unchanged, or the job is back in its queue with no
    worker, no claim and no pending retry time, and the entry carries the time
    and the user. The second needs an entry not retried before and a user who
    is admin or member of its project; only it can answer [Ok]. *)
Theorem retry_job_atomic (dlq_id user_id : Uuid) (env : nat -> Env) (w w' : World)
  (r : outcome (result unit DlqServiceError.t)) :
  run (DlqService.retry_job dlq_id user_id) env w = (r, w') ->
  (w' = w /\ r <> Returned (Ok tt)) \/
  exists x j t t', dead_letter_queue (w_db w) !! dlq_id = Some x /\
    DeadLetterEntry.manually_retried_at x = None /\
    writer (w_db w) (DeadLetterEntry.project_id x) user_id /\
    jobs (w_db w) !! DeadLetterEntry.job_id x = Some j /\
    jobs (w_db w') = <[DeadLetterEntry.job_id x := DlqService.set_requeued t j]> (jobs (w_db w)) /\
    dead_letter_queue (w_db w') = <[dlq_id := x <| DeadLetterEntry.manually_retried_at := Some t' |>
       <| DeadLetterEntry.manually_retried_by := Some user_id |>]> (dead_letter_queue (w_db w)) /\
    job_executions (w_db w') = job_executions (w_db w) /\
    outbox_events (w_db w') = outbox_events (w_db w).
Proof.
  intros (n' & ts & Hx)%run_exec.
  apply retry_job_cases in Hx as [?|(x & j & t & t' & Hq & Hm & Hw & Hj & -> & _)]; [by left|right].
  exists x, j, t, t'. by split_and!.
Qed.

Definition failed_db : Db := Fixture.with_dlq [ Fixture.dead 50 20 ]
  (Fixture.with_jobs [ Fixture.job 20 JobStatus.Failed JobPriority.Normal 0 ]).

Lemma retry_job_atomic_witness :
  let x := run (DlqService.retry_job 50 Fixture.member) (Fixture.env_at Fixture.noon)
             (Fixture.world failed_db) in
  Job.status <$> (jobs (w_db x.2) !! 20%N) = Some JobStatus.Queued.
Proof.
  intros x.
  destruct (retry_job_atomic 50 Fixture.member (Fixture.env_at Fixture.noon)
    (Fixture.world failed_db) x.2 x.1 (surjective_pairing _))
    as [[_ Hr]|(e & j & t & t' & He & _ & _ & _ & Hjobs & _)].
  - exfalso. apply Hr. vm_compute. reflexivity.
  - rewrite Hjobs. assert (DeadLetterEntry.job_id e = 20%N) as ->.
    { assert (dead_letter_queue (w_db (Fixture.world failed_db)) !! 50%N = Some (Fixture.dead 50 20))
        as He' by (vm_compute; reflexivity).
      rewrite He in He'. injection He' as ->. reflexivity. }
    rewrite lookup_insert_eq. reflexivity.
Defined.

(** ** Retries that race *)

(** Two users retry one entry while a worker claims the job in between: both
    retries pass the checks before either marks the entry, and the second
    transaction takes the claimed job away from the worker. *)
Definition racing_retries : pool :=
  [ r <- DlqService.retry_job 50 Fixture.member ;; Ret tt;
    r <- DlqService.retry_job 50 Fixture.admin ;; Ret tt;
    r <- JobRepository.claim_next_job Fixture.queue Fixture.worker ;; Ret tt ].

Definition retry_schedule (steps : list nat) : list (nat * Env) :=
  imap (fun n i => (i, Fixture.env_at (Fixture.noon + Z.of_nat n) n)) steps.

(** The checks of [retry_job] run outside its transaction, so "already
    retried" does not exclude a second retry: two retries of one entry and a
    claim have an interleaving after which both retries have succeeded, and a
    job that a worker had claimed is queued again, free for a second worker. *)
Theorem racing_retries_requeue_claimed :
  exists c c', rtc pool_step (racing_retries, Fixture.world failed_db) c /\
    rtc pool_step c c' /\
    Job.status <$> (jobs (w_db c.2) !! 20%N) = Some JobStatus.Claimed /\
    (DeadLetterEntry.manually_retried_by <$> (dead_letter_queue (w_db c.2) !! 50%N))
      = Some (Some Fixture.member) /\
    Job.status <$> (jobs (w_db c'.2) !! 20%N) = Some JobStatus.Queued /\
    (DeadLetterEntry.manually_retried_by <$> (dead_letter_queue (w_db c'.2) !! 50%N))
      = Some (Some Fixture.admin).
Proof.
  set (c0 := (racing_retries, Fixture.world failed_db)).
  exists (run_pool (retry_schedule [0; 1; 0; 1; 0; 2]%nat) c0),
    (run_pool (retry_schedule [1]%nat) (run_pool (retry_schedule [0; 1; 0; 1; 0; 2]%nat) c0)).
  split_and!; [apply run_pool_sound..| | | |]; vm_compute; reflexivity.
Qed.
