(* ===== verification/SchedulerCore.v ===== *)
(** * Scheduler core ([crates/scheduler-core/src])

    The next occurrence of a recurring job ([recurring.rs]), and the two
    background loops: the promoter of due jobs ([cron_scheduler.rs]) and the
    recovery of jobs held by stale workers ([stale_recovery.rs]). A loop is its
    first [n] rounds, for every [n]. *)
From S2P Require Import Prelude Enums Entities RetryPolicy Db Fixture Steps JobRepository.
From S2P Require Import Externals.

Module RecurringError.
Inductive t :=
| NotRecurring (id : Uuid)
| MissingCronExpression (id : Uuid)
| InvalidCronExpression (expr : string)
| NoFutureOccurrence
| Database (e : sqlx_error).
End RecurringError.

Module Recurring.
Import RecurringError.

(** The row of the next occurrence, from the stored row of the job. *)
Definition next_job (c : Ctx) (next_at : Timestamp) (j : Job.t) : Job.t :=
  Job.Mk (fresh c 0) (Job.queue_id j) (Job.project_id j) (Job.job_type j) (Job.name j)
    (Job.payload j) JobStatus.Scheduled (Job.priority j) 0 (Job.max_attempts j)
    (Some next_at) None (Job.cron_expression j) None None None (fresh c 1)
    (Job.batch_id j) (Job.retry_policy_id j) (now c) (now c) None.

(** [INSERT INTO jobs ... SELECT ... FROM jobs WHERE id = $1 RETURNING ...] *)
Definition insert_next_stmt (job_id : Uuid) (next_at : Timestamp) : stmt (option Job.t) :=
  fun c d =>
    match jobs d !! job_id with
    | None => Ok (None, d)
    | Some j =>
        match insert_row jobs Job.id jobs_constraints (next_job c next_at j) c d with
        | Ok (j', d') => Ok (Some j', d')
        | Err v => Err v
        end
    end.

(** [schedule_next_occurrence] *)
Definition schedule_next_occurrence `{!Cron} (job : Job.t)
  : prog (result Job.t RecurringError.t) :=
  if negb (Job.is_recurring job) then Ret (Err (NotRecurring (Job.id job))) else
  expression <-! Job.cron_expression job else MissingCronExpression (Job.id job) ;;
  schedule <-! cron_parse expression else InvalidCronExpression expression ;;
  now <- utc_now ;;
  next_at <-! upcoming schedule now else NoFutureOccurrence ;;
  next_job <-? fetch_one (insert_next_stmt (Job.id job) next_at) via Database ;;
  Ret (Ok next_job).
End Recurring.

Module CronScheduler.

(** One round of [run_scheduled_job_promoter]: errors are logged. *)
Definition promoter_round : prog unit :=
  r <- JobRepository.re_queue_scheduled_jobs ;; Ret tt.

Definition run_scheduled_job_promoter (rounds : nat) : prog unit := ticks rounds promoter_round.
End CronScheduler.

Module StaleRecovery.

(** One round of [run_stale_recovery]. *)
Definition recovery_round (stale_threshold_seconds : Z) : prog unit :=
  r <- JobRepository.recover_stale_jobs stale_threshold_seconds ;; Ret tt.

Definition run_stale_recovery (stale_threshold_seconds : Z) (rounds : nat) : prog unit :=
  ticks rounds (recovery_round stale_threshold_seconds).
End StaleRecovery.

(** ** The next occurrence *)

Section recurring.
Context `{!Cron}.
Import Recurring.

Lemma insert_next_stmt_Ok k t c d r d' : insert_next_stmt k t c d = Ok (r, d') ->
  (r = None /\ d' = d /\ jobs d !! k = None) \/
  exists j, r = Some (next_job c t j) /\ jobs d !! k = Some j /\
    Forall (fun x => x.1 = true) (jobs_constraints d (next_job c t j)) /\
    d' = d <| jobs ::= <[Job.id (next_job c t j) := next_job c t j]> |>.
Proof.
  unfold insert_next_stmt. destruct (jobs d !! k) as [j|] eqn:Hj; [|intros [= <- <-]; by left].
  destruct (insert_row _ _ _ _ c d) as [[j' d1]|v] eqn:E; intros [= <- <-].
  apply insert_row_Ok in E as (-> & Hc & ->). right. eauto.
Qed.

Lemma schedule_next_cases job env n w r w' n' ts :
  exec (schedule_next_occurrence job) env n w = (r, w', n', ts) ->
  ts = [] /\ ((w' = w /\ exists e, r = Returned (Err e)) \/
  exists expr s t next_at j c, Job.is_recurring job = true /\
    Job.cron_expression job = Some expr /\ cron_parse expr = Some s /\
    upcoming s t = Some next_at /\ t = e_clock (env n) 0 /\
    jobs (w_db w) !! Job.id job = Some j /\ jobs (w_db w) !! fresh c 0%nat = None /\
    w' = w <| w_db ::= fun d => d <| jobs ::= <[fresh c 0%nat := next_job c next_at j]> |> |> /\
    (r = Returned (Ok (next_job c next_at j)) \/ r = Returned (Err (RecurringError.Database Io)))).
Proof.
  unfold schedule_next_occurrence, fetch_one. intros Hx.
  destruct (Job.is_recurring job) eqn:Hrec; [|simplify_eq/=; eauto].
  destruct (Job.cron_expression job) as [expr|] eqn:Hexpr; [|simplify_eq/=; eauto].
  destruct (cron_parse expr) as [s|] eqn:Hs; [|simplify_eq/=; eauto].
  cbn [negb] in Hx. rewrite exec_utc_now in Hx.
  destruct (upcoming s _) as [next_at|] eqn:Hn; [|simplify_eq/=; eauto].
  rewrite bind_assoc in Hx.
  match type of Hx with exec (bind (sql ?s) ?k) _ ?m _ = _ =>
    destruct (exec_sql s k env m w) as (r1 & w1 & Hs1 & Ho) end.
  rewrite Hs1 in Hx. clear Hs1.
  destruct Ho as [|v err _|a d Hi|a d Hi]; [simplify_eq/=; eauto..| |];
    apply insert_next_stmt_Ok in Hi as [(-> & -> & _)|(j & -> & Hj & Hall & ->)];
    simplify_eq/=; rewrite ?world_db_id; (split; [done|]); [by eauto| |by eauto|];
    apply Forall_cons in Hall as [Hid _]; apply negb_true_iff, has_false in Hid;
    right; eexists expr, s, _, next_at, j, (ctx_of (env (S n)) 0);
    split_and!; eauto.
Qed.
End recurring.

(** C22: scheduling the next occurrence adds at most one row and changes no
    other: only for a recurring job whose expression parses, the row is a fresh
    scheduled job with the stored job's queue, project, payload, priority,
    expression and attempt budget, no attempts, no worker, no idempotency key,
    due strictly later than the clock reading. *)
Theorem next_occurrence_exact `{!Cron, !CronSpec} (job : Job.t) (env : nat -> Env)
  (w w' : World) (r : outcome (result Job.t RecurringError.t)) :
  run (Recurring.schedule_next_occurrence job) env w = (r, w') ->
  w' = w \/
  exists j next next_at, Job.is_recurring job = true /\
    jobs (w_db w) !! Job.id job = Some j /\ jobs (w_db w) !! Job.id next = None /\
    w' = w <| w_db ::= fun d => d <| jobs ::= <[Job.id next := next]> |> |> /\
    Job.status next = JobStatus.Scheduled /\ Job.scheduled_at next = Some next_at /\
    e_clock (env 0%nat) 0 < next_at /\
    Job.attempt_count next = 0 /\ Job.worker_id next = None /\ Job.idempotency_key next = None /\
    Job.queue_id next = Job.queue_id j /\ Job.project_id next = Job.project_id j /\
    Job.payload next = Job.payload j /\ Job.priority next = Job.priority j /\
    Job.cron_expression next = Job.cron_expression j /\ Job.max_attempts next = Job.max_attempts j.
Proof.
  intros (n' & ts & Hx)%run_exec.
  apply schedule_next_cases in Hx as [_ [[? _]|(expr & s & t & next_at & j & c & Hrec & _ & _ & Hn & -> & Hj & Hf & -> & _)]];
    [by left|right].
  exists j, (Recurring.next_job c next_at j), next_at. split_and!; try done.
  by eapply upcoming_after.
Qed.

(** A job that recurs every 30 seconds. *)
Definition recurring_job (id : Uuid) (status : JobStatus.t) : Job.t :=
  Job.Mk id Fixture.queue Fixture.project JobType.Recurring "tick" VNull status
    JobPriority.Normal 0 3 None None (Some "30") None None None 0%N None None 0 0 None.

Section examples.
Import Toy.

Lemma next_occurrence_exact_witness :
  let job := recurring_job 20 JobStatus.Completed in
  let x := run (Recurring.schedule_next_occurrence job) (Fixture.env_at Fixture.noon)
             (Fixture.world (Fixture.with_jobs [job])) in
  exists next, jobs (w_db x.2) !! Job.id next = Some next /\
    Job.status next = JobStatus.Scheduled.
Proof.
  intros job x.
  destruct (next_occurrence_exact job (Fixture.env_at Fixture.noon)
    (Fixture.world (Fixture.with_jobs [job])) x.2 x.1 (surjective_pairing _))
    as [H|(j & next & next_at & _ & _ & _ & Hw & Hst & _)].
  - exfalso. apply (f_equal (fun w => size (jobs (w_db w)))) in H. vm_compute in H. discriminate H.
  - exists next. split; [|exact Hst]. rewrite Hw. apply lookup_insert_eq.
Defined.
End examples.

(** ** The loops *)

Lemma exec_ticks_S k body env n w :
  exec (ticks (S k) body) env n w =
  let '(r, w', n', ts) := exec body env n w in
  match r with
  | Returned _ => let '(r', w'', n'', ts') := exec (ticks k body) env n' w' in
      (r', w'', n'', ts ++ ts')
  | Panicked => (Panicked, w', n', ts)
  end.
Proof. change (ticks (S k) body) with (body ;;; ticks k body). by rewrite exec_bind. Qed.

Lemma steps_sat_ticks P k body : steps_sat P body -> steps_sat P (ticks k body).
Proof. intros Hb. induction k as [|k IH]; [done|]. simpl. by apply steps_sat_bind. Qed.

Lemma steps_sat_for_each {A} P (l : list A) body :
  (forall x, steps_sat P (body x)) -> steps_sat P (for_each l body).
Proof. intros Hb. induction l as [|x l IH]; [done|]. simpl. by apply steps_sat_bind. Qed.
#[export] Hint Resolve steps_sat_ticks steps_sat_for_each : sched.

Definition promoted (t : Timestamp) (d : Db) : Db :=
  d <| jobs ::= update_where (JobRepository.due t) (JobRepository.set_queued t) |>.

Lemma exec_promoter_round env n w : quiet env ->
  exec CronScheduler.promoter_round env n w =
  (Returned tt, w <| w_db ::= promoted (e_now (env n)) |>, S n, []).
Proof. intros Hq. unfold CronScheduler.promoter_round, JobRepository.re_queue_scheduled_jobs.
  by rewrite exec_sql_quiet. Qed.

Lemma exec_promoter_ticks k env n w : quiet env ->
  exec (ticks (S k) CronScheduler.promoter_round) env n w =
  exec (ticks k CronScheduler.promoter_round) env (S n) (w <| w_db ::= promoted (e_now (env n)) |>).
Proof.
  intros Hq. rewrite exec_ticks_S, exec_promoter_round by done. cbv beta iota.
  destruct (exec (ticks k _) env _ _) as [[[r w'] n'] ts]. done.
Qed.

Lemma promoted_lookup t d k :
  jobs (promoted t d) !! k =
  (fun j => if JobRepository.due t j then JobRepository.set_queued t j else j) <$> jobs d !! k.
Proof. apply lookup_update_where. Qed.

Lemma promoter_keeps_queued k rounds env n w r w' n' ts j : quiet env ->
  exec (ticks rounds CronScheduler.promoter_round) env n w = (r, w', n', ts) ->
  jobs (w_db w) !! k = Some j -> Job.status j = JobStatus.Queued ->
  jobs (w_db w') !! k = Some j.
Proof.
  intros Hq. revert n w. induction rounds as [|m IH]; intros n w Hx Hj Hs; [by simplify_eq/=|].
  rewrite exec_promoter_ticks in Hx by done. eapply IH; [exact Hx| |done].
  etrans; [apply (promoted_lookup (e_now (env n)) (w_db w) k)|]. rewrite Hj. simpl. unfold JobRepository.due. by rewrite Hs.
Qed.

Lemma promoter_queues k rounds env n w r w' n' ts j s i : quiet env ->
  exec (ticks rounds CronScheduler.promoter_round) env n w = (r, w', n', ts) ->
  jobs (w_db w) !! k = Some j -> Job.status j = JobStatus.Scheduled ->
  coalesce (Job.next_attempt_at j) (Job.scheduled_at j) = Some s ->
  (i < rounds)%nat -> s <= e_now (env (n + i)%nat) ->
  exists t, jobs (w_db w') !! k = Some (JobRepository.set_queued t j).
Proof.
  intros Hq. revert n w i. induction rounds as [|m IH]; intros n w i Hx Hj Hst Hs Hi Hle; [lia|].
  rewrite exec_promoter_ticks in Hx by done.
  destruct (JobRepository.due (e_now (env n)) j) eqn:Hd.
  - exists (e_now (env n)). eapply promoter_keeps_queued; [exact Hq|exact Hx| |done].
    etrans; [apply (promoted_lookup (e_now (env n)) (w_db w) k)|]. rewrite Hj. simpl. by rewrite Hd.
  - destruct i as [|i].
    + exfalso. rewrite Nat.add_0_r in Hle. assert (JobRepository.due (e_now (env n)) j = true)
        by (apply due_true; eauto). congruence.
    + eapply (IH (S n) _ i); [exact Hx| |done|done|lia|by rewrite Nat.add_succ_comm].
      etrans; [apply (promoted_lookup (e_now (env n)) (w_db w) k)|]. rewrite Hj. simpl. by rewrite Hd.
Qed.

(** The promoter loop is live: if, without connection faults, one of its
    first [rounds] rounds takes place at or after a scheduled job's due time
    (its retry time, or else its schedule), the job is queued when they are
    over, and nothing but its status and update time differs. *)
Theorem promoter_live (rounds : nat) (env : nat -> Env) (w w' : World) (r : outcome unit)
  (k : Uuid) (j : Job.t) (s : Timestamp) (i : nat) :
  quiet env -> run (CronScheduler.run_scheduled_job_promoter rounds) env w = (r, w') ->
  jobs (w_db w) !! k = Some j -> Job.status j = JobStatus.Scheduled ->
  coalesce (Job.next_attempt_at j) (Job.scheduled_at j) = Some s ->
  (i < rounds)%nat -> s <= e_now (env i) ->
  exists t, jobs (w_db w') !! k =
    Some (j <| Job.status := JobStatus.Queued |> <| Job.updated_at := t |>).
Proof.
  intros Hq (n' & ts & Hx)%run_exec. intros. eapply (promoter_queues k rounds env 0); eauto.
Qed.

(** Three rounds, five seconds apart, around the due time. *)
Definition every_five_seconds (i : nat) : Env :=
  Fixture.env_at (Fixture.noon + (Z.of_nat i * 5 - 5) * SECOND) i.

Lemma promoter_live_witness :
  let x := run (CronScheduler.run_scheduled_job_promoter 3) every_five_seconds
             (Fixture.world delayed_db) in
  exists t, jobs (w_db x.2) !! 20%N = Some ((delayed_job 20 (Some Fixture.noon))
    <| Job.status := JobStatus.Queued |> <| Job.updated_at := t |>).
Proof.
  intros x.
  apply (promoter_live 3 every_five_seconds (Fixture.world delayed_db) x.2 x.1 20%N _ Fixture.noon 1);
    [intros n i; reflexivity|apply surjective_pairing|vm_compute; reflexivity|reflexivity
    |reflexivity|lia|vm_compute; discriminate].
Defined.
