(* ===== verification/Executor.v ===== *)
(** * Executor ([crates/worker/src/executor.rs])

    The run of one claimed job: mark it running, call its handler, and settle
    the outcome in one transaction (completion; or retry, or dead-letter entry)
    together with the execution record and the outbox event. The handler is an
    argument of [execute_job_with]; the shipped program is its instance at
    [simulate_execute]. [let _ =] on a statement of the transaction is modelled
    as written: the error is ignored and the next statement is sent. *)
From S2P Require Import Prelude Enums Entities F64 RetryPolicy Db Fixture Steps JobRepository.
From S2P Require Import Repositories Externals SchedulerCore.

Module Executor.
Section executor.
Context {UT : UuidText} {CT : ChronoText} {CH : Chrono} {CR : Cron}.

(** [(finished_at - started_at).num_milliseconds()] *)
Definition duration_ms (started_at finished_at : Timestamp) : Z :=
  Z.quot (finished_at - started_at) 1000.

Definition uuid_value (u : Uuid) : Value := VString (uuid_to_string u).

(** The rows a run writes. *)
Definition execution_row (job : Job.t) (worker_id execution_id : Uuid)
  (started_at finished_at : Timestamp) (outcome : result unit string) : JobExecution.t :=
  JobExecution.Mk execution_id (Job.id job) worker_id (i32 (Job.attempt_count job + 1))
    started_at (Some finished_at) (is_ok outcome)
    (match outcome with Ok _ => None | Err msg => Some msg end)
    (Some (duration_ms started_at finished_at)) (Job.correlation_id job).

Definition completed_event (job : Job.t) (id : Uuid) (now : Timestamp) : OutboxEvent.t :=
  OutboxEvent.new id now OutboxEventType.JobCompleted (Job.id job)
    (VObject [("job_id", uuid_value (Job.id job)); ("queue_id", uuid_value (Job.queue_id job))])
    (Job.correlation_id job).

Definition dlq_event (job : Job.t) (msg : string) (id : Uuid) (now : Timestamp) : OutboxEvent.t :=
  OutboxEvent.new id now OutboxEventType.JobMovedToDlq (Job.id job)
    (VObject [("job_id", uuid_value (Job.id job)); ("queue_id", uuid_value (Job.queue_id job));
              ("error", VString msg)])
    (Job.correlation_id job).

Definition retry_event (job : Job.t) (attempt : Z) (next_attempt_at : Timestamp) (id : Uuid)
  (now : Timestamp) : OutboxEvent.t :=
  OutboxEvent.new id now OutboxEventType.JobRetryScheduled (Job.id job)
    (VObject [("job_id", uuid_value (Job.id job));
              ("next_attempt_at", VString (rfc3339 next_attempt_at));
              ("attempt", VNumber attempt)])
    (Job.correlation_id job).

Definition dlq_row (job : Job.t) (msg : string) (attempt : Z) (id : Uuid) (moved_at : Timestamp)
  : DeadLetterEntry.t :=
  DeadLetterEntry.Mk id (Job.id job) (Job.queue_id job) (Job.project_id job) (Job.name job)
    (Job.payload job) (Some msg) attempt None moved_at None None.

(** The updates of the job's row. *)
Definition set_failed (attempt : Z) (now : Timestamp) (j : Job.t) : Job.t :=
  j <| Job.status := JobStatus.Failed |> <| Job.attempt_count := attempt |>
    <| Job.worker_id := None |> <| Job.updated_at := now |>.
Definition set_retry (attempt : Z) (next_attempt_at now : Timestamp) (j : Job.t) : Job.t :=
  j <| Job.status := JobStatus.Scheduled |> <| Job.next_attempt_at := Some next_attempt_at |>
    <| Job.attempt_count := attempt |> <| Job.worker_id := None |> <| Job.updated_at := now |>.

Definition fail_stmt (job_id : Uuid) (attempt : Z) : stmt Z := with_ctx (fun c =>
  update_row jobs job_id (set_failed attempt (now c))).
Definition retry_stmt (job_id : Uuid) (attempt : Z) (next_attempt_at : Timestamp) : stmt Z :=
  with_ctx (fun c => update_row jobs job_id (set_retry attempt next_attempt_at (now c))).
Definition insert_execution_stmt (x : JobExecution.t) : stmt JobExecution.t :=
  insert_row job_executions JobExecution.id job_executions_constraints x.
Definition insert_dlq_stmt (x : DeadLetterEntry.t) : stmt DeadLetterEntry.t :=
  insert_row dead_letter_queue DeadLetterEntry.id dead_letter_queue_constraints x.

(** [OutboxEvent::new] draws its id and its time, then [insert_in_tx]. *)
Definition emit (event : Uuid -> Timestamp -> OutboxEvent.t) : txm unit :=
  id <-tx tx_new_v4 ;;
  now <-tx tx_utc_now ;;
  _ <-tx OutboxRepository.insert_in_tx (event id now) ;;
  tx_ret tt.

(** The transaction of a success. *)
Definition success_tx (job : Job.t) (worker_id execution_id : Uuid)
  (started_at finished_at : Timestamp) : txm (tx_exit (result unit sqlx_error)) :=
  _ <-tx tx_sql (JobRepository.mark_completed_stmt (Job.id job)) ;;
  _ <-tx tx_sql (insert_execution_stmt
         (execution_row job worker_id execution_id started_at finished_at (Ok tt))) ;;
  _ <-tx emit (completed_event job) ;;
  tx_ret (Commit (fun r => r)).

(** [10i64 * 2i64.pow((attempt - 1).max(0) as u32)], cut at 300: release
    arithmetic, which wraps. *)
Definition default_delay (attempt : Z) : Z :=
  Z.min 300 (i64 (10 * i64 (2 ^ Z.max 0 (i32 (attempt - 1))))).

(** [calculate_retry_delay]: the policy is read through the pool, and a failed
    read counts as no policy. *)
Definition calculate_retry_delay (job : Job.t) (attempt : Z) : txm Z :=
  match Job.retry_policy_id job with
  | Some policy_id =>
      policy <-tx tx_pool_query (fun d => retry_policies d !! policy_id) ;;
      match unwrap_or (result_ok policy) None with
      | Some p => tx_ret (RetryPolicy.next_delay_seconds p attempt)
      | None => tx_ret (default_delay attempt)
      end
  | None => tx_ret (default_delay attempt)
  end.

Definition should_dlq (job : Job.t) : bool :=
  Job.max_attempts job <=? i32 (Job.attempt_count job + 1).

(** The transaction of a failure. *)
Definition failure_tx (job : Job.t) (worker_id execution_id : Uuid)
  (started_at finished_at : Timestamp) (error_msg : string)
  : txm (tx_exit (result unit sqlx_error)) :=
  let attempt := i32 (Job.attempt_count job + 1) in
  _ <-tx tx_sql (insert_execution_stmt
         (execution_row job worker_id execution_id started_at finished_at (Err error_msg))) ;;
  if should_dlq job then
    _ <-tx tx_sql (fail_stmt (Job.id job) attempt) ;;
    dlq_id <-tx tx_new_v4 ;;
    moved_at <-tx tx_utc_now ;;
    _ <-tx tx_sql (insert_dlq_stmt (dlq_row job error_msg attempt dlq_id moved_at)) ;;
    _ <-tx emit (dlq_event job error_msg) ;;
    tx_ret (Commit (fun r => r))
  else
    delay_secs <-tx calculate_retry_delay job attempt ;;
    now <-tx tx_utc_now ;;
    match add_seconds now delay_secs with
    | None => tx_panic
    | Some next_attempt_at =>
        _ <-tx tx_sql (retry_stmt (Job.id job) attempt next_attempt_at) ;;
        _ <-tx emit (retry_event job attempt next_attempt_at) ;;
        tx_ret (Commit (fun r => r))
    end.

(** [simulate_execute]: the shipped handler sleeps and succeeds. *)
Definition simulate_execute (job : Job.t) : prog (result unit string) := Ret (Ok tt).

(** [execute_job], for a handler of jobs. *)
Definition execute_job_with (handler : Job.t -> prog (result unit string))
  (worker_id : Uuid) (job : Job.t) : prog unit :=
  started_at <- utc_now ;;
  r <- sql (JobRepository.mark_running_stmt (Job.id job)) ;;
  match r with
  | Err _ => Ret tt
  | Ok _ =>
    result <- handler job ;;
    finished_at <- utc_now ;;
    execution_id <- new_v4 ;;
    match result with
    | Ok _ =>
        committed <- transaction (success_tx job worker_id execution_id started_at finished_at) ;;
        match committed with
        | Ok (Ok _) =>
            if Job.is_recurring job then
              next <- Recurring.schedule_next_occurrence job ;; Ret tt
            else Ret tt
        | _ => Ret tt
        end
    | Err error_msg =>
        committed <- transaction
          (failure_tx job worker_id execution_id started_at finished_at error_msg) ;;
        Ret tt
    end
  end.

(** [execute_job] as shipped. *)
Definition execute_job (worker_id : Uuid) (job : Job.t) : prog unit :=
  execute_job_with simulate_execute worker_id job.
End executor.
End Executor.

(** ** The default delay *)

(** The built-in delay is [min(10 * 2^(attempt-1), 300)] seconds, exactly,
    for the first 60 attempts, which is also what the seeded retry policy
    answers; at attempt 61 the product has wrapped to a negative number, which
    is out of a [Duration]'s range, and the executor panics instead. *)
Theorem default_delay_exact `{!Chrono, !ChronoSpec} (attempt : Z) :
  (1 <= attempt <= 60 ->
   Executor.default_delay attempt = Z.min (10 * 2 ^ (attempt - 1)) 300 /\
   Executor.default_delay attempt = RetryPolicy.next_delay_seconds RetryPolicy.seed attempt) /\
  (forall t, add_seconds t (Executor.default_delay 61) = None).
Proof.
  split.
  - intros Ha. assert (2 ^ (attempt - 1) <= 2 ^ 59) by (apply Z.pow_le_mono_r; lia).
    assert (0 < 2 ^ (attempt - 1)) by (apply Z.pow_pos_nonneg; lia).
    assert (Executor.default_delay attempt = Z.min (10 * 2 ^ (attempt - 1)) 300) as He.
    { unfold Executor.default_delay. rewrite (i32_id (attempt - 1)) by (unfold in_width; lia).
      rewrite Z.max_r by lia. generalize dependent (2 ^ (attempt - 1)). intros p Hp Hp0.
      rewrite (i64_id p), i64_id by (unfold in_width; lia). lia. }
    split; [done|]. rewrite He, exponential_capped_doubling by (done || (simpl; lia)).
    unfold RetryPolicy.capped_doubling, I64_MAX. cbn [RetryPolicy.base_delay_seconds
      RetryPolicy.max_delay_seconds RetryPolicy.seed].
    generalize dependent (2 ^ (attempt - 1)). intros p Hp Hp0 _. lia.
  - intros t. apply add_seconds_out_of_range. vm_compute. reflexivity.
Qed.

Section delay_example.
Import Toy.
Lemma default_delay_exact_witness :
  Executor.default_delay 5 = 160 /\ add_seconds 0 (Executor.default_delay 61) = None.
Proof.
  destruct (default_delay_exact 5) as [H1 H2]. split; [|apply H2].
  destruct H1 as [-> _]; [split; discriminate|reflexivity].
Defined.
End delay_example.

(** ** The transactions *)

(** The store with the job's row marked running at time [t]. *)
Definition running_at (job_id : Uuid) (t : Timestamp) (d : Db) : Db :=
  match jobs d !! job_id with
  | Some j => d <| jobs ::= <[job_id := j <| Job.status := JobStatus.Running |>
                                         <| Job.updated_at := t |>]> |>
  | None => d
  end.

(** A settled outcome: the job's row, the execution record, the dead-letter
    entry if there is one, and the outbox event, all in. *)
Definition settle (job_id : Uuid) (j : Job.t) (x : JobExecution.t)
  (dead : option DeadLetterEntry.t) (event : OutboxEvent.t) (d : Db) : Db :=
  d <| jobs ::= <[job_id := j]> |>
    <| job_executions ::= <[JobExecution.id x := x]> |>
    <| dead_letter_queue ::= match dead with
                             | Some e => <[DeadLetterEntry.id e := e]>
                             | None => fun t => t
                             end |>
    <| outbox_events ::= <[OutboxEvent.id event := event]> |>.

(** The new rows have new ids. *)
Definition new_rows (x : JobExecution.t) (dead : option DeadLetterEntry.t)
  (event : OutboxEvent.t) (d : Db) : Prop :=
  job_executions d !! JobExecution.id x = None /\
  match dead with Some e => dead_letter_queue d !! DeadLetterEntry.id e = None | None => True end /\
  outbox_events d !! OutboxEvent.id event = None.

Section transactions.
Context {UT : UuidText} {CT : ChronoText} {CH : Chrono} {CR : Cron}.
Import Executor.

Lemma mark_running_eq k c d : exists n,
  JobRepository.mark_running_stmt k c d = Ok (n, running_at k (now c) d).
Proof.
  unfold JobRepository.mark_running_stmt, with_ctx, update_row, running_at.
  destruct (jobs d !! k); eauto.
Qed.

Lemma update_row_Ok {V} (table : Db -> gmap N V) `{!Setter table} k f c d n d' v :
  table d !! k = Some v -> update_row table k f c d = Ok (n, d') ->
  d' = d <| table ::= <[k := f v]> |>.
Proof. unfold update_row. intros ->. by intros [= _ <-]. Qed.

Lemma insert_execution_Ok x c d a d' : insert_execution_stmt x c d = Ok (a, d') ->
  job_executions d !! JobExecution.id x = None /\ is_Some (jobs d !! JobExecution.job_id x) /\
  d' = d <| job_executions ::= <[JobExecution.id x := x]> |>.
Proof.
  intros (-> & Hc & ->)%insert_row_Ok. apply Forall_cons in Hc as [Hid [Hjob _]%Forall_cons].
  simpl in *. apply negb_true_iff, has_false in Hid. apply has_true in Hjob. auto.
Qed.

Lemma insert_dlq_Ok x c d a d' : insert_dlq_stmt x c d = Ok (a, d') ->
  dead_letter_queue d !! DeadLetterEntry.id x = None /\
  d' = d <| dead_letter_queue ::= <[DeadLetterEntry.id x := x]> |>.
Proof.
  intros (-> & Hc & ->)%insert_row_Ok. apply Forall_cons in Hc as [H1 _].
  apply negb_true_iff, has_false in H1. auto.
Qed.

Lemma outbox_insert_eq id t ty agg payload corr c d :
  OutboxRepository.insert_stmt (OutboxEvent.new id t ty agg payload corr) c d =
  insert_row outbox_events OutboxEvent.id outbox_events_constraints
    (OutboxEvent.new id t ty agg payload corr) c d.
Proof. unfold OutboxRepository.insert_stmt. by autorewrite with casts. Qed.

Lemma emit_post base e (ty : OutboxEventType.t) agg payload corr :
  tx_post base e (emit (fun id t => OutboxEvent.new id t ty agg payload corr))
    (fun d _ d' => exists id t, let event := OutboxEvent.new id t ty agg payload corr in
       outbox_events d !! id = None /\ d' = d <| outbox_events ::= <[id := event]> |>).
Proof.
  eapply tx_post_mono.
  - eapply tx_post_bind; [apply tx_post_reads; auto with sched|intros id].
    eapply tx_post_bind; [apply tx_post_reads; auto with sched|intros t].
    eapply tx_post_bind; [apply tx_post_sql|intros r]. apply tx_post_ret.
  - intros d [] d' (id & ? & -> & t & ? & -> & r & ? & (ev & c & -> & Hi) & _ & ->).
    rewrite outbox_insert_eq in Hi. apply insert_row_Ok in Hi as (-> & Hc & ->).
    apply Forall_cons in Hc as [Hid _]. apply negb_true_iff, has_false in Hid.
    exists id, t. split; [exact Hid|reflexivity].
Qed.

Lemma success_tx_post base e job wk eid t0 t1 :
  tx_post base e (success_tx job wk eid t0 t1) (fun d r d' => exists j t ev,
    let x := execution_row job wk eid t0 t1 (Ok tt) in
    r = Commit (fun r => r) /\ jobs d !! Job.id job = Some j /\ new_rows x None ev d /\
    OutboxEvent.event_type ev = OutboxEventType.JobCompleted /\
    OutboxEvent.aggregate_id ev = Job.id job /\ OutboxEvent.published ev = false /\
    d' = settle (Job.id job) (j <| Job.status := JobStatus.Completed |>
           <| Job.completed_at := Some t |> <| Job.updated_at := t |> <| Job.worker_id := None |>)
           x None ev d).
Proof.
  eapply tx_post_mono.
  - eapply tx_post_bind; [apply tx_post_sql|intros r1].
    eapply tx_post_bind; [apply tx_post_sql|intros r2].
    eapply tx_post_bind; [apply emit_post|intros r3]. apply tx_post_ret.
  - intros d r d' (r1 & d1 & (n & c & -> & H1) & r2 & d2 & (a & c2 & -> & H2) & [] & d3 &
      (id & t & Hid & ->) & -> & ->).
    apply insert_execution_Ok in H2 as (Hx & [j1 Hj1] & ->). simpl in Hj1.
    unfold JobRepository.mark_completed_stmt, with_ctx, update_row in H1.
    destruct (jobs d !! Job.id job) as [j|] eqn:Hj; [|simplify_eq; congruence].
    simplify_eq/=. exists j, (now c), (completed_event job id t).
    split_and!; [done|done|by split|reflexivity..].
Qed.

(** The delay the executor computes: the policy's, when one is attached and was
    read, and the built-in one otherwise. *)
Definition delay_of (policy : option RetryPolicy.t) (attempt : Z) : Z :=
  match policy with
  | Some p => RetryPolicy.next_delay_seconds p attempt
  | None => default_delay attempt
  end.
Definition attached_policy (job : Job.t) (d : Db) : option RetryPolicy.t :=
  match Job.retry_policy_id job with Some pid => retry_policies d !! pid | None => None end.

Lemma calculate_retry_delay_post base e job attempt :
  tx_post base e (calculate_retry_delay job attempt) (fun d r d' => d' = d /\
    (r = delay_of (attached_policy job base) attempt \/
     r = default_delay attempt /\ exists i, e_fault e i <> NoFault)).
Proof.
  unfold calculate_retry_delay, attached_policy.
  destruct (Job.retry_policy_id job) as [pid|].
  - eapply tx_post_mono.
    + eapply tx_post_bind; [apply tx_post_pool_query|intros r].
      instantiate (1 := fun r d b d' => d' = d /\ b = delay_of (unwrap_or (result_ok r) None) attempt).
      cbv beta. destruct (unwrap_or (result_ok r) None) as [p|];
        (eapply tx_post_mono; [apply tx_post_ret|by intros ??? [-> ->]]).
    + intros d r d' (r1 & d1 & [-> Hr] & -> & ->). split; [done|].
      destruct Hr as [->|[-> ?]]; simpl; auto.
  - eapply tx_post_mono; [apply tx_post_ret|]. intros ??? [-> ->]. auto.
Qed.

(** The two ways a failure settles. *)
Definition dead_lettered (job : Job.t) (x : JobExecution.t) (msg : string) (d d' : Db) : Prop :=
  let attempt := i32 (Job.attempt_count job + 1) in
  exists j t dead_id moved_at ev,
    let dead := dlq_row job msg attempt dead_id moved_at in
    jobs d !! Job.id job = Some j /\ new_rows x (Some dead) ev d /\
    OutboxEvent.event_type ev = OutboxEventType.JobMovedToDlq /\
    OutboxEvent.aggregate_id ev = Job.id job /\ OutboxEvent.published ev = false /\
    d' = settle (Job.id job) (set_failed attempt t j) x (Some dead) ev d.
Definition retry_scheduled (e : Env) (job : Job.t) (x : JobExecution.t) (delay : Z) (d d' : Db)
  : Prop :=
  let attempt := i32 (Job.attempt_count job + 1) in
  exists j t i next_attempt_at ev,
    jobs d !! Job.id job = Some j /\ new_rows x None ev d /\
    add_seconds (e_clock e i) delay = Some next_attempt_at /\
    OutboxEvent.event_type ev = OutboxEventType.JobRetryScheduled /\
    OutboxEvent.aggregate_id ev = Job.id job /\ OutboxEvent.published ev = false /\
    d' = settle (Job.id job) (set_retry attempt next_attempt_at t j) x None ev d.

(** The delay of a retry: the attached policy's, or the built-in one when there
    is none or it could not be read. *)
Definition retry_delay (e : Env) (base : Db) (job : Job.t) (delay : Z) : Prop :=
  let attempt := i32 (Job.attempt_count job + 1) in
  delay = delay_of (attached_policy job base) attempt \/
  delay = default_delay attempt /\ exists i, e_fault e i <> NoFault.

Lemma update_job_after_execution k f c d n d' x j :
  jobs d !! k = Some j ->
  update_row jobs k f c (d <| job_executions ::= <[JobExecution.id x := x]> |>) = Ok (n, d') ->
  d' = d <| jobs ::= <[k := f j]> |> <| job_executions ::= <[JobExecution.id x := x]> |>.
Proof. unfold update_row. simpl. intros ->. by intros [= _ <-]. Qed.

Lemma failure_tx_post base e job wk eid t0 t1 msg :
  tx_post base e (failure_tx job wk eid t0 t1 msg) (fun d r d' =>
    let x := execution_row job wk eid t0 t1 (Err msg) in
    r = Commit (fun r => r) /\
    if should_dlq job then dead_lettered job x msg d d'
    else exists delay, retry_delay e base job delay /\ retry_scheduled e job x delay d d').
Proof.
  unfold failure_tx. destruct (should_dlq job).
  - eapply tx_post_mono.
    + eapply tx_post_bind; [apply tx_post_sql|intros r1].
      eapply tx_post_bind; [apply tx_post_sql|intros r2].
      eapply tx_post_bind; [apply tx_post_reads; auto with sched|intros dead_id].
      eapply tx_post_bind; [apply tx_post_reads; auto with sched|intros moved_at].
      eapply tx_post_bind; [apply tx_post_sql|intros r3].
      eapply tx_post_bind; [apply emit_post|intros r4]. apply tx_post_ret.
    + intros d r d' (r1 & d1 & (? & ? & -> & H1) & r2 & d2 & (? & c & -> & H2) & dead_id & ? & ->
        & moved_at & ? & -> & r3 & d3 & (? & ? & -> & H3) & [] & d4 & (id & t & Hid & ->) & -> & ->).
      apply insert_execution_Ok in H1 as (Hx & [j Hj] & ->). simpl in Hj.
      pose proof (update_job_after_execution _ _ _ _ _ _ _ _ Hj H2) as ->.
      apply insert_dlq_Ok in H3 as [Hdead ->].
      split; [done|]. exists j, (now c), dead_id, moved_at, (dlq_event job msg id t).
      split_and!; [done|by split_and!|reflexivity..].
  - eapply tx_post_mono.
    + eapply tx_post_bind; [apply tx_post_sql|intros r1].
      eapply tx_post_bind; [apply calculate_retry_delay_post|intros delay].
      eapply tx_post_bind; [apply tx_post_utc_now|intros failed_at].
      instantiate (1 := fun failed_at d r d' => r = Commit (fun r => r) /\
        exists n r2 d2 d3, add_seconds failed_at delay = Some n /\
          (exists c a, r2 = Ok a /\ retry_stmt (Job.id job) (i32 (Job.attempt_count job + 1)) n c d
             = Ok (a, d2)) /\
          exists id t, outbox_events d2 !! id = None /\ d3 = d2 <| outbox_events ::=
            <[id := retry_event job (i32 (Job.attempt_count job + 1)) n id t]> |> /\ d' = d3).
      destruct (add_seconds failed_at delay) as [n|] eqn:Hn; [|apply tx_post_panic].
      eapply tx_post_mono.
      * eapply tx_post_bind; [apply tx_post_sql|intros r2].
        eapply tx_post_bind; [apply emit_post|intros r4]. apply tx_post_ret.
      * intros d r d' (r2 & d2 & (a & c & -> & H2) & [] & d3 & (id & t & Hid & ->) & -> & ->).
        split; [done|]. exists n, (Ok a : result Z sqlx_error), d2. eexists.
        split_and!; [done|by exists c, a|]. exists id, t. by split_and!.
    + intros d r d' (r1 & d1 & (? & ? & -> & H1) & delay & d2 & [-> Hdelay] & failed_at & ? & [-> [i ->]] &
        -> & n & r2 & d3 & d4 & Hn & (c & a & -> & H2) & id & t & Hid & -> & ->).
      apply insert_execution_Ok in H1 as (Hx & [j Hj] & ->). simpl in Hj.
      pose proof (update_job_after_execution _ _ _ _ _ _ _ _ Hj H2) as ->.
      split; [done|]. exists delay. split; [done|].
      exists j, (now c), i, n, (retry_event job (i32 (Job.attempt_count job + 1)) n id t).
      split_and!; [done|by split_and!|done|reflexivity..].
Qed.
End transactions.

(** ** Runs *)

Section runs.
Context {UT : UuidText} {CT : ChronoText} {CH : Chrono} {CR : Cron}.
Import Executor.

Lemma emit_total event : tx_total (emit event).
Proof. unfold emit, OutboxRepository.insert_in_tx. auto 10 with sched. Qed.
#[local] Hint Resolve emit_total : sched.

Lemma success_tx_total job wk eid t0 t1 : tx_total (success_tx job wk eid t0 t1).
Proof. unfold success_tx. auto 10 with sched. Qed.
Lemma failure_tx_total job wk eid t0 t1 msg : should_dlq job = true ->
  tx_total (failure_tx job wk eid t0 t1 msg).
Proof. intros Hd. unfold failure_tx. rewrite Hd. auto 20 with sched. Qed.

(** A successful settlement. *)
Definition completed (job : Job.t) (x : JobExecution.t) (d d' : Db) : Prop :=
  exists j t ev, jobs d !! Job.id job = Some j /\ new_rows x None ev d /\
    OutboxEvent.event_type ev = OutboxEventType.JobCompleted /\
    OutboxEvent.aggregate_id ev = Job.id job /\ OutboxEvent.published ev = false /\
    d' = settle (Job.id job) (j <| Job.status := JobStatus.Completed |>
           <| Job.completed_at := Some t |> <| Job.updated_at := t |> <| Job.worker_id := None |>)
           x None ev d.

(** The next occurrence of [job], added to the store. *)
Definition next_added (job : Job.t) (d d' : Db) : Prop :=
  Job.is_recurring job = true /\ exists next, jobs d !! Job.id next = None /\
    Job.status next = JobStatus.Scheduled /\ d' = d <| jobs ::= <[Job.id next := next]> |>.

(** The run up to the handler: it starts the handler on the store with the row
    marked running, or ends. *)
Lemma exec_execute_start handler wk job env n w x :
  exec (execute_job_with handler wk job) env n w = x ->
  (exists w' n', x = (Returned tt, w', n', []) /\
     (w' = w \/ exists t, w' = w <| w_db ::= running_at (Job.id job) t |>)) \/
  exists t0 t, exec (result <- handler job ;;
    finished_at <- utc_now ;;
    execution_id <- new_v4 ;;
    match result with
    | Ok _ =>
        committed <- transaction (success_tx job wk execution_id t0 finished_at) ;;
        match committed with
        | Ok (Ok _) => if Job.is_recurring job
                       then next <- Recurring.schedule_next_occurrence job ;; Ret tt
                       else Ret tt
        | _ => Ret tt
        end
    | Err error_msg =>
        committed <- transaction (failure_tx job wk execution_id t0 finished_at error_msg) ;;
        Ret tt
    end) env (S (S n)) (w <| w_db ::= running_at (Job.id job) t |>) = x.
Proof.
  unfold execute_job_with. rewrite exec_utc_now. intros Hx.
  match type of Hx with exec (bind (sql ?s) ?k) ?env ?n ?w = _ =>
    destruct (exec_sql s k env n w) as (r & w1 & Hs & Ho) end.
  rewrite Hs in Hx. clear Hs.
  destruct (mark_running_eq (Job.id job) (ctx_of (env (S n)) 0) (w_db w)) as [m Hm].
  destruct Ho as [|v err Hv|a d Hd|a d Hd]; [left|left|right|left].
  - subst. eexists _, _. eauto.
  - congruence.
  - rewrite Hm in Hd. simplify_eq. eauto.
  - rewrite Hm in Hd. simplify_eq. eexists _, _. split; [done|]. right. by eexists.
Qed.

Lemma exec_next_occurrence job env n w x :
  exec (next <- Recurring.schedule_next_occurrence job ;; Ret tt) env n w = x ->
  exists w' n', x = (Returned tt, w', n', []) /\
    (w' = w \/ exists d', next_added job (w_db w) d' /\ w' = w <| w_db := d' |>).
Proof.
  rewrite exec_bind. intros Hx.
  destruct (exec (Recurring.schedule_next_occurrence job) env n w) as [[[r2 w2] n2] ts2] eqn:E.
  apply schedule_next_cases in E as (-> & [[-> [e ->]]|
    (expr & s & now & nx & j & c & Hrec & _ & _ & _ & _ & _ & Hf & -> & Hr)]).
  - subst x. eexists _, _. split; [done|]. by left.
  - exists (w <| w_db ::= fun d => d <| jobs ::= <[fresh c 0%nat := Recurring.next_job c nx j]> |> |>), n2.
    split; [by destruct Hr as [->| ->]; subst x|]. right. eexists. split; [|reflexivity].
    split; [done|]. exists (Recurring.next_job c nx j). by split_and!.
Qed.

Lemma execute_success_cases wk job env n w x :
  exec (execute_job_with (fun _ => Ret (Ok tt)) wk job) env n w = x ->
  exists w' n', x = (Returned tt, w', n', []) /\
  (w' = w \/ exists t d, (d = running_at (Job.id job) t (w_db w) \/
     exists eid t0 t1, completed job (execution_row job wk eid t0 t1 (Ok tt))
       (running_at (Job.id job) t (w_db w)) d) /\
   (w' = w <| w_db := d |> \/ exists d', next_added job d d' /\ w' = w <| w_db := d' |>)).
Proof.
  intros [(w' & n' & -> & Hw)|(t0 & t & Hx)]%exec_execute_start.
  { eexists _, _. split; [done|]. destruct Hw as [->|[t ->]]; [by left|right].
    exists t, (running_at (Job.id job) t (w_db w)). split; by left. }
  change (bind (Ret (Ok tt)) ?k) with (k (Ok tt)) in Hx. cbv beta iota in Hx.
  rewrite exec_utc_now, exec_new_v4 in Hx.
  eapply exec_transaction_post in Hx; [|apply success_tx_post].
  destruct Hx as [Hx|[[_ []]|(a & w1 & Hx & Hw1)]]; [|apply success_tx_total|].
  - subst x. eexists _, _. split; [done|]. right. eexists t, _. split; [by left|]. by left.
  - assert (exists d, (d = running_at (Job.id job) t (w_db w) \/
      exists eid t0 t1, completed job (execution_row job wk eid t0 t1 (Ok tt))
       (running_at (Job.id job) t (w_db w)) d) /\ w1 = w <| w_db := d |>) as (d & Hd & ->).
    { destruct Hw1 as [->|(kk & d & -> & (j & t' & ev & _ & Hj & Hn & ? & ? & ? & Hd) & _)].
      - eexists. split; [by left|done].
      - exists d. split; [|done]. right. eexists _, _, _, j, t', ev. split_and!; eauto. }
    destruct a as [[]|err]; [|subst x; eexists _, _; split; [done|]; right; exists t, d; auto].
    destruct (Job.is_recurring job); [|subst x; eexists _, _; split; [done|]; right; exists t, d; auto].
    apply exec_next_occurrence in Hx as (w2 & n2 & -> & Hw2).
    eexists _, _. split; [done|]. right. exists t, d. split; [done|].
    destruct Hw2 as [->|(d' & Hd' & ->)]; [by left|]. right. exists d'. split; [exact Hd'|done].
Qed.

Lemma execute_failure_cases msg wk job env n w x :
  exec (execute_job_with (fun _ => Ret (Err msg)) wk job) env n w = x ->
  exists r w' n', x = (r, w', n', []) /\
  (r = Returned tt \/ r = Panicked /\ should_dlq job = false /\
     exists t, w' = w <| w_db ::= running_at (Job.id job) t |>) /\
  (w' = w \/ exists t d, w' = w <| w_db := d |> /\ (d = running_at (Job.id job) t (w_db w) \/
     exists e eid t0 t1, let x := execution_row job wk eid t0 t1 (Err msg) in
       let d1 := running_at (Job.id job) t (w_db w) in
       if should_dlq job then dead_lettered job x msg d1 d
       else exists delay, retry_delay e d1 job delay /\ retry_scheduled e job x delay d1 d)).
Proof.
  intros [(w' & n' & -> & Hw)|(t0 & t & Hx)]%exec_execute_start.
  { eexists _, _, _. split; [done|]. split; [by left|]. destruct Hw as [->|[t ->]]; [by left|right].
    exists t, (running_at (Job.id job) t (w_db w)). split; [done|by left]. }
  change (bind (Ret (Err msg)) ?k) with (k (Err msg : result unit string)) in Hx. cbv beta iota in Hx.
  rewrite exec_utc_now, exec_new_v4 in Hx.
  eapply exec_transaction_post in Hx; [|apply failure_tx_post].
  destruct Hx as [Hx|[[-> Ht]|(a & w1 & Hx & Hw1)]].
  - subst x. eexists _, _, _. split; [done|]. split; [by left|]. right. eexists t, _.
    split; [done|by left].
  - eexists _, _, _. split; [done|]. split; [|right; eexists t, _; split; [done|by left]].
    right. split_and!; [done| |by eexists].
    destruct (should_dlq job) eqn:Hd; [|done]. destruct Ht. by apply failure_tx_total.
  - assert (x = (Returned tt, w1, S (S (S (S (S n)))), [])) as -> by (by subst x).
    eexists _, _, _. split; [done|]. split; [by left|]. right.
    destruct Hw1 as [->|(kk & d & -> & [_ Hd] & _)].
    + eexists t, _. split; [done|by left].
    + exists t, d. split; [done|]. right. eexists _, _, _, _. exact Hd.
Qed.
End runs.

(** C10: a job whose handler succeeds: whatever request fails, is refused or
    loses its answer, the executor leaves the store unchanged, or with the row
    marked running and nothing else, or with the whole success: the row
    completed and released, one new execution record of this worker, this
    attempt and the measured duration, and one new [job_completed] event, all
    three or none; and, for a recurring job, at most one added scheduled row.
    It never panics and spawns nothing. *)
Theorem executor_success_atomic `{!UuidText, !ChronoText, !Chrono, !Cron}
  (worker_id : Uuid) (job : Job.t) (env : nat -> Env) (w w' : World) (r : outcome unit) :
  run (Executor.execute_job_with (fun _ => Ret (Ok tt)) worker_id job) env w = (r, w') ->
  r = Returned tt /\
  (w' = w \/ exists t d,
     (d = running_at (Job.id job) t (w_db w) \/
      exists eid t0 t1,
        completed job (Executor.execution_row job worker_id eid t0 t1 (Ok tt))
          (running_at (Job.id job) t (w_db w)) d) /\
     (w' = w <| w_db := d |> \/ exists d', next_added job d d' /\ w' = w <| w_db := d' |>)).
Proof.
  intros (n' & ts & Hx)%run_exec. apply execute_success_cases in Hx as (w1 & n1 & Heq & Hw).
  by simplify_eq.
Qed.

(** C11: a job whose handler fails: whatever request fails, is refused or loses
    its answer, the store is unchanged, or has the row marked running and
    nothing else, or has the whole outcome: when this was the last attempt of
    its budget, the row failed and released, the execution record, the
    dead-letter entry with the job's payload and error, and a
    [job_moved_to_dlq] event; otherwise the row scheduled for its retry time
    with the attempt counted, the record and a [job_retry_scheduled] event. A
    panic (a retry time out of range) leaves the row running. *)
Theorem executor_failure_atomic `{!UuidText, !ChronoText, !Chrono, !Cron} (msg : string)
  (worker_id : Uuid) (job : Job.t) (env : nat -> Env) (w w' : World) (r : outcome unit) :
  run (Executor.execute_job_with (fun _ => Ret (Err msg)) worker_id job) env w = (r, w') ->
  (r = Returned tt \/ r = Panicked /\ Executor.should_dlq job = false /\
     exists t, w' = w <| w_db ::= running_at (Job.id job) t |>) /\
  (w' = w \/ exists t d, w' = w <| w_db := d |> /\
     (d = running_at (Job.id job) t (w_db w) \/
      exists e eid t0 t1,
        let x := Executor.execution_row job worker_id eid t0 t1 (Err msg) in
        let d1 := running_at (Job.id job) t (w_db w) in
        if Executor.should_dlq job then dead_lettered job x msg d1 d
        else exists delay, retry_delay e d1 job delay /\ retry_scheduled e job x delay d1 d)).
Proof.
  intros (n' & ts & Hx)%run_exec.
  apply execute_failure_cases in Hx as (r1 & w1 & n1 & Heq & Hr & Hw). by simplify_eq.
Qed.

(** ** Runs without faults *)

(** Every generated UUID is new to the store. *)
Definition fresh_ids (env : nat -> Env) (d : Db) : Prop := forall n i m,
  job_executions d !! e_uuid (env n) i m = None /\
  dead_letter_queue d !! e_uuid (env n) i m = None /\
  outbox_events d !! e_uuid (env n) i m = None.

Section clean.
Context {UT : UuidText} {CT : ChronoText} {CH : Chrono} {CR : Cron}.
Import Executor.

(** What the statements of a settlement need of the copy they run on. *)
Definition ready (e : Env) (job_id : Uuid) (d : Db) : Prop :=
  is_Some (jobs d !! job_id) /\
  forall n, dead_letter_queue d !! e_uuid e n 0%nat = None /\ outbox_events d !! e_uuid e n 0%nat = None.

Lemma ready_jobs e k d f : ready e k d ->
  forall j, jobs d !! k = Some j -> ready e k (d <| jobs ::= <[k := f j]> |>).
Proof. intros [_ Hf] j _. split; [|done]. simpl. rewrite lookup_insert_eq. eauto. Qed.

Section settlement.
Context (P : Prop) (base : Db) (e : Env) (Hq : forall i, e_fault e i = NoFault) (job : Job.t).

Lemma update_clean (s : stmt Z) (f : Ctx -> Job.t -> Job.t) d :
  (forall c d, s c d = update_row jobs (Job.id job) (f c) c d) ->
  ready e (Job.id job) d ->
  tx_clean P base e (tx_sql s) d (fun _ d' => ready e (Job.id job) d' /\
    job_executions d' = job_executions d).
Proof.
  intros Hs Hr. apply tx_clean_sql; [done|]. intros n. rewrite Hs. unfold update_row.
  destruct (proj1 Hr) as [j Hj]. rewrite Hj. eexists _, _. split; [done|].
  split; [by apply (ready_jobs _ _ _ (f (ctx_of e n)))|done].
Qed.

Lemma execution_clean x d : JobExecution.job_id x = Job.id job ->
  job_executions d !! JobExecution.id x = None -> ready e (Job.id job) d ->
  tx_clean P base e (tx_sql (insert_execution_stmt x)) d (fun _ => ready e (Job.id job)).
Proof.
  intros Hid Hx Hr. apply tx_clean_sql; [done|]. intros n. eexists x, _.
  split; [apply insert_row_succeeds|exact Hr].
  repeat constructor; simpl.
  - by apply negb_true_iff, has_false.
  - rewrite Hid. apply has_true, Hr.
Qed.

Lemma dlq_clean msg attempt n t d : ready e (Job.id job) d ->
  tx_clean P base e (tx_sql (insert_dlq_stmt (dlq_row job msg attempt (e_uuid e n 0%nat) t))) d
    (fun _ d' => forall n, outbox_events d' !! e_uuid e n 0%nat = None).
Proof.
  intros Hr. apply tx_clean_sql; [done|]. intros n'. eexists _, _.
  split; [apply insert_row_succeeds|simpl; intros n2; apply Hr].
  repeat constructor; simpl; [|apply has_true, Hr].
  apply negb_true_iff, has_false, Hr.
Qed.

Lemma emit_clean ty agg payload corr d :
  (forall n, outbox_events d !! e_uuid e n 0%nat = None) ->
  tx_clean P base e (emit (fun id t => OutboxEvent.new id t ty agg payload corr)) d (fun _ _ => True).
Proof.
  intros Hf.
  eapply tx_clean_bind; [apply (tx_clean_new_v4 _ _ _ _ (fun u d' => outbox_events d' !! u = None)); done|].
  intros u d1 Hu.
  eapply tx_clean_bind; [by apply (tx_clean_utc_now _ _ _ _ (fun _ d' => outbox_events d' !! u = None))|].
  intros t d2 Hu2. eapply tx_clean_bind; [|intros; by apply tx_clean_ret].
  apply (tx_clean_sql _ _ _ Hq _ _ (fun _ _ => True)). intros n. rewrite outbox_insert_eq.
  eexists _, _. split; [apply insert_row_succeeds|done].
  repeat constructor. by apply negb_true_iff, has_false.
Qed.

Lemma success_tx_clean wk eid t0 t1 d :
  ready e (Job.id job) d -> job_executions d !! eid = None ->
  tx_clean P base e (success_tx job wk eid t0 t1) d (fun x _ => exists kk, x = Commit kk).
Proof.
  intros Hr Hx. unfold success_tx.
  eapply tx_clean_bind; [by eapply update_clean|intros ? d1 [Hr1 He1]; cbv beta].
  eapply tx_clean_bind; [apply execution_clean; [done|by rewrite He1|done]|intros ? d2 Hr2].
  eapply tx_clean_bind; [apply emit_clean; apply Hr2|intros ? d3 _].
  apply tx_clean_ret. eauto.
Qed.

Lemma calculate_retry_delay_clean attempt d (K : Db -> Prop) : K d ->
  tx_clean P base e (calculate_retry_delay job attempt) d
    (fun r d' => r = delay_of (attached_policy job base) attempt /\ K d').
Proof.
  intros HK. unfold calculate_retry_delay, attached_policy.
  destruct (Job.retry_policy_id job) as [pid|]; [|by apply tx_clean_ret].
  eapply tx_clean_bind.
  - by apply (tx_clean_pool_query _ _ _ Hq _ _ (fun r d' => r = Ok (retry_policies base !! pid) /\ K d')).
  - intros r d1 [-> Hd1]. simpl. destruct (retry_policies base !! pid); by apply tx_clean_ret.
Qed.

Lemma failure_tx_clean wk eid t0 t1 msg d :
  ready e (Job.id job) d -> job_executions d !! eid = None ->
  (forall i, should_dlq job = false -> add_seconds (e_clock e i)
     (delay_of (attached_policy job base) (i32 (Job.attempt_count job + 1))) = None -> P) ->
  tx_clean P base e (failure_tx job wk eid t0 t1 msg) d (fun x _ => exists kk, x = Commit kk).
Proof.
  intros Hr Hx Hadd. unfold failure_tx.
  eapply tx_clean_bind; [by apply execution_clean|intros ? d1 Hr1; cbv beta].
  destruct (should_dlq job) eqn:Hd.
  - eapply tx_clean_bind; [by eapply update_clean|intros ? d2 [Hr2 _]; cbv beta].
    eapply tx_clean_bind; [apply (tx_clean_new_v4 _ _ _ _ (fun u d' => (exists n, u = e_uuid e n 0%nat) /\
      ready e (Job.id job) d')); eauto|intros u d3 [[n ->] Hr3]].
    eapply tx_clean_bind; [by apply (tx_clean_utc_now _ _ _ _ (fun _ d' => ready e (Job.id job) d'))|intros t d4 Hr4].
    eapply tx_clean_bind; [by apply dlq_clean|intros ? d5 Hd5; cbv beta in Hd5].
    eapply tx_clean_bind; [by apply emit_clean|intros ? d6 _].
    apply tx_clean_ret. eauto.
  - eapply tx_clean_bind; [by apply (calculate_retry_delay_clean _ _ (ready e (Job.id job)))|].
    intros delay d2 [-> Hr2].
    eapply tx_clean_bind; [apply (tx_clean_utc_now _ _ _ _ (fun t d' => (exists i, t = e_clock e i) /\
      ready e (Job.id job) d')); eauto|intros t d3 [[i ->] Hr3]].
    destruct (add_seconds (e_clock e i) _) as [next|] eqn:Hn; [|by apply tx_clean_panic, (Hadd i)].
    eapply tx_clean_bind; [by eapply update_clean|intros ? d4 [Hr4 _]; cbv beta].
    eapply tx_clean_bind; [apply emit_clean; apply Hr4|intros ? d5 _].
    apply tx_clean_ret. eauto.
Qed.
End settlement.

Lemma running_at_ready e k t d : is_Some (jobs d !! k) ->
  (forall n m, dead_letter_queue d !! e_uuid e n m = None /\ outbox_events d !! e_uuid e n m = None) ->
  ready e k (running_at k t d) /\ job_executions (running_at k t d) = job_executions d.
Proof.
  intros [j Hj] Hf. unfold running_at. rewrite Hj. split; [|done]. split; [|intros n; apply Hf].
  simpl. rewrite lookup_insert_eq. eauto.
Qed.

Lemma exec_execute_start_quiet handler wk job env n w : quiet env ->
  exec (execute_job_with handler wk job) env n w =
  exec (result <- handler job ;;
    finished_at <- utc_now ;;
    execution_id <- new_v4 ;;
    match result with
    | Ok _ =>
        committed <- transaction (success_tx job wk execution_id (e_clock (env n) 0%nat) finished_at) ;;
        match committed with
        | Ok (Ok _) => if Job.is_recurring job
                       then next <- Recurring.schedule_next_occurrence job ;; Ret tt
                       else Ret tt
        | _ => Ret tt
        end
    | Err error_msg =>
        committed <- transaction
          (failure_tx job wk execution_id (e_clock (env n) 0%nat) finished_at error_msg) ;;
        Ret tt
    end) env (S (S n)) (w <| w_db ::= running_at (Job.id job) (e_now (env (S n))) |>).
Proof.
  intros Hq. unfold execute_job_with. rewrite exec_utc_now, exec_sql_quiet by done.
  by destruct (mark_running_eq (Job.id job) (ctx_of (env (S n)) 0) (w_db w)) as [m ->].
Qed.

(** The store right after the row was marked, for the transaction that follows. *)
Lemma marked_ready env k w : fresh_ids env (w_db w) -> is_Some (jobs (w_db w) !! k) ->
  let d := running_at k (e_now (env 1%nat)) (w_db w) in
  ready (env 4%nat) k d /\ forall u, job_executions d !! e_uuid (env u) 0 0 = None.
Proof.
  intros Hf Hj d. destruct (running_at_ready (env 4%nat) k (e_now (env 1%nat)) (w_db w) Hj) as [Hr He];
    [intros n m; apply (Hf 4%nat n m)|]. split; [done|]. intros u. unfold d. rewrite He. apply Hf.
Qed.

Lemma execute_success_quiet wk job env w : quiet env -> fresh_ids env (w_db w) ->
  is_Some (jobs (w_db w) !! Job.id job) ->
  exists t d eid t0 t1 w',
    completed job (execution_row job wk eid t0 t1 (Ok tt)) (running_at (Job.id job) t (w_db w)) d /\
    run (execute_job_with (fun _ => Ret (Ok tt)) wk job) env w = (Returned tt, w') /\
    (w' = w <| w_db := d |> \/ exists d', next_added job d d' /\ w' = w <| w_db := d' |>).
Proof.
  intros Hq Hf Hj. unfold run. rewrite exec_execute_start_quiet by done.
  change (bind (Ret (Ok tt)) ?k) with (k (Ok tt)). cbv beta iota.
  rewrite exec_utc_now, exec_new_v4. destruct (marked_ready env (Job.id job) w Hf Hj) as [Hr Hx].
  match goal with |- context [exec (bind (transaction ?b) ?k) env ?n ?w1] =>
    destruct (exec_transaction_clean False b _ k env n w1 Hq (success_tx_post _ _ _ _ _ _ _))
      as [(kk & d & (j & t & ev & Hkk & Hd) & ->)|[[] _]] end.
  { by apply success_tx_clean; [apply Hq| |apply Hx]. }
  injection Hkk as ->. eexists _, d, _, _, _.
  destruct (Job.is_recurring job) eqn:Hrec; [|eexists; split; [exists j, t, ev; exact Hd|]; split; [reflexivity|by left]].
  match goal with |- context [exec ?p env ?n ?w1] => destruct (exec p env n w1) as [[[r w'] n'] ts] eqn:E end.
  apply exec_next_occurrence in E as (w2 & n2 & Heq & Hw2). injection Heq as -> -> _ _.
  exists w2. split; [exists j, t, ev; exact Hd|]. split; [done|].
  destruct Hw2 as [->|(d' & Hd' & ->)]; [by left|right]. by exists d'.
Qed.

Lemma execute_failure_cases_quiet msg wk job env w : quiet env -> fresh_ids env (w_db w) ->
  is_Some (jobs (w_db w) !! Job.id job) ->
  let delay := delay_of (attached_policy job (w_db w)) (i32 (Job.attempt_count job + 1)) in
  exists t eid t0 t1, let x := execution_row job wk eid t0 t1 (Err msg) in
    (exists d, (if should_dlq job then dead_lettered job x msg (running_at (Job.id job) t (w_db w)) d
       else retry_scheduled (env 4%nat) job x delay (running_at (Job.id job) t (w_db w)) d) /\
     run (execute_job_with (fun _ => Ret (Err msg)) wk job) env w = (Returned tt, w <| w_db := d |>)) \/
    (should_dlq job = false /\ (exists i, add_seconds (e_clock (env 4%nat) i) delay = None) /\
     run (execute_job_with (fun _ => Ret (Err msg)) wk job) env w
       = (Panicked, w <| w_db ::= running_at (Job.id job) t |>)).
Proof.
  intros Hq Hf Hj delay. unfold run. rewrite exec_execute_start_quiet by done.
  change (bind (Ret (Err msg)) ?k) with (k (Err msg : result unit string)). cbv beta iota.
  rewrite exec_utc_now, exec_new_v4. destruct (marked_ready env (Job.id job) w Hf Hj) as [Hr Hx].
  assert (attached_policy job (running_at (Job.id job) (e_now (env 1%nat)) (w_db w)) =
    attached_policy job (w_db w)) as Hpol
    by (unfold attached_policy, running_at; destruct (jobs (w_db w) !! Job.id job); done).
  eexists _, _, _, _.
  match goal with |- context [exec (bind (transaction ?b) ?k) env ?n ?w1] =>
    destruct (exec_transaction_clean (should_dlq job = false /\
        exists i, add_seconds (e_clock (env 4%nat) i) delay = None) b _ k env n w1 Hq
      (failure_tx_post _ _ _ _ _ _ _ _)) as [(kk & d & [_ Hd] & Hrun)|((Hs & Hi) & Hrun)] end.
  - apply failure_tx_clean; [apply Hq|exact Hr|apply Hx|].
    simpl. rewrite Hpol. intros i Hs Hi. eauto.
  - left. exists d. rewrite Hrun. split; [|reflexivity].
    destruct (should_dlq job); [exact Hd|].
    destruct Hd as (delay' & [->|[_ [i Hi]]] & Hd); [|by rewrite Hq in Hi].
    simpl in Hd. rewrite Hpol in Hd. exact Hd.
  - right. rewrite Hrun. split_and!; [done|done|reflexivity].
Qed.

(** When every retry time is in range. *)
Lemma execute_failure_quiet msg wk job env w : quiet env -> fresh_ids env (w_db w) ->
  is_Some (jobs (w_db w) !! Job.id job) ->
  (should_dlq job = false -> forall n i, is_Some (add_seconds (e_clock (env n) i)
     (delay_of (attached_policy job (w_db w)) (i32 (Job.attempt_count job + 1))))) ->
  exists t d eid t0 t1, let x := execution_row job wk eid t0 t1 (Err msg) in
    (if should_dlq job then dead_lettered job x msg (running_at (Job.id job) t (w_db w)) d
     else retry_scheduled (env 4%nat) job x (delay_of (attached_policy job (w_db w))
            (i32 (Job.attempt_count job + 1))) (running_at (Job.id job) t (w_db w)) d) /\
    run (execute_job_with (fun _ => Ret (Err msg)) wk job) env w = (Returned tt, w <| w_db := d |>).
Proof.
  intros Hq Hf Hj Hadd.
  destruct (execute_failure_cases_quiet msg wk job env w Hq Hf Hj)
    as (t & eid & t0 & t1 & [(d & Hd & Hrun)|(Hs & [i Hi] & _)]); [by exists t, d, eid, t0, t1|].
  destruct (Hadd Hs 4%nat i) as [? Hsome]. congruence.
Qed.

(** What a settlement leaves of a store whose row was marked. *)
Lemma settled_store k t j0 j x dead ev d : jobs d !! k = Some j0 ->
  new_rows x dead ev (running_at k t d) ->
  let d' := settle k j x dead ev (running_at k t d) in
  jobs d' = <[k := j]> (jobs d) /\
  job_executions d !! JobExecution.id x = None /\
  job_executions d' = <[JobExecution.id x := x]> (job_executions d) /\
  outbox_events d !! OutboxEvent.id ev = None /\
  outbox_events d' = <[OutboxEvent.id ev := ev]> (outbox_events d) /\
  match dead with
  | Some y => dead_letter_queue d !! DeadLetterEntry.id y = None /\
      dead_letter_queue d' = <[DeadLetterEntry.id y := y]> (dead_letter_queue d)
  | None => dead_letter_queue d' = dead_letter_queue d
  end.
Proof.
  intros Hj (Hx & Hdead & Hev). unfold running_at, settle in *. rewrite Hj in *. simpl in *.
  rewrite insert_insert_eq. split_and!; try done. by destruct dead.
Qed.
End clean.

(** C12: every run without faults settles its job, or panics for a retry time out
    of range. A settled run writes the job's row, one new execution record of
    this worker and attempt and one new event, changes no other row, and releases
    the job; for a recurring job that succeeded it may add one new scheduled row,
    the next occurrence. After a success the job is completed. After a failure the attempt
    is counted; when it was the last of the budget the job is failed, with one
    new dead-letter entry that has its payload and the error; otherwise it is
    scheduled, to be retried after the delay of its retry policy (or the
    built-in one), counted from the clock. The panic happens only to a failed job
    with attempts left, when that time cannot be represented, and leaves it
    running. *)
Theorem executor_settles `{!UuidText, !ChronoText, !Chrono, !Cron} (result : Prelude.result unit string)
  (worker_id : Uuid) (job : Job.t) (env : nat -> Env) (w w' : World) (r : outcome unit) :
  quiet env -> fresh_ids env (w_db w) -> is_Some (jobs (w_db w) !! Job.id job) ->
  run (Executor.execute_job_with (fun _ => Ret result) worker_id job) env w = (r, w') ->
  let attempt := i32 (Job.attempt_count job + 1) in
  let delay := delay_of (attached_policy job (w_db w)) attempt in
  let d := w_db w in let d' := w_db w' in
  (r = Panicked /\ is_ok result = false /\ attempt < Job.max_attempts job /\
     (exists n i, add_seconds (e_clock (env n) i) delay = None) /\
     exists t, w' = w <| w_db ::= running_at (Job.id job) t |>) \/
  (r = Returned tt /\ exists j x ev,
     jobs d' !! Job.id job = Some j /\ Job.worker_id j = None /\
     (jobs d' = <[Job.id job := j]> (jobs d) \/
      Job.is_recurring job = true /\ is_ok result = true /\ exists next,
        jobs d !! Job.id next = None /\ Job.status next = JobStatus.Scheduled /\
        jobs d' = <[Job.id next := next]> (<[Job.id job := j]> (jobs d))) /\
     job_executions d !! JobExecution.id x = None /\
     job_executions d' = <[JobExecution.id x := x]> (job_executions d) /\
     JobExecution.job_id x = Job.id job /\ JobExecution.worker_id x = worker_id /\
     JobExecution.attempt_number x = attempt /\ JobExecution.success x = is_ok result /\
     outbox_events d !! OutboxEvent.id ev = None /\
     outbox_events d' = <[OutboxEvent.id ev := ev]> (outbox_events d) /\
     OutboxEvent.aggregate_id ev = Job.id job /\ OutboxEvent.published ev = false /\
     match result with
     | Ok _ =>
         Job.status j = JobStatus.Completed /\
         OutboxEvent.event_type ev = OutboxEventType.JobCompleted /\
         dead_letter_queue d' = dead_letter_queue d
     | Err msg =>
         Job.attempt_count j = attempt /\ JobExecution.error_message x = Some msg /\
         if Job.max_attempts job <=? attempt then
           Job.status j = JobStatus.Failed /\
           OutboxEvent.event_type ev = OutboxEventType.JobMovedToDlq /\
           exists y, dead_letter_queue d !! DeadLetterEntry.id y = None /\
             dead_letter_queue d' = <[DeadLetterEntry.id y := y]> (dead_letter_queue d) /\
             DeadLetterEntry.job_id y = Job.id job /\ DeadLetterEntry.payload y = Job.payload job /\
             DeadLetterEntry.last_error y = Some msg /\ DeadLetterEntry.attempt_count y = attempt
         else
           Job.status j = JobStatus.Scheduled /\
           OutboxEvent.event_type ev = OutboxEventType.JobRetryScheduled /\
           dead_letter_queue d' = dead_letter_queue d /\
           exists n i due, add_seconds (e_clock (env n) i) delay = Some due /\
             Job.next_attempt_at j = Some due
     end).
Proof.
  intros Hq Hf [j0 Hj0] Hrun attempt delay d d'. subst d d'.
  assert (is_Some (jobs (w_db w) !! Job.id job)) as Hj by eauto.
  destruct result as [[]|msg].
  - right. destruct (execute_success_quiet worker_id job env w Hq Hf Hj)
      as (t & d & eid & t0 & t1 & w1 & (j1 & t2 & ev & _ & Hn & Hty & Hag & Hpub & ->) & Hr & Hw1).
    rewrite Hrun in Hr. injection Hr as -> <-. split; [done|].
    set (j := j1 <| Job.status := JobStatus.Completed |> <| Job.completed_at := Some t2 |>
      <| Job.updated_at := t2 |> <| Job.worker_id := None |>) in *.
    pose proof (settled_store _ _ j0 j _ _ _ _ Hj0 Hn) as (Hjobs & Hx & Hxs & He & Hes & Hdead).
    exists j, (Executor.execution_row job worker_id eid t0 t1 (Ok tt)), ev.
    destruct Hw1 as [->|(d' & (Hrec & next & Hnew & Hns & ->) & ->)]; simpl in *; rewrite Hjobs in *.
    + split_and!; try done; [apply lookup_insert_eq|by left].
    + assert (Job.id next <> Job.id job) as Hne by (intros Heq; rewrite Heq, lookup_insert_eq in Hnew; done).
      rewrite lookup_insert_ne in Hnew by done.
      split_and!; try done; [rewrite lookup_insert_ne by done; apply lookup_insert_eq|].
      right. split_and!; [done..|]. by exists next.
  - destruct (execute_failure_cases_quiet msg worker_id job env w Hq Hf Hj)
      as (t & eid & t0 & t1 & [(d & Hd & Hr)|(Hs & [i Hi] & Hr)]); rewrite Hrun in Hr; injection Hr as -> ->.
    2: { left. apply Z.leb_gt in Hs. split_and!; [done|done|done|by exists 4%nat, i|by exists t]. }
    right. split; [done|]. unfold Executor.should_dlq in Hd. fold attempt in Hd.
    destruct (Job.max_attempts job <=? attempt).
    + destruct Hd as (j1 & t2 & dead_id & moved & ev & _ & Hn & Hty & Hag & Hpub & ->).
      set (j := Executor.set_failed _ t2 j1) in *.
      pose proof (settled_store _ _ j0 j _ _ _ _ Hj0 Hn)
        as (Hjobs & Hx & Hxs & He & Hes & Hdead).
      exists j,
        (Executor.execution_row job worker_id eid t0 t1 (Err msg)), ev. simpl in *. rewrite Hjobs.
      split_and!; try done; [apply lookup_insert_eq|by left|].
      exists (Executor.dlq_row job msg attempt dead_id moved). by destruct Hdead.
    + destruct Hd as (j1 & t2 & i & due & ev & _ & Hn & Hdue & Hty & Hag & Hpub & ->).
      set (j := Executor.set_retry _ due t2 j1) in *.
      pose proof (settled_store _ _ j0 j _ _ _ _ Hj0 Hn)
        as (Hjobs & Hx & Hxs & He & Hes & Hdead).
      exists j,
        (Executor.execution_row job worker_id eid t0 t1 (Err msg)), ev. simpl in *. rewrite Hjobs.
      split_and!; try done; [apply lookup_insert_eq|by left|by exists 4%nat, i, due].
Qed.

(** The built-in delay can defeat the retry it serves: a job without retry
    policy that fails its 61st attempt, with attempts left, panics the executor
    inside the transaction; its row stays running, with the failure neither
    recorded nor counted. *)
Theorem long_backoff_panics `{!UuidText, !ChronoText, !Chrono, !ChronoSpec, !Cron} (msg : string)
  (worker_id : Uuid) (job : Job.t) (env : nat -> Env) (w : World) :
  quiet env -> Job.retry_policy_id job = None -> Job.attempt_count job = 60 ->
  61 < Job.max_attempts job ->
  exists t, run (Executor.execute_job_with (fun _ => Ret (Err msg)) worker_id job) env w
    = (Panicked, w <| w_db ::= running_at (Job.id job) t |>).
Proof.
  intros Hq Hpol Ha Hmax. exists (e_now (env 1%nat)). unfold run.
  rewrite exec_execute_start_quiet by done.
  change (bind (Ret (Err msg)) ?k) with (k (Err msg : result unit string)). cbv beta iota.
  rewrite exec_utc_now, exec_new_v4, exec_transaction, Hq. unfold Executor.failure_tx, tx_bind.
  match goal with |- context [tx_sql ?s ?e ?t] => destruct (tx_sql_some s e t) as (r & t' & -> & _) end.
  assert (Executor.should_dlq job = false) as ->.
  { unfold Executor.should_dlq. rewrite Ha. apply Z.leb_gt. change (i32 (60 + 1)) with 61. lia. }
  unfold Executor.calculate_retry_delay. rewrite Hpol, Ha. unfold tx_ret, tx_utc_now.
  rewrite add_seconds_out_of_range by (vm_compute; reflexivity).
  unfold tx_panic, finish_tx. by rewrite world_db_id.
Qed.

Section examples.
Import Toy.

(** The fixture's environment, with the steps' UUIDs out of the way of its ids. *)
Definition running_fixture (attempts max_attempts : Z) : Job.t :=
  Job.Mk 20 Fixture.queue Fixture.project JobType.Immediate "job" (VObject []) JobStatus.Claimed
    JobPriority.Normal attempts max_attempts None None None (Some Fixture.worker) (Some 0) None
    77%N None None 0 0 None.
Definition execute_fixture (result : Prelude.result unit string) (job : Job.t) : outcome unit * World :=
  run (Executor.execute_job_with (fun _ => Ret result) Fixture.worker job)
    (Fixture.env_at Fixture.noon) (Fixture.world (Fixture.with_jobs [job])).

Lemma executor_success_atomic_witness :
  (execute_fixture (Ok tt) (running_fixture 0 3)).1 = Returned tt.
Proof.
  destruct (executor_success_atomic Fixture.worker (running_fixture 0 3)
    (Fixture.env_at Fixture.noon) (Fixture.world (Fixture.with_jobs [running_fixture 0 3]))
    _ _ (surjective_pairing (execute_fixture (Ok tt) (running_fixture 0 3)))) as [Hr _].
  exact Hr.
Defined.

(** The last attempt of three: the job is dead-lettered. *)
Lemma executor_failure_atomic_witness :
  let x := execute_fixture (Err "boom") (running_fixture 2 3) in
  exists d, x.2 = (Fixture.world (Fixture.with_jobs [running_fixture 2 3])) <| w_db := d |> /\
    size (dead_letter_queue d) = 1%nat.
Proof.
  intros x.
  destruct (executor_failure_atomic "boom" Fixture.worker (running_fixture 2 3)
    (Fixture.env_at Fixture.noon) (Fixture.world (Fixture.with_jobs [running_fixture 2 3]))
    _ _ (surjective_pairing x)) as [_ [H|(t & d & Hd & _)]].
  - exfalso. apply (f_equal (fun w => size (dead_letter_queue (w_db w)))) in H.
    vm_compute in H. discriminate H.
  - exists d. split; [exact Hd|].
    apply (f_equal (fun w => size (dead_letter_queue (w_db w)))) in Hd. simpl in Hd.
    rewrite <- Hd. vm_compute. reflexivity.
Defined.

Lemma fixture_fresh_ids job : fresh_ids (Fixture.env_at Fixture.noon) (Fixture.with_jobs [job]).
Proof. intros n i m. by split_and!; apply lookup_empty. Qed.

(** The second attempt of three: scheduled again, 20 seconds later. *)
Lemma executor_settles_witness :
  let x := execute_fixture (Err "boom") (running_fixture 1 3) in
  exists j due, x.1 = Returned tt /\ jobs (w_db x.2) !! 20%N = Some j /\
    Job.status j = JobStatus.Scheduled /\ Job.next_attempt_at j = Some due /\
    due = Fixture.noon + 20 * SECOND.
Proof.
  intros x.
  destruct (executor_settles (Err "boom") Fixture.worker (running_fixture 1 3)
    (Fixture.env_at Fixture.noon) (Fixture.world (Fixture.with_jobs [running_fixture 1 3]))
    x.2 x.1) as [(Hp & _)|(Hr & j & row & ev & Hj & _ & _ & _ & _ & _ & _ & _ & _ & _ & _ & _ & _ & _ & _ & Hs)].
  - intros n i. reflexivity.
  - apply fixture_fresh_ids.
  - exists (running_fixture 1 3). vm_compute. reflexivity.
  - apply surjective_pairing.
  - exfalso. vm_compute in Hp. discriminate Hp.
  - destruct Hs as (Hst & _ & _ & n & i & due & Hdue & Hnext). exists j, due.
    split; [exact Hr|]. split; [exact Hj|]. split; [exact Hst|]. split; [exact Hnext|].
    vm_compute in Hdue. injection Hdue as <-. vm_compute. reflexivity.
Defined.

Lemma long_backoff_panics_witness :
  exists t, execute_fixture (Err "boom") (running_fixture 60 100) =
    (Panicked, (Fixture.world (Fixture.with_jobs [running_fixture 60 100]))
       <| w_db ::= running_at 20 t |>).
Proof.
  apply (long_backoff_panics "boom" Fixture.worker (running_fixture 60 100)
    (Fixture.env_at Fixture.noon) (Fixture.world (Fixture.with_jobs [running_fixture 60 100]))).
  - intros n i. reflexivity.
  - reflexivity.
  - reflexivity.
  - reflexivity.
Defined.
End examples.
