(* ===== verification/Poller.v ===== *)
(** * Worker loops ([crates/worker/src/poller.rs], [heartbeat.rs], [app_state.rs])

    The poller, with and without the in-flight counter, and the heartbeat. The
    counter of a worker ([WorkerAppState.active_jobs], an [AtomicI32]) is an
    entry of the world's [w_active]. Spawned executions are tasks of their own:
    [Spawn] hands them to the scheduler. *)
From S2P Require Import Prelude Enums Entities RetryPolicy Db Fixture Steps JobRepository.
From S2P Require Import Repositories Externals SchedulerCore Executor.

(** [AtomicI32]: [fetch_add] and [fetch_sub] wrap, [load] reads. *)
Module ActiveJobs.
Definition load (worker_id : Uuid) (w : World) : Z := unwrap_or (w_active w !! worker_id) 0.
Definition add (worker_id : Uuid) (delta : Z) (w : World) : World :=
  w <| w_active ::= <[worker_id := i32 (load worker_id w + delta)]> |>.
Definition fetch_add (worker_id : Uuid) (delta : Z) : prog unit := atomically (add worker_id delta).
End ActiveJobs.

(** [WorkerAppState]: the identity of the worker; its counter starts at zero. *)
Module WorkerAppState.
Record t := Mk { worker_id : Uuid; worker_name : string }.
Definition new (worker_id : Uuid) (worker_name : string) : prog t :=
  atomically (fun w => w <| w_active ::= <[worker_id := 0]> |>) ;;; Ret (Mk worker_id worker_name).
End WorkerAppState.

Module Poller.
Section poller.
Context {UT : UuidText} {CT : ChronoText} {CH : Chrono} {CR : Cron}.

(** One queue of one tick; [on_claim] is what the poller does with a job. *)
Definition poll_queue (on_claim : Job.t -> prog unit) (worker_id queue_id : Uuid) : prog unit :=
  queue <- QueueRepository.find_by_id queue_id ;;
  match queue with
  | Ok (Some queue) =>
      if Queue.is_paused queue then Ret tt else
      running <- QueueRepository.count_running_jobs queue_id ;;
      match running with
      | Ok running =>
          if Queue.concurrency_limit queue <=? running then Ret tt else
          claimed <- JobRepository.claim_next_job queue_id worker_id ;;
          match claimed with
          | Ok (Some job) => on_claim job
          | _ => Ret tt
          end
      | Err _ => Ret tt
      end
  | _ => Ret tt
  end.

(** One tick: every queue in turn. *)
Definition poll_tick (on_claim : Job.t -> prog unit) (worker_id : Uuid) (queue_ids : list Uuid)
  : prog unit := for_each queue_ids (poll_queue on_claim worker_id).

(** The task spawned by [run_poller], and the one that keeps the counter. *)
Definition spawn_plain (handler : Job.t -> prog (result unit string)) (worker_id : Uuid)
  (job : Job.t) : prog unit :=
  Spawn (Executor.execute_job_with handler worker_id job) (Ret tt).
Definition counted_task (handler : Job.t -> prog (result unit string)) (worker_id : Uuid)
  (job : Job.t) : prog unit :=
  Executor.execute_job_with handler worker_id job ;;; ActiveJobs.fetch_add worker_id (-1).
Definition spawn_counted (handler : Job.t -> prog (result unit string)) (worker_id : Uuid)
  (job : Job.t) : prog unit :=
  ActiveJobs.fetch_add worker_id 1 ;;; Spawn (counted_task handler worker_id job) (Ret tt).

(** [run_poller]: its first [rounds] ticks. *)
Definition run_poller (handler : Job.t -> prog (result unit string)) (worker_id : Uuid)
  (queue_ids : list Uuid) (rounds : nat) : prog unit :=
  ticks rounds (poll_tick (spawn_plain handler worker_id) worker_id queue_ids).

(** [run_poller_with_counter]: its first [rounds] ticks. *)
Definition run_poller_with_counter (handler : Job.t -> prog (result unit string))
  (worker_id : Uuid) (queue_ids : list Uuid) (rounds : nat) : prog unit :=
  ticks rounds (poll_tick (spawn_counted handler worker_id) worker_id queue_ids).
End poller.
End Poller.

Module Heartbeat.

(** One round of [run_heartbeat]: the counter is read, then sent. *)
Definition heartbeat_round (worker_id : Uuid) : prog unit :=
  active <- Step (fun _ w => (ActiveJobs.load worker_id w, w)) Ret ;;
  r <- WorkerRepository.upsert_heartbeat worker_id active ;;
  Ret tt.

Definition run_heartbeat (worker_id : Uuid) (rounds : nat) : prog unit :=
  ticks rounds (heartbeat_round worker_id).
End Heartbeat.

(** ** One poll of a queue *)

Section polls.
Context {UT : UuidText} {CT : ChronoText} {CH : Chrono} {CR : Cron}.

(** The queue may be polled: it exists, is not paused, and fewer of its jobs
    run than its limit. *)
Definition open_for_claims (d : Db) (queue_id : Uuid) : Prop :=
  exists q, queues d !! queue_id = Some q /\ Queue.is_paused q = false /\
    QueueRepository.running_count queue_id d < Queue.concurrency_limit q.

(** The effect of a claim that found [j]. *)
Definition claimed_by (worker_id queue_id : Uuid) (j : Job.t) (d d' : Db) : Prop :=
  exists c, JobRepository.claim_stmt queue_id worker_id c d = Ok (Some j, d').

Lemma exec_poll_queue on_claim wk q env n w x :
  exec (Poller.poll_queue on_claim wk q) env n w = x ->
  (exists n', x = (Returned tt, w, n', [])) \/
  (open_for_claims (w_db w) q /\ exists j d, claimed_by wk q j (w_db w) d /\
     (x = exec (on_claim j) env (S (S (S n))) (w <| w_db := d |>) \/
      x = (Returned tt, w <| w_db := d |>, S (S (S n)), []))).
Proof.
  unfold Poller.poll_queue, QueueRepository.find_by_id, QueueRepository.count_running_jobs,
    JobRepository.claim_next_job. intros Hx.
  exec_read Hx; [|left; eauto]. destruct (queues (w_db w) !! q) as [queue|] eqn:Hq; [|left; eauto].
  destruct (Queue.is_paused queue) eqn:Hp; [left; eauto|].
  exec_read Hx; [|left; eauto].
  destruct (Queue.concurrency_limit queue <=? QueueRepository.running_count q (w_db w)) eqn:Hl;
    [left; eauto|].
  match type of Hx with exec (bind (sql ?s) ?k) _ ?m _ = _ =>
    destruct (exec_sql s k env m w) as (r & w1 & Hs & Ho) end.
  rewrite Hs in Hx. clear Hs.
  assert (open_for_claims (w_db w) q) as Hopen
    by (exists queue; split_and!; [done..|by apply Z.leb_gt]).
  destruct Ho as [|v err _|[j|] d Hc|[j|] d Hc].
  - left. eauto.
  - left. eauto.
  - right. split; [done|]. exists j, d. split; [by eexists|]. left. by subst.
  - apply claim_none_iff in Hc as [-> _]. rewrite world_db_id in Hx. left. eauto.
  - right. split; [done|]. exists j, d. split; [by eexists|]. right. by subst.
  - apply claim_none_iff in Hc as [-> _]. rewrite world_db_id in Hx. left. eauto.
Qed.
End polls.

(** C25: one poll of a queue by a counting poller, whatever fails: it changes
    nothing and starts nothing; or the queue is known, not paused and below its
    limit, exactly one job is claimed for this worker as the claim query does,
    and then either the counter goes up by one and exactly one task is started
    for that job, or, when the answer of the claim was lost, nothing is started
    and the job stays claimed. *)
Theorem poll_claims_within_bounds `{!UuidText, !ChronoText, !Chrono, !Cron}
  (handler : Job.t -> prog (result unit string)) (worker_id queue_id : Uuid)
  (env : nat -> Env) (w : World) :
  let '(r, w', n', spawned) :=
    exec (Poller.poll_queue (Poller.spawn_counted handler worker_id) worker_id queue_id) env 0 w in
  r = Returned tt /\
  (w' = w /\ spawned = [] \/
   open_for_claims (w_db w) queue_id /\
   exists j d, claimed_by worker_id queue_id j (w_db w) d /\
     (w' = ActiveJobs.add worker_id 1 (w <| w_db := d |>) /\
        spawned = [Poller.counted_task handler worker_id j] \/
      w' = w <| w_db := d |> /\ spawned = [])).
Proof.
  destruct (exec _ env 0 w) as [[[r w'] n'] spawned] eqn:E.
  apply exec_poll_queue in E as [[m Hx]|(Hopen & j & d & Hc & [Hx|Hx])]; simplify_eq/=.
  - split; [done|]. by left.
  - split; [done|]. right. split; [done|]. exists j, d. split; [done|]. by left.
  - split; [done|]. right. split; [done|]. exists j, d. split; [done|]. by right.
Qed.

(** ** The concurrency limit *)

(** Two workers poll the fixture's queue, whose limit is one. *)
Definition two_pollers `{!UuidText, !ChronoText, !Chrono, !Cron} : pool :=
  [ Poller.run_poller Executor.simulate_execute Fixture.worker [Fixture.queue] 1;
    Poller.run_poller Executor.simulate_execute Fixture.dead_worker [Fixture.queue] 1 ].
Definition schedule_of (steps : list nat) : list (nat * Env) :=
  imap (fun n i => (i, Fixture.env_at (Fixture.noon + Z.of_nat n) n)) steps.

(** A queue's concurrency limit is not a bound on its running jobs: the
    pollers count running jobs, claimed ones not yet started do not count, and
    two workers can start two jobs of a queue whose limit is one. *)
Theorem concurrency_limit_overshoot `{!UuidText, !ChronoText, !Chrono, !Cron} :
  exists c, rtc pool_step (two_pollers, Fixture.world Fixture.two_queued) c /\
    (Queue.concurrency_limit <$> queues (w_db c.2) !! Fixture.queue) = Some 1 /\
    QueueRepository.running_count Fixture.queue (w_db c.2) = 2.
Proof.
  exists (run_pool (schedule_of [0; 1; 0; 1; 0; 1; 0; 1; 2; 2; 3; 3]%nat)
    (two_pollers, Fixture.world Fixture.two_queued)).
  split; [apply run_pool_sound|]. split; vm_compute; reflexivity.
Qed.

(** ** The counter *)

Lemma i32_add_sub z : in_width 32 z -> i32 (i32 (z + 1) + -1) = z.
Proof.
  unfold in_width, i32, wrap. change (2 ^ (32 - 1)) with 2147483648.
  change (2 ^ 32) with 4294967296. intros Hz.
  destruct (decide (z = 2147483647)) as [->|]; [reflexivity|].
  rewrite (Z.mod_small (z + 1 + _)) by lia. rewrite Z.mod_small; lia.
Qed.

(** The in-flight counter: incremented before the task starts, it is back
    at its value when the task returns, whatever the executor met; a task that
    panics never gives its increment back. *)
Theorem counter_balance `{!UuidText, !ChronoText, !Chrono, !Cron}
  (result : Prelude.result unit string) (worker_id : Uuid) (job : Job.t) (env : nat -> Env)
  (w w' : World) (r : outcome unit) :
  in_width 32 (ActiveJobs.load worker_id w) ->
  run (Poller.counted_task (fun _ => Ret result) worker_id job) env
    (ActiveJobs.add worker_id 1 w) = (r, w') ->
  (r = Returned tt /\ ActiveJobs.load worker_id w' = ActiveJobs.load worker_id w \/
   r = Panicked /\ ActiveJobs.load worker_id w' = i32 (ActiveJobs.load worker_id w + 1)) /\
  (Executor.should_dlq job = true \/ result = Ok tt -> r = Returned tt).
Proof.
  intros Hwidth (n' & ts & Hx)%run_exec. unfold Poller.counted_task in Hx. rewrite exec_bind in Hx.
  assert (ActiveJobs.load worker_id (ActiveJobs.add worker_id 1 w) =
    i32 (ActiveJobs.load worker_id w + 1)) as Hload
    by (unfold ActiveJobs.load; simpl; by rewrite lookup_insert_eq).
  destruct (exec (Executor.execute_job_with _ worker_id job) env 0 _) as [[[r1 w1] n1] ts1] eqn:E.
  assert (w_active w1 = w_active (ActiveJobs.add worker_id 1 w) /\
    (r1 = Returned tt \/ r1 = Panicked /\ ~ (Executor.should_dlq job = true \/ result = Ok tt)))
    as [Hact Hr].
  { destruct result as [[]|msg].
    - apply execute_success_cases in E as (w2 & n2 & Heq & Hw). simplify_eq. split; [|by left].
      destruct Hw as [->|(t & d & _ & [->|(d' & _ & ->)])]; done.
    - apply execute_failure_cases in E as (r2 & w2 & n2 & Heq & Hr & Hw). simplify_eq. split.
      + by destruct Hw as [->|(t & d & -> & _)].
      + destruct Hr as [->|(-> & Hd & _)]; [by left|right]. split; [done|].
        rewrite Hd. by intros [?|?]. }
  assert (ActiveJobs.load worker_id w1 = i32 (ActiveJobs.load worker_id w + 1)) as Hl1
    by (rewrite <- Hload; unfold ActiveJobs.load; by rewrite Hact).
  destruct Hr as [->|[-> Hn]].
  - simpl in Hx. simplify_eq. split; [|done]. left. split; [done|].
    unfold ActiveJobs.load at 1. simpl. rewrite lookup_insert_eq. simpl.
    rewrite Hl1. by apply i32_add_sub.
  - simplify_eq. split; [by right|]. by intros ?%Hn.
Qed.

Section examples.
Import Toy.

Lemma counter_balance_witness :
  let w := Fixture.world (Fixture.with_jobs [running_fixture 0 3]) in
  let x := run (Poller.counted_task (fun _ => Ret (Ok tt)) Fixture.worker (running_fixture 0 3))
    (Fixture.env_at Fixture.noon) (ActiveJobs.add Fixture.worker 1 w) in
  x.1 = Returned tt /\ ActiveJobs.load Fixture.worker x.2 = 0.
Proof.
  intros w x.
  destruct (counter_balance (Ok tt) Fixture.worker (running_fixture 0 3)
    (Fixture.env_at Fixture.noon) w x.2 x.1) as [[[Hr Hl]|[Hr _]] Hok].
  - vm_compute. split; [discriminate|reflexivity].
  - apply surjective_pairing.
  - split; [exact Hr|exact Hl].
  - exfalso. rewrite Hok in Hr; [discriminate Hr|right; reflexivity].
Defined.
End examples.

(** ** Heartbeats *)

Lemma upsert_heartbeat_Ok wk active c d n d' :
  WorkerRepository.upsert_heartbeat_stmt wk active c d = Ok (n, d') ->
  (exists k h, worker_heartbeats d' !! k = Some h /\ WorkerHeartbeat.worker_id h = wk /\
     WorkerHeartbeat.last_seen h = now c /\ WorkerHeartbeat.active_jobs h = active) /\
  d' = d <| worker_heartbeats := worker_heartbeats d' |>.
Proof.
  unfold WorkerRepository.upsert_heartbeat_stmt.
  destruct (exists_row _ (worker_heartbeats d)) eqn:E.
  - intros [= _ <-]. split; [|done].
    destruct (select (fun h => bool_decide (WorkerHeartbeat.worker_id h = wk)) (worker_heartbeats d))
      as [|h l] eqn:El; [unfold exists_row in E; by rewrite El in E|].
    assert (h ∈ h :: l) as Hin by set_solver. rewrite <- El in Hin.
    apply elem_of_select in Hin as [Hw [k Hk]]. exists k. eexists.
    split; [simpl; by apply lookup_update_where_Some|]. simpl. rewrite Hw. apply bool_decide_eq_true in Hw. done.
  - destruct (first_violation _); intros [= _ <-]. split; [|done].
    exists (fresh c 0%nat). eexists. split; [apply lookup_insert_eq|done].
Qed.

Lemma fresh_worker_not_stale d wk k h t thr :
  worker_heartbeats d !! k = Some h -> WorkerHeartbeat.worker_id h = wk ->
  t - WorkerHeartbeat.last_seen h <= thr * SECOND ->
  JobRepository.stale_worker t thr d wk = false.
Proof.
  intros Hk Hw Hage. destruct (last_seen_of_ge d wk k h Hk Hw) as (t' & Ht & Hle).
  unfold JobRepository.stale_worker. rewrite Ht. apply andb_false_iff. right. apply Z.ltb_ge. lia.
Qed.

(** C19: a heartbeat round that reaches the database protects its worker: a
    recovery with threshold [thr] seconds that runs no later than [thr] seconds
    after it releases none of the worker's jobs. *)
Theorem heartbeat_protects (worker_id : Uuid) (env : nat -> Env) (w w' : World) (thr : Z)
  (c : Ctx) (n : Z) (d' : Db) (k : Uuid) (j : Job.t) :
  quiet env -> run (Heartbeat.heartbeat_round worker_id) env w = (Returned tt, w') ->
  has (workers (w_db w)) worker_id = true ->
  (forall i, worker_heartbeats (w_db w) !! e_uuid (env 1%nat) 0%nat i = None) ->
  now c <= e_now (env 1%nat) + thr * SECOND ->
  JobRepository.recover_stmt thr c (w_db w') = Ok (n, d') ->
  jobs (w_db w) !! k = Some j -> Job.worker_id j = Some worker_id ->
  jobs d' !! k = Some j.
Proof.
  intros Hq (n' & ts & Hx)%run_exec Hreg Hfresh Hnow Hrec Hj Hwk.
  unfold Heartbeat.heartbeat_round, WorkerRepository.upsert_heartbeat in Hx.
  cbn [bind exec] in Hx. rewrite bind_assoc, exec_sql_quiet in Hx by done.
  destruct (WorkerRepository.upsert_heartbeat_stmt worker_id _ _ _) as [[m d1]|v] eqn:E.
  - simplify_eq/=. apply upsert_heartbeat_Ok in E as [(kh & h & Hh & Hhw & Hseen & _) Hd1].
    rewrite (recover_lookup _ _ _ _ _ _ Hrec). rewrite Hd1. simpl. rewrite Hj. simpl.
    destruct (JobRepository.held_by_stale _ _ _ _) eqn:Es; [|done].
    apply held_by_stale_true in Es as (_ & wk & Hwk' & Hst). simplify_eq.
    erewrite fresh_worker_not_stale in Hst; [done|exact Hh|done|]. rewrite Hseen. simpl. lia.
  - exfalso. clear Hx. revert E. unfold WorkerRepository.upsert_heartbeat_stmt.
    destruct (exists_row _ _); [done|]. simpl. unfold has at 1. rewrite Hfresh. simpl. by rewrite Hreg.
Qed.

Lemma heartbeat_protects_witness :
  let w := Fixture.world held_db in
  let w' := (run (Heartbeat.heartbeat_round Fixture.dead_worker) (Fixture.env_at Fixture.noon) w).2 in
  let c := ctx_of (Fixture.env_at (Fixture.noon + 60 * SECOND) 0) 0 in
  exists n d', JobRepository.recover_stmt 60 c (w_db w') = Ok (n, d') /\
    jobs d' !! 21%N = Some (Fixture.held 21 Fixture.dead_worker JobStatus.Claimed).
Proof.
  intros w w' c.
  destruct (JobRepository.recover_stmt 60 c (w_db w')) as [[n d']|v] eqn:E; [|discriminate E].
  exists n, d'. split; [reflexivity|].
  apply (heartbeat_protects Fixture.dead_worker (Fixture.env_at Fixture.noon) w w' 60 c n d' 21
    (Fixture.held 21 Fixture.dead_worker JobStatus.Claimed)).
  - intros i m. reflexivity.
  - unfold w'. set (x := run _ _ w). transitivity (x.1, x.2); [apply surjective_pairing|].
    apply (f_equal (fun r => (r, x.2))). vm_compute. reflexivity.
  - vm_compute. reflexivity.
  - intros i. cbn. assert (size (worker_heartbeats held_db) = 2%nat) by (vm_compute; reflexivity).
    apply not_elem_of_dom_1. intros Hin. revert Hin.
    replace (dom (worker_heartbeats held_db)) with ({[41%N; 42%N]} : gset N)
      by (vm_compute; reflexivity).
    rewrite elem_of_union, !elem_of_singleton. simpl. lia.
  - vm_compute. discriminate.
  - exact E.
  - vm_compute. reflexivity.
  - reflexivity.
Defined.

(** A registered worker that has sent no heartbeat yet is stale at any
    threshold: the next recovery takes every claimed or running job it holds,
    however recent the claim. *)
Theorem silent_worker_loses_jobs (thr : Z) (c : Ctx) (d d' : Db) (n : Z) (k wk : Uuid) (j : Job.t) :
  has (workers d) wk = true ->
  (forall i h, worker_heartbeats d !! i = Some h -> WorkerHeartbeat.worker_id h <> wk) ->
  jobs d !! k = Some j -> Job.worker_id j = Some wk ->
  Job.status j = JobStatus.Claimed \/ Job.status j = JobStatus.Running ->
  JobRepository.recover_stmt thr c d = Ok (n, d') ->
  jobs d' !! k = Some (JobRepository.release (now c) j).
Proof.
  intros Hreg Hno Hj Hwk Hst Hrec. rewrite (recover_lookup _ _ _ _ _ _ Hrec), Hj. simpl.
  assert (JobRepository.held_by_stale (now c) thr d j = true) as ->; [|done].
  apply held_by_stale_true. split; [done|]. exists wk. split; [done|].
  unfold JobRepository.stale_worker. rewrite Hreg. simpl.
  unfold JobRepository.last_seen_of.
  destruct (select _ (worker_heartbeats d)) as [|h l] eqn:El; [done|].
  assert (h ∈ h :: l) as Hin by set_solver. rewrite <- El in Hin.
  apply elem_of_select in Hin as [Hw [i Hi]]. apply bool_decide_eq_true in Hw.
  by apply Hno in Hi.
Qed.

Lemma silent_worker_loses_jobs_witness :
  let d := held_db <| worker_heartbeats := ∅ |> in
  let c := ctx_of (Fixture.env_at Fixture.noon 0) 0 in
  exists n d', JobRepository.recover_stmt 60 c d = Ok (n, d') /\
    (Job.status <$> jobs d' !! 20%N) = Some JobStatus.Queued.
Proof.
  intros d c.
  destruct (JobRepository.recover_stmt 60 c d) as [[n d']|v] eqn:E; [|discriminate E].
  exists n, d'. split; [reflexivity|].
  rewrite (silent_worker_loses_jobs 60 c d d' n 20 Fixture.worker
    (Fixture.held 20 Fixture.worker JobStatus.Running)).
  - reflexivity.
  - vm_compute. reflexivity.
  - intros i h Hi. exfalso. cbn in Hi. rewrite lookup_empty in Hi. discriminate Hi.
  - vm_compute. reflexivity.
  - reflexivity.
  - right. reflexivity.
  - exact E.
Defined.
