(* ===== verification/OutboxRelay.v ===== *)
(** * Outbox relay ([crates/infrastructure/src/outbox_relay.rs], [redis_client.rs])

    The loop that publishes the unpublished outbox events on Redis channels,
    oldest first, fifty at a time, and marks each one after its publication. *)
From S2P Require Import Prelude Enums Entities RetryPolicy Db Fixture Steps Externals.
From S2P Require Import SchedulerCore.

Module RedisClient.
Definition JOBS_CHANNEL : string := "jobs:events".
Definition DLQ_CHANNEL : string := "dlq:events".

(** [publish]: one [PUBLISH] command; the message may be delivered although the
    answer is lost. *)
Definition publish (channel message : string) : prog (result unit sqlx_error) :=
  Step (fun e w =>
    match e_fault e 0 with
    | NoFault => (Ok tt, w <| w_bus ::= fun l => l ++ [(channel, message)] |>)
    | LostBefore => (Err Io, w)
    | LostAfter => (Err Io, w <| w_bus ::= fun l => l ++ [(channel, message)] |>)
    end) Ret.
End RedisClient.

Module OutboxRelay.
Section relay.
Context {UT : UuidText} {JT : JsonText}.

(** [ORDER BY created_at ASC] *)
Definition oldest_first (a b : OutboxEvent.t) : Prop :=
  OutboxEvent.created_at a <= OutboxEvent.created_at b.
#[global] Instance oldest_first_dec a b : Decision (oldest_first a b).
Proof. unfold oldest_first. apply _. Defined.

Definition unpublished (e : OutboxEvent.t) : bool := negb (OutboxEvent.published e).

(** [SELECT ... WHERE published = false ORDER BY created_at ASC LIMIT 50] *)
Definition BATCH : Z := 50.
Definition pending (d : Db) : list OutboxEvent.t :=
  limit_offset BATCH 0 (order_by oldest_first (select unpublished (outbox_events d))).

Definition channel_of (e : OutboxEvent.t) : string :=
  if bool_decide (OutboxEventType.to_string (OutboxEvent.event_type e) = "job_moved_to_dlq")
  then RedisClient.DLQ_CHANNEL else RedisClient.JOBS_CHANNEL.

Definition message_of (e : OutboxEvent.t) : string :=
  json_to_string (VObject
    [("event_type", VString (OutboxEventType.to_string (OutboxEvent.event_type e)));
     ("aggregate_id", VString (uuid_to_string (OutboxEvent.aggregate_id e)));
     ("payload", OutboxEvent.payload e);
     ("correlation_id", VString (uuid_to_string (OutboxEvent.correlation_id e)))]).

Definition set_published (now : Timestamp) (e : OutboxEvent.t) : OutboxEvent.t :=
  e <| OutboxEvent.published := true |> <| OutboxEvent.published_at := Some now |>.
Definition mark_stmt (id : Uuid) : stmt Z := with_ctx (fun c =>
  update_row outbox_events id (set_published (now c))).

(** One event: publish, then mark; a failed publication skips the mark, and a
    failed mark is only logged. *)
Definition relay_event (e : OutboxEvent.t) : prog unit :=
  r <- RedisClient.publish (channel_of e) (message_of e) ;;
  match r with
  | Err _ => Ret tt
  | Ok _ => r <- sql (mark_stmt (OutboxEvent.id e)) ;; Ret tt
  end.

(** One round of [run_relay]. *)
Definition relay_round : prog unit :=
  rows <- sql (query pending) ;;
  match rows with
  | Err _ => Ret tt
  | Ok events => for_each events relay_event
  end.

Definition run_relay (rounds : nat) : prog unit := ticks rounds relay_round.
End relay.
End OutboxRelay.

(** ** At least once *)

Section delivery.
Context {UT : UuidText} {JT : JsonText}.
Import OutboxRelay.

(** The event has been sent: its message is on its channel. *)
Definition sent (w : World) (e : OutboxEvent.t) : Prop := (channel_of e, message_of e) ∈ w_bus w.

(** Nothing is marked published that was not sent. *)
Definition delivered (w : World) : Prop := forall k e,
  outbox_events (w_db w) !! k = Some e -> OutboxEvent.published e = true -> sent w e.

(** Rows are stored under their primary key. *)
Definition outbox_keyed (d : Db) : Prop :=
  forall k e, outbox_events d !! k = Some e -> OutboxEvent.id e = k.

Lemma sent_published w t e : sent w (set_published t e) <-> sent w e.
Proof. done. Qed.

(** Marking an event. *)
Definition marked (t : Timestamp) (k : Uuid) (d : Db) : Db :=
  d <| outbox_events ::= alter (set_published t) k |>.

Lemma mark_stmt_Ok k c d : exists n, mark_stmt k c d = Ok (n, marked (now c) k d).
Proof.
  unfold mark_stmt, with_ctx, update_row, marked.
  destruct (outbox_events d !! k) as [e|] eqn:E; eexists; do 2 f_equal; destruct d;
    unfold set_field, set_outbox_events; simpl in *; f_equal;
    apply map_eq; intros i; destruct (decide (i = k)) as [->|];
    rewrite ?lookup_insert_eq, ?lookup_alter_eq, ?lookup_insert_ne, ?lookup_alter_ne, ?E by done; done.
Qed.

(** ** One round *)

Definition envelope (e : OutboxEvent.t) : string * string := (channel_of e, message_of e).

Lemma exec_relay_event_quiet e env n w : quiet env ->
  exec (relay_event e) env n w =
  (Returned tt, w <| w_bus ::= fun l => l ++ [envelope e] |>
                  <| w_db ::= marked (e_now (env (S n))) (OutboxEvent.id e) |>, S (S n), []).
Proof.
  intros Hq. unfold relay_event, RedisClient.publish. cbn [bind exec]. rewrite Hq.
  rewrite exec_sql_quiet by done.
  match goal with |- context [mark_stmt ?k ?c ?d] => destruct (mark_stmt_Ok k c d) as [m ->] end.
  done.
Qed.

(** The times at which the events of a list are marked, from step [n] on. *)
Fixpoint mark_all (env : nat -> Env) (n : nat) (l : list OutboxEvent.t) (d : Db) : Db :=
  match l with
  | [] => d
  | e :: l => mark_all env (S (S n)) l (marked (e_now (env (S n))) (OutboxEvent.id e) d)
  end.

Lemma exec_relay_events_quiet l env n w : quiet env ->
  exists n', exec (for_each l relay_event) env n w =
    (Returned tt, w <| w_bus ::= fun b => b ++ (envelope <$> l) |> <| w_db ::= mark_all env n l |>,
     n', []).
Proof.
  intros Hq. revert n w. induction l as [|e l IH]; intros n w.
  - exists n. simpl. unfold set_field, set_w_bus, set_w_db. simpl. rewrite app_nil_r. by destruct w.
  - change (for_each (e :: l) relay_event) with (relay_event e ;;; for_each l relay_event).
    rewrite exec_bind, exec_relay_event_quiet by done. cbv beta iota.
    destruct (IH (S (S n)) (w <| w_bus ::= fun l => l ++ [envelope e] |>
      <| w_db ::= marked (e_now (env (S n))) (OutboxEvent.id e) |>)) as [n' ->].
    exists n'. csimpl. do 3 f_equal. unfold set_field, set_w_bus, set_w_db. simpl. f_equal.
    by rewrite <- app_assoc.
Qed.

Lemma marked_lookup t k d i :
  outbox_events (marked t k d) !! i = if decide (i = k) then set_published t <$> outbox_events d !! i
                                      else outbox_events d !! i.
Proof.
  unfold marked. simpl. destruct (decide (i = k)) as [->|].
  - apply lookup_alter_eq.
  - by rewrite lookup_alter_ne.
Qed.

Lemma mark_all_lookup env n l d k e : outbox_events d !! k = Some e ->
  (k ∈ OutboxEvent.id <$> l /\ exists t, outbox_events (mark_all env n l d) !! k = Some (set_published t e)) \/
  (k ∉ OutboxEvent.id <$> l /\ outbox_events (mark_all env n l d) !! k = Some e).
Proof.
  revert n d e. induction l as [|e0 l IH]; intros n d e Hk; csimpl.
  - right. split; [set_solver|done].
  - pose proof (marked_lookup (e_now (env (S n))) (OutboxEvent.id e0) d k) as Hm. rewrite Hk in Hm.
    destruct (decide (k = OutboxEvent.id e0)) as [->|Hne];
      cbv beta iota delta [fmap option_fmap option_map] in Hm.
    + left. split; [set_solver|].
      destruct (IH (S (S n)) _ _ Hm) as [[_ [t Ht]]|[_ Ht]]; rewrite Ht; by eexists.
    + destruct (IH (S (S n)) _ _ Hm) as [[Hin Ht]|[Hnin Ht]]; [left|right].
      * split; [set_solver|done].
      * split; [set_solver|done].
Qed.

Lemma mark_all_keyed env n l d : outbox_keyed d -> outbox_keyed (mark_all env n l d).
Proof.
  revert n d. induction l as [|e0 l IH]; intros n d Hd; [done|]. simpl. apply IH.
  intros k e. rewrite marked_lookup. destruct (decide _) as [->|]; [|apply Hd].
  destruct (outbox_events d !! _) as [e'|] eqn:E; [|done]. intros [= <-]. exact (Hd _ _ E).
Qed.

Lemma mark_all_domain env n l d k :
  is_Some (outbox_events (mark_all env n l d) !! k) <-> is_Some (outbox_events d !! k).
Proof.
  revert n d. induction l as [|e0 l IH]; intros n d; [done|]. simpl. rewrite IH, marked_lookup.
  destruct (decide _); [|done]. by rewrite fmap_is_Some.
Qed.

(** ** Draining *)

Definition backlog (d : Db) : list OutboxEvent.t := select unpublished (outbox_events d).

Lemma backlog_NoDup d : outbox_keyed d -> NoDup (OutboxEvent.id <$> backlog d).
Proof.
  intros Hk. unfold backlog, select.
  assert (OutboxEvent.id <$> (snd <$> map_to_list (outbox_events d)) =
    fst <$> map_to_list (outbox_events d)) as Heq.
  { rewrite <- list_fmap_compose. apply list_fmap_ext. intros i [k e] He. simpl.
    apply list_elem_of_lookup_2, elem_of_map_to_list in He. by apply Hk. }
  pose proof (NoDup_fst_map_to_list (outbox_events d)) as Hnd. rewrite <- Heq in Hnd. clear Heq.
  induction (snd <$> map_to_list (outbox_events d)) as [|e l IH]; [constructor|].
  apply NoDup_cons in Hnd as [Hni Hnd]. simpl. destruct (unpublished e); [|by apply IH].
  constructor; [|by apply IH]. intros Hin. apply Hni. apply list_elem_of_fmap in Hin as (e' & -> & He').
  apply list_elem_of_fmap. exists e'. split; [done|].
  apply list_elem_of_In, filter_In in He' as [He' _]. by apply list_elem_of_In.
Qed.

Lemma backlog_elem d e : e ∈ backlog d <->
  OutboxEvent.published e = false /\ exists k, outbox_events d !! k = Some e.
Proof. unfold backlog. rewrite elem_of_select. unfold unpublished. by rewrite negb_true_iff. Qed.

Definition in_order (d : Db) : list OutboxEvent.t := order_by oldest_first (backlog d).
Lemma pending_take d : pending d = take 50 (in_order d).
Proof. done. Qed.

Lemma in_order_NoDup d : outbox_keyed d -> NoDup (OutboxEvent.id <$> in_order d).
Proof.
  intros Hk. unfold in_order. rewrite order_by_Permutation. by apply backlog_NoDup.
Qed.

(** The pending events: stored, unpublished, in order, and no younger than those
    left behind. *)
Lemma pending_NoDup d : outbox_keyed d -> NoDup (OutboxEvent.id <$> pending d).
Proof.
  intros Hk%in_order_NoDup. rewrite pending_take, fmap_take.
  rewrite <- (take_drop 50 (OutboxEvent.id <$> in_order d)) in Hk. by apply NoDup_app in Hk as [? _].
Qed.
Lemma in_order_elem d e : e ∈ in_order d <->
  OutboxEvent.published e = false /\ exists k, outbox_events d !! k = Some e.
Proof. unfold in_order. by rewrite elem_of_order_by, backlog_elem. Qed.
Lemma pending_stored d e : outbox_keyed d -> e ∈ pending d ->
  outbox_events d !! OutboxEvent.id e = Some e /\ OutboxEvent.published e = false.
Proof.
  intros Hk He. assert (e ∈ in_order d) as (Hp & k & Hs)%in_order_elem
    by (rewrite pending_take in He; by apply (subseteq_take 50)).
  by rewrite (Hk k e Hs).
Qed.
Lemma in_order_sorted d : StronglySorted oldest_first (in_order d).
Proof. apply order_by_sorted; [intros a b c|intros a b]; unfold oldest_first; lia. Qed.
Lemma pending_sorted d : StronglySorted oldest_first (pending d).
Proof.
  pose proof (in_order_sorted d) as Hs. rewrite <- (take_drop 50 (in_order d)) in Hs.
  by apply StronglySorted_app_1_l in Hs.
Qed.
Lemma sorted_lookup l : StronglySorted oldest_first l ->
  forall i j e e', l !! i = Some e -> l !! j = Some e' -> (i <= j)%nat -> oldest_first e e'.
Proof.
  induction 1 as [|a l Hs IH Hall]; [done|]. intros [|i] [|j] e e' Hi Hj Hle; simplify_eq/=; [..|lia|].
  - unfold oldest_first. lia.
  - rewrite Forall_forall in Hall. eapply Hall, list_elem_of_lookup_2, Hj.
  - eapply IH; [done..|lia].
Qed.
Lemma pending_oldest d k e : outbox_events d !! k = Some e -> OutboxEvent.published e = false ->
  e ∉ pending d -> length (pending d) = 50%nat /\ forall e', e' ∈ pending d -> oldest_first e' e.
Proof.
  intros He Hp Hout. assert (e ∈ in_order d) as Hin by (apply in_order_elem; eauto).
  rewrite pending_take in *. rewrite <- (take_drop 50 (in_order d)) in Hin.
  apply elem_of_app in Hin as [?|Hin]; [done|]. split.
  - rewrite length_take. destruct (Nat.le_gt_cases 50 (length (in_order d))) as [|Hlt]; [lia|].
    rewrite drop_ge in Hin by lia. set_solver.
  - intros e' He'. pose proof (in_order_sorted d) as Hs. rewrite <- (take_drop 50 (in_order d)) in Hs.
    by eapply StronglySorted_app_1_elem_of in Hs.
Qed.

(** After the pending events are marked, the backlog is what was behind them. *)
Lemma backlog_after env n d : outbox_keyed d ->
  backlog (mark_all env n (pending d) d) ≡ₚ drop 50 (in_order d).
Proof.
  intros Hk. pose proof (in_order_NoDup d Hk) as Hnd.
  rewrite <- (take_drop 50 (in_order d)), fmap_app in Hnd.
  apply NoDup_app in Hnd as (_ & Hdisj & Hnd2).
  apply NoDup_Permutation.
  - eapply NoDup_fmap_1, backlog_NoDup, mark_all_keyed, Hk.
  - by eapply NoDup_fmap_1.
  - intros e. rewrite backlog_elem. split.
    + intros [Hp [k He]].
      assert (is_Some (outbox_events d !! k)) as [e0 He0] by (rewrite <- mark_all_domain; eauto).
      destruct (mark_all_lookup env n (pending d) d k e0 He0) as [[_ [t Ht]]|[Hni Ht]];
        rewrite He in Ht; injection Ht as ->; [done|].
      assert (e0 ∈ in_order d) as Hin.
      { unfold in_order. rewrite elem_of_order_by. apply backlog_elem. eauto. }
      rewrite <- (take_drop 50 (in_order d)) in Hin. apply elem_of_app in Hin as [Hin|Hin]; [|done].
      exfalso. apply Hni. rewrite pending_take. rewrite <- (Hk k e0 He0). by apply list_elem_of_fmap_2.
    + intros Hin. assert (e ∈ in_order d) as Ho by (by apply (subseteq_drop 50)).
      unfold in_order in Ho. rewrite elem_of_order_by in Ho. apply backlog_elem in Ho as [Hp [k He]].
      split; [done|]. exists k.
      destruct (mark_all_lookup env n (pending d) d k e He) as [[Hi _]|[_ Ht]]; [|done].
      exfalso. apply (Hdisj k).
      * by rewrite <- pending_take.
      * rewrite <- (Hk k e He). by apply list_elem_of_fmap_2.
Qed.

Lemma exec_relay_round_quiet env n w : quiet env -> outbox_keyed (w_db w) ->
  exists n', exec relay_round env n w =
    (Returned tt, w <| w_bus ::= fun b => b ++ (envelope <$> pending (w_db w)) |>
                    <| w_db ::= mark_all env (S n) (pending (w_db w)) |>, n', []).
Proof.
  intros Hq Hk. unfold relay_round. rewrite exec_query_quiet by done. cbv beta iota.
  by apply exec_relay_events_quiet.
Qed.
End delivery.

(** C26: one round of the relay without faults works off the fifty oldest
    unpublished events, all of them when there are no more than fifty: it sends
    one message for each, in order of creation, on [dlq:events] for a dead letter
    and on [jobs:events] for every other event, and marks exactly those as
    published; every other event stays as it was. *)
Theorem relay_round_exact `{!UuidText, !JsonText} (env : nat -> Env) (w : World) :
  quiet env -> outbox_keyed (w_db w) ->
  let stored k e := outbox_events (w_db w) !! k = Some e in
  exists w' (batch : list OutboxEvent.t), run OutboxRelay.relay_round env w = (Returned tt, w') /\
    NoDup (OutboxEvent.id <$> batch) /\
    (forall e, e ∈ batch -> stored (OutboxEvent.id e) e /\ OutboxEvent.published e = false) /\
    (forall i j e e', batch !! i = Some e -> batch !! j = Some e' -> (i <= j)%nat ->
       OutboxEvent.created_at e <= OutboxEvent.created_at e') /\
    (forall k e, stored k e -> OutboxEvent.published e = false -> e ∉ batch ->
       length batch = 50%nat /\
       forall e', e' ∈ batch -> OutboxEvent.created_at e' <= OutboxEvent.created_at e) /\
    (length batch <= 50)%nat /\
    w_bus w' = w_bus w ++ ((fun e =>
      (match OutboxEvent.event_type e with
       | OutboxEventType.JobMovedToDlq => "dlq:events"
       | _ => "jobs:events"
       end,
       json_to_string (VObject
         [("event_type", VString (OutboxEventType.to_string (OutboxEvent.event_type e)));
          ("aggregate_id", VString (uuid_to_string (OutboxEvent.aggregate_id e)));
          ("payload", OutboxEvent.payload e);
          ("correlation_id", VString (uuid_to_string (OutboxEvent.correlation_id e)))]))) <$> batch) /\
    (forall k e, stored k e ->
       (e ∈ batch /\ exists t, outbox_events (w_db w') !! k =
          Some (e <| OutboxEvent.published := true |> <| OutboxEvent.published_at := Some t |>)) \/
       (e ∉ batch /\ outbox_events (w_db w') !! k = Some e)).
Proof.
  intros Hq Hk stored. destruct (exec_relay_round_quiet env 0 w Hq Hk) as [n' Hx].
  unfold run. rewrite Hx. eexists _, (OutboxRelay.pending (w_db w)). split; [done|].
  split_and!.
  - by apply pending_NoDup.
  - intros e He. by apply pending_stored.
  - apply sorted_lookup, pending_sorted.
  - intros k e He Hp Hout. by eapply pending_oldest.
  - rewrite pending_take, length_take. lia.
  - simpl. f_equal. apply list_fmap_ext. intros _ e _.
    unfold envelope, OutboxRelay.channel_of, OutboxRelay.message_of.
    by destruct (OutboxEvent.event_type e).
  - intros k e He. assert (e ∈ OutboxRelay.pending (w_db w) <->
      k ∈ OutboxEvent.id <$> OutboxRelay.pending (w_db w)) as ->.
    { rewrite <- (Hk k e He). split; [apply list_elem_of_fmap_2|].
      intros (e' & Heq & He')%list_elem_of_fmap. destruct (pending_stored _ e' Hk He') as [Hs _].
      rewrite <- Heq, (Hk k e He) in Hs. unfold stored in He. congruence. }
    by apply mark_all_lookup.
Qed.

Lemma relay_drains_from `{!UuidText, !JsonText} rounds env n w r w' n' ts :
  quiet env -> outbox_keyed (w_db w) ->
  exec (ticks rounds OutboxRelay.relay_round) env n w = (r, w', n', ts) ->
  r = Returned tt /\
  length (backlog (w_db w')) = (length (backlog (w_db w)) - 50 * rounds)%nat.
Proof.
  intros Hq. revert n w. induction rounds as [|k IH]; intros n w Hk Hx.
  - simplify_eq/=. split; [done|lia].
  - rewrite exec_ticks_S in Hx. destruct (exec_relay_round_quiet env n w Hq Hk) as [n1 Hr].
    rewrite Hr in Hx. destruct (exec (ticks k _) env n1 _) as [[[r2 w2] n2] ts2] eqn:E.
    injection Hx as <- <- <- <-. apply IH in E as [-> Hl]; [|by apply mark_all_keyed].
    split; [done|]. rewrite Hl. simpl w_db. rewrite backlog_after by done. rewrite length_drop.
    unfold in_order. rewrite (Permutation_length (order_by_Permutation _ _)). lia.
Qed.

(** C27: the relay drains the outbox: without faults and without new events,
    [rounds] rounds leave exactly the events beyond the first [50 * rounds] to
    send, none once [50 * rounds] reaches the size of the backlog. *)
Theorem relay_drains `{!UuidText, !JsonText} (rounds : nat) (env : nat -> Env) (w w' : World)
  (r : outcome unit) :
  quiet env -> outbox_keyed (w_db w) ->
  run (OutboxRelay.run_relay rounds) env w = (r, w') ->
  r = Returned tt /\
  length (backlog (w_db w')) = (length (backlog (w_db w)) - 50 * rounds)%nat.
Proof. intros Hq Hk (n' & ts & Hx)%run_exec. by eapply relay_drains_from. Qed.

Section examples.
Import Toy.

Definition event (id : Uuid) (ty : OutboxEventType.t) (t : Timestamp) : OutboxEvent.t :=
  OutboxEvent.new id t ty 20%N VNull 100%N.
Definition two_events : Db := (Fixture.with_jobs []) <| outbox_events :=
  list_to_map [(60%N, event 60 OutboxEventType.JobMovedToDlq 2);
               (61%N, event 61 OutboxEventType.JobRetryScheduled 1)] |>.

Lemma two_events_keyed : outbox_keyed two_events.
Proof.
  intros k e. apply (map_Forall_lookup_1 (fun k e => OutboxEvent.id e = k) (outbox_events two_events)).
  compute_decide.
Qed.

(** The retry event, older, goes first; the dead-letter event goes to the other
    channel. *)
Lemma relay_round_exact_witness :
  let x := run OutboxRelay.relay_round (Fixture.env_at Fixture.noon) (Fixture.world two_events) in
  fst <$> w_bus x.2 = ["jobs:events"; "dlq:events"] /\
  exists batch : list OutboxEvent.t, NoDup (OutboxEvent.id <$> batch) /\ length batch = 2%nat.
Proof.
  intros x. split; [vm_compute; reflexivity|].
  destruct (relay_round_exact (Fixture.env_at Fixture.noon) (Fixture.world two_events))
    as (w' & batch & Hr & Hnd & _ & _ & _ & _ & Hbus & _).
  - intros n i. reflexivity.
  - exact two_events_keyed.
  - exists batch. split; [exact Hnd|]. apply (f_equal (fun b => length b)) in Hbus.
    rewrite length_app, length_fmap in Hbus. simpl in Hbus. rewrite <- Hbus.
    change w' with (Returned tt, w').2. rewrite <- Hr. vm_compute. reflexivity.
Defined.

Lemma relay_drains_witness :
  length (backlog (w_db (run (OutboxRelay.run_relay 1) (Fixture.env_at Fixture.noon)
    (Fixture.world two_events)).2)) = 0%nat.
Proof.
  rewrite (proj2 (relay_drains 1 (Fixture.env_at Fixture.noon) (Fixture.world two_events) _ _
    (fun _ _ => eq_refl) two_events_keyed (surjective_pairing _))).
  vm_compute. reflexivity.
Defined.
End examples.
