(* ===== verification/WebSocket.v ===== *)
(** * WebSocket feed ([crates/api/src/handlers/websocket.rs])

    One task per connected dashboard: it subscribes to the jobs channel and
    forwards what is published there as text frames, with a ping after thirty
    idle seconds. A subscription is a position in the list of published
    messages: Redis sends a subscriber what is published from then on, in order,
    until the connection is lost, and the subscriber sees the stream end. *)
From S2P Require Import Prelude Enums Entities RetryPolicy Db Fixture Steps Externals OutboxRelay.

Module WebSocket.

(** [socket.send(frame)]: an error may come after the frame was sent. *)
Definition send (socket : N) (frame : Frame) : prog (result unit sqlx_error) :=
  let sent w := w <| w_clients ::= <[socket := unwrap_or (w_clients w !! socket) [] ++ [frame]]> |> in
  Step (fun e w =>
    match e_fault e 0 with
    | NoFault => (Ok tt, sent w)
    | LostBefore => (Err Io, w)
    | LostAfter => (Err Io, sent w)
    end) Ret.

(** A request to Redis that changes nothing of the world. *)
Definition redis_request {A : Type} (answer : World -> A) : prog (result A sqlx_error) :=
  Step (fun e w => (match e_fault e 0 with NoFault => Ok (answer w) | _ => Err Io end, w)) Ret.

(** [client.get_async_pubsub()], [pubsub.subscribe(JOBS_CHANNEL)] *)
Definition get_async_pubsub : prog (result unit sqlx_error) := redis_request (fun _ => tt).
Definition subscribe : prog (result nat sqlx_error) := redis_request (fun w => length (w_bus w)).

(** The first message of the channel at or after a position, and the position
    behind it. *)
Fixpoint next_message (channel : string) (pos : nat) (bus : list (string * string))
  : option (string * nat) :=
  match bus, pos with
  | [], _ => None
  | _ :: bus, S pos => prod_map (fun s => s) S <$> next_message channel pos bus
  | (c, payload) :: bus, O =>
      if bool_decide (c = channel) then Some (payload, 1%nat)
      else prod_map (fun s => s) S <$> next_message channel 0 bus
  end.

(** What a poll of the [select!] finds: a message, the end of the stream, the
    timer, or nothing yet. *)
Inductive Event := Received (payload : string) (pos : nat) | StreamEnded | Elapsed | NotReady.

Definition select_event (pos : nat) : prog Event :=
  Step (fun e w =>
    (if e_timer e then Elapsed else
     match e_fault e 0 with
     | NoFault => match next_message RedisClient.JOBS_CHANNEL pos (w_bus w) with
                  | Some (payload, pos') => Received payload pos'
                  | None => NotReady
                  end
     | _ => StreamEnded
     end, w)) Ret.

(** The loop, for its first [polls] polls. *)
Fixpoint forward (socket : N) (polls : nat) (pos : nat) : prog unit :=
  match polls with
  | O => Ret tt
  | S polls =>
      event <- select_event pos ;;
      match event with
      | Received payload pos' =>
          r <- send socket (TextFrame payload) ;;
          match r with Ok _ => forward socket polls pos' | Err _ => Ret tt end
      | StreamEnded => Ret tt
      | Elapsed =>
          r <- send socket PingFrame ;;
          match r with Ok _ => forward socket polls pos | Err _ => Ret tt end
      | NotReady => forward socket polls pos
      end
  end.

(** [handle_socket]; [redis_url] is the environment variable [REDIS_URL]. *)
Definition handle_socket `{!RedisUrl} (redis_url : option string) (socket : N) (polls : nat)
  : prog unit :=
  if negb (client_open (unwrap_or redis_url "redis://localhost:6379")) then Ret tt else
  r <- get_async_pubsub ;;
  match r with
  | Err _ => Ret tt
  | Ok _ =>
      r <- subscribe ;;
      match r with
      | Err _ => Ret tt
      | Ok pos => forward socket polls pos
      end
  end.

(** [ws_handler]: the connection is upgraded, and a task serves it. *)
Definition ws_handler `{!RedisUrl} (redis_url : option string) (socket : N) (polls : nat)
  : prog (Z * option Value) :=
  Spawn (handle_socket redis_url socket polls) (Ret (101, None)).
End WebSocket.

(** ** What a client sees *)

Section feed.
Import WebSocket.

(** The payloads published on a channel, and the texts of some frames. *)
Definition payloads (channel : string) (bus : list (string * string)) : list string :=
  snd <$> filter (fun m => m.1 = channel) bus.
Definition texts (frames : list Frame) : list string :=
  omap (fun f => match f with TextFrame s => Some s | PingFrame => None end) frames.
Definition seen (socket : N) (w : World) : list string :=
  texts (unwrap_or (w_clients w !! socket) []).

(** A run among others: before its [n]-th step the others act by [others n]. *)
Fixpoint exec_among {A : Type} (p : prog A) (env : nat -> Env) (others : nat -> World -> World)
  (n : nat) (w : World) : outcome A * World :=
  match p with
  | Ret a => (Returned a, w)
  | Panic => (Panicked, w)
  | Step f k => let '(b, w') := f (env n) (others n w) in exec_among (k b) env others (S n) w'
  | Spawn _ k => exec_among k env others n w
  end.

(** The others publish, and leave the socket to its task. *)
Definition considerate (socket : N) (others : nat -> World -> World) : Prop := forall n w,
  w_bus w `prefix_of` w_bus (others n w) /\ w_clients (others n w) !! socket = w_clients w !! socket.

Lemma payloads_app c l1 l2 : payloads c (l1 ++ l2) = payloads c l1 ++ payloads c l2.
Proof. unfold payloads. by rewrite filter_app, fmap_app. Qed.

Lemma next_message_Some c pos bus payload pos' : next_message c pos bus = Some (payload, pos') ->
  (pos' <= length bus)%nat /\ (pos < pos')%nat /\
  payloads c (take (pos' - pos) (drop pos bus)) = [payload].
Proof.
  revert pos pos'. induction bus as [|[c' s] bus IH]; intros [|pos] pos'; simpl; try done.
  - destruct (bool_decide_reflect (c' = c)) as [->|Hne].
    + intros [= <- <-]. split; [lia|]. split; [lia|]. simpl. rewrite take_0. unfold payloads.
      by rewrite filter_cons_True.
    + intros ([s1 p1] & Hn & [= -> ->])%fmap_Some. simpl in *.
      apply IH in Hn as (? & ? & Hp). split; [lia|]. split; [lia|]. rewrite Nat.sub_0_r in *.
      rewrite drop_0 in Hp. destruct p1; [lia|]. simpl in *. unfold payloads in *.
      rewrite filter_cons_False by done. exact Hp.
  - intros ([s1 p1] & Hn & [= -> ->])%fmap_Some. simpl in *.
    apply IH in Hn as (? & ? & Hp). split; [lia|]. split; [lia|done].
Qed.

(** The task has forwarded the jobs channel from position [p0] to [pos]. *)
Definition caught_up (socket : N) (base : list string) (p0 pos : nat) (w : World) : Prop :=
  (p0 <= pos <= length (w_bus w))%nat /\
  seen socket w = base ++ payloads RedisClient.JOBS_CHANNEL (take (pos - p0) (drop p0 (w_bus w))).

Lemma caught_up_others socket base p0 pos others n w :
  considerate socket others -> caught_up socket base p0 pos w ->
  caught_up socket base p0 pos (others n w).
Proof.
  intros Ho [Hpos Hseen]. destruct (Ho n w) as [[l Hl] Hc]. unfold caught_up, seen in *.
  rewrite Hl, Hc, length_app, drop_app_le, take_app_le by (rewrite ?length_drop; lia).
  split; [lia|done].
Qed.

Lemma seen_send socket frame w :
  seen socket (w <| w_clients ::= <[socket := unwrap_or (w_clients w !! socket) [] ++ [frame]]> |>) =
  seen socket w ++ texts [frame].
Proof. unfold seen. simpl. rewrite lookup_insert_eq. simpl. unfold texts. by rewrite omap_app. Qed.

(** One message further. *)
Lemma caught_up_received socket base p0 pos pos' payload w w' :
  caught_up socket base p0 pos w ->
  next_message RedisClient.JOBS_CHANNEL pos (w_bus w) = Some (payload, pos') ->
  w_bus w `prefix_of` w_bus w' -> seen socket w' = seen socket w ++ [payload] ->
  caught_up socket base p0 pos' w'.
Proof.
  intros [Hpos Hseen] (Hle & Hlt & Hp)%next_message_Some [l Hl] Hs. unfold caught_up.
  rewrite Hl, length_app, drop_app_le, take_app_le by (rewrite ?length_drop; lia).
  split; [lia|]. rewrite Hs, Hseen, <- app_assoc. f_equal.
  replace (pos' - p0)%nat with ((pos - p0) + (pos' - pos))%nat by lia.
  rewrite <- (take_take_drop (drop p0 (w_bus w))), payloads_app, drop_drop.
  replace (p0 + (pos - p0))%nat with pos by lia. by rewrite Hp.
Qed.

(** A frame of the keepalive is not a message. *)
Lemma caught_up_ping socket base p0 pos w w' :
  caught_up socket base p0 pos w -> w_bus w' = w_bus w -> seen socket w' = seen socket w ->
  caught_up socket base p0 pos w'.
Proof. unfold caught_up. by intros [? ?] -> ->. Qed.

Lemma forward_caught_up socket env others base p0 : considerate socket others ->
  forall polls pos n w r w', caught_up socket base p0 pos w ->
  exec_among (forward socket polls pos) env others n w = (r, w') ->
  exists pos', caught_up socket base p0 pos' w'.
Proof.
  intros Ho. induction polls as [|polls IH]; intros pos n w r w' Hc; simpl.
  { intros [= _ <-]. eauto. }
  pose proof (caught_up_others _ _ _ _ _ n _ Ho Hc) as Hc1. set (w1 := others n w) in *.
  pose proof (caught_up_others _ _ _ _ _ (S n) _ Ho Hc1) as Hc2.
  assert (w_bus w1 `prefix_of` w_bus (others (S n) w1)) as Hbus by apply (Ho (S n) w1).
  assert (seen socket (others (S n) w1) = seen socket w1) as Hsame
    by (unfold seen; by rewrite (proj2 (Ho (S n) w1))).
  destruct (e_timer (env n)); simpl.
  - set (w2 := others (S n) w1) in *.
    pose proof (seen_send socket PingFrame w2) as Hping. rewrite app_nil_r in Hping.
    destruct (e_fault (env (S n)) 0); [apply IH|intros [= _ <-]; eauto|intros [= _ <-]; exists pos];
      by eapply caught_up_ping.
  - destruct (e_fault (env n) 0); simpl; [|intros [= _ <-]; eauto..].
    destruct (next_message _ pos (w_bus w1)) as [[payload pos']|] eqn:Hn; simpl; [|by apply IH].
    set (w2 := others (S n) w1) in *.
    pose proof (seen_send socket (TextFrame payload) w2) as Hsent. rewrite Hsame in Hsent.
    destruct (e_fault (env (S n)) 0);
      [apply IH|intros [= _ <-]; eauto|intros [= _ <-]; exists pos'];
      by eapply (caught_up_received _ _ _ pos _ _ w1).
Qed.
End feed.

(** C38: what a dashboard sees. Whatever the other tasks publish meanwhile, and
    whenever the connection to Redis or to the client breaks: the texts a client
    is sent are, in order, without gap or duplicate, what was published on the
    jobs channel from the moment of its subscription up to some later moment.
    Nothing of another channel, such as the one of the dead letters, is sent. *)
Theorem feed_is_faithful `{!RedisUrl} (redis_url : option string) (socket : N)
  (polls : nat) (env : nat -> Env) (others : nat -> World -> World) (w w' : World)
  (r : outcome unit) :
  considerate socket others -> w_clients w !! socket = None ->
  exec_among (WebSocket.handle_socket redis_url socket polls) env others 0 w = (r, w') ->
  exists subscribed m, (length (w_bus w) <= subscribed)%nat /\
    seen socket w' = payloads RedisClient.JOBS_CHANNEL (take m (drop subscribed (w_bus w'))).
Proof.
  intros Ho Hnew Hx.
  assert (forall n w1, seen socket (others n w1) = seen socket w1) as Hquiet
    by (intros n w1; unfold seen; by rewrite (proj2 (Ho n w1))).
  assert (seen socket w = []) as Hnone by (unfold seen; by rewrite Hnew).
  assert (forall w1, seen socket w1 = [] -> exists subscribed m, (length (w_bus w) <= subscribed)%nat /\
    seen socket w1 = payloads RedisClient.JOBS_CHANNEL (take m (drop subscribed (w_bus w1)))) as Hempty
    by (intros w1 ->; by exists (length (w_bus w)), 0%nat).
  unfold WebSocket.handle_socket in Hx. destruct (client_open _); simpl in Hx;
    [|simplify_eq; by apply Hempty].
  destruct (e_fault (env 0%nat) 0); simpl in Hx; [|simplify_eq; apply Hempty; by rewrite Hquiet..].
  destruct (e_fault (env 1%nat) 0); simpl in Hx;
    [|simplify_eq; apply Hempty; by rewrite !Hquiet..].
  set (w2 := others 1%nat (others 0%nat w)) in *.
  eapply (forward_caught_up socket env others [] (length (w_bus w2))) in Hx; [|done|].
  - destruct Hx as (pos & [Hpos Hs]). exists (length (w_bus w2)), (pos - length (w_bus w2))%nat.
    split; [|done]. destruct (Ho 0%nat w) as [[l1 Hl1] _], (Ho 1%nat (others 0%nat w)) as [[l2 Hl2] _].
    unfold w2. rewrite Hl2, Hl1, !length_app. lia.
  - split; [lia|]. unfold w2. by rewrite !Hquiet, Hnone, Nat.sub_diag, take_0.
Qed.

(** A dashboard of three polls, while a completion and a dead letter are
    published: it is sent the first one. *)
Section feed_example.
Import Toy.
Lemma feed_is_faithful_witness :
  let others n w := if bool_decide (n = 2%nat)
    then w <| w_bus ::= fun l => l ++ [(RedisClient.DLQ_CHANNEL, "dead"); (RedisClient.JOBS_CHANNEL, "done")] |>
    else w in
  let w := Fixture.world Fixture.two_queued in
  let x := exec_among (WebSocket.handle_socket None 7 3)
    (Fixture.env_at Fixture.noon) others 0 w in
  seen 7 x.2 = ["done"] /\ exists subscribed m, (0 <= subscribed)%nat /\
    seen 7 x.2 = payloads RedisClient.JOBS_CHANNEL (take m (drop subscribed (w_bus x.2))).
Proof.
  intros others w x. split; [vm_compute; reflexivity|].
  apply (feed_is_faithful None 7 3 (Fixture.env_at Fixture.noon) others w x.2 x.1).
  - intros n w0. unfold others. destruct (bool_decide (n = 2%nat)); simpl; split; try reflexivity.
    by eexists.
  - reflexivity.
  - apply surjective_pairing.
Defined.
End feed_example.
