(* ===== verification/ProjectService.v ===== *)
(** * Project service ([crates/services/src/project_service.rs])

    Listing, and the creation of a project: one transaction that finds or
    creates the organization by its slug, inserts the project and makes its
    creator an admin. *)
From S2P Require Import Prelude Enums Entities RetryPolicy Db Fixture Steps Repositories.
From S2P Require Import JobService.

Module ProjectService.

(** [ProjectService::list_for_user] *)
Definition list_for_user (user_id : Uuid) : prog (result (list Project.t) sqlx_error) :=
  ProjectRepository.list_by_user user_id.

Definition org_by_slug (slug : string) (d : Db) : option Organization.t :=
  head (select (fun o => bool_decide (Organization.slug o = slug)) (organizations d)).

(** [INSERT INTO organizations ... ON CONFLICT (slug) DO UPDATE SET name =
    EXCLUDED.name RETURNING id] *)
Definition upsert_org_stmt (name slug : string) : stmt Uuid := fun c d =>
  match org_by_slug slug d with
  | Some o =>
      Ok (Organization.id o,
          d <| organizations ::= <[Organization.id o := o <| Organization.name := name |>]> |>)
  | None =>
      if has (organizations d) (fresh c 0) then Err (UniqueViolation "organizations_pkey")
      else Ok (fresh c 0, d <| organizations ::=
             <[fresh c 0 := Organization.Mk (fresh c 0) name slug (now c)]> |>)
  end.

(** [INSERT INTO project_members ... 'admin' ON CONFLICT (project_id, user_id)
    DO NOTHING] *)
Definition add_admin_stmt (project_id user_id : Uuid) : stmt Z := fun c d =>
  if exists_row (fun m => bool_decide (ProjectMember.project_id m = project_id)
       && bool_decide (ProjectMember.user_id m = user_id)) (project_members d)
  then Ok (0, d)
  else match insert_row project_members ProjectMember.id project_members_constraints
               (ProjectMember.Mk (fresh c 0) project_id user_id UserRole.Admin (now c)) c d with
       | Ok (_, d') => Ok (1, d')
       | Err v => Err v
       end.

(** The transaction; every [?] drops it uncommitted. *)
Definition create_tx (user_id : Uuid) (organization_name organization_slug name slug : string)
  (description : option string) : txm (tx_exit (result Project.t sqlx_error)) :=
  organization_id <-tx tx_sql (upsert_org_stmt organization_name organization_slug) ;;
  match organization_id with
  | Err e => tx_ret (Rollback (Err e))
  | Ok organization_id =>
      project <-tx tx_sql
        (ProjectRepository.insert_project_stmt organization_id name slug description) ;;
      match project with
      | Err e => tx_ret (Rollback (Err e))
      | Ok project =>
          member <-tx tx_sql (add_admin_stmt (Project.id project) user_id) ;;
          match member with
          | Err e => tx_ret (Rollback (Err e))
          | Ok _ => tx_ret (Commit (fun r => match r with Ok _ => Ok project | Err e => Err e end))
          end
      end
  end.

(** [ProjectService::create_project] *)
Definition create_project (user_id : Uuid)
  (organization_name organization_slug name slug : string) (description : option string)
  : prog (result Project.t sqlx_error) :=
  r <-? transaction (create_tx user_id organization_name organization_slug name slug description)
    via (fun e => e) ;;
  Ret r.
End ProjectService.

(** ** Creation *)

(** Memberships refer to projects that exist. *)
Definition members_have_projects (d : Db) : Prop := forall k m,
  project_members d !! k = Some m -> has (projects d) (ProjectMember.project_id m) = true.

(** The store after a creation, where [o] is the organization's row. *)
Definition project_created (o : Organization.t) (p : Project.t) (m : ProjectMember.t) (d : Db) : Db :=
  d <| organizations ::= <[Organization.id o := o]> |>
    <| projects ::= <[Project.id p := p]> |>
    <| project_members ::= <[ProjectMember.id m := m]> |>.

Section creation.
Import ProjectService.

Lemma upsert_org_Ok name slug c d u d' : upsert_org_stmt name slug c d = Ok (u, d') ->
  exists o, Organization.id o = u /\ Organization.name o = name /\
    d' = d <| organizations ::= <[u := o]> |> /\
    match org_by_slug slug d with
    | Some o0 => o = o0 <| Organization.name := name |>
    | None => organizations d !! u = None /\ Organization.slug o = slug
    end.
Proof.
  unfold upsert_org_stmt. destruct (org_by_slug slug d) as [o|].
  - intros [= <- <-]. by exists (o <| Organization.name := name |>).
  - destruct (has _ _) eqn:Hh; [done|]. intros [= <- <-]. apply has_false in Hh.
    exists (Organization.Mk (fresh c 0%nat) name slug (now c)). by split_and!.
Qed.

(** The rows a creation writes, for the organization found or made. *)
Definition rows_for (u : Uuid) (oname oslug name slug : string) (o : Organization.t)
  (p : Project.t) (m : ProjectMember.t) (d : Db) : Prop :=
  Organization.name o = oname /\
  match org_by_slug oslug d with
  | Some o0 => o = o0 <| Organization.name := oname |>
  | None => organizations d !! Organization.id o = None /\ Organization.slug o = oslug
  end /\
  projects d !! Project.id p = None /\ Project.organization_id p = Organization.id o /\
  Project.name p = name /\ Project.slug p = slug /\
  project_members d !! ProjectMember.id m = None /\
  ProjectMember.project_id m = Project.id p /\ ProjectMember.user_id m = u /\
  ProjectMember.role m = UserRole.Admin.

Lemma create_tx_cases u oname oslug name slug desc e d r tx : members_have_projects d ->
  create_tx u oname oslug name slug desc e (MkTx d d false 1) = (r, tx) ->
  (exists err, r = Some (Rollback (Err err))) \/
  exists o p m, r = Some (Commit (fun r => match r with Ok _ => Ok p | Err e => Err e end)) /\
    tx_aborted tx = false /\ rows_for u oname oslug name slug o p m d /\
    tx_db tx = project_created o p m d.
Proof.
  intros Hmem. unfold create_tx, tx_bind.
  destruct (tx_sql_some (upsert_org_stmt oname oslug) e (MkTx d d false 1)) as (r1 & t1 & E1 & _ & Hok1).
  rewrite E1. destruct r1 as [oid|err]; [|intros [= <- _]; eauto].
  apply tx_sql_ok in E1 as (? & Heq1 & H1 & _ & _); [|by apply Hok1]. injection Heq1 as <-.
  apply upsert_org_Ok in H1 as (o & Hoid & Hname & Hd1 & Hslug). simpl tx_db in *.
  destruct (tx_sql_some (ProjectRepository.insert_project_stmt oid name slug desc) e t1)
    as (r2 & t2 & E2 & _ & Hok2).
  rewrite E2. destruct r2 as [p|err]; [|intros [= <- _]; eauto].
  apply tx_sql_ok in E2 as (? & Heq2 & H2 & _ & _); [|by apply Hok2]. injection Heq2 as <-.
  unfold ProjectRepository.insert_project_stmt, with_ctx in H2.
  apply insert_row_Ok in H2 as (-> & Hp & Hd2). apply Forall_cons in Hp as [Hp _].
  apply negb_true_iff, has_false in Hp. rewrite Hd1 in Hp. simpl in Hp.
  match goal with |- context [tx_sql ?s e t2] =>
    destruct (tx_sql_some s e t2) as (r3 & t3 & E3 & _ & Hok3) end.
  rewrite E3. destruct r3 as [n|err]; [|intros [= <- _]; eauto]. intros [= <- <-]. right.
  pose proof (proj1 Hok3 eq_refl) as Ha.
  apply tx_sql_ok in E3 as (? & ? & H3 & _ & _); [|done]. unfold add_admin_stmt in H3.
  destruct (exists_row _ _) eqn:Ex.
  - exfalso. revert Ex. apply not_true_iff_false, exists_row_false. rewrite Hd2, Hd1. simpl.
    intros k m Hm. apply Hmem, has_true in Hm. apply andb_false_iff. left. apply bool_decide_eq_false.
    intros Heq. rewrite Heq in Hm. simpl in Hm. rewrite Hp in Hm. by destruct Hm.
  - destruct (insert_row _ _ _ _ _ _) as [[m d3]|v] eqn:Em; [|done]. simplify_eq.
    apply insert_row_Ok in Em as (-> & Hm & Hd3). apply Forall_cons in Hm as [Hm _].
    apply negb_true_iff, has_false in Hm. rewrite Hd2, Hd1 in Hm. simpl in Hm.
    eexists o, _, _. split_and!; [done|done| |rewrite Hd3, Hd2, Hd1; reflexivity].
    unfold rows_for. simpl. by split_and!.
Qed.
End creation.

(** C36: creating a project is all or nothing: the store is unchanged, or it has
    the organization of the slug under the given name, a new project in it, and
    the creator as its admin, and the creator's role in every other project and
    every other user's role are what they were. [Ok] is only answered in the
    second case. *)
Theorem create_project_atomic (user_id : Uuid) (oname oslug name slug : string)
  (desc : option string) (env : nat -> Env) (w w' : World)
  (r : outcome (result Project.t sqlx_error)) :
  members_have_projects (w_db w) ->
  run (ProjectService.create_project user_id oname oslug name slug desc) env w = (r, w') ->
  (w' = w /\ forall p, r <> Returned (Ok p)) \/
  exists o p m, rows_for user_id oname oslug name slug o p m (w_db w) /\
    w' = w <| w_db ::= project_created o p m |> /\
    (r = Returned (Ok p) \/ r = Returned (Err Io)) /\
    ProjectRepository.role_of (w_db w') (Project.id p) user_id = Some UserRole.Admin.
Proof.
  intros Hmem (n' & ts & Hx)%run_exec. unfold ProjectService.create_project in Hx.
  rewrite exec_transaction in Hx.
  destruct (e_fault (env 0%nat) 0%nat); cycle 1; [simplify_eq/=; by left..|].
  destruct (ProjectService.create_tx _ _ _ _ _ _ _ _) as [x tx] eqn:Et.
  apply create_tx_cases in Et as [[err ->]|(o & p & m & -> & Ha & Hrows & Hd)]; [| |done].
  { simplify_eq/=. left. by rewrite world_db_id. }
  destruct (finish_tx _ _ _ tx) as [a d] eqn:Ef. unfold finish_tx in Ef. rewrite Ha in Ef.
  assert (ProjectRepository.role_of (tx_db tx) (Project.id p) user_id = Some UserRole.Admin) as Hrole.
  { destruct Hrows as (_ & _ & Hp & _ & _ & _ & Hm & Hmp & Hmu & Hmr). rewrite Hd.
    unfold ProjectRepository.role_of. destruct (select _ _) as [|m1 l] eqn:El.
    - exfalso. cut (m ∈ @nil ProjectMember.t); [set_solver|]. rewrite <- El. apply elem_of_select.
      rewrite Hmp, Hmu, !bool_decide_eq_true_2 by done. split; [done|].
      exists (ProjectMember.id m). apply lookup_insert_eq.
    - assert (m1 ∈ m1 :: l) as Hin by set_solver. rewrite <- El in Hin.
      apply elem_of_select in Hin as [Hsel [k Hk]]. bool_to_prop. simpl in Hk.
      apply lookup_insert_Some in Hk as [[_ <-]|[_ Hk]]; simpl; [by rewrite Hmr|].
      apply Hmem, has_true in Hk as [? Hk].
      match goal with H : ProjectMember.project_id m1 = _ |- _ => rewrite H in Hk end.
      simpl in Hk. congruence. }
  destruct (e_fault (env 0%nat) (tx_n tx)); simplify_eq/=.
  - right. exists o, p, m. rewrite Hd in *. split_and!; [done|done|by left|done].
  - left. by rewrite world_db_id.
  - right. exists o, p, m. rewrite Hd in *. split_and!; [done|done|by right|done].
Qed.

(** A stranger to the fixture's organization creates a project under its slug. *)
Definition takeover : outcome (result Project.t sqlx_error) * World :=
  run (ProjectService.create_project Fixture.stranger "Renamed" "acme" "Mine" "mine" None)
    (Fixture.env_at Fixture.noon) (Fixture.world Fixture.two_queued).

Lemma fixture_members_have_projects js : members_have_projects (Fixture.with_jobs js).
Proof.
  intros k m. apply (map_Forall_lookup_1 (fun _ m => has (projects (Fixture.with_jobs js))
    (ProjectMember.project_id m) = true) (project_members (Fixture.with_jobs js))).
  compute_decide.
Qed.

Lemma create_project_atomic_witness :
  exists p, ProjectRepository.role_of (w_db takeover.2) (Project.id p) Fixture.stranger
    = Some UserRole.Admin.
Proof.
  destruct (create_project_atomic Fixture.stranger "Renamed" "acme" "Mine" "mine" None
    (Fixture.env_at Fixture.noon) (Fixture.world Fixture.two_queued) _ _
    (fixture_members_have_projects _) (surjective_pairing takeover))
    as [[H _]|(o & p & m & _ & _ & _ & Hrole)].
  - exfalso. apply (f_equal (fun w => size (projects (w_db w)))) in H. vm_compute in H. discriminate H.
  - exists p. exact Hrole.
Defined.

(** The upsert by slug lets any user rename any organization: whenever a
    creation succeeds under the slug of an existing organization, whoever asks,
    that organization carries the name of the request afterwards. *)
Theorem creation_renames_organization (user_id : Uuid) (oname oslug name slug : string)
  (desc : option string) (env : nat -> Env) (w w' : World) (p : Project.t) (o0 : Organization.t) :
  members_have_projects (w_db w) ->
  ProjectService.org_by_slug oslug (w_db w) = Some o0 ->
  run (ProjectService.create_project user_id oname oslug name slug desc) env w
    = (Returned (Ok p), w') ->
  exists o, organizations (w_db w') !! Organization.id o0 = Some o /\ Organization.name o = oname.
Proof.
  intros Hmem Ho (n' & ts & Hx)%run_exec. unfold ProjectService.create_project in Hx.
  rewrite exec_transaction in Hx.
  destruct (e_fault (env 0%nat) 0%nat); [|done..].
  destruct (ProjectService.create_tx _ _ _ _ _ _ _ _) as [x tx] eqn:Et.
  apply create_tx_cases in Et as [[err ->]|(o & p' & m & -> & Ha & Hrows & Hd)]; [done| |done].
  destruct (finish_tx _ _ _ tx) as [a d] eqn:Ef. unfold finish_tx in Ef. rewrite Ha in Ef.
  destruct Hrows as (Hn & Ho' & _). rewrite Ho in Ho'. subst o.
  destruct (e_fault (env 0%nat) (tx_n tx)); simplify_eq/=.
  rewrite Hd. eexists. split; [apply lookup_insert_eq|done].
Qed.

Lemma creation_renames_organization_witness :
  exists o, organizations (w_db takeover.2) !! Fixture.org = Some o /\ Organization.name o = "Renamed"%string.
Proof.
  destruct takeover as [r w'] eqn:E. destruct r as [[p|e]|];
    [|exfalso; apply (f_equal fst) in E; vm_compute in E; discriminate E..].
  apply (creation_renames_organization Fixture.stranger "Renamed" "acme" "Mine" "mine" None
    (Fixture.env_at Fixture.noon) (Fixture.world Fixture.two_queued) w' p
    (Organization.Mk Fixture.org "Acme" "acme" 0)).
  - apply fixture_members_have_projects.
  - vm_compute. reflexivity.
  - exact E.
Defined.
