(* ===== verification/WorkflowService.v ===== *)
(** * Workflow service ([crates/services/src/workflow_service.rs])

    Job dependencies: their creation, the release of dependents when a job
    completes, and the report of upstream jobs to compensate when one fails. *)
From S2P Require Import Prelude Enums Entities RetryPolicy Db Fixture Steps.

Module WorkflowService.

(** [SELECT dependent_job_id FROM job_dependencies WHERE dependency_job_id = $1] *)
Definition dependents_of (job_id : Uuid) (d : Db) : list Uuid :=
  JobDependency.dependent_job_id <$>
  select (fun x => bool_decide (JobDependency.dependency_job_id x = job_id)) (job_dependencies d).

(** The jobs the named job depends on: [job_dependencies] joined with [jobs]. *)
Definition dependency_jobs (job_id : Uuid) (d : Db) : list Job.t :=
  omap (fun x => jobs d !! JobDependency.dependency_job_id x)
    (select (fun x => bool_decide (JobDependency.dependent_job_id x = job_id)) (job_dependencies d)).

(** [SELECT COUNT( * ) ... WHERE jd.dependent_job_id = $1 AND j.status != 'completed'] *)
Definition unsatisfied (job_id : Uuid) (d : Db) : Z :=
  sql_count (fun j => negb (bool_decide (Job.status j = JobStatus.Completed)))
    (dependency_jobs job_id d).

(** [UPDATE jobs SET status = 'queued' ... WHERE id = $1 AND status = 'pending'] *)
Definition release_stmt (job_id : Uuid) : stmt Z := fun c d =>
  match jobs d !! job_id with
  | Some j =>
      if bool_decide (Job.status j = JobStatus.Pending) then
        update_row jobs job_id (fun j =>
          j <| Job.status := JobStatus.Queued |> <| Job.updated_at := now c |>) c d
      else Ok (0, d)
  | None => Ok (0, d)
  end.

(** The loop of [on_job_completed]; [?] leaves it. *)
Fixpoint release_each (job_ids : list Uuid) : prog (result unit sqlx_error) :=
  match job_ids with
  | [] => Ret (Ok tt)
  | job_id :: rest =>
      n <-? sql (query (unsatisfied job_id)) via (fun e => e) ;;
      if n =? 0 then
        r <-? sql (release_stmt job_id) via (fun e => e) ;;
        release_each rest
      else release_each rest
  end.

(** [WorkflowService::on_job_completed] *)
Definition on_job_completed (completed_job_id : Uuid) : prog (result unit sqlx_error) :=
  dependents <-? sql (query (dependents_of completed_job_id)) via (fun e => e) ;;
  release_each dependents.

(** [WorkflowService::on_job_failed]: the upstream jobs it warns about. *)
Definition compensations (failed_job_id : Uuid) (d : Db) : list (Uuid * string) :=
  omap (fun x =>
      match jobs d !! JobDependency.dependency_job_id x with
      | Some j => if bool_decide (Job.status j = JobStatus.Completed)
                  then Some (JobDependency.dependency_job_id x, Job.name j) else None
      | None => None
      end)
    (select (fun x => bool_decide (JobDependency.dependent_job_id x = failed_job_id))
       (job_dependencies d)).
Definition on_job_failed (failed_job_id : Uuid) : prog (result unit sqlx_error) :=
  upstream <-? sql (query (compensations failed_job_id)) via (fun e => e) ;;
  Ret (Ok tt).

(** [INSERT INTO job_dependencies ... ON CONFLICT DO NOTHING]: a unique
    violation inserts nothing, a missing job is an error. *)
Definition create_dependency_stmt (dependent_job_id dependency_job_id : Uuid) : stmt Z := fun c d =>
  let x := JobDependency.Mk (fresh c 0) dependent_job_id dependency_job_id in
  match first_violation (job_dependencies_constraints d x) with
  | None => Ok (1, d <| job_dependencies ::= <[JobDependency.id x := x]> |>)
  | Some (UniqueViolation _) => Ok (0, d)
  | Some v => Err v
  end.

(** [WorkflowService::create_dependency] *)
Definition create_dependency (dependent_job_id dependency_job_id : Uuid)
  : prog (result unit sqlx_error) :=
  r <-? sql (create_dependency_stmt dependent_job_id dependency_job_id) via (fun e => e) ;;
  Ret (Ok tt).
End WorkflowService.

(** ** The release of dependents *)

Section release.
Import WorkflowService.

(** Every dependency of [k] that is in the store has completed. *)
Definition ready_to_run (k : Uuid) (d : Db) : Prop :=
  forall i x j, job_dependencies d !! i = Some x -> JobDependency.dependent_job_id x = k ->
    jobs d !! JobDependency.dependency_job_id x = Some j -> Job.status j = JobStatus.Completed.

Lemma unsatisfied_zero k d : unsatisfied k d = 0 <-> ready_to_run k d.
Proof.
  unfold unsatisfied, sql_count, ready_to_run, dependency_jobs. split.
  - intros Hz i x j Hx Hk Hj.
    destruct (decide (Job.status j = JobStatus.Completed)) as [|Hne]; [done|]. exfalso.
    assert (j ∈ List.filter (fun j => negb (bool_decide (Job.status j = JobStatus.Completed)))
      (omap (fun x => jobs d !! JobDependency.dependency_job_id x)
        (select (fun x => bool_decide (JobDependency.dependent_job_id x = k)) (job_dependencies d))))
      as Hin.
    { apply list_elem_of_In, filter_In. rewrite <- list_elem_of_In, negb_true_iff, bool_decide_eq_false.
      split; [|done]. apply list_elem_of_omap. exists x. split; [|done]. apply elem_of_select.
      rewrite bool_decide_eq_true. eauto. }
    destruct (List.filter _ _); [set_solver|simpl in Hz; lia].
  - intros Hall. destruct (List.filter _ _) as [|j l] eqn:E; [done|]. exfalso.
    assert (j ∈ j :: l) as Hin by set_solver. rewrite <- E in Hin.
    apply list_elem_of_In, filter_In in Hin as [Hin Hp]. apply list_elem_of_In in Hin.
    apply list_elem_of_omap in Hin as (x & Hx & Hj). apply elem_of_select in Hx as [Hk [i Hi]].
    bool_to_prop. by eapply Hp, Hall.
Qed.

(** What the loop may do to the store: queue pending jobs that are ready. *)
Definition released (d d' : Db) : Prop :=
  d' = d <| jobs := jobs d' |> /\
  forall k, jobs d' !! k = jobs d !! k \/
    exists j t, jobs d !! k = Some j /\ Job.status j = JobStatus.Pending /\ ready_to_run k d /\
      jobs d' !! k = Some (j <| Job.status := JobStatus.Queued |> <| Job.updated_at := t |>).

(** Releasing a pending job leaves the others as ready as they were. *)
Lemma ready_to_run_release d k j t k' :
  jobs d !! k = Some j -> Job.status j = JobStatus.Pending ->
  ready_to_run k' (d <| jobs ::= <[k := j <| Job.status := JobStatus.Queued |>
                                          <| Job.updated_at := t |>]> |>) <-> ready_to_run k' d.
Proof.
  intros Hj Hp. unfold ready_to_run. simpl. split; intros Hr i x j' Hx Hk Hj'.
  - destruct (decide (JobDependency.dependency_job_id x = k)) as [Heq|Hne].
    + rewrite Heq, Hj in Hj'. injection Hj' as <-. exfalso.
      specialize (Hr i x (j <| Job.status := JobStatus.Queued |> <| Job.updated_at := t |>) Hx Hk).
      rewrite Heq, lookup_insert_eq in Hr. by specialize (Hr eq_refl).
    + apply (Hr i x j' Hx Hk). by rewrite lookup_insert_ne.
  - apply lookup_insert_Some in Hj' as [[Heq <-]|[_ Hj']]; [|by eapply Hr].
    exfalso. specialize (Hr i x j Hx Hk). rewrite <- Heq in Hr. specialize (Hr Hj). congruence.
Qed.

Lemma release_stmt_eq k c d : release_stmt k c d =
  match jobs d !! k with
  | Some j => if bool_decide (Job.status j = JobStatus.Pending)
              then Ok (1, d <| jobs ::= <[k := j <| Job.status := JobStatus.Queued |>
                                                   <| Job.updated_at := now c |>]> |>)
              else Ok (0, d)
  | None => Ok (0, d)
  end.
Proof.
  unfold release_stmt, update_row. destruct (jobs d !! k) as [j|]; [|done]. by destruct (bool_decide _).
Qed.

Lemma released_refl d : released d d.
Proof. split; [by destruct d|]. by left. Qed.

Lemma released_one d k c n d1 d2 : ready_to_run k d -> release_stmt k c d = Ok (n, d1) ->
  released d1 d2 -> released d d2.
Proof.
  intros Hr. rewrite release_stmt_eq. destruct (jobs d !! k) as [j|] eqn:Hj; [|intros [= _ <-]; done].
  destruct (bool_decide (Job.status j = JobStatus.Pending)) eqn:Hp; intros [= _ <-]; [|done].
  apply bool_decide_eq_true in Hp. intros [Hd2 Hall]. split; [by rewrite Hd2|].
  intros k'. destruct (decide (k' = k)) as [->|Hne].
  - right. destruct (Hall k) as [Hk|(j1 & t & Hj1 & Hp1 & _)].
    + exists j, (now c). split_and!; [done..|]. rewrite Hk. apply lookup_insert_eq.
    + simpl in Hj1. rewrite lookup_insert_eq in Hj1. by simplify_eq.
  - destruct (Hall k') as [Hk|(j1 & t & Hj1 & Hp1 & Hr1 & Hk)].
    + left. rewrite Hk. simpl. by rewrite lookup_insert_ne.
    + right. exists j1, t. simpl in Hj1. rewrite lookup_insert_ne in Hj1 by done.
      split_and!; [done..| |done]. by apply ready_to_run_release in Hr1.
Qed.

Lemma release_each_cons k ks : release_each (k :: ks) =
  (n <-? sql (query (unsatisfied k)) via (fun e => e) ;;
   if n =? 0 then r <-? sql (release_stmt k) via (fun e => e) ;; release_each ks
   else release_each ks).
Proof. done. Qed.

Lemma exec_release_each ks env n w r w' n' ts :
  exec (release_each ks) env n w = (r, w', n', ts) ->
  released (w_db w) (w_db w').
Proof.
  revert n w. induction ks as [|k ks IH]; intros n w Hx.
  { simplify_eq/=. apply released_refl. }
  rewrite release_each_cons in Hx.
  exec_read Hx; [|simplify_eq/=; apply released_refl].
  destruct (unsatisfied k (w_db w) =? 0) eqn:Hz; [|by eapply IH].
  apply Z.eqb_eq, unsatisfied_zero in Hz.
  match type of Hx with exec (bind (sql ?s) ?k) _ ?m _ = _ =>
    destruct (exec_sql s k env m w) as (r1 & w1 & Hs & Ho) end.
  rewrite Hs in Hx. clear Hs.
  destruct Ho as [|v err _|a d Hd|a d Hd]; [simplify_eq/=; apply released_refl..| |].
  - apply IH in Hx. by eapply released_one.
  - simplify_eq/=. eapply released_one; [done..|]. apply released_refl.
Qed.

Lemma on_job_completed_released k env n w r w' n' ts :
  exec (on_job_completed k) env n w = (r, w', n', ts) -> released (w_db w) (w_db w').
Proof.
  unfold on_job_completed. intros Hx. exec_read Hx; [by eapply exec_release_each|].
  simplify_eq/=. apply released_refl.
Qed.
End release.

(** [on_job_completed] is safe: whatever fails, it changes nothing but the
    status and update time of pending jobs, from pending to queued, and only of
    jobs all of whose dependencies have completed. *)
Theorem release_only_ready_jobs (completed_job_id : Uuid) (env : nat -> Env) (w w' : World)
  (r : outcome (result unit sqlx_error)) :
  run (WorkflowService.on_job_completed completed_job_id) env w = (r, w') ->
  w_db w' = (w_db w) <| jobs := jobs (w_db w') |> /\
  forall k, jobs (w_db w') !! k = jobs (w_db w) !! k \/
    exists j t, jobs (w_db w) !! k = Some j /\ Job.status j = JobStatus.Pending /\
      (forall i x j', job_dependencies (w_db w) !! i = Some x ->
         JobDependency.dependent_job_id x = k ->
         jobs (w_db w) !! JobDependency.dependency_job_id x = Some j' ->
         Job.status j' = JobStatus.Completed) /\
      jobs (w_db w') !! k = Some (j <| Job.status := JobStatus.Queued |> <| Job.updated_at := t |>).
Proof. intros (n' & ts & Hx)%run_exec. by apply on_job_completed_released in Hx. Qed.

(** Job 22 waits for 20 and 21; 24 waits for 20 only; 20 has completed. *)
Definition workflow_db (deps : list JobDependency.t) : Db :=
  (Fixture.with_jobs [ Fixture.job 20 JobStatus.Completed JobPriority.Normal 0;
                       Fixture.job 21 JobStatus.Running JobPriority.Normal 0;
                       Fixture.job 22 JobStatus.Pending JobPriority.Normal 0;
                       Fixture.job 24 JobStatus.Pending JobPriority.Normal 0 ])
    <| job_dependencies := list_to_map ((fun x => (JobDependency.id x, x)) <$> deps) |>.
Definition dag : Db := workflow_db [ JobDependency.Mk 70 22 20; JobDependency.Mk 71 22 21;
                                     JobDependency.Mk 72 24 20 ].

Lemma release_only_ready_jobs_witness :
  let w' := (run (WorkflowService.on_job_completed 20) (Fixture.env_at Fixture.noon)
    (Fixture.world dag)).2 in
  jobs (w_db w') !! 22%N = jobs dag !! 22%N.
Proof.
  intros w'.
  destruct (release_only_ready_jobs 20 (Fixture.env_at Fixture.noon) (Fixture.world dag) w'
    (run (WorkflowService.on_job_completed 20) (Fixture.env_at Fixture.noon) (Fixture.world dag)).1
    (surjective_pairing _)) as [_ Hall].
  destruct (Hall 22%N) as [H|(j & t & _ & _ & Hready & _)]; [exact H|exfalso].
  specialize (Hready 71%N (JobDependency.Mk 71 22 21) (Fixture.job 21 JobStatus.Running JobPriority.Normal 0)).
  discriminate Hready; [vm_compute; reflexivity|reflexivity|vm_compute; reflexivity].
Defined.

(** ** Release, without faults *)

Section release_live.
Import WorkflowService.

Lemma exec_release_each_quiet ks env n w k j : quiet env -> k ∈ ks ->
  jobs (w_db w) !! k = Some j -> Job.status j = JobStatus.Pending -> ready_to_run k (w_db w) ->
  exists w' n' t, exec (release_each ks) env n w = (Returned (Ok tt), w', n', []) /\
    jobs (w_db w') !! k = Some (j <| Job.status := JobStatus.Queued |> <| Job.updated_at := t |>).
Proof.
  intros Hq. revert n w. induction ks as [|k0 ks IH]; intros n w Hin Hj Hp Hr; [set_solver|].
  rewrite release_each_cons, exec_query_quiet by done.
  assert (forall ks n w, exists w' n', exec (release_each ks) env n w = (Returned (Ok tt), w', n', []))
    as Htotal.
  { clear -Hq. induction ks as [|k0 ks IH]; intros n w; [by eexists _, _|].
    rewrite release_each_cons, exec_query_quiet by done. destruct (unsatisfied k0 (w_db w) =? 0); [|apply IH].
    rewrite exec_sql_quiet, release_stmt_eq by done.
    destruct (jobs (w_db w) !! k0) as [j0|]; [destruct (bool_decide _)|]; apply IH. }
  destruct (decide (k0 = k)) as [->|Hne].
  - assert (unsatisfied k (w_db w) =? 0 = true) as -> by (by apply Z.eqb_eq, unsatisfied_zero).
    rewrite exec_sql_quiet, release_stmt_eq, Hj, bool_decide_eq_true_2 by done.
    match goal with |- context [exec _ env ?m ?w1] => destruct (Htotal ks m w1) as (w' & n' & Hx) end.
    pose proof (exec_release_each _ _ _ _ _ _ _ _ Hx) as [_ Hall].
    exists w', n', (now (ctx_of (env (S n)) 0)). split; [exact Hx|].
    destruct (Hall k) as [->|(j1 & t & Hj1 & Hp1 & _)]; [apply lookup_insert_eq|].
    simpl in Hj1. rewrite lookup_insert_eq in Hj1. by simplify_eq.
  - assert (k ∈ ks) by set_solver.
    destruct (unsatisfied k0 (w_db w) =? 0) eqn:Hz; [|by apply IH].
    rewrite exec_sql_quiet, release_stmt_eq by done.
    destruct (jobs (w_db w) !! k0) as [j0|] eqn:Hj0; [|rewrite world_db_id; by apply IH].
    destruct (bool_decide (Job.status j0 = JobStatus.Pending)) eqn:Hp0;
      [|rewrite world_db_id; by apply IH].
    apply bool_decide_eq_true in Hp0. apply IH; [done| |done|].
    + simpl. by rewrite lookup_insert_ne.
    + by apply ready_to_run_release.
Qed.
End release_live.

(** C35: [on_job_completed] is complete: without connection faults, every
    pending dependent of the completed job whose dependencies have all
    completed is queued. *)
Theorem release_all_ready_jobs (completed_job_id k i : Uuid) (x : JobDependency.t)
  (env : nat -> Env) (w : World) (j : Job.t) :
  quiet env -> job_dependencies (w_db w) !! i = Some x ->
  JobDependency.dependency_job_id x = completed_job_id -> JobDependency.dependent_job_id x = k ->
  jobs (w_db w) !! k = Some j -> Job.status j = JobStatus.Pending -> ready_to_run k (w_db w) ->
  exists w' t, run (WorkflowService.on_job_completed completed_job_id) env w = (Returned (Ok tt), w') /\
    jobs (w_db w') !! k = Some (j <| Job.status := JobStatus.Queued |> <| Job.updated_at := t |>).
Proof.
  intros Hq Hx Hdep Hk Hj Hp Hr. unfold run, WorkflowService.on_job_completed.
  rewrite exec_query_quiet by done. cbv beta iota.
  destruct (exec_release_each_quiet (WorkflowService.dependents_of completed_job_id (w_db w))
    env 1 w k j Hq) as (w' & n' & t & -> & Hw'); [|done..|by exists w', t].
  unfold WorkflowService.dependents_of. apply list_elem_of_fmap. exists x. split; [done|].
  apply elem_of_select. rewrite bool_decide_eq_true. eauto.
Qed.

Lemma release_all_ready_jobs_witness :
  exists w' t, run (WorkflowService.on_job_completed 20) (Fixture.env_at Fixture.noon)
      (Fixture.world dag) = (Returned (Ok tt), w') /\
    jobs (w_db w') !! 24%N = Some ((Fixture.job 24 JobStatus.Pending JobPriority.Normal 0)
      <| Job.status := JobStatus.Queued |> <| Job.updated_at := t |>).
Proof.
  apply (release_all_ready_jobs 20 24 72 (JobDependency.Mk 72 24 20)).
  - intros n i. reflexivity.
  - vm_compute. reflexivity.
  - reflexivity.
  - reflexivity.
  - vm_compute. reflexivity.
  - reflexivity.
  - intros i x j Hi Hk Hj.
    assert (map_Forall (fun _ x => JobDependency.dependent_job_id x = 24%N ->
      JobDependency.dependency_job_id x = 20%N) (job_dependencies dag)) as Hall by compute_decide.
    rewrite (Hall i x Hi Hk) in Hj. vm_compute in Hj. injection Hj as <-. reflexivity.
Defined.

(** [create_dependency] accepts cycles, and a cycle is a deadlock: jobs that
    are not completed and each depend on one of the others are never released,
    however often completions are announced. *)
Theorem cycle_never_released (cycle : gset Uuid) (events : list Uuid) (env : nat -> nat -> Env)
  (w : World) :
  (forall k, k ∈ cycle ->
     (exists j, jobs (w_db w) !! k = Some j /\ Job.status j = JobStatus.Pending) /\
     exists i x, job_dependencies (w_db w) !! i = Some x /\
       JobDependency.dependent_job_id x = k /\ JobDependency.dependency_job_id x ∈ cycle) ->
  let w' := foldl (fun w ev => (run (WorkflowService.on_job_completed ev.2) (env ev.1) w).2) w
              (imap (fun n e => (n, e)) events) in
  forall k, k ∈ cycle -> jobs (w_db w') !! k = jobs (w_db w) !! k.
Proof.
  generalize (imap (fun n e => (n, e)) events). intros evs. revert w.
  induction evs as [|[n e] evs IH]; intros w Hcycle; [done|]. simpl.
  destruct (run (WorkflowService.on_job_completed e) (env n) w) as [r w1] eqn:E. simpl.
  apply run_exec in E as (n' & ts & Hx). apply on_job_completed_released in Hx as [Hd Hall].
  assert (forall k, k ∈ cycle -> jobs (w_db w1) !! k = jobs (w_db w) !! k) as Hsame.
  { intros k Hk. destruct (Hall k) as [?|(j & t & _ & _ & Hr & _)]; [done|]. exfalso.
    destruct (Hcycle k Hk) as (_ & i & x & Hx1 & Hxk & Hxc).
    destruct (Hcycle _ Hxc) as [(j' & Hj' & Hp') _].
    specialize (Hr i x j' Hx1 Hxk Hj'). congruence. }
  intros k Hk. rewrite <- (Hsame k Hk). apply IH; [|done].
  intros k' Hk'. destruct (Hcycle k' Hk') as [(j & Hj & Hp) (i & x & Hx1 & Hx2)]. split.
  - exists j. by rewrite Hsame.
  - exists i, x. by rewrite Hd.
Qed.

(** Two jobs that wait for each other: both dependencies are accepted. *)
Definition deadlock : World :=
  (run (WorkflowService.create_dependency 24 22) (Fixture.env_at (Fixture.noon + 1))
    ((run (WorkflowService.create_dependency 22 24) (fun n => Fixture.env_at Fixture.noon (7 + n))
       (Fixture.world (workflow_db []))).2)).2.

Lemma cycle_never_released_witness :
  size (job_dependencies (w_db deadlock)) = 2%nat /\
  jobs (w_db (foldl (fun w ev => (run (WorkflowService.on_job_completed ev.2)
    (Fixture.env_at Fixture.noon) w).2) deadlock (imap (fun n e => (n, e)) [20; 22; 24]%N))) !! 22%N
    = jobs (w_db deadlock) !! 22%N.
Proof.
  split; [vm_compute; reflexivity|].
  apply (cycle_never_released {[22%N; 24%N]} [20; 22; 24]%N (fun _ => Fixture.env_at Fixture.noon) deadlock).
  - intros k Hk. apply elem_of_union in Hk as [Hk|Hk]; apply elem_of_singleton in Hk; subst k; split.
    + eexists. split; [vm_compute; reflexivity|reflexivity].
    + exists 1700%N. eexists. split; [vm_compute; reflexivity|]. split; [reflexivity|set_solver].
    + eexists. split; [vm_compute; reflexivity|reflexivity].
    + exists 1000%N. eexists. split; [vm_compute; reflexivity|]. split; [reflexivity|set_solver].
  - set_solver.
Defined.
