(* ===== verification/Lifecycle.v ===== *)
(** * The life cycle of a job

    The state machine of [crates/domain/src/entities/job.rs] ([can_transition_to],
    [transition_to]) as a relation, and how the statements that the program
    really runs relate to it: the program never calls [transition_to], it
    updates the status in SQL. *)
From S2P Require Import Prelude Enums Entities RetryPolicy Db Fixture Steps JobRepository.
From S2P Require Import Repositories Externals JobService DlqService WorkflowService SchedulerCore Executor.

(** One legal move. *)
Inductive moves : JobStatus.t -> JobStatus.t -> Prop :=
| Move j s : Job.can_transition_to j s = true -> moves (Job.status j) s.

Lemma moves_iff s s' : moves s s' <-> forall j, Job.status j = s -> Job.can_transition_to j s' = true.
Proof.
  split.
  - intros [j s1 Hj] j' Hj'. unfold Job.can_transition_to in *. by rewrite Hj'.
  - intros H. set (j := Fixture.job 0 s JobPriority.Normal 0).
    change s with (Job.status j). constructor. by apply H.
Qed.

Lemma final_stays s s' : (s = JobStatus.Completed \/ s = JobStatus.Failed) -> rtc moves s s' -> s' = s.
Proof.
  intros Hs Hr. revert Hs. induction Hr as [s|s s1 s2 Hm _ IH]; [done|]. intros Hs. exfalso.
  rewrite moves_iff in Hm. specialize (Hm (Fixture.job 0 s JobPriority.Normal 0) eq_refl).
  by destruct Hs as [-> | ->].
Qed.

Lemma moves_from s s' :
  Job.can_transition_to (Fixture.job 0 s JobPriority.Normal 0) s' = true -> moves s s'.
Proof. intros H. change s with (Job.status (Fixture.job 0 s JobPriority.Normal 0)). by constructor. Qed.

Lemma running_completes : rtc moves JobStatus.Running JobStatus.Completed.
Proof. apply rtc_once. by apply moves_from. Qed.
Lemma queued_completes : rtc moves JobStatus.Queued JobStatus.Completed.
Proof.
  eapply rtc_l; [by apply (moves_from _ JobStatus.Claimed)|].
  eapply rtc_l; [by apply (moves_from _ JobStatus.Running)|]. apply running_completes.
Qed.

Lemma can_complete s : rtc moves s JobStatus.Completed <-> s <> JobStatus.Failed.
Proof.
  split.
  - intros Hr ->. apply final_stays in Hr; [done|by right].
  - intros Hs. destruct s; [..|done].
    + eapply rtc_l; [by apply (moves_from _ JobStatus.Queued)|]. apply queued_completes.
    + apply queued_completes.
    + eapply rtc_l; [by apply (moves_from _ JobStatus.Running)|]. apply running_completes.
    + apply running_completes.
    + done.
    + eapply rtc_l; [by apply (moves_from _ JobStatus.Queued)|]. apply queued_completes.
Qed.

(** The life cycle of the domain: [transition_to] accepts exactly the legal
    moves, then changes the status and the update time and nothing else, and
    otherwise reports both statuses and changes nothing; a completed or failed
    job never moves again, and every job that has not failed can complete. *)
Theorem lifecycle (j : Job.t) (s : JobStatus.t) (t : Timestamp) :
  (Job.transition_to j s t = (Ok tt, j <| Job.status := s |> <| Job.updated_at := t |>) /\
     moves (Job.status j) s \/
   Job.transition_to j s t = (Err (DomainError.InvalidStateTransition
       (JobStatus.to_string (Job.status j)) (JobStatus.to_string s)), j) /\
     ~ moves (Job.status j) s) /\
  (rtc moves (Job.status j) JobStatus.Completed <-> Job.status j <> JobStatus.Failed) /\
  (rtc moves (Job.status j) s ->
     Job.status j = JobStatus.Completed \/ Job.status j = JobStatus.Failed -> s = Job.status j).
Proof.
  split_and!.
  - unfold Job.transition_to. destruct (Job.can_transition_to j s) eqn:E; simpl.
    + left. split; [done|]. by constructor.
    + right. split; [done|]. rewrite moves_iff. intros Hm. rewrite (Hm j eq_refl) in E. done.
  - apply can_complete.
  - intros Hr Hf. by apply final_stays in Hr.
Qed.

Lemma lifecycle_witness :
  rtc moves JobStatus.Completed JobStatus.Completed /\ JobStatus.Completed = JobStatus.Completed.
Proof.
  destruct (lifecycle (Fixture.job 0 JobStatus.Completed JobPriority.Normal 0) JobStatus.Completed 0)
    as (_ & _ & Hf).
  split; [apply rtc_refl|]. apply Hf; [apply rtc_refl|left; reflexivity].
Defined.

(** ** The statements *)

(** Whatever store it runs on, a change of a job's status by the statement is in
    [R]. *)
Definition changes_in {A : Type} (R : JobStatus.t -> JobStatus.t -> Prop) (s : stmt A) : Prop :=
  forall c d a d' k j j', jobs_keyed d -> s c d = Ok (a, d') ->
    jobs d !! k = Some j -> jobs d' !! k = Some j' -> Job.status j' <> Job.status j ->
    R (Job.status j) (Job.status j').

(** The statement puts the job it names in status [s'] whatever its status was,
    which is a legal move from the statuses in [legal] only. *)
Definition forces (s' : JobStatus.t) (legal : list JobStatus.t) (s : Uuid -> stmt Z) : Prop :=
  forall c d n d' k j, s k c d = Ok (n, d') -> jobs d !! k = Some j ->
    (exists j', jobs d' !! k = Some j' /\ Job.status j' = s') /\
    (moves (Job.status j) s' <-> Job.status j ∈ legal).

Lemma moves_dec s s' :
  moves s s' <-> Job.can_transition_to (Fixture.job 0 s JobPriority.Normal 0) s' = true.
Proof.
  split; [|apply moves_from]. rewrite moves_iff. intros Hm. by apply Hm.
Qed.

Section statements.

(** An update of the rows that satisfy a condition. *)
Lemma update_where_changes R (f : Ctx -> Job.t -> Job.t) (q : Ctx -> Db -> Job.t -> bool) :
  (forall c d j, q c d j = true -> R (Job.status j) (Job.status (f c j))) ->
  changes_in R (fun c d => update_rows jobs (q c d) (f c) c d).
Proof.
  intros Hf c d a d' k j j' _ [= _ <-] Hk. simpl. rewrite lookup_update_where, Hk. simpl.
  destruct (q c d j) eqn:Hq; intros [= <-] Hne; [by eapply Hf|done].
Qed.

(** An update of one row under a condition. *)
Lemma guarded_row_changes R k0 (p : Job.t -> bool) (f : Ctx -> Job.t -> Job.t) (s : stmt Z) :
  (forall c d, s c d = match jobs d !! k0 with
     | Some j => if p j then update_row jobs k0 (f c) c d else Ok (0, d)
     | None => Ok (0, d)
     end) ->
  (forall c j, p j = true -> R (Job.status j) (Job.status (f c j))) -> changes_in R s.
Proof.
  intros Hs Hf c d a d' k j j' _. rewrite Hs. unfold update_row.
  destruct (jobs d !! k0) as [j0|] eqn:Hk0; [destruct (p j0) eqn:Hp|];
    intros [= _ <-] Hk Hk' Hne; [|congruence..]. simpl in Hk'.
  apply lookup_insert_Some in Hk' as [[-> <-]|[_ Hk']]; [|congruence].
  assert (j = j0) as -> by congruence. by apply Hf.
Qed.

Lemma update_row_forces s' legal (f : Uuid -> Ctx -> Job.t -> Job.t) (s : Uuid -> stmt Z) :
  (forall k c d, s k c d = update_row jobs k (f k c) c d) ->
  (forall k c j, Job.status (f k c j) = s') ->
  (forall s, moves s s' <-> s ∈ legal) -> forces s' legal s.
Proof.
  intros Hs Hf Hl c d n d' k j. rewrite Hs. unfold update_row. intros Hr Hk. rewrite Hk in Hr.
  injection Hr as _ <-. split; [|apply Hl]. eexists. split; [apply lookup_insert_eq|apply Hf].
Qed.
End statements.

Ltac legal := intros []; rewrite moves_dec, ?elem_of_cons, elem_of_nil; simpl; naive_solver.

(** C24: the SQL of the program against the life cycle of the domain, from the
    guards of the statements. A claim, the promotion of due jobs and the release
    of a dependent job change a status along legal moves only, whatever store
    they run on. Recovery and cancellation never do: each of their changes is a
    move [transition_to] would refuse. Starting, completing, rescheduling,
    failing and the retry of a dead letter have no guard: they set the status
    whatever it was, which is legal exactly from the statuses listed; a retried
    dead letter, which is failed, is not among them. *)
Theorem sql_and_lifecycle (queue_id worker_id job_id : Uuid) (thr attempt : Z) (t : Timestamp) :
  let illegal s s' := ~ moves s s' in
  changes_in moves (JobRepository.claim_stmt queue_id worker_id) /\
  changes_in moves JobRepository.re_queue_stmt /\
  changes_in moves (WorkflowService.release_stmt job_id) /\
  changes_in illegal (JobRepository.recover_stmt thr) /\
  changes_in illegal (JobService.cancel_stmt job_id) /\
  forces JobStatus.Running [JobStatus.Claimed] JobRepository.mark_running_stmt /\
  forces JobStatus.Completed [JobStatus.Running] JobRepository.mark_completed_stmt /\
  forces JobStatus.Scheduled [JobStatus.Running] (fun k => Executor.retry_stmt k attempt t) /\
  forces JobStatus.Failed [JobStatus.Running] (fun k => Executor.fail_stmt k attempt) /\
  forces JobStatus.Queued [JobStatus.Pending; JobStatus.Scheduled] DlqService.requeue_stmt.
Proof.
  intros illegal. split_and!.
  - intros c d [j'|] d' k j j1 Hkey Hs Hk Hk' Hne.
    + apply claim_stmt_Some in Hs as (j0 & Hc & Hj0 & -> & ->); [|done].
      apply claim_candidate_Some in Hc as (Hc & _). apply claimable_true in Hc as [Hst _].
      simpl in Hk'. apply lookup_insert_Some in Hk' as [[<- <-]|[_ Hk']]; [|congruence].
      assert (j = j0) as -> by congruence. rewrite Hst. by apply moves_dec.
    + unfold JobRepository.claim_stmt in Hs.
      destruct (JobRepository.claim_candidate _ _ _); [by destruct (has _ _)|]. congruence.
  - apply (update_where_changes moves (fun c => JobRepository.set_queued (now c))
      (fun c _ => JobRepository.due (now c))).
    intros c _ j [Hst _]%due_true. rewrite Hst. by apply moves_dec.
  - apply (guarded_row_changes _ job_id (fun j => bool_decide (Job.status j = JobStatus.Pending))
      (fun c j => j <| Job.status := JobStatus.Queued |> <| Job.updated_at := now c |>)); [done|].
    intros c j Hst%bool_decide_eq_true. rewrite Hst. by apply moves_dec.
  - apply (update_where_changes illegal (fun c => JobRepository.release (now c))
      (fun c => JobRepository.held_by_stale (now c) thr)).
    intros c d j [Hst _]%held_by_stale_true. unfold illegal. rewrite moves_dec. simpl.
    by destruct Hst as [-> | ->].
  - apply (guarded_row_changes _ job_id (fun j => JobService.cancellable (Job.status j))
      (fun c => cancelled (now c))); [done|].
    intros c j Hst. unfold illegal. rewrite moves_dec. simpl. by destruct (Job.status j).
  - by apply (update_row_forces _ _ (fun _ c j => j <| Job.status := JobStatus.Running |>
      <| Job.updated_at := now c |>)); [..|legal].
  - by eapply update_row_forces; [..|legal].
  - by eapply update_row_forces; [..|legal].
  - by eapply update_row_forces; [..|legal].
  - by eapply update_row_forces; [..|legal].
Qed.

(** The promoter queues a scheduled job of the fixture; recovery takes a claimed
    job back. *)
Lemma sql_and_lifecycle_witness :
  moves JobStatus.Scheduled JobStatus.Queued /\ ~ moves JobStatus.Claimed JobStatus.Queued.
Proof.
  destruct (sql_and_lifecycle Fixture.queue Fixture.worker 20 60 1 0) as (_ & Hp & _ & Hr & _).
  pose (c := ctx_of (Fixture.env_at Fixture.noon 0) 0). split.
  - apply (Hp c delayed_db 1 (promoted Fixture.noon delayed_db) 20%N
      (delayed_job 20 (Some Fixture.noon))
      (JobRepository.set_queued Fixture.noon (delayed_job 20 (Some Fixture.noon)))).
    + intros k j. apply (map_Forall_lookup_1 (fun k j => Job.id j = k)). compute_decide.
    + vm_compute. reflexivity.
    + vm_compute. reflexivity.
    + vm_compute. reflexivity.
    + discriminate.
  - destruct (JobRepository.recover_stmt 60 c held_db) as [[n d']|v] eqn:E; [|discriminate E].
    apply (Hr c held_db n d' 21%N (Fixture.held 21 Fixture.dead_worker JobStatus.Claimed)
      (JobRepository.release (now c) (Fixture.held 21 Fixture.dead_worker JobStatus.Claimed))).
    + intros k j. apply (map_Forall_lookup_1 (fun k j => Job.id j = k)). compute_decide.
    + exact E.
    + vm_compute. reflexivity.
    + injection E as _ <-. vm_compute. reflexivity.
    + discriminate.
Defined.
