(* ===== verification/AuthService.v ===== *)
(** * Auth service ([crates/services/src/auth_service.rs])

    Registration, login, refresh and logout, and the two tokens: a signed
    access token of fifteen minutes and a stored, hashed refresh token of thirty
    days. Hashes, signatures and UUID texts are those of [Externals]. *)
From S2P Require Import Prelude Enums Entities RetryPolicy Db Fixture Steps Repositories.
From S2P Require Import Externals.

Module AuthError.
Inductive t :=
| InvalidCredentials
| EmailAlreadyRegistered
| InvalidToken
| Database (e : sqlx_error)
| Internal (msg : string).
End AuthError.

Module AuthService.
Section auth.
Context {UT : UuidText} {CH : Chrono} {BC : Bcrypt} {JW : Jwt}.
Import AuthError.

Definition DEFAULT_COST : Z := 12.
Definition REFRESH_COST : Z := 4.

(** The service: its secret and the life of an access token. *)
Record t := Mk { jwt_secret : string; access_token_ttl_minutes : Z }.
(** [AuthService::new] *)
Definition new (jwt_secret : string) : t := Mk jwt_secret 15.

(** [DateTime::timestamp()], and [as usize] of an [i64]. *)
Definition timestamp (x : Timestamp) : Z := x / SECOND.
Definition as_usize (z : Z) : Z := z mod 2 ^ 64.

(** [bcrypt] draws its salt from the environment. *)
Definition hash (password : string) (cost : Z) : prog (result string string) :=
  salt <- new_v4 ;; Ret (bcrypt_hash password cost salt).

(** [AuthService::register] *)
Definition register (email password : string) (display_name : option string)
  : prog (result User.t AuthError.t) :=
  existing <-? UserRepository.find_by_email email via Database ;;
  if is_some existing then Ret (Err EmailAlreadyRegistered) else
  password_hash <-? hash password DEFAULT_COST via Internal ;;
  user <-? UserRepository.create email password_hash display_name via Database ;;
  Ret (Ok user).

(** [AuthService::mint_access_token] *)
Definition mint_access_token (self : t) (user : User.t) : prog (result string AuthError.t) :=
  now <- utc_now ;;
  match add_seconds now (60 * access_token_ttl_minutes self) with
  | None => Panic
  | Some exp =>
      let claims := Claims.Mk (uuid_to_string (User.id user)) (User.email user)
        (as_usize (timestamp exp)) (as_usize (timestamp now)) in
      Ret (map_err Internal (jwt_encode claims (jwt_secret self)))
  end.

(** [AuthService::store_refresh_token] *)
Definition store_refresh_token (user : User.t) : prog (result string AuthError.t) :=
  raw <- new_v4 ;;
  let raw_token := uuid_to_string raw in
  token_hash <-? hash raw_token REFRESH_COST via Internal ;;
  id <- new_v4 ;;
  now <- utc_now ;;
  match add_seconds now (30 * 86400) with
  | None => Panic
  | Some expires_at =>
      created_at <- utc_now ;;
      r <-? UserRepository.store_refresh_token
        (RefreshToken.Mk id (User.id user) token_hash expires_at false created_at) via Database ;;
      Ret (Ok raw_token)
  end.

(** [AuthService::login] *)
Definition login (self : t) (email password : string)
  : prog (result (string * string * User.t) AuthError.t) :=
  user <-? UserRepository.find_by_email email via Database ;;
  user <-! user else InvalidCredentials ;;
  match bcrypt_verify password (User.password_hash user) with
  | Ok true =>
      access_token <-? mint_access_token self user via (fun e => e) ;;
      refresh_token <-? store_refresh_token user via (fun e => e) ;;
      Ret (Ok (access_token, refresh_token, user))
  | _ => Ret (Err InvalidCredentials)
  end.

(** [bcrypt::verify(raw, &r.token_hash).unwrap_or(false)] *)
Definition matches (raw : string) (r : RefreshToken.t) : bool :=
  match bcrypt_verify raw (RefreshToken.token_hash r) with Ok b => b | Err _ => false end.

(** [AuthService::refresh] *)
Definition refresh (self : t) (raw_refresh_token : string)
  : prog (result (string * User.t) AuthError.t) :=
  records <-? UserRepository.find_all_active_refresh_tokens via Database ;;
  record <-! List.find (matches raw_refresh_token) records else InvalidToken ;;
  now <- utc_now ;;
  if RefreshToken.expires_at record <? now then Ret (Err InvalidToken) else
  user <-? UserRepository.find_by_id (RefreshToken.user_id record) via Database ;;
  user <-! user else InvalidToken ;;
  access_token <-? mint_access_token self user via (fun e => e) ;;
  Ret (Ok (access_token, user)).

(** [AuthService::logout] *)
Definition logout (raw_refresh_token : string) : prog (result unit AuthError.t) :=
  records <-? UserRepository.find_all_active_refresh_tokens via Database ;;
  record <-! List.find (matches raw_refresh_token) records else InvalidToken ;;
  r <-? UserRepository.revoke_refresh_token (RefreshToken.token_hash record) via Database ;;
  Ret (Ok tt).

(** [AuthService::verify_access_token], at the second [now]. *)
Definition verify_access_token (self : t) (token : string) (now : Z) : result Claims.t AuthError.t :=
  ok_or (jwt_decode token (jwt_secret self) now) InvalidToken.
End auth.
End AuthService.

(** ** Accounts *)

(** No two users share an email: the [UNIQUE] constraint. *)
Definition unique_emails (d : Db) : Prop := forall k1 k2 u1 u2,
  users d !! k1 = Some u1 -> users d !! k2 = Some u2 -> User.email u1 = User.email u2 -> k1 = k2.

Section accounts.
Context {UT : UuidText} {CH : Chrono} {BC : Bcrypt} {JW : Jwt}.
Import AuthService.

Definition user_by_email (email : string) (d : Db) : option User.t :=
  head (select (fun u => bool_decide (User.email u = email)) (users d)).

Lemma user_by_email_unique d k u : unique_emails d -> users d !! k = Some u ->
  user_by_email (User.email u) d = Some u.
Proof.
  intros Hu Hk. unfold user_by_email. destruct (select _ _) as [|u' l] eqn:E.
  - exfalso. cut (u ∈ @nil User.t); [set_solver|]. rewrite <- E. apply elem_of_select.
    rewrite bool_decide_eq_true. eauto.
  - assert (u' ∈ u' :: l) as Hin by set_solver. rewrite <- E in Hin.
    apply elem_of_select in Hin as [He [k' Hk']]. apply bool_decide_eq_true in He.
    assert (k' = k) as -> by (eapply Hu; eauto). simpl. congruence.
Qed.

Lemma user_by_email_None d email : user_by_email email d = None ->
  forall k u, users d !! k = Some u -> User.email u <> email.
Proof.
  unfold user_by_email. intros Hh k u Hk He. destruct (select _ _) as [|u' l] eqn:E; [|done].
  cut (u ∈ @nil User.t); [set_solver|]. rewrite <- E. apply elem_of_select.
  rewrite bool_decide_eq_true. eauto.
Qed.

Lemma register_cases email password dn env n w r w' n' ts :
  exec (register email password dn) env n w = (r, w', n', ts) ->
  (w' = w /\ exists e, r = Returned (Err e)) \/
  exists id h t salt, user_by_email email (w_db w) = None /\
    bcrypt_hash password DEFAULT_COST salt = Ok h /\ users (w_db w) !! id = None /\
    let u := User.Mk id email h dn true t t in
    w' = w <| w_db ::= fun d => d <| users ::= <[id := u]> |> |> /\
    (r = Returned (Ok u) \/ r = Returned (Err (AuthError.Database Io))).
Proof.
  unfold register, hash, UserRepository.find_by_email, UserRepository.create. intros Hx.
  exec_read Hx; [|simplify_eq/=; eauto]. fold (user_by_email email (w_db w)) in Hx.
  destruct (user_by_email email (w_db w)) as [u|] eqn:Hu; cbn [is_some] in Hx; [simplify_eq/=; eauto|].
  rewrite bind_assoc, exec_new_v4 in Hx. cbn [bind] in Hx.
  destruct (bcrypt_hash password _ _) as [h|] eqn:Hh; [|simplify_eq/=; eauto].
  match type of Hx with exec (bind (sql ?s) ?k) _ ?m _ = _ =>
    destruct (exec_sql s k env m w) as (r1 & w1 & Hs & Ho) end.
  rewrite Hs in Hx. clear Hs. unfold with_ctx in Ho.
  destruct Ho as [|v err _|a d Hd|a d Hd]; [simplify_eq/=; eauto..| |];
    apply insert_row_Ok in Hd as (-> & Hc & ->); apply Forall_cons in Hc as [Hid _];
    apply negb_true_iff, has_false in Hid; simplify_eq/=; right;
    eexists _, h, _, _; split_and!; eauto.
Qed.
End accounts.

(** C34: registration adds at most one row, with a new id, an email nobody else
    has, and a hash that accepts the password; emails stay unique; a known
    email is refused and nothing changes. *)
Theorem register_safe `{!Bcrypt, !BcryptSpec} (email password : string)
  (display_name : option string) (env : nat -> Env) (w w' : World)
  (r : outcome (result User.t AuthError.t)) :
  unique_emails (w_db w) ->
  run (AuthService.register email password display_name) env w = (r, w') ->
  unique_emails (w_db w') /\
  (w' = w /\ (forall u, r <> Returned (Ok u)) \/
   exists u, (forall k u', users (w_db w) !! k = Some u' -> User.email u' <> email) /\
     users (w_db w) !! User.id u = None /\
     w' = w <| w_db ::= fun d => d <| users ::= <[User.id u := u]> |> |> /\
     User.email u = email /\ bcrypt_verify password (User.password_hash u) = Ok true /\
     (forall u', r = Returned (Ok u') -> u' = u)).
Proof.
  intros Huniq (n' & ts & Hx)%run_exec.
  apply register_cases in Hx as [[-> [e ->]]|(id & h & t & salt & Hno & Hh & Hid & -> & Hr)].
  - split; [done|]. by left.
  - split.
    + intros k1 k2 u1 u2. simpl.
      intros [[<- <-]|[? Hk1]]%lookup_insert_Some [[<- <-]|[? Hk2]]%lookup_insert_Some Heq;
        [done| | |by eapply Huniq]; exfalso; simpl in Heq.
      * by eapply user_by_email_None.
      * by eapply user_by_email_None.
    + right. exists (User.Mk id email h display_name true t t). split_and!; try done.
      * by apply user_by_email_None.
      * by eapply verify_hash.
      * by destruct Hr as [->| ->]; intros u' [= <-].
Qed.

(** ** Sessions *)

Section sessions.
Context {UT : UuidText} {CH : Chrono} {BC : Bcrypt} {JW : Jwt}.
Context {CHS : ChronoSpec} {BCS : BcryptSpec} {JWS : JwtSpec}.
Import AuthService.

(** The claims of a token minted for [u] at time [t]. *)
Definition claims_of (u : User.t) (t : Timestamp) : Claims.t :=
  Claims.Mk (uuid_to_string (User.id u)) (User.email u)
    (as_usize (timestamp (t + 900 * SECOND))) (as_usize (timestamp t)).

Lemma exec_mint {B} secret u (k : result string AuthError.t -> prog B) env n w :
  0 <= e_clock (env n) 0%nat < YEAR_10000 ->
  exec (bind (mint_access_token (new secret) u) k) env n w =
  exec (k (map_err AuthError.Internal (jwt_encode (claims_of u (e_clock (env n) 0%nat)) secret)))
    env (S n) w.
Proof.
  intros Ht. unfold mint_access_token. rewrite bind_assoc, exec_utc_now.
  rewrite add_seconds_in_calendar by (simpl; lia). reflexivity.
Qed.

Lemma timestamp_bounds t : 0 <= t < YEAR_10000 -> 0 <= timestamp t < 2 ^ 40.
Proof.
  unfold timestamp, YEAR_10000, SECOND. intros Ht. split; [apply Z.div_pos; lia|].
  apply Z.div_lt_upper_bound; lia.
Qed.

(** A minted token is accepted from its minting until a minute after it expires. *)
Lemma verify_minted secret u t token now : 0 <= t < YEAR_10000 ->
  jwt_encode (claims_of u t) secret = Ok token ->
  verify_access_token (new secret) token now =
    if now <=? timestamp t + 960 then Ok (claims_of u t) else Err AuthError.InvalidToken.
Proof.
  intros Ht Henc. unfold verify_access_token. simpl.
  rewrite (jwt_decode_encode _ _ _ _ Henc). simpl Claims.exp.
  assert (timestamp (t + 900 * SECOND) = timestamp t + 900) as ->
    by (unfold timestamp; apply Z.div_add; done).
  pose proof (timestamp_bounds t Ht).
  assert (as_usize (timestamp t + 900) = timestamp t + 900) as ->
    by (unfold as_usize; apply Z.mod_small; lia).
  unfold JWT_LEEWAY. destruct (Z.leb_spec (now - 60) (timestamp t + 900)), (Z.leb_spec now (timestamp t + 960));
    done || lia.
Qed.
End sessions.

(** The clock of every step lies between 1970 and year 9999. *)
Definition sane_clock (env : nat -> Env) : Prop :=
  forall n i, 0 <= e_clock (env n) i < YEAR_10000.

(** C31: a login that succeeds was given the stored password of that email's
    user; its access token verifies to the user's claims until a minute after
    its fifteen minutes and is refused later, and its refresh token is stored,
    only as a hash it matches, for that user, unrevoked, for thirty days;
    nothing else in the store changed. *)
Theorem login_sound `{!UuidText, !Chrono, !Bcrypt, !Jwt, !ChronoSpec, !BcryptSpec, !JwtSpec}
  (secret email password : string) (env : nat -> Env) (w w' : World) (access raw : string)
  (u : User.t) :
  sane_clock env ->
  run (AuthService.login (AuthService.new secret) email password) env w
    = (Returned (Ok (access, raw, u)), w') ->
  user_by_email email (w_db w) = Some u /\
  bcrypt_verify password (User.password_hash u) = Ok true /\
  (exists t, 0 <= t < YEAR_10000 /\ forall now,
     AuthService.verify_access_token (AuthService.new secret) access now =
     if now <=? AuthService.timestamp t + 960 then Ok (claims_of u t)
     else Err AuthError.InvalidToken) /\
  exists rt t, refresh_tokens (w_db w) !! RefreshToken.id rt = None /\
    w' = w <| w_db ::= fun d => d <| refresh_tokens ::= <[RefreshToken.id rt := rt]> |> |> /\
    RefreshToken.user_id rt = User.id u /\ RefreshToken.revoked rt = false /\
    RefreshToken.expires_at rt = t + 30 * 86400 * SECOND /\ AuthService.matches raw rt = true.
Proof.
  intros Hclock (n' & ts & Hx)%run_exec.
  unfold AuthService.login, UserRepository.find_by_email in Hx. exec_read Hx; [|done].
  fold (user_by_email email (w_db w)) in Hx.
  destruct (user_by_email email (w_db w)) as [u0|]; [|done].
  destruct (bcrypt_verify password (User.password_hash u0)) as [[]|] eqn:Hv; [|done..].
  rewrite exec_mint in Hx by apply Hclock.
  destruct (jwt_encode _ secret) as [tok|] eqn:Hj; [|done]. cbn [map_err] in Hx.
  unfold AuthService.store_refresh_token, AuthService.hash in Hx.
  rewrite bind_assoc, exec_new_v4, bind_assoc, bind_assoc, exec_new_v4 in Hx. cbn [bind] in Hx.
  destruct (bcrypt_hash _ _ _) as [h|] eqn:Hh; [|done].
  rewrite bind_assoc, exec_new_v4, bind_assoc, exec_utc_now in Hx.
  rewrite add_seconds_in_calendar in Hx by (apply Hclock || lia).
  rewrite bind_assoc, exec_utc_now in Hx.
  unfold UserRepository.store_refresh_token in Hx. rewrite !bind_assoc in Hx.
  match type of Hx with exec (bind (sql ?s) ?k) _ ?m _ = _ =>
    destruct (exec_sql s k env m w) as (r1 & w1 & Hs & Ho) end.
  rewrite Hs in Hx. clear Hs. unfold with_ctx in Ho.
  destruct Ho as [|v err _|a d Hd|a d Hd]; [done|done| |done].
  apply insert_row_Ok in Hd as (-> & Hc & ->). apply Forall_cons in Hc as [Hid _].
  apply negb_true_iff, has_false in Hid.
  injection Hx as <- <- <- <- _ _. split_and!; [done..| |].
  - exists (e_clock (env 1%nat) 0%nat). split; [apply Hclock|]. intros now. by apply verify_minted.
  - eexists _, _. split_and!; [exact Hid|reflexivity..|].
    unfold AuthService.matches. simpl. by rewrite (verify_hash _ _ _ _ Hh).
Qed.

(** ** Refresh and logout *)

Section refresh.
Context {UT : UuidText} {CH : Chrono} {BC : Bcrypt} {JW : Jwt}.
Import AuthService.

(** The rows the search sees at time [t]: the thousand newest active ones. *)
Definition visible_tokens (t : Timestamp) (d : Db) : list RefreshToken.t :=
  limit_offset 1000 0 (order_by UserRepository.newest_token_first
    (select (UserRepository.token_active t) (refresh_tokens d))).

Lemma find_Some_elem {A} (p : A -> bool) l x : List.find p l = Some x -> x ∈ l /\ p x = true.
Proof. intros Hf. apply find_some in Hf as [Hin Hp]. split; [by apply list_elem_of_In|done]. Qed.

Lemma visible_active t d rt : rt ∈ visible_tokens t d ->
  RefreshToken.revoked rt = false /\ t < RefreshToken.expires_at rt /\
  exists k, refresh_tokens d !! k = Some rt.
Proof.
  unfold visible_tokens. intros Hin%elem_of_limit_offset. rewrite elem_of_order_by, elem_of_select in Hin.
  destruct Hin as [Hp Hk]. unfold UserRepository.token_active in Hp. bool_to_prop. auto.
Qed.

(** The search: an answer, or the connection is lost; nothing changes. *)
Lemma exec_find_tokens {B} (k : result (list RefreshToken.t) sqlx_error -> prog B) env n w :
  exists r, exec (bind UserRepository.find_all_active_refresh_tokens k) env n w
    = exec (k r) env (S n) w /\
    (r = Ok (visible_tokens (e_now (env n)) (w_db w)) \/ exists e, r = Err e).
Proof.
  unfold UserRepository.find_all_active_refresh_tokens.
  destruct (exec_sql UserRepository.active_tokens_stmt k env n w) as (r & w1 & -> & Ho).
  unfold UserRepository.active_tokens_stmt, with_ctx, page in Ho. simpl in Ho.
  assert (w1 = w /\ (r = Ok (visible_tokens (e_now (env n)) (w_db w)) \/ exists e, r = Err e))
    as [-> Hr]; [|by eauto].
  destruct Ho as [|v err _|a d Hd|a d Hd]; [by eauto..| |]; injection Hd as <- <-;
    rewrite world_db_id; eauto.
Qed.

Lemma refresh_cases secret raw env n w r w' n' ts :
  exec (refresh (new secret) raw) env n w = (r, w', n', ts) ->
  w' = w /\ forall x, r = Returned (Ok x) ->
    exists rt, rt ∈ visible_tokens (e_now (env n)) (w_db w) /\ matches raw rt = true /\
      e_clock (env (S n)) 0%nat <= RefreshToken.expires_at rt /\
      users (w_db w) !! RefreshToken.user_id rt = Some x.2.
Proof.
  unfold refresh. intros Hx.
  match type of Hx with exec (bind _ ?k) _ _ _ = _ =>
    destruct (exec_find_tokens k env n w) as (r1 & Hs & Hr1) end.
  rewrite Hs in Hx. clear Hs. destruct Hr1 as [->|[e ->]]; [|by simplify_eq/=].
  destruct (List.find (matches raw) _) as [rt|] eqn:Hf; [|by simplify_eq/=].
  apply find_Some_elem in Hf as [Hin Hm]. rewrite exec_utc_now in Hx.
  destruct (RefreshToken.expires_at rt <? _) eqn:Hexp; [by simplify_eq/=|].
  unfold UserRepository.find_by_id in Hx. exec_read Hx; [|by simplify_eq/=].
  destruct (users (w_db w) !! RefreshToken.user_id rt) as [u|] eqn:Hu; [|by simplify_eq/=].
  unfold mint_access_token in Hx. rewrite bind_assoc, exec_utc_now in Hx.
  destruct (add_seconds _ _); [|by simplify_eq/=]. cbn [bind] in Hx.
  destruct (map_err _ _); simplify_eq/=; (split; [done|]); [|done].
  intros x [= <-]. exists rt. bool_to_prop. eauto.
Qed.

Lemma logout_cases raw env n w r w' n' ts :
  exec (logout raw) env n w = (r, w', n', ts) ->
  (w' = w /\ exists e, r = Returned (Err e)) \/
  exists rt, rt ∈ visible_tokens (e_now (env n)) (w_db w) /\ matches raw rt = true /\
    w' = w <| w_db ::= fun d => d <| refresh_tokens ::= update_where
      (fun r => bool_decide (RefreshToken.token_hash r = RefreshToken.token_hash rt))
      (fun r => r <| RefreshToken.revoked := true |>) |> |>.
Proof.
  unfold logout. intros Hx.
  match type of Hx with exec (bind _ ?k) _ _ _ = _ =>
    destruct (exec_find_tokens k env n w) as (r1 & Hs & Hr1) end.
  rewrite Hs in Hx. clear Hs. destruct Hr1 as [->|[e ->]]; [|simplify_eq/=; eauto].
  destruct (List.find (matches raw) _) as [rt|] eqn:Hf; [|simplify_eq/=; eauto].
  apply find_Some_elem in Hf as [Hin Hm].
  unfold UserRepository.revoke_refresh_token in Hx. rewrite bind_assoc in Hx.
  match type of Hx with exec (bind (sql ?s) ?k) _ ?m _ = _ =>
    destruct (exec_sql s k env m w) as (r1 & w1 & Hs & Ho) end.
  rewrite Hs in Hx. clear Hs.
  destruct Ho as [|v err _|a d Hd|a d Hd]; [simplify_eq/=; eauto..| |];
    injection Hd as _ <-; simplify_eq/=; right; eauto.
Qed.

(** A row with a thousand newer rows is not among the first thousand. *)
Lemma not_in_first (l : list RefreshToken.t) rt (n : nat) :
  StronglySorted UserRepository.newest_token_first l ->
  (n <= length (List.filter (fun r => (RefreshToken.created_at rt <? RefreshToken.created_at r)%Z) l))%nat ->
  rt ∉ take n l.
Proof.
  intros Hs Hlen Hin. apply list_elem_of_split in Hin as (l1 & l2 & Heq).
  assert (l = l1 ++ rt :: (l2 ++ drop n l)) as Hl.
  { rewrite <- (take_drop n l) at 1. rewrite Heq, <- app_assoc. done. }
  assert (length l1 < n)%nat as Hn1.
  { assert (length (take n l) <= n)%nat as Hle by (rewrite length_take; lia).
    rewrite Heq, length_app in Hle. simpl in Hle. lia. }
  rewrite Hl in Hs, Hlen. apply StronglySorted_app_1_r in Hs as Hs2.
  inversion Hs2 as [|? ? _ Hall]; subst. rewrite List.filter_app in Hlen. simpl in Hlen.
  rewrite Z.ltb_irrefl in Hlen. rewrite length_app in Hlen.
  assert (List.filter (fun r => RefreshToken.created_at rt <? RefreshToken.created_at r)
    (l2 ++ drop n l) = []) as Hnil.
  { destruct (List.filter _ (l2 ++ drop n l)) as [|x l3] eqn:E; [done|]. exfalso.
    assert (x ∈ x :: l3) as Hx by set_solver. rewrite <- E in Hx.
    apply list_elem_of_In, filter_In in Hx as [Hx Hlt]. rewrite Forall_forall in Hall.
    specialize (Hall x ltac:(by apply list_elem_of_In)). unfold UserRepository.newest_token_first in Hall.
    bool_to_prop. lia. }
  rewrite Hnil in Hlen. simpl in Hlen.
  pose proof (List.filter_length_le (fun r => RefreshToken.created_at rt <? RefreshToken.created_at r) l1). lia.
Qed.
End refresh.

(** C32: refreshing is read-only (the refresh token is not rotated) and sound: it
    answers only for a stored token that matches, is not revoked and not
    expired, and then with the user it was issued to. *)
Theorem refresh_sound `{!UuidText, !Chrono, !Bcrypt, !Jwt} (secret raw : string)
  (env : nat -> Env) (w w' : World) (r : outcome (result (string * User.t) AuthError.t)) :
  run (AuthService.refresh (AuthService.new secret) raw) env w = (r, w') ->
  w' = w /\ forall access u, r = Returned (Ok (access, u)) ->
    exists k rt, refresh_tokens (w_db w) !! k = Some rt /\ AuthService.matches raw rt = true /\
      RefreshToken.revoked rt = false /\ e_now (env 0%nat) < RefreshToken.expires_at rt /\
      users (w_db w) !! RefreshToken.user_id rt = Some u.
Proof.
  intros (n' & ts & Hx)%run_exec. apply refresh_cases in Hx as [-> Hok]. split; [done|].
  intros access u Hr. destruct (Hok _ Hr) as (rt & Hin & Hm & _ & Hu).
  apply visible_active in Hin as (? & ? & k & ?). exists k, rt. by split_and!.
Qed.

(** C33: logging out ends the session: when the stored hashes that match the
    token are one hash, a logout that answered [Ok] makes every later refresh
    with that token fail, at any time. *)
Theorem logout_ends_session `{!UuidText, !Chrono, !Bcrypt, !Jwt} (secret raw h : string)
  (env env' : nat -> Env) (w w1 w2 : World)
  (r : outcome (result (string * User.t) AuthError.t)) :
  (forall k rt, refresh_tokens (w_db w) !! k = Some rt -> AuthService.matches raw rt = true ->
     RefreshToken.token_hash rt = h) ->
  run (AuthService.logout raw) env w = (Returned (Ok tt), w1) ->
  run (AuthService.refresh (AuthService.new secret) raw) env' w1 = (r, w2) ->
  forall x, r <> Returned (Ok x).
Proof.
  intros Hone (n1 & ts1 & Hx1)%run_exec (n2 & ts2 & Hx2)%run_exec x ->.
  apply logout_cases in Hx1 as [[_ [? ?]]|(rt & Hin & Hm & ->)]; [done|].
  apply visible_active in Hin as (_ & _ & k & Hk). apply Hone in Hk as Hh; [|done].
  apply refresh_cases in Hx2 as [_ Hok].
  destruct (Hok x eq_refl) as (rt' & Hin' & Hm' & _). apply visible_active in Hin' as (Hrev & _ & k' & Hk').
  simpl in Hk'. apply lookup_update_where_inv in Hk' as (rt0 & Hk0 & Hrt').
  assert (AuthService.matches raw rt0 = true) as Hm0.
  { unfold AuthService.matches in *. by destruct (bool_decide _); subst. }
  rewrite bool_decide_eq_true_2 in Hrt' by (by rewrite Hh; eapply Hone). by subst.
Qed.

(** Only the thousand newest active tokens of all users can be refreshed: a
    valid token that a thousand active ones have overtaken is refused, whatever
    its own expiry, as long as no visible row matches it by accident. *)
Theorem overtaken_token_refused `{!UuidText, !Chrono, !Bcrypt, !Jwt} (secret raw : string)
  (env : nat -> Env) (w w' : World) (rt : RefreshToken.t)
  (r : outcome (result (string * User.t) AuthError.t)) :
  (forall k rt', refresh_tokens (w_db w) !! k = Some rt' -> AuthService.matches raw rt' = true ->
     rt' = rt) ->
  (1000 <= length (List.filter (fun r => (RefreshToken.created_at rt <? RefreshToken.created_at r)%Z)
     (select (UserRepository.token_active (e_now (env 0%nat))) (refresh_tokens (w_db w)))))%nat ->
  run (AuthService.refresh (AuthService.new secret) raw) env w = (r, w') ->
  forall x, r <> Returned (Ok x).
Proof.
  intros Hone Hmany (n' & ts & Hx)%run_exec x ->. apply refresh_cases in Hx as [_ Hok].
  destruct (Hok x eq_refl) as (rt' & Hin & Hm & _). apply visible_active in Hin as Hact.
  destruct Hact as (_ & _ & k & Hk). assert (rt' = rt) as -> by eauto.
  revert Hin. unfold visible_tokens, limit_offset. apply not_in_first.
  - simpl. rewrite drop_0. apply order_by_sorted; [intros a b c|intros a b];
      unfold UserRepository.newest_token_first; lia.
  - simpl Z.to_nat. rewrite drop_0.
    etrans; [exact Hmany|]. apply Nat.eq_le_incl. apply Permutation_length.
    apply Permutation_sym. by rewrite order_by_Permutation.
Qed.

Section examples.
Import Toy.

(** A user registers and logs in. *)
Definition registered : World :=
  (run (AuthService.register "new@x" "secret" None) (Fixture.env_at Fixture.noon)
     (Fixture.world (Fixture.with_jobs []))).2.
Definition session : outcome (result (string * string * User.t) AuthError.t) * World :=
  run (AuthService.login (AuthService.new "key") "new@x" "secret")
    (fun n => Fixture.env_at Fixture.noon (20 + n)) registered.

Lemma fixture_unique_emails js : unique_emails (Fixture.with_jobs js).
Proof.
  intros k1 k2 u1 u2 Hk1 Hk2 He.
  assert (map_Forall (fun k u => map_Forall (fun k' u' => User.email u' = User.email u -> k' = k)
    (users (Fixture.with_jobs js))) (users (Fixture.with_jobs js))) as Hall by compute_decide.
  symmetry. apply (Hall k1 u1 Hk1 k2 u2 Hk2). symmetry. exact He.
Qed.

Lemma register_safe_witness : unique_emails (w_db registered) /\ size (users (w_db registered)) = 5%nat.
Proof.
  split; [|vm_compute; reflexivity].
  apply (register_safe "new@x" "secret" None (Fixture.env_at Fixture.noon)
    (Fixture.world (Fixture.with_jobs [])) registered
    (run (AuthService.register "new@x" "secret" None) (Fixture.env_at Fixture.noon)
       (Fixture.world (Fixture.with_jobs []))).1).
  - apply fixture_unique_emails.
  - apply surjective_pairing.
Defined.

Lemma login_sound_witness :
  exists access raw u w', session = (Returned (Ok (access, raw, u)), w') /\
    User.email u = "new@x"%string /\ size (refresh_tokens (w_db w')) = 1%nat.
Proof.
  destruct session as [r w'] eqn:E. assert (size (refresh_tokens (w_db w')) = 1%nat) as Hsize
    by (change w' with ((r, w').2); rewrite <- E; vm_compute; reflexivity).
  destruct r as [[[[access raw] u]|e]|];
    [|exfalso; apply (f_equal fst) in E; vm_compute in E; discriminate E..].
  exists access, raw, u, w'. split; [reflexivity|]. split; [|exact Hsize].
  destruct (login_sound "key" "new@x" "secret" (fun n => Fixture.env_at Fixture.noon (20 + n))
    registered w' access raw u) as [Hu _].
  - intros n i. split; [discriminate|reflexivity].
  - exact E.
  - vm_compute in Hu. injection Hu as <-. reflexivity.
Defined.

(** A stored token whose raw text is ["t"], and its session. *)
Definition token (id : Uuid) (h : string) (t : Timestamp) : RefreshToken.t :=
  RefreshToken.Mk id Fixture.member h (Fixture.noon + 1000 * SECOND) false t.
Definition token_db (l : list RefreshToken.t) : Db := (Fixture.with_jobs []) <| refresh_tokens :=
  list_to_map ((fun r => (RefreshToken.id r, r)) <$> l) |>.
Definition refresh_at (t : Timestamp) (w : World) :
  outcome (result (string * User.t) AuthError.t) * World :=
  run (AuthService.refresh (AuthService.new "key") "t") (Fixture.env_at t) w.

Lemma refresh_sound_witness :
  exists access u, (refresh_at Fixture.noon (Fixture.world (token_db [token 80 "t$1" 0]))).1
      = Returned (Ok (access, u)) /\
    exists k rt, refresh_tokens (token_db [token 80 "t$1" 0]) !! k = Some rt /\
      AuthService.matches "t" rt = true.
Proof.
  destruct (refresh_at Fixture.noon (Fixture.world (token_db [token 80 "t$1" 0]))) as [r w'] eqn:E.
  destruct r as [[[access u]|e]|];
    [|exfalso; apply (f_equal fst) in E; vm_compute in E; discriminate E..].
  exists access, u. split; [reflexivity|].
  destruct (refresh_sound "key" "t" _ _ _ _ E) as [_ Hok].
  destruct (Hok access u eq_refl) as (k & rt & Hk & Hm & _). exists k, rt. split; [exact Hk|exact Hm].
Defined.

Lemma logout_ends_session_witness :
  let w := Fixture.world (token_db [token 80 "t$1" 0]) in
  let w1 := (run (AuthService.logout "t") (Fixture.env_at Fixture.noon) w).2 in
  match (refresh_at (Fixture.noon + 1) w1).1 with Returned (Ok _) => False | _ => True end.
Proof.
  intros w w1.
  destruct (refresh_at (Fixture.noon + 1) w1).1 as [[x|?]|] eqn:Hx; try exact I.
  revert Hx. apply (logout_ends_session "key" "t" "t$1" (Fixture.env_at Fixture.noon)
    (Fixture.env_at (Fixture.noon + 1)) w w1 (refresh_at (Fixture.noon + 1) w1).2).
  - intros k rt Hk _.
    exact (map_Forall_lookup_1 (fun _ rt => RefreshToken.token_hash rt = "t$1"%string)
      (refresh_tokens (w_db w)) k rt ltac:(compute_decide) Hk).
  - unfold w1. set (out := run _ _ w). transitivity (out.1, out.2); [apply surjective_pairing|].
    apply (f_equal (fun r => (r, out.2))). vm_compute. reflexivity.
  - apply surjective_pairing.
Defined.

(** A thousand newer sessions of others, with the hashes ["x$1"], ["x$2"], ... *)
Definition crowd : list RefreshToken.t :=
  token 80 "t$1" 0 :: ((fun n => token (N.of_nat (100 + n)) ("x$" +:+ decimal (N.of_nat n))
    (Z.of_nat n + 1)) <$> seq 0 1000).

Lemma overtaken_token_refused_witness :
  forall x, (refresh_at Fixture.noon (Fixture.world (token_db crowd))).1 <> Returned (Ok x).
Proof.
  apply (overtaken_token_refused "key" "t" (Fixture.env_at Fixture.noon)
    (Fixture.world (token_db crowd)) (refresh_at Fixture.noon (Fixture.world (token_db crowd))).2
    (token 80 "t$1" 0)).
  - intros k rt Hk Hm.
    refine (map_Forall_lookup_1 (fun _ rt => AuthService.matches "t" rt = true -> rt = token 80 "t$1" 0)
      (refresh_tokens (token_db crowd)) k rt _ Hk Hm).
    intros k' rt' Hk' Hm'. apply elem_of_list_to_map_2, list_elem_of_fmap in Hk' as (rt0 & Heq & Hin).
    injection Heq as -> ->. apply elem_of_cons in Hin as [->|Hin]; [reflexivity|].
    apply list_elem_of_fmap in Hin as (n & -> & _). vm_compute in Hm'. discriminate Hm'.
  - apply Nat.leb_le. vm_compute. reflexivity.
  - apply surjective_pairing.
Defined.
End examples.
