(* ===== verification/CircuitBreaker.v ===== *)
(** * Circuit breaker and its client ([crates/infrastructure/src/circuit_breaker.rs], [llm.rs])

    The breaker's three shared cells and the atomic accesses a call makes to
    them, as a step relation on any number of concurrent calls; a call run alone
    is the composition of its accesses. [LlmClient] wraps one HTTP request in a
    breaker of three failures and sixty seconds. *)
From S2P Require Import Prelude Enums Entities Externals.

Module CircuitBreaker.

Inductive CircuitState := Closed | Open | HalfOpen.
#[global] Instance CircuitState_eq_dec : EqDecision CircuitState.
Proof. solve_decision. Defined.

(** The cells; [last_failure_at] is a monotonic [Instant]. *)
Record t := Mk {
  state : CircuitState;
  failure_count : Z;
  failure_threshold : Z;
  reset_timeout : Z;
  last_failure_at : option Z;
}.
#[global] Instance set_state : Setter state := fun f b =>
  Mk (f (state b)) (failure_count b) (failure_threshold b) (reset_timeout b) (last_failure_at b).
#[global] Instance set_failure_count : Setter failure_count := fun f b =>
  Mk (state b) (f (failure_count b)) (failure_threshold b) (reset_timeout b) (last_failure_at b).
#[global] Instance set_last_failure_at : Setter last_failure_at := fun f b =>
  Mk (state b) (failure_count b) (failure_threshold b) (reset_timeout b) (f (last_failure_at b)).

(** [CircuitBreaker::new] *)
Definition new (failure_threshold reset_timeout : Z) : t :=
  Mk Closed 0 failure_threshold reset_timeout None.

(** The check before the call, under the lock of [state]: [None] is
    [Err(CircuitError::Open)]. *)
Definition let_through (now : Z) (b : t) : option t :=
  match state b with
  | Open =>
      match last_failure_at b with
      | Some at_ => if reset_timeout b <=? now - at_ then Some (b <| state := HalfOpen |>) else None
      | None => None
      end
  | HalfOpen | Closed => Some b
  end.

(** After a success: the count is stored, then the state is set. *)
Definition reset_count (b : t) : t := b <| failure_count := 0 |>.
Definition close (b : t) : t := b <| state := Closed |>.

(** After a failure: [fetch_add] of a [u64], and, at the threshold, the circuit
    opens under the lock of [state]. *)
Definition count_failure (b : t) : Z * t :=
  let count := (failure_count b + 1) mod 2 ^ 64 in (count, b <| failure_count := count |>).
Definition trip (now : Z) (b : t) : t := b <| state := Open |> <| last_failure_at := Some now |>.

Inductive CircuitError (E : Type) := ErrOpen | Inner (e : E).
Arguments ErrOpen {E}.
Arguments Inner {E} e.

(** [CircuitBreaker::call], alone: checked at [t0], failing at [t1]; [f] is the
    outcome of the future, which is only polled when the call is admitted. *)
Definition call {A E : Type} (b : t) (t0 t1 : Z) (f : result A E) : result A (CircuitError E) * t :=
  match let_through t0 b with
  | None => (Err ErrOpen, b)
  | Some b =>
      match f with
      | Ok a => (Ok a, close (reset_count b))
      | Err e =>
          let '(count, b) := count_failure b in
          (Err (Inner e), if failure_threshold b <=? count then trip t1 b else b)
      end
  end.

(** ** Concurrent calls *)

(** Where a call is: not started, its future running, success counted, failure
    counted, or over (rejected or not). *)
Inductive Phase := Idle | Running | Resetting | Counted (count : Z) | Over (rejected : bool).

(** One atomic access of one call, at instant [now]. *)
Inductive access (now : Z) : Phase * t -> Phase * t -> Prop :=
| LetThrough b b' : let_through now b = Some b' -> access now (Idle, b) (Running, b')
| Rejected b : let_through now b = None -> access now (Idle, b) (Over true, b)
| Succeeded b : access now (Running, b) (Resetting, reset_count b)
| Closes b : access now (Resetting, b) (Over false, close b)
| Failed b count b' : count_failure b = (count, b') -> access now (Running, b) (Counted count, b')
| Trips b count : failure_threshold b <= count ->
    access now (Counted count, b) (Over false, trip now b)
| Stays b count : count < failure_threshold b -> access now (Counted count, b) (Over false, b).

(** Calls share the breaker; time does not go back. *)
Inductive step : (list Phase * t * Z) -> (list Phase * t * Z) -> Prop :=
| CallStep ps b now i p p' b' now' :
    now <= now' -> ps !! i = Some p -> access now' (p, b) (p', b') ->
    step (ps, b, now) (<[i := p']> ps, b', now').
End CircuitBreaker.

(** ** Invariants of every interleaving *)

Section breaker.
Import CircuitBreaker.

(** An open circuit knows when it opened, and that is not in the future. *)
Definition breaker_wf (b : t) (now : Z) : Prop :=
  0 <= failure_count b /\
  (state b <> Closed -> exists at_, last_failure_at b = Some at_ /\ at_ <= now) /\
  (forall at_, last_failure_at b = Some at_ -> at_ <= now).

Lemma access_wf now p b p' b' : access now (p, b) (p', b') -> breaker_wf b now -> breaker_wf b' now.
Proof.
  unfold breaker_wf. intros Ha (Hc & Hs & Hl). inversion Ha; subst; simpl; try done.
  - revert H0. unfold let_through. destruct (state b) eqn:Es; [by intros [= <-]| |by intros [= <-]; rewrite Es].
    destruct (last_failure_at b) as [x|] eqn:El; [|done].
    destruct (_ <=? _); [|done]. intros [= <-]. simpl. rewrite El. split_and!; [done|eauto|done].
  - unfold count_failure in *. simplify_eq/=. split_and!; [|done..].
    by apply Z.mod_pos_bound.
  - split_and!; [done| |by intros ? [= <-]]. eauto with lia.
Qed.

Lemma step_wf ps b now ps' b' now' : step (ps, b, now) (ps', b', now') ->
  breaker_wf b now -> breaker_wf b' now' /\ now <= now'.
Proof.
  intros Hs (Hc & Hst & Hl). inversion Hs as [? ? ? i p p' ? ? Hle Hi Ha]; subst. split; [|done].
  eapply access_wf; [done|]. split_and!; [done| |].
  - intros Hne. destruct (Hst Hne) as (x & ? & ?). exists x. split; [done|lia].
  - intros x Hx. specialize (Hl x Hx). lia.
Qed.

Lemma reachable_wf thr timeout ps ps' b' now now' :
  rtc step (ps, new thr timeout, now) (ps', b', now') -> breaker_wf b' now'.
Proof.
  assert (forall c c', rtc step c c' -> breaker_wf c.1.2 c.2 -> breaker_wf c'.1.2 c'.2) as Hinv.
  { induction 1 as [c|[[ps1 b1] n1] [[ps2 b2] n2] c3 Hstep _ IH]; [done|]. simpl. intros Hw.
    apply IH. simpl. by apply step_wf in Hstep as [? _]. }
  intros Hr. apply (Hinv _ _ Hr). simpl. by split_and!.
Qed.
End breaker.

(** C30: an open circuit never stays shut: in every interleaving of any number of
    calls, a call that finds the circuit open is rejected only during the reset
    timeout after the last trip; from then on it is admitted. *)
Theorem breaker_recovers (thr timeout : Z) (ps ps' : list CircuitBreaker.Phase)
  (b : CircuitBreaker.t) (now0 now t : Z) :
  rtc CircuitBreaker.step (ps, CircuitBreaker.new thr timeout, now0) (ps', b, now) ->
  now <= t ->
  (CircuitBreaker.let_through t b = None <->
   CircuitBreaker.state b = CircuitBreaker.Open /\ exists at_,
     CircuitBreaker.last_failure_at b = Some at_ /\ t - at_ < CircuitBreaker.reset_timeout b).
Proof.
  intros Hr Hle. apply reachable_wf in Hr as (_ & Hs & _). unfold CircuitBreaker.let_through.
  destruct (CircuitBreaker.state b) eqn:Es; [naive_solver| |naive_solver].
  destruct (Hs ltac:(done)) as (x & Hx & _). rewrite Hx.
  destruct (CircuitBreaker.reset_timeout b <=? t - x) eqn:Hle'; bool_to_prop; split; try done.
  - intros (_ & ? & [= <-] & ?). lia.
  - eauto.
Qed.

(** ** Calls one after the other *)

(** A run of calls, each with the instants of its check and of its failure. *)
Fixpoint calls {A E : Type} (b : CircuitBreaker.t) (l : list (Z * Z * result A E))
  : list (result A (CircuitBreaker.CircuitError E)) * CircuitBreaker.t :=
  match l with
  | [] => ([], b)
  | (t0, t1, f) :: l =>
      let '(r, b1) := CircuitBreaker.call b t0 t1 f in
      let '(rs, b2) := calls b1 l in (r :: rs, b2)
  end.

Section sequential.
Import CircuitBreaker.
Context {A E : Type}.

Definition failing (l : list (Z * Z * result A E)) : Prop :=
  Forall (fun x => exists e, x.2 = Err e) l.

(** Failures below the threshold only count. *)
Lemma calls_failing l (b : t) : failing l -> state b = Closed -> 0 <= failure_count b ->
  failure_count b + Z.of_nat (length l) < failure_threshold b -> failure_threshold b < 2 ^ 63 ->
  (calls b l).2 = b <| failure_count := failure_count b + Z.of_nat (length l) |>.
Proof.
  revert b. induction l as [|[[t0 t1] f] l IH]; intros b Hf Hs Hc Hlt Hthr.
  - simpl. rewrite Z.add_0_r. by destruct b.
  - apply Forall_cons in Hf as [[e He] Hf]. simpl in He. subst f. simpl.
    unfold call, let_through. rewrite Hs. simpl in *.
    assert ((failure_count b + 1) mod 2 ^ 64 = failure_count b + 1) as Hm by (apply Z.mod_small; lia).
    rewrite Hm. destruct (Z.leb_spec (failure_threshold b) (failure_count b + 1)); [lia|].
    destruct (calls _ l) as [rs b2] eqn:Ec. simpl.
    change b2 with ((rs, b2).2). rewrite <- Ec, IH; [|done|done|simpl; lia|simpl; lia|done].
    destruct b. unfold set_field, set_failure_count. simpl. f_equal. lia.
Qed.
End sequential.

Lemma admit_open t c thr timeout t1 :
  CircuitBreaker.let_through t (CircuitBreaker.Mk CircuitBreaker.Open c thr timeout (Some t1)) =
  if timeout <=? t - t1
  then Some (CircuitBreaker.Mk CircuitBreaker.HalfOpen c thr timeout (Some t1)) else None.
Proof. done. Qed.

(** C29: the breaker run call by call: exactly [failure_threshold] consecutive
    failures open a fresh circuit; during the timeout calls are rejected without
    being made; after it one call decides: a success closes the circuit and
    clears the count, a failure opens it again at once. *)
Theorem breaker_cycle {A E : Type} (thr timeout : Z) (l : list (Z * Z * result A E))
  (t0 t1 : Z) (e : E) :
  0 < thr < 2 ^ 63 -> 0 < timeout ->
  failing l -> Z.of_nat (length l) = thr - 1 ->
  let b0 := (calls (CircuitBreaker.new thr timeout) l).2 in
  let b1 := (CircuitBreaker.call b0 t0 t1 (Err e : result A E)).2 in
  CircuitBreaker.state b0 = CircuitBreaker.Closed /\
  CircuitBreaker.state b1 = CircuitBreaker.Open /\
  (forall t t' (f : result A E), t - t1 < timeout ->
     CircuitBreaker.call b1 t t' f = (Err CircuitBreaker.ErrOpen, b1)) /\
  (forall t t' (a : A), timeout <= t - t1 ->
     (CircuitBreaker.call b1 t t' (Ok a : result A E)).1 = Ok a /\
     (CircuitBreaker.call b1 t t' (Ok a : result A E)).2 =
       CircuitBreaker.Mk CircuitBreaker.Closed 0 thr timeout (Some t1)) /\
  (forall t t' (e' : E), timeout <= t - t1 ->
     (CircuitBreaker.call b1 t t' (Err e' : result A E)).1 = Err (CircuitBreaker.Inner e') /\
     CircuitBreaker.state (CircuitBreaker.call b1 t t' (Err e' : result A E)).2
       = CircuitBreaker.Open).
Proof.
  intros Hthr Htime Hf Hlen b0 b1.
  assert (b0 = CircuitBreaker.Mk CircuitBreaker.Closed (thr - 1) thr timeout None) as Hb0.
  { unfold b0. rewrite calls_failing; simpl; [|done..|lia|lia].
    unfold set_field, CircuitBreaker.set_failure_count. simpl. by rewrite Hlen. }
  assert (b1 = CircuitBreaker.Mk CircuitBreaker.Open thr thr timeout (Some t1)) as Hb1.
  { unfold b1. rewrite Hb0. unfold CircuitBreaker.call. simpl.
    rewrite Z.mod_small by lia. replace (thr - 1 + 1) with thr by lia. by rewrite Z.leb_refl. }
  rewrite Hb0, Hb1. split_and!; [done..| | |].
  - intros t t' f Ht. unfold CircuitBreaker.call. rewrite admit_open.
    destruct (Z.leb_spec timeout (t - t1)); [lia|done].
  - intros t t' a Ht. unfold CircuitBreaker.call. rewrite admit_open.
    destruct (Z.leb_spec timeout (t - t1)); [done|lia].
  - intros t t' e' Ht. unfold CircuitBreaker.call. rewrite admit_open.
    destruct (Z.leb_spec timeout (t - t1)); [|lia]. simpl.
    rewrite Z.mod_small by lia. destruct (Z.leb_spec thr (thr + 1)); [done|lia].
Qed.

(** The breaker of [LlmClient]: three failures, sixty seconds. *)
Lemma breaker_cycle_witness :
  let b1 := (CircuitBreaker.call
    (calls (CircuitBreaker.new 3 60)
       [(0, 1, Err "a" : result unit string); (2, 3, Err "b")]%string).2 4 5
    (Err "c" : result unit string)%string).2 in
  CircuitBreaker.state b1 = CircuitBreaker.Open /\
  CircuitBreaker.call b1 64 65 (Ok tt : result unit string) = (Err CircuitBreaker.ErrOpen, b1).
Proof.
  destruct (breaker_cycle 3 60 [(0, 1, Err "a" : result unit string); (2, 3, Err "b")]%string 4 5 "c"%string)
    as (_ & Hopen & Hrej & _).
  - split; reflexivity.
  - reflexivity.
  - repeat constructor; by eexists.
  - reflexivity.
  - split; [exact Hopen|]. apply Hrej. reflexivity.
Defined.

Lemma breaker_recovers_witness :
  let b := CircuitBreaker.trip 5 ((CircuitBreaker.new 1 60) <| CircuitBreaker.failure_count := 1 |>) in
  CircuitBreaker.let_through 65 b <> None.
Proof.
  intros b Hn.
  assert (rtc CircuitBreaker.step ([CircuitBreaker.Idle], CircuitBreaker.new 1 60, 0)
    ([CircuitBreaker.Over false], b, 5)) as Hr.
  { eapply rtc_l; [apply (CircuitBreaker.CallStep _ _ _ 0 CircuitBreaker.Idle CircuitBreaker.Running
      (CircuitBreaker.new 1 60) 1); [lia|reflexivity|by constructor]|].
    eapply rtc_l; [apply (CircuitBreaker.CallStep _ _ _ 0 CircuitBreaker.Running (CircuitBreaker.Counted 1)
      ((CircuitBreaker.new 1 60) <| CircuitBreaker.failure_count := 1 |>) 2);
      [lia|reflexivity|by constructor]|].
    eapply rtc_l; [apply (CircuitBreaker.CallStep _ _ _ 0 (CircuitBreaker.Counted 1)
      (CircuitBreaker.Over false) b 5); [lia|reflexivity|by constructor]|].
    reflexivity. }
  apply (breaker_recovers 1 60 _ _ b 0 5 65 Hr) in Hn; [|lia].
  destruct Hn as (_ & x & Hx & Hlt). simpl in Hx. injection Hx as <-. simpl in Hlt. lia.
Defined.

(** A half-open circuit is not a probe of one call: every call that comes
    while the first one is still running is admitted too. *)
Theorem half_open_admits_all (n : nat) : exists ps b now,
  rtc CircuitBreaker.step
    (replicate (S (S n)) CircuitBreaker.Idle, CircuitBreaker.trip 0 (CircuitBreaker.new 1 60), 0)
    (ps, b, now) /\
  CircuitBreaker.state b = CircuitBreaker.HalfOpen /\
  ps = replicate (S (S n)) CircuitBreaker.Running.
Proof.
  set (b0 := CircuitBreaker.trip 0 (CircuitBreaker.new 1 60)).
  set (b1 := b0 <| CircuitBreaker.state := CircuitBreaker.HalfOpen |>).
  assert (forall k m, rtc CircuitBreaker.step
    (replicate k CircuitBreaker.Running ++ replicate m CircuitBreaker.Idle, b1, 60)
    (replicate (k + m) CircuitBreaker.Running, b1, 60)) as Hrest.
  { intros k m. revert k. induction m as [|m IH]; intros k.
    - rewrite app_nil_r, Nat.add_0_r. reflexivity.
    - eapply rtc_l.
      + apply (CircuitBreaker.CallStep _ _ _ k CircuitBreaker.Idle CircuitBreaker.Running b1 60);
          [lia| |by constructor].
        rewrite lookup_app_r by (rewrite length_replicate; lia).
        by rewrite length_replicate, Nat.sub_diag.
      + rewrite insert_app_r_alt by (rewrite length_replicate; lia).
        rewrite length_replicate, Nat.sub_diag. simpl.
        replace (k + S m)%nat with (S k + m)%nat by lia.
        replace (replicate k CircuitBreaker.Running ++ CircuitBreaker.Running :: replicate m CircuitBreaker.Idle)
          with (replicate (S k) CircuitBreaker.Running ++ replicate m CircuitBreaker.Idle); [apply IH|].
        rewrite replicate_S_end, <- app_assoc. done. }
  exists (replicate (S (S n)) CircuitBreaker.Running), b1, 60. split; [|done].
  apply (rtc_l _ _ (<[0%nat := CircuitBreaker.Running]> (replicate (S (S n)) CircuitBreaker.Idle), b1, 60)).
  - by apply (CircuitBreaker.CallStep _ b0 0 0 CircuitBreaker.Idle CircuitBreaker.Running b1 60);
      [lia|done|constructor].
  - exact (Hrest 1%nat (S n)).
Qed.

(** ** The client *)

Module LlmClient.
Section llm.
Context {JT : JsonText}.

(** [Value::index]: a missing field or element is [Null]. *)
Definition field (v : Value) (k : string) : Value :=
  match v with
  | VObject fields => unwrap_or (snd <$> List.find (fun kv => bool_decide (kv.1 = k)) fields) VNull
  | _ => VNull
  end.
Definition element (v : Value) (i : nat) : Value :=
  match v with VArray l => unwrap_or (l !! i) VNull | _ => VNull end.
Definition as_str (v : Value) : option string := match v with VString s => Some s | _ => None end.

Definition newline : string := String (Ascii.ascii_of_nat 10) EmptyString.

(** The prompt. *)
Definition prompt (job_name error_message : string) (payload : Value) : string :=
  String.concat "" ["A background job named '"; job_name; "' failed with the following error:";
    newline; newline; "Error: "; error_message; newline; newline; "Payload: ";
    json_to_string payload; newline; newline;
    "Provide a concise 2-3 sentence explanation of what likely went wrong and how to fix it. ";
    "Be specific and technical."].
Definition request_body (job_name error_message : string) (payload : Value) : Value :=
  VObject [("model", VString "gemini-2.0-flash");
    ("contents", VArray [VObject [("parts", VArray [VObject
       [("text", VString (prompt job_name error_message payload))]])]])].

(** [LlmClient::new]'s breaker. *)
Definition breaker : CircuitBreaker.t := CircuitBreaker.new 3 (60 * SECOND).

(** The text of an answer. *)
Definition summary_of (response : Value) : option string :=
  as_str (field (element (field (field (element (field response "candidates") 0) "content") "parts") 0)
    "text").

(** [LlmClient::generate_failure_summary]; [http] answers the request. *)
Definition generate_failure_summary (http : Value -> result Value string) (b : CircuitBreaker.t)
  (t0 t1 : Z) (job_name error_message : string) (payload : Value)
  : option string * CircuitBreaker.t :=
  let '(r, b) := CircuitBreaker.call b t0 t1 (http (request_body job_name error_message payload)) in
  (match r with Ok response => summary_of response | Err _ => None end, b).
End llm.
End LlmClient.
