(* ===== verification/RateLimit.v ===== *)
(** * Rate limiting ([crates/api/src/middleware/rate_limit.rs])

    The token bucket of the Lua script, on the Redis keys of the world ([w_kv]:
    value and expiry), the middleware around it, and the key of a client.
    Redis runs a script atomically, so a check is one step. *)
From Stdlib Require Import Ascii.
From S2P Require Import Prelude Text Enums Entities RetryPolicy Db Fixture Steps Externals.

(** What the middleware reads of a request: header values by lower-case name, in
    order, and the claims the auth middleware attached. *)
Module Request.
Record t := Mk { headers : list (string * string); claims : option Claims.t }.

(** [headers().get(name)] *)
Definition header (name : string) (r : t) : option string :=
  snd <$> List.find (fun h => bool_decide (h.1 = name)) (headers r).

(** [HeaderValue::to_str]: visible ASCII and tabs only. *)
Definition visible (c : Ascii.ascii) : bool :=
  let n := Ascii.nat_of_ascii c in
  ((32 <=? n) && (n <? 127) || (n =? 9))%nat.
Fixpoint all_chars (p : Ascii.ascii -> bool) (s : string) : bool :=
  match s with EmptyString => true | String c s => p c && all_chars p s end.
Definition to_str (v : string) : option string := if all_chars visible v then Some v else None.
End Request.

Module RateLimit.
Definition BUCKET_CAPACITY : Z := 60.
Definition REFILL_PER_SECOND : Z := 1.
Definition REQUEST_COST : Z := 1.
Definition BUCKET_TTL_SECONDS : Z := 120.

(** [GET key], at the server's time: an expired key is absent. *)
Definition get (key : string) (now : Timestamp) (kv : gmap string (Z * Timestamp)) : option Z :=
  match kv !! key with
  | Some (v, expires_at) => if now <? expires_at then Some v else None
  | None => None
  end.
(** [SETEX key ttl value] *)
Definition setex (key : string) (ttl value : Z) (now : Timestamp)
  (kv : gmap string (Z * Timestamp)) : gmap string (Z * Timestamp) :=
  <[key := (value, now + ttl * SECOND)]> kv.

(** The script: [now] is the argument, [server] the time expiry is judged by. *)
Definition script (tokens_key timestamp_key : string)
  (capacity refill_per_second now requested ttl : Z) (server : Timestamp)
  (kv : gmap string (Z * Timestamp)) : Z * gmap string (Z * Timestamp) :=
  let tokens := unwrap_or (get tokens_key server kv) capacity in
  let last_refill := unwrap_or (get timestamp_key server kv) now in
  let elapsed := Z.max 0 (now - last_refill) in
  let tokens := Z.min capacity (tokens + elapsed * refill_per_second) in
  let '(allowed, tokens) :=
    if requested <=? tokens then (1, tokens - requested) else (0, tokens) in
  (allowed, setex timestamp_key ttl now server (setex tokens_key ttl tokens server kv)).

(** [rate_limit_key] *)
Definition rate_limit_key (req : Request.t) : string :=
  match Request.claims req with
  | Some claims => "user:" +:+ Claims.sub claims
  | None =>
      let value :=
        option_or (Request.header "x-forwarded-for" req)
          (option_or (Request.header "x-real-ip" req) (Request.header "user-agent" req)) in
      let raw_key := unwrap_or (match value with Some v => Request.to_str v | None => None end)
        "anonymous" in
      "ip:" +:+ trim (unwrap_or (head (split ","%char raw_key)) "anonymous")
  end.

(** The unit tests. *)
Definition uses_authenticated_user_id_when_claims_exist : bool :=
  String.eqb (rate_limit_key (Request.Mk [] (Some (Claims.Mk "user-123" "test@example.com" 1 1))))
    "user:user-123".
Definition falls_back_to_forwarded_ip : bool :=
  String.eqb (rate_limit_key (Request.Mk [("x-forwarded-for", "203.0.113.10, 10.0.0.1")] None))
    "ip:203.0.113.10".

Definition tokens_key (client_key : string) : string := "rate_limit:" +:+ client_key +:+ ":tokens".
Definition timestamp_key (client_key : string) : string := "rate_limit:" +:+ client_key +:+ ":ts".

(** One run of the script by the middleware; [Err] is a failed Redis command,
    which may have been executed. *)
Definition check_bucket (client_key : string) (now : Z) : prog (result Z sqlx_error) :=
  Step (fun e w =>
    let '(allowed, kv) := script (tokens_key client_key) (timestamp_key client_key)
      BUCKET_CAPACITY REFILL_PER_SECOND now REQUEST_COST BUCKET_TTL_SECONDS (e_now e) (w_kv w) in
    match e_fault e 0 with
    | NoFault => (Ok allowed, w <| w_kv := kv |>)
    | LostBefore => (Err Io, w)
    | LostAfter => (Err Io, w <| w_kv := kv |>)
    end) Ret.

(** [rate_limit_middleware]: a status, or what [next] answers. *)
Definition rate_limit_middleware {A : Type} (req : Request.t) (next : prog A) : prog (result A Z) :=
  now <- utc_now ;;
  if now <? 0 then Ret (Err 500) else
  allowed <- check_bucket (rate_limit_key req) (now / SECOND) ;;
  match allowed with
  | Ok n => if n =? 1 then a <- next ;; Ret (Ok a) else Ret (Err 429)
  | Err _ => a <- next ;; Ret (Ok a)
  end.
End RateLimit.

(** ** The bucket of one client *)

Section bucket.
Import RateLimit.

(** The pairs of keys of different clients differ, and so do the two keys of
    one client. *)
Lemma chars_app (a b : string) :
  String.list_ascii_of_string (a +:+ b) = String.list_ascii_of_string a ++ String.list_ascii_of_string b.
Proof.
  induction a as [|x a IH]; [by destruct b|].
  change (x :: String.list_ascii_of_string (a +:+ b) = x :: (String.list_ascii_of_string a ++ String.list_ascii_of_string b)).
  by rewrite IH.
Qed.

Lemma string_app_inj_r (a b c : string) : (a +:+ c = b +:+ c)%string -> a = b.
Proof.
  intros Heq. apply (f_equal String.list_ascii_of_string) in Heq. rewrite !chars_app in Heq.
  apply app_inv_tail in Heq. apply (f_equal String.string_of_list_ascii) in Heq.
  by rewrite !String.string_of_list_ascii_of_string in Heq.
Qed.

Lemma string_app_inj_l (a b c : string) : (a +:+ b = a +:+ c)%string -> b = c.
Proof.
  intros Heq. apply (f_equal String.list_ascii_of_string) in Heq. rewrite !chars_app in Heq.
  apply app_inv_head in Heq. apply (f_equal String.string_of_list_ascii) in Heq.
  by rewrite !String.string_of_list_ascii_of_string in Heq.
Qed.

Lemma tokens_timestamp_differ c c' : tokens_key c <> timestamp_key c'.
Proof.
  intros Heq. apply (f_equal (fun s => rev (String.list_ascii_of_string s))) in Heq.
  unfold tokens_key, timestamp_key in Heq. rewrite !chars_app, !rev_app_distr in Heq. done.
Qed.
Lemma tokens_key_inj c c' : tokens_key c = tokens_key c' -> c = c'.
Proof. unfold tokens_key. intros Heq%string_app_inj_l. by apply string_app_inj_r in Heq. Qed.
Lemma timestamp_key_inj c c' : timestamp_key c = timestamp_key c' -> c = c'.
Proof. unfold timestamp_key. intros Heq%string_app_inj_l. by apply string_app_inj_r in Heq. Qed.

(** The state of a client's bucket as its next check sees it at second [now]:
    the tokens that would be available. *)
Definition available (client : string) (now : Z) (server : Timestamp)
  (kv : gmap string (Z * Timestamp)) : Z :=
  Z.min BUCKET_CAPACITY
    (unwrap_or (get (tokens_key client) server kv) BUCKET_CAPACITY
     + Z.max 0 (now - unwrap_or (get (timestamp_key client) server kv) now) * REFILL_PER_SECOND).

(** A check in normal form. *)
Definition bucket (client : string) (now : Z) (server : Timestamp)
  (kv : gmap string (Z * Timestamp)) : Z * gmap string (Z * Timestamp) :=
  script (tokens_key client) (timestamp_key client) BUCKET_CAPACITY REFILL_PER_SECOND now
    REQUEST_COST BUCKET_TTL_SECONDS server kv.

Lemma bucket_spec client now server kv :
  bucket client now server kv =
  let n := available client now server kv in
  let '(allowed, left_) := if 1 <=? n then (1, n - 1) else (0, n) in
  (allowed, setex (timestamp_key client) 120 now server (setex (tokens_key client) 120 left_ server kv)).
Proof. reflexivity. Qed.

Lemma get_setex_same key ttl v t t' kv : get key t' (setex key ttl v t kv) =
  if t' <? t + ttl * SECOND then Some v else None.
Proof. unfold get, setex. by rewrite lookup_insert_eq. Qed.
Lemma get_setex_ne key key' ttl v t t' kv : key <> key' ->
  get key' t' (setex key ttl v t kv) = get key' t' kv.
Proof. intros Hne. unfold get, setex. by rewrite lookup_insert_ne. Qed.

(** Two checks in a row, each by the clock of the process that makes it and by
    Redis's: the processes' clock does not go back, and gains at least 60 seconds
    while Redis's gains the 120 of the keys' life. *)
Definition paced (x y : Timestamp * Timestamp) : Prop :=
  x.1 <= y.1 /\ (y.2 - x.2 < 120 * SECOND \/ 60 * SECOND <= y.1 - x.1).

Lemma seconds_mono t t' : t <= t' -> t / SECOND <= t' / SECOND.
Proof. intros. apply Z.div_le_mono; [done|lia]. Qed.

(** After a check that left [n] tokens, the bucket holds what these have grown
    to; expiry only ever finds a bucket that refilling would have filled anyway. *)
Definition holds (client : string) (n : Z) (x : Timestamp * Timestamp)
  (kv : gmap string (Z * Timestamp)) : Prop :=
  0 <= n /\ forall y, paced x y ->
    available client (y.1 / SECOND) y.2 kv = Z.min BUCKET_CAPACITY (n + (y.1 / SECOND - x.1 / SECOND)).

Lemma bucket_holds client x kv : 0 <= available client (x.1 / SECOND) x.2 kv ->
  let m := available client (x.1 / SECOND) x.2 kv in
  let a := if 1 <=? m then 1 else 0 in
  exists kv', bucket client (x.1 / SECOND) x.2 kv = (a, kv') /\ holds client (m - a) x kv'.
Proof.
  intros Hpos m a. rewrite bucket_spec. cbv zeta. fold m.
  assert ((if 1 <=? m then (1, m - 1) else (0, m)) = (a, m - a)) as ->.
  { unfold a. destruct (1 <=? m); [done|]. by rewrite Z.sub_0_r. }
  eexists. split; [done|]. split; [unfold a; destruct (Z.leb_spec 1 m); lia|].
  intros y [Hle Hexp]. pose proof (seconds_mono _ _ Hle) as Hsec.
  assert (0 <= m - a <= BUCKET_CAPACITY) as Hm.
  { assert (m <= BUCKET_CAPACITY) by (unfold m, available; lia). fold m in Hpos.
    unfold a. destruct (Z.leb_spec 1 m); lia. }
  unfold available. rewrite get_setex_same, get_setex_ne, get_setex_same
    by (symmetry; apply tokens_timestamp_differ).
  unfold REFILL_PER_SECOND. destruct (Z.ltb_spec y.2 (x.2 + 120 * SECOND)); simpl; [lia|].
  assert (x.1 / SECOND + 60 <= y.1 / SECOND).
  { rewrite <- (Z.div_add x.1 60 SECOND) by done. apply seconds_mono. lia. }
  unfold BUCKET_CAPACITY in *. lia.
Qed.
End bucket.

(** ** Sequences of requests *)

Section sequences.
Import RateLimit.

(** The requests a client gets through, and what Redis holds after them; each
    check is the time by the process's clock and by Redis's. *)
Fixpoint admitted (client : string) (checks : list (Timestamp * Timestamp))
  (kv : gmap string (Z * Timestamp)) : Z * gmap string (Z * Timestamp) :=
  match checks with
  | [] => (0, kv)
  | x :: checks =>
      let '(allowed, kv) := bucket client (x.1 / SECOND) x.2 kv in
      let '(n, kv) := admitted client checks kv in (allowed + n, kv)
  end.





Lemma admitted_steady client checks n x kv :
  holds client n x kv -> Sorted (fun x y => paced x y /\ x.1 / SECOND < y.1 / SECOND) (x :: checks) ->
  (admitted client checks kv).1 = Z.of_nat (length checks).
Proof.
  revert n x kv. induction checks as [|y checks IH]; intros n x kv Hh Hs; [done|].
  apply Sorted_inv in Hs as [Hs [Hxy Hlt]%HdRel_inv]. destruct Hh as [Hn Hav].
  specialize (Hav y Hxy). assert (1 <= available client (y.1 / SECOND) y.2 kv) as Hpos
    by (unfold BUCKET_CAPACITY in *; lia).
  destruct (bucket_holds client y kv) as (kv' & E & Hh'); [lia|].
  cbn [admitted]. rewrite E. specialize (IH _ _ _ Hh' Hs). rewrite (proj2 (Z.leb_le _ _) Hpos).
  destruct (admitted client checks kv') as [k kv2]. simpl in IH |- *. lia.
Qed.
End sequences.




(** The order is needed: the script stores the time of every check, an earlier
    one included, so two processes whose clocks differ by two seconds, checking
    in turn at the same moment, refill the bucket as fast as they empty it, and
    every request passes. *)
Fixpoint in_turn (n : nat) (t : Timestamp) : list (Timestamp * Timestamp) :=
  match n with
  | O => []
  | S n => (t + 2 * SECOND, t) :: (t, t) :: in_turn n t
  end.

Lemma bucket_stored client now server kv v v' :
  kv !! RateLimit.tokens_key client = Some (v, server + 120 * SECOND) ->
  kv !! RateLimit.timestamp_key client = Some (v', server + 120 * SECOND) ->
  available client now server kv = Z.min 60 (v + Z.max 0 (now - v') * 1).
Proof.
  intros Hk Ht. unfold available, RateLimit.get. rewrite Hk, Ht.
  destruct (Z.ltb_spec server (server + 120 * SECOND)); [done|unfold SECOND in *; lia].
Qed.

Theorem skewed_clocks_admit_all (client : string) (n : nat) (t : Timestamp) :
  (admitted client (in_turn n t) ∅).1 = 2 * Z.of_nat n.
Proof.
  assert (forall n kv, available client (t / SECOND + 2) t kv = 60 ->
    (admitted client (in_turn n t) kv).1 = 2 * Z.of_nat n) as Hall.
  { clear n. intros n. induction n as [|n IH]; intros kv Hkv; [done|]. cbn [in_turn admitted fst snd].
    replace ((t + 2 * SECOND) / SECOND) with (t / SECOND + 2) by (by rewrite Z.div_add).
    rewrite bucket_spec. cbv zeta. rewrite Hkv. cbn.
    match goal with |- context [bucket client (t / SECOND) t ?kv1] => set (kv1' := kv1) end.
    assert (available client (t / SECOND) t kv1' = 59) as H1.
    { rewrite (bucket_stored _ _ _ _ 59 (t / SECOND + 2)); [lia|..]; unfold kv1', RateLimit.setex;
        rewrite ?lookup_insert_eq, ?lookup_insert_ne by (symmetry; apply tokens_timestamp_differ);
        by rewrite ?lookup_insert_eq. }
    rewrite bucket_spec. cbv zeta. rewrite H1. cbn.
    match goal with |- context [admitted client _ ?kv2] => set (kv2' := kv2) end.
    assert (available client (t / SECOND + 2) t kv2' = 60) as H2.
    { rewrite (bucket_stored _ _ _ _ 58 (t / SECOND)); [lia|..]; unfold kv2', RateLimit.setex;
        rewrite ?lookup_insert_eq, ?lookup_insert_ne by (symmetry; apply tokens_timestamp_differ);
        by rewrite ?lookup_insert_eq. }
    specialize (IH kv2' H2). destruct (admitted client (in_turn n t) kv2') as [k kv3]. simpl in *. lia. }
  apply Hall. unfold available, RateLimit.get. rewrite !lookup_empty. simpl.
  unfold RateLimit.BUCKET_CAPACITY, RateLimit.REFILL_PER_SECOND. lia.
Qed.

(** The bucket is fair: a client whose requests fall in different seconds
    is never refused. *)
Theorem steady_client_admitted (client : string) (kv : gmap string (Z * Timestamp))
  (x : Timestamp * Timestamp) (checks : list (Timestamp * Timestamp)) :
  1 <= available client (x.1 / SECOND) x.2 kv ->
  Sorted (fun x y => paced x y /\ x.1 / SECOND < y.1 / SECOND) (x :: checks) ->
  (admitted client (x :: checks) kv).1 = Z.of_nat (length (x :: checks)).
Proof.
  intros Ha Hs. destruct (bucket_holds client x kv) as (kv' & E & Hh); [lia|].
  pose proof (admitted_steady client checks _ x kv' Hh Hs) as Hn. cbn [admitted]. rewrite E.
  rewrite (proj2 (Z.leb_le _ _) Ha).
  destruct (admitted client checks kv') as [n kv2]. simpl in Hn |- *. lia.
Qed.

Lemma steady_client_admitted_witness :
  let at_second n := (Fixture.noon + n * SECOND, Fixture.noon + n * SECOND) in
  (admitted "ip:x" [at_second 0; at_second 1; at_second 150] ∅).1 = 3.
Proof.
  intros at_second. apply (steady_client_admitted "ip:x").
  - vm_compute. discriminate.
  - repeat constructor; (vm_compute; congruence) || (left; vm_compute; congruence)
      || (right; vm_compute; congruence).
Defined.

(** Clients do not share buckets: a check of one client leaves what another
    client has available as it was. *)
Theorem clients_independent (client client' : string) (t t' server server' : Z)
  (kv : gmap string (Z * Timestamp)) :
  client <> client' ->
  available client' t' server' (bucket client t server kv).2 = available client' t' server' kv.
Proof.
  intros Hne. rewrite bucket_spec. cbv zeta.
  assert (forall n, available client' t' server'
    (RateLimit.setex (RateLimit.timestamp_key client) 120 t server
      (RateLimit.setex (RateLimit.tokens_key client) 120 n server kv)) =
    available client' t' server' kv) as Hsame.
  { intros n. unfold available.
    rewrite !get_setex_ne; [done|intros Heq..];
      first [ by apply tokens_key_inj in Heq | by apply timestamp_key_inj in Heq
            | by apply tokens_timestamp_differ in Heq
            | symmetry in Heq; by apply tokens_timestamp_differ in Heq ]. }
  destruct (1 <=? _); apply Hsame.
Qed.

Lemma clients_independent_witness :
  available "ip:b" 0 0 (bucket "ip:a" 0 0 ∅).2 = 60.
Proof. rewrite (clients_independent "ip:a" "ip:b" 0 0 0 0 ∅); [reflexivity|discriminate]. Defined.

(** The two unit tests of the source. *)
Lemma rate_limit_key_tests :
  RateLimit.uses_authenticated_user_id_when_claims_exist &&
  RateLimit.falls_back_to_forwarded_ip = true.
Proof. vm_compute. reflexivity. Qed.
