(* ===== verification/Requests.v ===== *)
(** * What requests carry ([crates/api/src/handlers])

    The [Deserialize] structs the handlers take, one Module each, and the
    defaults [#[serde(default)]] gives to fields a query string leaves out. The
    parsing of JSON and query strings is the framework's. *)
From S2P Require Import Prelude Entities.

(** ** [handlers/auth.rs] *)

Module RegisterRequest.
Record t := Mk { email : string; password : string; display_name : option string }.
End RegisterRequest.

Module LoginRequest.
Record t := Mk { email : string; password : string }.
End LoginRequest.

Module RefreshRequest.
Record t := Mk { refresh_token : string }.
End RefreshRequest.

Module LogoutRequest.
Record t := Mk { refresh_token : string }.
End LogoutRequest.

Module AuthResponse.
Record t := Mk { access_token : string; refresh_token : string; user_id : string; email : string }.
End AuthResponse.

(** ** [handlers/jobs.rs] *)

Module ListJobsQuery.
Record t := Mk { limit : Z; offset : Z }.
Definition default_limit : Z := 20.
(** The fields a query string gives; [i64::default()] is 0. *)
Definition of_query (limit offset : option Z) : t :=
  Mk (unwrap_or limit default_limit) (unwrap_or offset 0).
End ListJobsQuery.

(** ** [handlers/queues.rs] *)

Module CreateQueueRequest.
Record t := Mk {
  project_id : Uuid;
  name : string;
  description : option string;
  concurrency_limit : option Z;
  retry_policy_id : option Uuid;
}.
End CreateQueueRequest.

(** ** [handlers/dlq.rs] *)

Module ListDlqQuery.
Record t := Mk { project_id : Uuid; limit : Z; offset : Z }.
Definition default_limit : Z := 20.
Definition of_query (project_id : Uuid) (limit offset : option Z) : t :=
  Mk project_id (unwrap_or limit default_limit) (unwrap_or offset 0).
End ListDlqQuery.

(** ** [handlers/projects.rs] *)

Module CreateProjectRequest.
Record t := Mk {
  organization_name : string;
  organization_slug : string;
  name : string;
  slug : string;
  description : option string;
}.
End CreateProjectRequest.

(** ** [handlers/workflows.rs] *)

Module CreateDependencyRequest.
Record t := Mk { dependent_job_id : Uuid; dependency_job_id : Uuid }.
End CreateDependencyRequest.
