(* ===== verification/Api.v ===== *)
(** * HTTP layer ([crates/api/src], [crates/common/src])

    Application errors and their responses, the three middleware links, the
    handlers of the protected routes and of authentication, and the order in
    which a route composes them. Path, query and body extraction is the
    framework's: a handler takes the extracted values. A derived [Serialize] is
    generated code: the JSON of a struct is an argument. *)
From S2P Require Import Prelude Enums Entities RetryPolicy Db Fixture Steps JobRepository.
From S2P Require Import Repositories Externals JobService QueueService DlqService ProjectService.
From S2P Require Import WorkflowService AuthService RateLimit Requests.

(** [#[derive(Serialize)]] *)
Class Serialize (A : Type) := to_value : A -> Value.
(** A struct of strings is the object of its fields. *)
#[export] Instance auth_response_value : Serialize AuthResponse.t := fun x =>
  VObject [("access_token", VString (AuthResponse.access_token x));
           ("refresh_token", VString (AuthResponse.refresh_token x));
           ("user_id", VString (AuthResponse.user_id x)); ("email", VString (AuthResponse.email x))].

(** [Display] of the error types the sources pass on as text. *)
Class ErrorText := {
  sqlx_error_text : sqlx_error -> string;
  auth_error_text : AuthError.t -> string;
  domain_error_text : DomainError.t -> string;
}.

Module AppError.
Inductive t :=
| NotFound (msg : string)
| Unauthorized
| Forbidden (msg : string)
| BadRequest (msg : string)
| Conflict (msg : string)
| Internal (msg : string)
| Database (e : sqlx_error)
| Domain (e : DomainError.t).

(** [IntoResponse]: the status, and the message shown. *)
Definition status (e : t) : Z :=
  match e with
  | NotFound _ => 404
  | Unauthorized => 401
  | Forbidden _ => 403
  | BadRequest _ => 400
  | Conflict _ => 409
  | Database _ => 500
  | Domain _ => 400
  | Internal _ => 500
  end.
Definition message `{!ErrorText} (e : t) : string :=
  match e with
  | NotFound msg | Forbidden msg | BadRequest msg | Conflict msg | Internal msg => msg
  | Unauthorized => "Unauthorized"
  | Database _ => "Database error"
  | Domain e => domain_error_text e
  end.
Definition into_response `{!ErrorText} (e : t) : Z * Value :=
  (status e, VObject [("error", VObject [("code", VNumber (status e)); ("message", VString (message e))])]).
End AppError.

(** [common::correlation] *)
Module Correlation.
Definition new_correlation_id : prog Uuid := new_v4.
Definition from_header `{!UuidText} (value : option string) : prog Uuid :=
  match value with
  | Some v => match parse_str v with Some u => Ret u | None => new_v4 end
  | None => new_v4
  end.
End Correlation.

(** ** Handlers *)

(** [AppState]: the services are handles on the pool; of their own they hold the
    secret of the tokens. *)
Module AppState.
Record t := Mk { auth_service : AuthService.t; jwt_secret : string }.
Definition new (jwt_secret : string) : t := Mk (AuthService.new jwt_secret) jwt_secret.
End AppState.

Module Handlers.
Section handlers.
Context {UT : UuidText} {CT : ChronoText} {CH : Chrono} {CR : Cron} {BC : Bcrypt} {JW : Jwt}.
Context {ET : ErrorText}.
Context {S1 : Serialize Job.t} {S2 : Serialize Queue.t} {S3 : Serialize QueueStats.t}
  {S4 : Serialize Project.t} {S5 : Serialize DeadLetterEntry.t} {S6 : Serialize JobSummary.t}
  {S7 : Serialize JobExecution.t} {S8 : Serialize JobStatus.t}.
Import AppError.

(** A handler's answer: a status with a body, or an error. *)
Abbreviation answer := (prog (result (Z * Value) AppError.t)).

Definition uuid_value (u : Uuid) : Value := VString (uuid_to_string u).
Definition not_found (what : string) (id : Uuid) : AppError.t :=
  NotFound (String.concat "" [what; " "; uuid_to_string id; " not found"]).

(** [Uuid::parse_str(&claims.sub).map_err(|_| AppError::Unauthorized)?] *)
Definition as_user (claims : Claims.t) (k : Uuid -> answer) : answer :=
  user_id <-! parse_str (Claims.sub claims) else Unauthorized ;; k user_id.

(** *** Jobs ([handlers/jobs.rs]) *)

Definition map_create_job_error (e : JobServiceError.t) : AppError.t :=
  match e with
  | JobServiceError.QueueNotFound id => not_found "Queue" id
  | JobServiceError.QueuePaused id =>
      Conflict (String.concat "" ["Queue "; uuid_to_string id; " is paused"])
  | JobServiceError.Forbidden => Forbidden "User is not allowed to create jobs in this queue"
  | JobServiceError.InvalidCronExpression expr => BadRequest ("Invalid cron expression: " +:+ expr)
  | JobServiceError.Database e => Database e
  end.

Definition create_job (claims : Claims.t) (queue_id : Uuid) (req : CreateJobRequest.t) : answer :=
  as_user claims (fun user_id =>
    job <-? JobService.create_job queue_id user_id req via map_create_job_error ;;
    Ret (Ok (201, VObject [("job_id", uuid_value (Job.id job));
      ("correlation_id", uuid_value (Job.correlation_id job));
      ("status", to_value (Job.status job)); ("name", VString (Job.name job));
      ("created_at", VString (rfc3339 (Job.created_at job)))]))).

Definition internal (e : sqlx_error) : AppError.t := Internal (sqlx_error_text e).

Definition list_jobs (queue_id : Uuid) (params : ListJobsQuery.t) : answer :=
  jobs <-? JobService.list_jobs queue_id (ListJobsQuery.limit params) (ListJobsQuery.offset params)
    via internal ;;
  Ret (Ok (200, VObject [("jobs", VArray (to_value <$> jobs));
                         ("limit", VNumber (ListJobsQuery.limit params));
                         ("offset", VNumber (ListJobsQuery.offset params))])).

Definition get_job (job_id : Uuid) : answer :=
  job <-? JobService.get_job job_id via internal ;;
  job <-! job else not_found "Job" job_id ;;
  Ret (Ok (200, to_value job)).

Definition list_job_executions (job_id : Uuid) : answer :=
  executions <-? JobService.list_executions job_id via internal ;;
  Ret (Ok (200, VObject [("executions", VArray (to_value <$> executions))])).

Definition cancel_job (claims : Claims.t) (job_id : Uuid) : answer :=
  as_user claims (fun user_id =>
    r <-? JobService.cancel_job job_id user_id via map_create_job_error ;;
    Ret (Ok (200, VObject [("status", VString "cancelled"); ("job_id", uuid_value job_id)]))).

(** *** Queues ([handlers/queues.rs]) *)

Definition map_queue_error (e : QueueServiceError.t) : AppError.t :=
  match e with
  | QueueServiceError.QueueNotFound id => not_found "Queue" id
  | QueueServiceError.Forbidden => Forbidden "User is not allowed to access this queue"
  | QueueServiceError.Database e => Database e
  end.

Definition list_queues (claims : Claims.t) (project_id : Uuid) : answer :=
  as_user claims (fun user_id =>
    queues <-? QueueService.list_by_project user_id project_id via map_queue_error ;;
    Ret (Ok (200, VObject [("queues", VArray (to_value <$> queues))]))).

Definition create_queue (claims : Claims.t) (req : CreateQueueRequest.t) : answer :=
  as_user claims (fun user_id =>
    queue <-? QueueService.create_queue user_id (CreateQueueRequest.project_id req)
      (CreateQueueRequest.name req) (CreateQueueRequest.description req)
      (unwrap_or (CreateQueueRequest.concurrency_limit req) 10)
      (CreateQueueRequest.retry_policy_id req) via map_queue_error ;;
    Ret (Ok (201, to_value queue))).

Definition queue_stats (claims : Claims.t) (queue_id : Uuid) : answer :=
  as_user claims (fun user_id =>
    stats <-? QueueService.get_stats user_id queue_id via map_queue_error ;;
    Ret (Ok (200, to_value stats))).

Definition pause_queue (claims : Claims.t) (queue_id : Uuid) : answer :=
  as_user claims (fun user_id =>
    r <-? QueueService.pause_queue user_id queue_id via map_queue_error ;;
    Ret (Ok (200, VObject [("status", VString "paused"); ("queue_id", uuid_value queue_id)]))).

Definition resume_queue (claims : Claims.t) (queue_id : Uuid) : answer :=
  as_user claims (fun user_id =>
    r <-? QueueService.resume_queue user_id queue_id via map_queue_error ;;
    Ret (Ok (200, VObject [("status", VString "resumed"); ("queue_id", uuid_value queue_id)]))).

(** *** Dead letters ([handlers/dlq.rs]) *)

Definition map_retry_error (e : DlqServiceError.t) : AppError.t :=
  match e with
  | DlqServiceError.DlqEntryNotFound id => not_found "DLQ entry" id
  | DlqServiceError.AlreadyRetried id =>
      Conflict (String.concat "" ["DLQ entry "; uuid_to_string id; " was already retried"])
  | DlqServiceError.JobNotFound id => not_found "Original job" id
  | DlqServiceError.Forbidden => Forbidden "User is not allowed to retry this DLQ entry"
  | DlqServiceError.Database e => Database e
  end.

Definition list_dlq (params : ListDlqQuery.t) : answer :=
  entries <-? DlqService.list (ListDlqQuery.project_id params) (ListDlqQuery.limit params)
    (ListDlqQuery.offset params) via internal ;;
  Ret (Ok (200, VObject [("entries", VArray (to_value <$> entries))])).

Definition retry_dlq_job (claims : Claims.t) (dlq_id : Uuid) : answer :=
  as_user claims (fun retried_by =>
    r <-? DlqService.retry_job dlq_id retried_by via map_retry_error ;;
    Ret (Ok (200, VObject [("status", VString "requeued"); ("dlq_id", uuid_value dlq_id)]))).

(** *** Projects ([handlers/projects.rs]) *)

Definition list_projects (claims : Claims.t) : answer :=
  as_user claims (fun user_id =>
    projects <-? ProjectService.list_for_user user_id via internal ;;
    Ret (Ok (200, VObject [("projects", VArray (to_value <$> projects))]))).

Definition create_project (claims : Claims.t) (req : CreateProjectRequest.t) : answer :=
  as_user claims (fun user_id =>
    project <-? ProjectService.create_project user_id
      (CreateProjectRequest.organization_name req) (CreateProjectRequest.organization_slug req)
      (CreateProjectRequest.name req) (CreateProjectRequest.slug req)
      (CreateProjectRequest.description req) via (fun e => BadRequest (sqlx_error_text e)) ;;
    Ret (Ok (201, to_value project))).

(** *** Workflows ([handlers/workflows.rs]) *)

Definition create_dependency (claims : Claims.t) (req : CreateDependencyRequest.t) : answer :=
  let dependent := CreateDependencyRequest.dependent_job_id req in
  let dependency := CreateDependencyRequest.dependency_job_id req in
  as_user claims (fun user_id =>
    project_id <-? sql (query (fun d : Db => option_map Job.project_id (jobs d !! dependent)))
      via Database ;;
    project_id <-! project_id else not_found "Job" dependent ;;
    member <-? sql (query (fun d => ProjectRepository.role_of d project_id user_id)) via Database ;;
    match member with
    | None => Ret (Err (Forbidden "User is not a member of this project"))
    | Some _ =>
        r <-? WorkflowService.create_dependency dependent dependency via internal ;;
        Ret (Ok (201, VObject [("dependent_job_id", uuid_value dependent);
          ("dependency_job_id", uuid_value dependency);
          ("message", VString "Dependency registered")]))
    end).

(** *** Authentication ([handlers/auth.rs]) *)

Definition register (req : RegisterRequest.t) : answer :=
  user <-? AuthService.register (RegisterRequest.email req) (RegisterRequest.password req)
    (RegisterRequest.display_name req) via (fun e => BadRequest (auth_error_text e)) ;;
  Ret (Ok (200, VObject [("user_id", uuid_value (User.id user)); ("email", VString (User.email user));
                         ("message", VString "Registration successful")])).

Definition login (auth : AuthService.t) (req : LoginRequest.t) : answer :=
  session <-? AuthService.login auth (LoginRequest.email req) (LoginRequest.password req)
    via (fun _ => Unauthorized) ;;
  let '(access_token, refresh_token, user) := session in
  Ret (Ok (200, to_value (AuthResponse.Mk access_token refresh_token
                  (uuid_to_string (User.id user)) (User.email user)))).

Definition refresh (auth : AuthService.t) (req : RefreshRequest.t) : answer :=
  session <-? AuthService.refresh auth (RefreshRequest.refresh_token req) via (fun _ => Unauthorized) ;;
  let '(access_token, user) := session in
  Ret (Ok (200, VObject [("access_token", VString access_token); ("user_id", uuid_value (User.id user));
                         ("email", VString (User.email user))])).

Definition logout (req : LogoutRequest.t) : answer :=
  r <-? AuthService.logout (LogoutRequest.refresh_token req) via (fun _ => Unauthorized) ;;
  Ret (Ok (200, VObject [("message", VString "Logged out successfully")])).

(** *** Health and metrics ([handlers/health.rs]) *)

Definition health : answer := Ret (Ok (200, VObject [("status", VString "ok")])).

(** [SELECT 1] *)
Definition ready : answer :=
  r <- sql (query (fun _ => tt)) ;;
  let db_ok := is_ok r in
  Ret (Ok (200, VObject [("status", VString (if db_ok then "ready" else "not_ready"));
                         ("db", VBool db_ok)])).

Definition live : answer := Ret (Ok (200, VObject [("status", VString "alive")])).

(** [SELECT status::text, COUNT( * ) FROM jobs GROUP BY status]: a status
    without jobs has no row. *)
Definition jobs_with (d : Db) (s : JobStatus.t) : Z :=
  rows_affected (fun j => bool_decide (Job.status j = s)) (jobs d).
Definition status_counts (d : Db) : list (JobStatus.t * Z) :=
  List.filter (fun x => 0 <? x.2) ((fun s => (s, jobs_with d s)) <$> JobStatus.all).
Definition dead_letters (d : Db) : Z := rows_affected (fun _ => true) (dead_letter_queue d).
Definition active_workers (d : Db) : Z := rows_affected Worker.is_active (workers d).

(** A failed query counts nothing. *)
Definition metrics : answer :=
  rows <- sql (query status_counts) ;;
  dlq_count <- sql (query dead_letters) ;;
  worker_count <- sql (query active_workers) ;;
  Ret (Ok (200, VObject
    (((fun x => (JobStatus.to_string x.1 +:+ "_jobs", VNumber x.2)) <$> unwrap_or (result_ok rows) [])
     ++ [("dlq_count", VNumber (unwrap_or (result_ok dlq_count) 0));
         ("active_workers", VNumber (unwrap_or (result_ok worker_count) 0))]))).

Definition list_workers : answer :=
  heartbeats <- WorkerRepository.list_active ;;
  Ret (Ok (200, VObject [("workers", VArray ((fun hb =>
    VObject [("worker_id", uuid_value (WorkerHeartbeat.worker_id hb));
             ("last_seen", VString (rfc3339 (WorkerHeartbeat.last_seen hb)));
             ("active_jobs", VNumber (WorkerHeartbeat.active_jobs hb))])
    <$> unwrap_or (result_ok heartbeats) []))])).
End handlers.
End Handlers.

(** ** Routes *)

Module Routes.
Section routes.
Context {UT : UuidText} {JW : Jwt} {ET : ErrorText}.

(** [strip_prefix("Bearer ")] *)
Fixpoint strip_prefix (prefix s : string) : option string :=
  match prefix, s with
  | EmptyString, _ => Some s
  | String a p, String b s => if Ascii.eqb a b then strip_prefix p s else None
  | String _ _, EmptyString => None
  end.

(** The bearer token of a request. *)
Definition bearer (req : Request.t) : option string :=
  match Request.header "authorization" req with
  | Some v => match Request.to_str v with Some v => strip_prefix "Bearer " v | None => None end
  | None => None
  end.

(** [auth_middleware]: the claims of a valid token are attached, anything else
    is a 401 without running [next]. *)
Definition auth_middleware {A : Type} (auth : AuthService.t) (req : Request.t)
  (next : Request.t -> prog A) : prog (result A Z) :=
  match bearer req with
  | None => Ret (Err 401)
  | Some token =>
      now <- utc_now ;;
      match AuthService.verify_access_token auth token (AuthService.timestamp now) with
      | Err _ => Ret (Err 401)
      | Ok claims =>
          a <- next (Request.Mk (Request.headers req) (Some claims)) ;; Ret (Ok a)
      end
  end.

(** [correlation_id_middleware]: the id of the request, echoed in the response
    (status, correlation header, body). *)
Definition correlation_id_middleware (req : Request.t) (next : prog (Z * option Value))
  : prog (Z * string * option Value) :=
  id <- match Request.header "x-correlation-id" req with
        | Some v => match Request.to_str v with
                    | Some s => Ret s
                    | None => u <- new_v4 ;; Ret (uuid_to_string u)
                    end
        | None => u <- new_v4 ;; Ret (uuid_to_string u)
        end ;;
  r <- next ;;
  Ret (r.1, id, r.2).

(** What a handler's result becomes. *)
Definition response (r : result (Z * Value) AppError.t) : Z * option Value :=
  match r with
  | Ok (status, body) => (status, Some body)
  | Err e => let '(status, body) := AppError.into_response e in (status, Some body)
  end.

(** A middleware's early status has no body. *)
Definition flatten (r : result (Z * option Value) Z) : Z * option Value :=
  match r with Ok x => x | Err status => (status, None) end.

(** A protected route: correlation id, then authentication, then rate limit
    (keyed by the user), then what answers. *)
Definition guarded (auth : AuthService.t) (req : Request.t)
  (next : Claims.t -> prog (Z * option Value)) : prog (Z * string * option Value) :=
  correlation_id_middleware req
    (r <- auth_middleware auth req (fun req =>
       r <- RateLimit.rate_limit_middleware req
         (match Request.claims req with
          | Some claims => next claims
          | None => Ret (500, None)
          end) ;;
       Ret (flatten r)) ;;
     Ret (flatten r)).
Definition protected (auth : AuthService.t) (req : Request.t)
  (handler : Claims.t -> prog (result (Z * Value) AppError.t)) : prog (Z * string * option Value) :=
  guarded auth req (fun claims => r <- handler claims ;; Ret (response r)).

(** A public route: correlation id, then rate limit (keyed by address). *)
Definition public (req : Request.t) (handler : prog (result (Z * Value) AppError.t))
  : prog (Z * string * option Value) :=
  correlation_id_middleware req
    (r <- RateLimit.rate_limit_middleware req (r <- handler ;; Ret (response r)) ;;
     Ret (flatten r)).
End routes.
End Routes.

(** ** What reaches a handler *)

Section protection.
Context {UT : UuidText} {JW : Jwt} {ET : ErrorText}.
Import Routes.

Lemma exec_Ret_bind {A B} (a : A) (k : A -> prog B) env n w :
  exec (bind (Ret a) k) env n w = exec (k a) env n w.
Proof. done. Qed.

(** The limiter answers by itself, without touching the store, or runs what is
    behind it on the same store. *)
Lemma exec_rate_limit {A} req (next : prog A) env n w r w' n' ts :
  exec (RateLimit.rate_limit_middleware req next) env n w = (r, w', n', ts) ->
  (exists s, (s = 429 \/ s = 500) /\ r = Returned (Err s) /\ w_db w' = w_db w /\ w_bus w' = w_bus w) \/
  exists kv m x, exec next env m (w <| w_kv := kv |>) = (x, w', n', ts) /\
    r = match x with Returned a => Returned (Ok a) | Panicked => Panicked end.
Proof.
  unfold RateLimit.rate_limit_middleware. rewrite exec_utc_now. cbv beta.
  destruct (e_clock (env n) 0 <? 0).
  { intros Hx. simplify_eq/=. left. exists 500. auto. }
  unfold RateLimit.check_bucket. simpl. set (now := _ / SECOND).
  destruct (RateLimit.script _ _ _ _ now _ _ _ _) as [allowed kv]. intros Hx.
  assert (forall w1, exec (a <- next ;; Ret (Ok a)) env (S (S n)) w1 = (r, w', n', ts) ->
    exists x, exec next env (S (S n)) w1 = (x, w', n', ts) /\
      r = match x with Returned a => Returned (Ok a) | Panicked => Panicked end) as Hnext.
  { intros w1. rewrite exec_bind. destruct (exec next env _ w1) as [[[[a|] w2] n2] ts2]; simpl;
      intros; simplify_eq; rewrite ?app_nil_r; eauto. }
  destruct (e_fault (env (S n)) 0).
  - destruct (allowed =? 1); [apply Hnext in Hx as (x & Hx & ->); right; eauto|].
    simplify_eq/=. left. exists 429. auto.
  - apply Hnext in Hx as (x & Hx & ->). right. exists (w_kv w), (S (S n)), x.
    split; [|done]. by destruct w.
  - apply Hnext in Hx as (x & Hx & ->). right. eauto.
Qed.

(** The correlation id costs no change. *)
Lemma exec_correlation req next env n w :
  exists id m, exec (correlation_id_middleware req next) env n w =
    exec (r <- next ;; Ret (r.1, id, r.2)) env m w.
Proof.
  unfold correlation_id_middleware. destruct (Request.header _ req) as [v|]; [|by eexists _, _].
  destruct (Request.to_str v); by eexists _, _.
Qed.

(** The answer sent for a handler's outcome. *)
Definition answered (id : string) (x : outcome (result (Z * Value) AppError.t))
  : outcome (Z * string * option Value) :=
  match x with
  | Returned a => Returned ((response a).1, id, (response a).2)
  | Panicked => Panicked
  end.

Lemma protected_cases auth req handler env n w r w' n' ts :
  exec (protected auth req handler) env n w = (r, w', n', ts) ->
  (exists id, r = Returned (401, id, None) /\ w' = w) \/
  exists id token claims i, bearer req = Some token /\
    AuthService.verify_access_token auth token (AuthService.timestamp (e_clock (env i) 0)) = Ok claims /\
    ((exists s, (s = 429 \/ s = 500) /\ r = Returned (s, id, None) /\
        w_db w' = w_db w /\ w_bus w' = w_bus w) \/
     exists kv m x ts', exec (handler claims) env m (w <| w_kv := kv |>) = (x, w', n', ts') /\
       r = answered id x).
Proof.
  unfold protected, guarded. match goal with |- exec (correlation_id_middleware req ?next) _ _ _ = _ -> _ =>
    destruct (exec_correlation req next env n w) as (id & m & ->) end.
  rewrite bind_assoc. unfold auth_middleware. destruct (bearer req) as [token|] eqn:Hb;
    [|intros Hx; simplify_eq/=; eauto].
  rewrite bind_assoc, exec_utc_now.
  destruct (AuthService.verify_access_token _ _ _) as [claims|err] eqn:Hv;
    [|intros Hx; simplify_eq/=; eauto].
  rewrite !bind_assoc. set (k := fun _ => _).
  rewrite exec_bind. unfold k. clear k.
  match goal with |- context [exec (RateLimit.rate_limit_middleware ?q ?p) env ?i w] =>
    destruct (exec (RateLimit.rate_limit_middleware q p) env i w) as [[[r1 w1] n1] ts1] eqn:E end.
  intros Hx. right. exists id, token, claims, m. split_and!; [done..|].
  apply exec_rate_limit in E as [(s & Hs & -> & Hd & Hbus)|(kv & i & x & E & ->)].
  - left. exists s. simplify_eq/=. auto.
  - right. simpl in E. rewrite exec_bind in E.
    destruct (exec (handler claims) env i _) as [[[[[[st body]|err]|] w2] n2] ts2] eqn:E2;
      simplify_eq/=; eexists kv, i, _, _; (split; [exact E2|reflexivity]).
Qed.

(** A token that has expired, with its leeway, at every reading of the clock. *)
Lemma expired_never_decodes `{!JwtSpec} (secret token : string) (claims : Claims.t)
  (env : nat -> Env) :
  jwt_encode claims secret = Ok token ->
  (forall n, Claims.exp claims + JWT_LEEWAY < e_clock (env n) 0 / SECOND) ->
  forall n, jwt_decode token secret (e_clock (env n) 0 / SECOND) = None.
Proof.
  intros He Hexp n. rewrite (jwt_decode_encode claims secret token _ He). specialize (Hexp n).
  destruct (Z.leb_spec (e_clock (env n) 0 / SECOND - JWT_LEEWAY) (Claims.exp claims)); [lia|done].
Qed.

(** C17: no protected route runs its handler for a request without a valid token:
    if the request has no bearer token, or one that does not decode under the
    server's secret at the times the server's clock shows during the request (a
    forged one, or an expired one), then whatever the handler, the answer is 401
    and the world (store, channels, rate-limit buckets) is untouched. *)
Theorem unauthenticated_is_rejected (auth : AuthService.t) (req : Request.t)
  (handler : Claims.t -> prog (result (Z * Value) AppError.t)) (env : nat -> Env) (w w' : World)
  (r : outcome (Z * string * option Value)) :
  (forall token n, bearer req = Some token ->
     jwt_decode token (AuthService.jwt_secret auth) (e_clock (env n) 0 / SECOND) = None) ->
  run (protected auth req handler) env w = (r, w') ->
  w' = w /\ exists id, r = Returned (401, id, None).
Proof.
  intros Hbad (n' & ts & Hx)%run_exec.
  apply protected_cases in Hx as [(id & -> & ->)|(id & token & claims & i & Hb & Hv & _)]; [eauto|].
  unfold AuthService.verify_access_token, AuthService.timestamp in Hv.
  by rewrite (Hbad _ i Hb) in Hv.
Qed.
End protection.


(** ** Role-based access *)

(** The protected routes that write. *)
Module Action.
Inductive t :=
| CreateJob (queue_id : Uuid) (req : CreateJobRequest.t)
| CancelJob (job_id : Uuid)
| CreateProject (req : CreateProjectRequest.t)
| CreateQueue (req : CreateQueueRequest.t)
| PauseQueue (queue_id : Uuid)
| ResumeQueue (queue_id : Uuid)
| RetryDlq (dlq_id : Uuid)
| CreateDependency (req : CreateDependencyRequest.t).

(** The project the action is about, if it is in the store. *)
Definition project (a : t) (d : Db) : option Uuid :=
  match a with
  | CreateJob q _ | PauseQueue q | ResumeQueue q => Queue.project_id <$> (queues d !! q)
  | CancelJob k => Job.project_id <$> (jobs d !! k)
  | CreateProject _ => None
  | CreateQueue req => Some (CreateQueueRequest.project_id req)
  | RetryDlq x => DeadLetterEntry.project_id <$> (dead_letter_queue d !! x)
  | CreateDependency req => Job.project_id <$> (jobs d !! CreateDependencyRequest.dependent_job_id req)
  end.

(** Who may do it: every user creates projects, every member of whatever role
    adds dependencies, admins and members do the rest. *)
Definition permitted (a : t) (d : Db) (user : Uuid) : Prop :=
  match a with
  | CreateProject _ => True
  | CreateDependency _ => exists p role, project a d = Some p /\
      ProjectRepository.role_of d p user = Some role
  | _ => exists p, project a d = Some p /\ writer d p user
  end.

(** Whether the route tells a failure of the store from a client's mistake. *)
Definition tells_failures (a : t) : bool :=
  match a with CreateProject _ => false | _ => true end.
End Action.

Section access.
Context {UT : UuidText} {CT : ChronoText} {CR : Cron} {JW : Jwt} {ET : ErrorText}.
Context {S1 : Serialize Queue.t} {S2 : Serialize JobStatus.t} {S3 : Serialize Project.t}.

(** The handler a router picks ([routes/mod.rs]). *)
Definition handle (a : Action.t) (claims : Claims.t) : prog (result (Z * Value) AppError.t) :=
  match a with
  | Action.CreateJob q req => Handlers.create_job claims q req
  | Action.CancelJob k => Handlers.cancel_job claims k
  | Action.CreateProject req => Handlers.create_project claims req
  | Action.CreateQueue req => Handlers.create_queue claims req
  | Action.PauseQueue q => Handlers.pause_queue claims q
  | Action.ResumeQueue q => Handlers.resume_queue claims q
  | Action.RetryDlq x => Handlers.retry_dlq_job claims x
  | Action.CreateDependency req => Handlers.create_dependency claims req
  end.

(** What a successful or failed service call becomes. *)
Lemma exec_call {A X} (p : prog (result A X)) (f : A -> Z * Value) (g : X -> AppError.t) env n w r w' n' ts :
  exec (a <-? p via g ;; Ret (Ok (f a))) env n w = (r, w', n', ts) ->
  exists x n1 ts1, exec p env n w = (x, w', n1, ts1) /\
    r = match x with
        | Returned (Ok a) => Returned (Ok (f a))
        | Returned (Err e) => Returned (Err (g e))
        | Panicked => Panicked
        end.
Proof.
  rewrite exec_bind. destruct (exec p env n w) as [[[[[a|e]|] w1] n1] ts1]; intros; simplify_eq/=; eauto.
Qed.

(** An answer that does not blame the client. *)
Definition not_client_error (r : outcome (result (Z * Value) AppError.t)) : Prop :=
  (exists s body, r = Returned (Ok (s, body)) /\ s < 400) \/
  exists e, r = Returned (Err e) /\ AppError.status e = 500.

Lemma success_not_client_error st body : st < 400 -> not_client_error (Returned (Ok (st, body))).
Proof. left. eauto. Qed.
Lemma failure_not_client_error e : AppError.status e = 500 -> not_client_error (Returned (Err e)).
Proof. right. eauto. Qed.

(** Either is found by computing the status. *)
Ltac no_client_error := by (apply success_not_client_error || apply failure_not_client_error).

(** A dependency is written for members of the project of the dependent job. *)
Lemma create_dependency_cases req claims env n w r w' n' ts :
  exec (Handlers.create_dependency claims req) env n w = (r, w', n', ts) ->
  w' = w \/
  exists u p role, parse_str (Claims.sub claims) = Some u /\
    Action.project (Action.CreateDependency req) (w_db w) = Some p /\
    ProjectRepository.role_of (w_db w) p u = Some role /\ not_client_error r.
Proof.
  unfold Handlers.create_dependency, Handlers.as_user. cbv zeta.
  destruct (parse_str (Claims.sub claims)) as [u|]; [|intros; simplify_eq/=; auto].
  intros Hx. cbv beta in Hx. exec_read Hx; [|simplify_eq/=; auto]. simpl.
  destruct (jobs (w_db w) !! _) as [j|]; [|simplify_eq/=; auto]. cbn [option_map] in Hx.
  exec_read Hx; [|simplify_eq/=; auto].
  destruct (ProjectRepository.role_of (w_db w) _ u) as [role|] eqn:Hrole; [|simplify_eq/=; auto].
  right. exists u, (Job.project_id j), role. split_and!; [done..|].
  unfold WorkflowService.create_dependency in Hx. rewrite !bind_assoc in Hx.
  match type of Hx with exec (bind (sql ?s) ?k) _ ?m _ = _ =>
    destruct (exec_sql s k env m w) as (r1 & w1 & Hs & _) end.
  rewrite Hs in Hx. destruct r1; simplify_eq/=; no_client_error.
Qed.

Lemma handle_cases a claims env n w r w' n' ts : queues_keyed (w_db w) ->
  exec (handle a claims) env n w = (r, w', n', ts) ->
  w' = w \/
  exists u, parse_str (Claims.sub claims) = Some u /\ Action.permitted a (w_db w) u /\
    (Action.tells_failures a = true -> not_client_error r).
Proof.
  intros Hkey.
  destruct a as [q req|k|req|req|q|q|x|req]; simpl;
    [..|intros [->|(u & p & role & Hu & Hp & Hr & Hc)]%create_dependency_cases; eauto 10];
    unfold Handlers.create_job, Handlers.cancel_job, Handlers.create_queue, Handlers.pause_queue,
      Handlers.resume_queue, Handlers.retry_dlq_job, Handlers.create_project, Handlers.as_user;
    (destruct (parse_str (Claims.sub claims)) as [u|]; [|intros; simplify_eq/=; auto]);
    intros (x1 & n1 & ts1 & Hx & ->)%exec_call; [..|].
  - apply create_job_cases in Hx as [[-> _]|[(? & ? & _ & _ & -> & _)|[_ [m Hx]]]]; [by left..|].
    apply create_checked_cases in Hx as [[-> _]|(queue & corr & c & Hq & _ & Hw & _ & _ & _ & Hr)];
      [by left|]. right. exists u. rewrite Hq. split_and!; [by eauto..|intros _].
    destruct Hr as [->| ->]; no_client_error.
  - apply cancel_job_cases in Hx as [->|(j & t & Hj & _ & Hw & _ & Hr)]; [by left|].
    right. exists u. rewrite Hj. split_and!; [by eauto..|intros _].
    destruct Hr as [->| ->]; no_client_error.
  - right. by exists u.
  - apply create_queue_cases in Hx as [[-> _]|(queue & Hw & _ & _ & _ & _ & _ & _ & _ & Hr)]; [by left|].
    right. exists u. split_and!; [by eauto..|intros _]. destruct Hr as [->| ->]; no_client_error.
  - apply (set_pause_cases true) in Hx as [[-> _]|(row & t & Hq & Hw & [[-> _]|[_ Hr]])]; [by left..| |done].
    right. exists u. rewrite Hq. split_and!; [by eauto..|intros _].
    destruct Hr as [->| ->]; no_client_error.
  - apply (set_pause_cases false) in Hx as [[-> _]|(row & t & Hq & Hw & [[-> _]|[_ Hr]])]; [by left..| |done].
    right. exists u. rewrite Hq. split_and!; [by eauto..|intros _].
    destruct Hr as [->| ->]; no_client_error.
  - apply retry_job_cases in Hx as [[-> _]|(e & j & t & t' & He & _ & Hw & _ & _ & Hr)]; [by left|].
    right. exists u. rewrite He. split_and!; [by eauto..|intros _].
    destruct Hr as [->| ->]; no_client_error.
Qed.

(** C15: authorization end to end. Whatever request reaches a protected route
    that writes, and whatever fails on the way: if the store changed, the request
    carried a bearer token that verifies, the token's subject is a user, and that
    user is permitted the action: admin or member of the project it is about,
    member of any role to add a dependency, anyone to create a project. *)
Theorem change_is_authorized (a : Action.t) (auth : AuthService.t) (req : Request.t)
  (env : nat -> Env) (w w' : World) (r : outcome (Z * string * option Value)) :
  queues_keyed (w_db w) ->
  run (Routes.protected auth req (handle a)) env w = (r, w') -> w_db w' <> w_db w ->
  exists token claims now user_id,
    Routes.bearer req = Some token /\
    AuthService.verify_access_token auth token now = Ok claims /\
    parse_str (Claims.sub claims) = Some user_id /\
    Action.permitted a (w_db w) user_id.
Proof.
  intros Hkey (n' & ts & Hx)%run_exec Hne.
  apply protected_cases in Hx
    as [(id & _ & ->)|(id & token & claims & i & Hb & Hv & [(s & _ & _ & Hd & _)|(kv & m & x & ts' & Hx & _)])];
    [done..|].
  apply handle_cases in Hx as [->|(u & Hu & Hp & _)]; [done| |done].
  eexists token, claims, _, u. by split_and!.
Qed.

(** C16: what the status says of the store: a request answered with a client
    error (no token, no permission, unknown id, conflict, too many requests)
    changed nothing, on every protected route that writes but the creation of a
    project, which answers 400 to every failure. *)
Theorem client_error_changes_nothing (a : Action.t) (auth : AuthService.t) (req : Request.t)
  (env : nat -> Env) (w w' : World) (s : Z) (id : string) (body : option Value) :
  queues_keyed (w_db w) -> Action.tells_failures a = true ->
  run (Routes.protected auth req (handle a)) env w = (Returned (s, id, body), w') ->
  400 <= s < 500 -> w_db w' = w_db w.
Proof.
  intros Hkey Ht (n' & ts & Hx)%run_exec Hs.
  apply protected_cases in Hx
    as [(? & _ & ->)|(id' & token & claims & i & _ & _ & [(? & _ & _ & Hd & _)|(kv & m & x & ts' & Hx & Hr)])];
    [done..|].
  apply handle_cases in Hx as [->|(u & _ & _ & Hc)]; [done| |done].
  destruct (Hc Ht) as [(s' & b & -> & Hlt)|(e & -> & He)]; simplify_eq/=; lia.
Qed.
End access.

(** ** A member and a viewer pause the queue of the fixture *)

Section requests.
Import Toy.

#[local] Instance no_text : ErrorText := {|
  sqlx_error_text := fun _ => ""; auth_error_text := fun _ => ""; domain_error_text := fun _ => "" |}.
#[local] Instance no_queue_body : Serialize Queue.t := fun _ => VNull.
#[local] Instance no_project_body : Serialize Project.t := fun _ => VNull.
#[local] Instance no_status_body : Serialize JobStatus.t := fun _ => VNull.

(** A request with a token of the user, valid for a day. *)
Definition request_of (user : Uuid) : Request.t :=
  Request.Mk [("authorization", "Bearer " +:+
    unwrap_or (match jwt_encode (Claims.Mk (uuid_to_string user) "e" 86400 0) "k" with
               | Ok token => Some token | Err _ => None end) "")] None.

Definition pause_as (user : Uuid) : outcome (Z * string * option Value) * World :=
  run (Routes.protected (AuthService.new "k") (request_of user) (handle (Action.PauseQueue Fixture.queue)))
    (fun n => Fixture.env_at Fixture.noon n) (Fixture.world Fixture.two_queued).

Lemma fixture_queues_keyed : queues_keyed Fixture.two_queued.
Proof.
  intros k q. apply (map_Forall_lookup_1 (fun k q => Queue.id q = k) (queues Fixture.two_queued)).
  compute_decide.
Qed.

(** A request of the member two days later, and one without a bearer token. *)
Definition late (n : nat) : Env := Fixture.env_at (2 * 86400 * SECOND) n.
Definition reject (req : Request.t) : outcome (Z * string * option Value) * World :=
  run (Routes.protected (AuthService.new "k") req (fun _ => Panic)) late
    (Fixture.world Fixture.two_queued).

Lemma unauthenticated_is_rejected_witness :
  (exists id, reject (request_of Fixture.member) = (Returned (401, id, None), Fixture.world Fixture.two_queued)) /\
  (exists id, reject (Request.Mk [("authorization", "Basic abc")] None)
     = (Returned (401, id, None), Fixture.world Fixture.two_queued)).
Proof.
  split.
  - destruct (reject (request_of Fixture.member)) as [r w'] eqn:E.
    apply unauthenticated_is_rejected in E as [Hw [id Hr]].
    + exists id. rewrite Hw, Hr. reflexivity.
    + intros token n Hb. vm_compute in Hb. injection Hb as <-. vm_compute. reflexivity.
  - destruct (reject (Request.Mk [("authorization", "Basic abc")] None)) as [r w'] eqn:E.
    apply unauthenticated_is_rejected in E as [Hw [id Hr]].
    + exists id. rewrite Hw, Hr. reflexivity.
    + intros token n Hb. vm_compute in Hb. discriminate Hb.
Defined.

Lemma change_is_authorized_witness :
  w_db (pause_as Fixture.member).2 <> Fixture.two_queued /\
  exists user, Action.permitted (Action.PauseQueue Fixture.queue) Fixture.two_queued user.
Proof.
  assert (w_db (pause_as Fixture.member).2 <> Fixture.two_queued) as Hne.
  { intros H. apply (f_equal (fun d => Queue.is_paused <$> (queues d !! Fixture.queue))) in H.
    vm_compute in H. discriminate H. }
  split; [exact Hne|].
  destruct (change_is_authorized (Action.PauseQueue Fixture.queue) (AuthService.new "k")
    (request_of Fixture.member) _ (Fixture.world Fixture.two_queued) _ _ fixture_queues_keyed
    (surjective_pairing (pause_as Fixture.member)) Hne)
    as (token & claims & t & user & _ & _ & _ & Hw).
  exists user. exact Hw.
Defined.

Lemma client_error_changes_nothing_witness :
  exists id body, (pause_as Fixture.viewer).1 = Returned (403, id, body) /\
    w_db (pause_as Fixture.viewer).2 = Fixture.two_queued.
Proof.
  destruct (pause_as Fixture.viewer) as [r w'] eqn:E.
  destruct r as [[[st id] body]|]; [|exfalso; apply (f_equal fst) in E; vm_compute in E; discriminate E].
  assert (st = 403) as ->.
  { apply (f_equal (fun x => match x.1 with Returned a => a.1.1 | Panicked => 0 end)) in E.
    vm_compute in E. symmetry. exact E. }
  exists id, body. split; [reflexivity|].
  apply (client_error_changes_nothing (Action.PauseQueue Fixture.queue) (AuthService.new "k")
    (request_of Fixture.viewer) _ (Fixture.world Fixture.two_queued) _ 403 id body
    fixture_queues_keyed eq_refl E). lia.
Defined.

(** The exception: the answer to a project's COMMIT is lost (the fifth request of
    the transaction), the client reads 400, and the project is there. *)
Definition lost_commit (n : nat) : Env :=
  let e := Fixture.env_at Fixture.noon n in
  MkEnv (e_now e) (e_clock e) (e_uuid e) (e_locked e)
    (fun i => if (i =? 4)%nat then LostAfter else NoFault) (e_timer e).
Definition create_with_lost_commit : outcome (Z * string * option Value) * World :=
  run (Routes.protected (AuthService.new "k") (request_of Fixture.member)
        (handle (Action.CreateProject (CreateProjectRequest.Mk "Acme" "acme" "Web" "web" None))))
    lost_commit (Fixture.world Fixture.two_queued).

Theorem bad_request_created_project :
  (exists id body, create_with_lost_commit.1 = Returned (400, id, body)) /\
  size (projects (w_db create_with_lost_commit.2)) = S (size (projects Fixture.two_queued)).
Proof. split; [eexists _, _|]; vm_compute; reflexivity. Qed.
End requests.
