(* ===== verification/History.v ===== *)
(** * What every statement keeps

    The schema as a typeclass ([Table]): the key and the unique index of a row,
    what makes a row good, and which changes of a stored row are legitimate. A
    store [evolves] when every table keeps its keys, its unique index and its
    good rows, and no row is lost or rewritten beyond its mutable columns. Every
    statement of the repositories and services evolves the store; [System]
    lifts this to all interleavings of the program's tasks. *)
From S2P Require Import Prelude Enums Entities RetryPolicy Db Fixture Steps JobRepository.
From S2P Require Import Repositories Externals JobService QueueService DlqService SchedulerCore.
From S2P Require Import Executor Poller OutboxRelay ProjectService WorkflowService AuthService.

(** ** Tables *)

Class Table (V : Type) := {
  key : V -> N;
  good : V -> Prop;
  Index : Type;
  index : V -> option Index;
  same : V -> V -> Prop;
  same_preorder :: PreOrder same;
  same_key v v' : same v v' -> key v = key v';
  same_index v v' : same v v' -> index v = index v';
  good_dec :: forall v, Decision (good v);
  index_dec :: EqDecision Index;
}.

Section tables.
Context {V : Type} `{!Table V}.
Implicit Types (t : gmap N V).

(** Rows are stored under their key, are good, and no two share an index. *)
Definition table_ok t : Prop :=
  (forall k v, t !! k = Some v -> key v = k /\ good v) /\
  (forall k1 k2 v1 v2 i, t !! k1 = Some v1 -> t !! k2 = Some v2 ->
     index v1 = Some i -> index v2 = Some i -> k1 = k2).

#[global] Instance table_ok_dec t : Decision (table_ok t).
Proof.
  refine (cast_if (decide (map_Forall (fun k v => key v = k /\ good v) t /\
    map_Forall (fun k1 v1 => map_Forall (fun k2 v2 =>
      k1 = k2 \/ index v1 = None \/ index v1 <> index v2) t) t))).
  - abstract (destruct a as [Hok Hu]; split; [done|]; intros k1 k2 v1 v2 i H1 H2 Hi1 Hi2;
      destruct (Hu k1 v1 H1 k2 v2 H2) as [?|[?|?]]; congruence).
  - abstract (intros [Hok Hu]; apply n; split; [done|]; intros k1 v1 H1 k2 v2 H2;
      destruct (index v1) as [i|] eqn:Hi1; [|auto]; destruct (decide (Some i = index v2)); [|auto];
      left; by eapply Hu).
Defined.

(** No row is lost, and the rows that were there changed legitimately. *)
Definition kept t t' : Prop :=
  forall k v, t !! k = Some v -> exists v', t' !! k = Some v' /\ same v v'.

Definition table_evolves t t' : Prop := table_ok t -> table_ok t' /\ kept t t'.

#[global] Instance table_evolves_preorder : PreOrder table_evolves.
Proof.
  split.
  - intros t Hok. split; [done|]. intros k v Hk. exists v. by split.
  - intros t1 t2 t3 H12 H23 Hok. destruct (H12 Hok) as [Hok2 Hk12].
    destruct (H23 Hok2) as [Hok3 Hk23]. split; [done|]. intros k v Hk.
    destruct (Hk12 k v Hk) as (v2 & Hk2 & Hs). destruct (Hk23 k v2 Hk2) as (v3 & Hk3 & Hs').
    exists v3. split; [done|]. by etrans.
Qed.

(** A new row under a new key, whose index no row has. *)
Lemma table_evolves_insert t k0 v :
  key v = k0 -> t !! k0 = None -> good v ->
  (forall k v' i, t !! k = Some v' -> index v = Some i -> index v' = Some i -> False) ->
  table_evolves t (<[k0 := v]> t).
Proof.
  intros <- Hnew Hg Hi [Hok Hu]. split; [split|].
  - intros k v' [[<- <-]|[_ Hk]]%lookup_insert_Some; [done|by apply Hok].
  - intros k1 k2 v1 v2 i [[<- <-]|[_ H1]]%lookup_insert_Some [[<- <-]|[_ H2]]%lookup_insert_Some
      Hi1 Hi2; [done|exfalso; eauto..|eauto].
  - intros k v' Hk. exists v'. split; [|done]. rewrite lookup_insert_ne; [done|congruence].
Qed.

(** Rows rewritten in place. *)
Lemma table_evolves_rewrite t t' :
  (table_ok t -> forall k, match t !! k, t' !! k with
     | Some v, Some v' => same v v' /\ (good v -> good v')
     | None, None => True
     | _, _ => False
     end) ->
  table_evolves t t'.
Proof.
  intros Hrows Hok. specialize (Hrows Hok). destruct Hok as [Hok Hu].
  assert (forall k v', t' !! k = Some v' -> exists v, t !! k = Some v /\ same v v' /\ (good v -> good v'))
    as Hback.
  { intros k v' Hk. specialize (Hrows k). rewrite Hk in Hrows. destruct (t !! k); [eauto|done]. }
  split; [split|].
  - intros k v' Hk. destruct (Hback k v' Hk) as (v & Hv & Hs & Hg). destruct (Hok k v Hv).
    rewrite <- (same_key _ _ Hs). auto.
  - intros k1 k2 v1' v2' i H1 H2 Hi1 Hi2.
    destruct (Hback _ _ H1) as (v1 & Hv1 & Hs1 & _), (Hback _ _ H2) as (v2 & Hv2 & Hs2 & _).
    rewrite <- (same_index _ _ Hs1) in Hi1. rewrite <- (same_index _ _ Hs2) in Hi2. eauto.
  - intros k v Hk. specialize (Hrows k). rewrite Hk in Hrows.
    destruct (t' !! k) as [v'|]; [|done]. destruct Hrows. eauto.
Qed.

Lemma table_evolves_row t k v v' :
  t !! k = Some v -> same v v' -> (good v -> good v') -> table_evolves t (<[k := v']> t).
Proof.
  intros Hk Hs Hg. apply table_evolves_rewrite. intros _ k'.
  destruct (decide (k' = k)) as [->|Hne]; [by rewrite lookup_insert_eq, Hk|].
  rewrite lookup_insert_ne by done. by destruct (t !! k').
Qed.

Lemma table_evolves_own_row t k0 v v' :
  key v = k0 -> (exists k, t !! k = Some v) -> same v v' -> (good v -> good v') ->
  table_evolves t (<[k0 := v']> t).
Proof.
  intros <- [k Hk] Hs Hg [Hok Hu]. destruct (Hok k v Hk) as [<- _].
  by apply (table_evolves_row t (key v) v v').
Qed.

Lemma table_evolves_where t (p : V -> bool) f :
  (forall v, p v = true -> same v (f v) /\ (good v -> good (f v))) ->
  table_evolves t (update_where p f t).
Proof.
  intros Hf. apply table_evolves_rewrite. intros _ k. rewrite lookup_update_where.
  destruct (t !! k) as [v|]; simpl; [|done]. destruct (p v) eqn:Hp; [by apply Hf|done].
Qed.
End tables.

(** Rows that differ at most outside the columns [cols]. *)
Definition agree {V C : Type} (cols : V -> C) (v v' : V) : Prop := cols v = cols v'.
#[global] Instance agree_preorder {V C} (cols : V -> C) : PreOrder (agree cols).
Proof. unfold agree. split; repeat intro; congruence. Qed.

(** A flag that is never cleared. *)
Definition raised {V} (flag : V -> bool) (v v' : V) : Prop := flag v = true -> flag v' = true.
#[global] Instance raised_preorder {V} (flag : V -> bool) : PreOrder (raised flag).
Proof. unfold raised. split; repeat intro; auto. Qed.

Definition both {V} (R S : V -> V -> Prop) (v v' : V) : Prop := R v v' /\ S v v'.
#[global] Instance both_preorder {V} (R S : V -> V -> Prop) `{!PreOrder R, !PreOrder S} :
  PreOrder (both R S).
Proof. split; [by split|]. intros x y z [] []. split; by etrans. Qed.

(** ** The schema *)

(** Who holds a job: a claimed job has a worker, a running one may have lost
    it, and no other job has one. *)
Definition well_owned (j : Job.t) : Prop :=
  match Job.status j with
  | JobStatus.Claimed => is_Some (Job.worker_id j)
  | JobStatus.Running => True
  | _ => Job.worker_id j = None
  end.

#[global] Instance well_owned_dec j : Decision (well_owned j).
Proof. unfold well_owned. destruct (Job.status j); apply _. Defined.

(** What was submitted. *)
Definition submitted (j : Job.t) :=
  (Job.id j, Job.queue_id j, Job.project_id j, Job.job_type j, Job.name j, Job.payload j,
   Job.priority j, Job.max_attempts j, Job.scheduled_at j, Job.cron_expression j,
   Job.idempotency_key j, Job.correlation_id j, Job.batch_id j, Job.retry_policy_id j,
   Job.created_at j).

(** What was recorded of a dead letter, and what an event says. *)
Definition recorded (x : DeadLetterEntry.t) :=
  (DeadLetterEntry.id x, DeadLetterEntry.job_id x, DeadLetterEntry.queue_id x,
   DeadLetterEntry.project_id x, DeadLetterEntry.job_name x, DeadLetterEntry.payload x,
   DeadLetterEntry.last_error x, DeadLetterEntry.attempt_count x, DeadLetterEntry.ai_summary x,
   DeadLetterEntry.moved_to_dlq_at x).
Definition content (e : OutboxEvent.t) :=
  (OutboxEvent.id e, OutboxEvent.event_type e, OutboxEvent.aggregate_id e, OutboxEvent.payload e,
   OutboxEvent.created_at e, OutboxEvent.correlation_id e).
Definition queue_settings (q : Queue.t) :=
  (Queue.id q, Queue.project_id q, Queue.name q, Queue.description q, Queue.concurrency_limit q,
   Queue.retry_policy_id q, Queue.shard q, Queue.created_at q).

Ltac table_laws :=
  unfold both, agree, content, recorded in *; intros; destruct_and?; simplify_eq/=;
  first [congruence | do 2 f_equal; congruence].

#[global] Program Instance job_table : Table Job.t := {|
  key := Job.id; good := well_owned; Index := Uuid * string;
  index j := pair (Job.queue_id j) <$> Job.idempotency_key j; same := agree submitted |}.
Next Obligation. unfold agree, submitted. intros. congruence. Qed.
Next Obligation.
  unfold agree, submitted. intros v v' Heq.
  injection Heq. intros ???? Hk ???????? Hq ?. by rewrite Hk, Hq.
Qed.

#[global] Program Instance execution_table : Table JobExecution.t := {|
  key := JobExecution.id; good _ := True; Index := unit; index _ := None; same := eq |}.
Solve Obligations with table_laws.

#[global] Program Instance dead_letter_table : Table DeadLetterEntry.t := {|
  key := DeadLetterEntry.id; good _ := True; Index := unit; index _ := None;
  same := agree recorded |}.
Solve Obligations with table_laws.

#[global] Program Instance outbox_table : Table OutboxEvent.t := {|
  key := OutboxEvent.id; good _ := True; Index := unit; index _ := None;
  same := both (agree content) (raised OutboxEvent.published) |}.
Solve Obligations with table_laws.

#[global] Program Instance queue_table : Table Queue.t := {|
  key := Queue.id; good _ := True; Index := Uuid * string;
  index q := Some (Queue.project_id q, Queue.name q); same := agree queue_settings |}.
Next Obligation. unfold agree, queue_settings. intros. congruence. Qed.
Next Obligation. unfold agree, queue_settings. intros. do 2 f_equal; congruence. Qed.

#[global] Program Instance organization_table : Table Organization.t := {|
  key := Organization.id; good _ := True; Index := string;
  index o := Some (Organization.slug o);
  same := agree (fun o => (Organization.id o, Organization.slug o, Organization.created_at o)) |}.
Solve Obligations with table_laws.

#[global] Program Instance user_table : Table User.t := {|
  key := User.id; good _ := True; Index := string; index u := Some (User.email u); same := eq |}.
Solve Obligations with table_laws.

#[global] Program Instance refresh_token_table : Table RefreshToken.t := {|
  key := RefreshToken.id; good _ := True; Index := string;
  index r := Some (RefreshToken.token_hash r);
  same := both (agree (fun r => (RefreshToken.id r, RefreshToken.user_id r,
            RefreshToken.token_hash r, RefreshToken.expires_at r))) (raised RefreshToken.revoked) |}.
Solve Obligations with table_laws.

#[global] Program Instance project_table : Table Project.t := {|
  key := Project.id; good _ := True; Index := Uuid * string;
  index p := Some (Project.organization_id p, Project.slug p); same := eq |}.
Solve Obligations with table_laws.

#[global] Program Instance member_table : Table ProjectMember.t := {|
  key := ProjectMember.id; good _ := True; Index := Uuid * Uuid;
  index m := Some (ProjectMember.project_id m, ProjectMember.user_id m); same := eq |}.
Solve Obligations with table_laws.

#[global] Program Instance worker_table : Table Worker.t := {|
  key := Worker.id; good _ := True; Index := unit; index _ := None;
  same := agree (fun w => (Worker.id w, Worker.name w, Worker.hostname w, Worker.registered_at w)) |}.
Solve Obligations with table_laws.

#[global] Program Instance heartbeat_table : Table WorkerHeartbeat.t := {|
  key := WorkerHeartbeat.id; good _ := True; Index := Uuid;
  index h := Some (WorkerHeartbeat.worker_id h);
  same := agree (fun h => (WorkerHeartbeat.id h, WorkerHeartbeat.worker_id h)) |}.
Solve Obligations with table_laws.

#[global] Program Instance dependency_table : Table JobDependency.t := {|
  key := JobDependency.id; good _ := True; Index := Uuid * Uuid;
  index x := Some (JobDependency.dependent_job_id x, JobDependency.dependency_job_id x); same := eq |}.
Solve Obligations with table_laws.

(** ** Stores *)

(** Every table is in order. *)
Record consistent (d : Db) : Prop := {
  ok_organizations : table_ok (organizations d);
  ok_users : table_ok (users d);
  ok_refresh_tokens : table_ok (refresh_tokens d);
  ok_projects : table_ok (projects d);
  ok_members : table_ok (project_members d);
  ok_queues : table_ok (queues d);
  ok_workers : table_ok (workers d);
  ok_heartbeats : table_ok (worker_heartbeats d);
  ok_jobs : table_ok (jobs d);
  ok_executions : table_ok (job_executions d);
  ok_dead_letters : table_ok (dead_letter_queue d);
  ok_outbox : table_ok (outbox_events d);
  ok_dependencies : table_ok (job_dependencies d);
}.

#[global] Instance consistent_dec d : Decision (consistent d).
Proof.
  refine (cast_if (decide (table_ok (organizations d) /\ table_ok (users d) /\
    table_ok (refresh_tokens d) /\ table_ok (projects d) /\ table_ok (project_members d) /\
    table_ok (queues d) /\ table_ok (workers d) /\ table_ok (worker_heartbeats d) /\
    table_ok (jobs d) /\ table_ok (job_executions d) /\ table_ok (dead_letter_queue d) /\
    table_ok (outbox_events d) /\ table_ok (job_dependencies d))));
    abstract (try split; try intros []; naive_solver).
Defined.

(** Every table evolves; retry policies are never written. *)
Record evolves (d d' : Db) : Prop := {
  ev_organizations : table_evolves (organizations d) (organizations d');
  ev_users : table_evolves (users d) (users d');
  ev_refresh_tokens : table_evolves (refresh_tokens d) (refresh_tokens d');
  ev_projects : table_evolves (projects d) (projects d');
  ev_members : table_evolves (project_members d) (project_members d');
  ev_policies : retry_policies d' = retry_policies d;
  ev_queues : table_evolves (queues d) (queues d');
  ev_workers : table_evolves (workers d) (workers d');
  ev_heartbeats : table_evolves (worker_heartbeats d) (worker_heartbeats d');
  ev_jobs : table_evolves (jobs d) (jobs d');
  ev_executions : table_evolves (job_executions d) (job_executions d');
  ev_dead_letters : table_evolves (dead_letter_queue d) (dead_letter_queue d');
  ev_outbox : table_evolves (outbox_events d) (outbox_events d');
  ev_dependencies : table_evolves (job_dependencies d) (job_dependencies d');
}.

#[global] Instance evolves_preorder : PreOrder evolves.
Proof.
  split.
  - intros d. by split.
  - intros d1 d2 d3 [] []. split; try (by etrans); congruence.
Qed.

Lemma evolves_consistent d d' : evolves d d' -> consistent d -> consistent d'.
Proof.
  intros [] []. split;
    match goal with H : table_evolves ?t ?t' |- table_ok ?t' => apply H; done end.
Qed.

(** The tables that record what happened are left alone. *)
Definition unrecorded (d d' : Db) : Prop :=
  job_executions d' = job_executions d /\ dead_letter_queue d' = dead_letter_queue d /\
  outbox_events d' = outbox_events d.

(** A statement that writes none of them. *)
Definition writes (d d' : Db) : Prop := evolves d d' /\ unrecorded d d'.
#[global] Instance writes_preorder : PreOrder writes.
Proof.
  unfold writes, unrecorded. split; [by split|].
  intros d1 d2 d3 [? (? & ? & ?)] [? (? & ? & ?)]. split; [by etrans|]. split_and!; congruence.
Qed.

(** One table is written. *)
Ltac one_table := split; [split; try done|by split_and!].
Lemma writes_jobs d f : table_evolves (jobs d) (f (jobs d)) -> writes d (d <| jobs ::= f |>).
Proof. intros. one_table. Qed.
Lemma writes_queues d f : table_evolves (queues d) (f (queues d)) -> writes d (d <| queues ::= f |>).
Proof. intros. one_table. Qed.
Lemma writes_organizations d f :
  table_evolves (organizations d) (f (organizations d)) -> writes d (d <| organizations ::= f |>).
Proof. intros. one_table. Qed.
Lemma writes_projects d f :
  table_evolves (projects d) (f (projects d)) -> writes d (d <| projects ::= f |>).
Proof. intros. one_table. Qed.
Lemma writes_members d f :
  table_evolves (project_members d) (f (project_members d)) -> writes d (d <| project_members ::= f |>).
Proof. intros. one_table. Qed.
Lemma writes_users d f : table_evolves (users d) (f (users d)) -> writes d (d <| users ::= f |>).
Proof. intros. one_table. Qed.
Lemma writes_tokens d f :
  table_evolves (refresh_tokens d) (f (refresh_tokens d)) -> writes d (d <| refresh_tokens ::= f |>).
Proof. intros. one_table. Qed.
Lemma writes_workers d f : table_evolves (workers d) (f (workers d)) -> writes d (d <| workers ::= f |>).
Proof. intros. one_table. Qed.
Lemma writes_heartbeats d f :
  table_evolves (worker_heartbeats d) (f (worker_heartbeats d)) ->
  writes d (d <| worker_heartbeats ::= f |>).
Proof. intros. one_table. Qed.
Lemma writes_dependencies d f :
  table_evolves (job_dependencies d) (f (job_dependencies d)) ->
  writes d (d <| job_dependencies ::= f |>).
Proof. intros. one_table. Qed.
#[export] Hint Resolve writes_jobs writes_queues writes_organizations writes_projects
  writes_members writes_users writes_tokens writes_workers writes_heartbeats
  writes_dependencies : sched.

(** ** Statements *)

Lemma stmt_sat_mono {A} (R S : Db -> Db -> Prop) (s : stmt A) :
  (forall d d', R d d' -> S d d') -> stmt_sat R s -> stmt_sat S s.
Proof. intros HRS Hs c d a d' Hx. apply HRS. by eapply Hs. Qed.

(** An insertion: a free key, and no row with the index, by the [UNIQUE]
    constraint in the list [Hc] of satisfied constraints. *)
Lemma unique_fresh {V} (p : V -> bool) (t : gmap N V) : negb (exists_row p t) = true ->
  forall k v, t !! k = Some v -> p v = false.
Proof. intros Hp%negb_true_iff. by apply exists_row_false. Qed.

Lemma free_key {V} (t : gmap N V) k : negb (has t k) = true -> t !! k = None.
Proof. intros Hk%negb_true_iff. by apply has_false. Qed.

Ltac inserted Hc :=
  repeat (let H := fresh in apply Forall_cons in Hc as [H Hc]; simpl in H);
  apply table_evolves_insert;
  [ done | by apply free_key | done | ];
  let k := fresh in let v := fresh in let i := fresh in
  simpl; intros k v i ???;
  try match goal with
  | Hu : negb (exists_row _ ?t) = true, Hk : ?t !! _ = Some _ |- False =>
      let Hf := fresh in
      pose proof (unique_fresh _ _ Hu _ _ Hk) as Hf; cbv beta in Hf;
      rewrite !bool_decide_eq_true_2 in Hf by congruence; discriminate Hf
  end.

Section statements.
Context {UT : UuidText} {CT : ChronoText} {CH : Chrono} {CR : Cron} {BC : Bcrypt} {JW : Jwt}.

Lemma writes_refl d : writes d d.
Proof. reflexivity. Qed.

Lemma update_row_writes {V} (table : Db -> gmap N V) `{!Setter table} k f :
  (forall d v, table d !! k = Some v -> writes d (d <| table ::= <[k := f v]> |>)) ->
  stmt_sat writes (update_row table k f).
Proof.
  intros Hf c d a d'. unfold update_row. destruct (table d !! k) as [v|] eqn:Hk; intros [= _ <-].
  - by apply Hf.
  - apply writes_refl.
Qed.

(** Rewriting one job. *)
Lemma job_row_writes k f :
  (forall j, same j (f j) /\ (well_owned j -> well_owned (f j))) ->
  stmt_sat writes (update_row jobs k f).
Proof.
  intros Hf. apply update_row_writes. intros d j Hk. apply writes_jobs.
  destruct (Hf j). by eapply table_evolves_row.
Qed.

Lemma claim_writes q wk : stmt_sat writes (JobRepository.claim_stmt q wk).
Proof.
  intros c d a d'. unfold JobRepository.claim_stmt.
  destruct (JobRepository.claim_candidate c q d) as [j|] eqn:E; [|by intros [= _ <-]].
  destruct (has _ wk); intros [= _ <-].
  apply claim_candidate_Some in E as (_ & _ & Hk & _).
  apply writes_jobs. apply (table_evolves_own_row _ _ j); [done|done|done|]. intros _. by eexists.
Qed.

Lemma mark_running_writes k : stmt_sat writes (JobRepository.mark_running_stmt k).
Proof. apply stmt_sat_with_ctx. intros c. by apply job_row_writes. Qed.
Lemma mark_completed_writes k : stmt_sat writes (JobRepository.mark_completed_stmt k).
Proof. apply stmt_sat_with_ctx. intros c. by apply job_row_writes. Qed.
Lemma fail_writes k n : stmt_sat writes (Executor.fail_stmt k n).
Proof. apply stmt_sat_with_ctx. intros c. by apply job_row_writes. Qed.
Lemma retry_writes k n t : stmt_sat writes (Executor.retry_stmt k n t).
Proof. apply stmt_sat_with_ctx. intros c. by apply job_row_writes. Qed.
Lemma requeue_writes k : stmt_sat writes (DlqService.requeue_stmt k).
Proof. apply stmt_sat_with_ctx. intros c. by apply job_row_writes. Qed.

Lemma jobs_where_writes (p : Job.t -> bool) f d :
  (forall j, p j = true -> same j (f j) /\ (well_owned j -> well_owned (f j))) ->
  writes d (d <| jobs ::= update_where p f |>).
Proof. intros Hf. apply writes_jobs. by apply table_evolves_where. Qed.

Lemma re_queue_writes : stmt_sat writes JobRepository.re_queue_stmt.
Proof.
  intros c d a d' [= _ <-]. apply jobs_where_writes. intros j Hdue. split; [done|].
  unfold JobRepository.due in Hdue. apply andb_true_iff in Hdue as [Hs _].
  apply bool_decide_eq_true in Hs. unfold well_owned. simpl. by rewrite Hs.
Qed.
Lemma recover_writes thr : stmt_sat writes (JobRepository.recover_stmt thr).
Proof. intros c d a d' [= _ <-]. by apply jobs_where_writes. Qed.

Lemma cancel_writes k : stmt_sat writes (JobService.cancel_stmt k).
Proof.
  intros c d a d'. rewrite cancel_stmt_eq. destruct (jobs d !! k) as [j|] eqn:Hj; [|by intros [= _ <-]].
  destruct (JobService.cancellable _) eqn:Hc; intros [= _ <-]; [|done].
  apply writes_jobs. apply (table_evolves_row _ _ j); [done|done|]. simpl.
  unfold well_owned. simpl. by destruct (Job.status j).
Qed.
Lemma release_writes k : stmt_sat writes (WorkflowService.release_stmt k).
Proof.
  intros c d a d'. rewrite release_stmt_eq. destruct (jobs d !! k) as [j|] eqn:Hj; [|by intros [= _ <-]].
  destruct (bool_decide _) eqn:Hp; intros [= _ <-]; [|done].
  apply writes_jobs. apply (table_evolves_row _ _ j); [done|done|]. apply bool_decide_eq_true in Hp.
  simpl. unfold well_owned. simpl. by rewrite Hp.
Qed.

Lemma set_paused_writes q b : stmt_sat writes (QueueRepository.set_paused_stmt q b).
Proof.
  apply stmt_sat_with_ctx. intros c. apply update_row_writes. intros d row Hq. apply writes_queues.
  by apply (table_evolves_row _ _ row).
Qed.
Lemma deregister_writes wk : stmt_sat writes (WorkerRepository.deregister_stmt wk).
Proof.
  apply stmt_sat_with_ctx. intros c. apply update_row_writes. intros d row Hq. apply writes_workers.
  by apply (table_evolves_row _ _ row).
Qed.
Lemma register_writes wk name host : stmt_sat writes (WorkerRepository.register_stmt wk name host).
Proof.
  intros c d a d'. unfold WorkerRepository.register_stmt.
  destruct (workers d !! wk) as [row|] eqn:Hw; intros [= _ <-]; apply writes_workers.
  - by apply (table_evolves_row _ _ row).
  - by apply table_evolves_insert.
Qed.
Lemma heartbeat_writes wk n : stmt_sat writes (WorkerRepository.upsert_heartbeat_stmt wk n).
Proof.
  intros c d a d'. unfold WorkerRepository.upsert_heartbeat_stmt. destruct (exists_row _ _) eqn:He.
  - intros [= _ <-]. apply writes_heartbeats. apply table_evolves_where. done.
  - destruct (first_violation _) eqn:Hv; intros [= _ <-]. apply first_violation_None in Hv.
    apply Forall_cons in Hv as [Hid _]. apply writes_heartbeats.
    apply table_evolves_insert; [done|by apply free_key|done|].
    simpl. intros k h i Hk [= <-] [= Hi].
    pose proof (proj1 (exists_row_false _ _) He k h Hk) as Hne. simpl in Hne. by bool_to_prop.
Qed.
Lemma revoke_writes hash : stmt_sat writes (UserRepository.revoke_stmt hash).
Proof. intros c d a d' [= _ <-]. apply writes_tokens. by apply table_evolves_where. Qed.

(** Insertions. *)
Lemma job_insert_writes j c d a d' :
  well_owned j -> insert_row jobs Job.id jobs_constraints j c d = Ok (a, d') -> writes d d'.
Proof.
  intros Hg (-> & Hc & ->)%insert_row_Ok. apply writes_jobs.
  apply table_evolves_insert; [done| |done|].
  - apply Forall_cons in Hc as [Hid _]. by apply free_key.
  - intros k j' [q key] Hk. simpl. intros (? & ? & [= -> ->])%fmap_Some (? & ? & [= Hq ->])%fmap_Some.
    by eapply jobs_constraints_key.
Qed.
Lemma create_job_writes q p req st pr n s corr pol :
  (st = JobStatus.Claimed -> False) ->
  stmt_sat writes (JobService.insert_job_stmt q p req st pr n s corr pol).
Proof.
  intros Hst c d a d'. unfold JobService.insert_job_stmt. autorewrite with casts. simpl.
  apply job_insert_writes. unfold well_owned. simpl. by destruct st.
Qed.
Lemma insert_next_writes k t : stmt_sat writes (Recurring.insert_next_stmt k t).
Proof.
  intros c d a d'. unfold Recurring.insert_next_stmt.
  destruct (jobs d !! k) as [j|]; [|by intros [= _ <-]].
  destruct (insert_row _ _ _ _ c d) as [[j' d1]|v] eqn:E; intros [= _ <-].
  by apply job_insert_writes in E.
Qed.

Ltac insertion Hx lem :=
  apply insert_row_Ok in Hx as (-> & Hc & ->); apply lem; inserted Hc.

Lemma create_queue_writes q :
  stmt_sat writes (insert_row queues Queue.id queues_constraints q).
Proof. intros c d a d' Hx. insertion Hx writes_queues. Qed.
Lemma insert_project_writes org name slug desc :
  stmt_sat writes (ProjectRepository.insert_project_stmt org name slug desc).
Proof. apply stmt_sat_with_ctx. intros t c d a d' Hx. insertion Hx writes_projects. Qed.
Lemma member_writes m :
  stmt_sat writes (insert_row project_members ProjectMember.id project_members_constraints m).
Proof. intros c d a d' Hx. insertion Hx writes_members. Qed.
Lemma user_writes u : stmt_sat writes (insert_row users User.id users_constraints u).
Proof. intros c d a d' Hx. insertion Hx writes_users. Qed.
Lemma token_writes r :
  stmt_sat writes (insert_row refresh_tokens RefreshToken.id refresh_tokens_constraints r).
Proof. intros c d a d' Hx. insertion Hx writes_tokens. Qed.

Lemma upsert_org_writes name slug : stmt_sat writes (ProjectService.upsert_org_stmt name slug).
Proof.
  intros c d a d'. unfold ProjectService.upsert_org_stmt.
  destruct (ProjectService.org_by_slug slug d) as [o|] eqn:Ho.
  - intros [= _ <-]. apply writes_organizations. apply (table_evolves_own_row _ _ o); [done| |done|done].
    unfold ProjectService.org_by_slug in Ho. destruct (select _ _) as [|o' l] eqn:E; simplify_eq/=.
    assert (o ∈ o :: l) as Hin by set_solver. rewrite <- E in Hin. by apply elem_of_select in Hin as [_ ?].
  - destruct (has _ _) eqn:Hh; intros [= _ <-]. apply has_false in Hh.
    apply writes_organizations. apply table_evolves_insert; [done..|]. simpl.
    intros k o i Hk [= <-] [= Hi]. unfold ProjectService.org_by_slug in Ho.
    destruct (select _ _) as [|? ?] eqn:E; [|done].
    cut (o ∈ @nil Organization.t); [set_solver|]. rewrite <- E. apply elem_of_select.
    rewrite bool_decide_eq_true. eauto.
Qed.
Lemma add_admin_writes p u : stmt_sat writes (ProjectService.add_admin_stmt p u).
Proof.
  intros c d a d'. unfold ProjectService.add_admin_stmt. destruct (exists_row _ _); [by intros [= _ <-]|].
  destruct (insert_row _ _ _ _ c d) as [[m d1]|v] eqn:E; intros [= _ <-]. by eapply member_writes.
Qed.
Lemma dependency_writes a b : stmt_sat writes (WorkflowService.create_dependency_stmt a b).
Proof.
  intros c d n d'. unfold WorkflowService.create_dependency_stmt.
  destruct (first_violation _) as [[]|] eqn:E; intros [= _ <-]; [done|].
  apply first_violation_None in E as Hc. apply writes_dependencies. inserted Hc.
Qed.
End statements.

#[export] Hint Resolve claim_writes mark_running_writes mark_completed_writes fail_writes
  retry_writes requeue_writes re_queue_writes recover_writes cancel_writes release_writes
  set_paused_writes deregister_writes register_writes heartbeat_writes revoke_writes
  insert_next_writes create_queue_writes insert_project_writes member_writes user_writes
  token_writes upsert_org_writes add_admin_writes dependency_writes : sched.

(** ** What happened is announced

    Each dead letter and each execution has its event in the outbox: written in
    the same transaction, it is there whenever they are. *)

Definition has_event (d : Db) (job_id : Uuid) (p : OutboxEventType.t -> Prop) : Prop :=
  exists k e, outbox_events d !! k = Some e /\ OutboxEvent.aggregate_id e = job_id /\
    p (OutboxEvent.event_type e).

(** The events that announce an execution. *)
Definition announces (success : bool) (ty : OutboxEventType.t) : Prop :=
  if success then ty = OutboxEventType.JobCompleted
  else ty = OutboxEventType.JobMovedToDlq \/ ty = OutboxEventType.JobRetryScheduled.

Record announced (d : Db) : Prop := {
  dead_letters_announced : forall k x, dead_letter_queue d !! k = Some x ->
    has_event d (DeadLetterEntry.job_id x) (fun ty => ty = OutboxEventType.JobMovedToDlq);
  executions_announced : forall k x, job_executions d !! k = Some x ->
    has_event d (JobExecution.job_id x) (announces (JobExecution.success x));
}.

(** Only the relay marks an event as published. *)
Definition unmarked (d d' : Db) : Prop := forall k e,
  outbox_events d' !! k = Some e -> OutboxEvent.published e = true -> outbox_events d !! k = Some e.

(** The guarantee of every task but the relay. *)
Definition history (d d' : Db) : Prop :=
  evolves d d' /\ unmarked d d' /\ (announced d -> announced d').
#[global] Instance history_preorder : PreOrder history.
Proof.
  unfold history, unmarked. split; [intros d; split_and!; auto; reflexivity|].
  intros d1 d2 d3 (? & ? & ?) (? & ? & ?). split_and!; [by etrans|eauto|auto].
Qed.

Lemma announced_same d d' : unrecorded d d' -> announced d -> announced d'.
Proof.
  intros (Hx & Hd & Ho) []. split; unfold has_event in *; rewrite ?Hd, ?Hx, Ho; auto.
Qed.

Lemma history_writes d d' : writes d d' -> history d d'.
Proof.
  intros [? Hu]. split_and!; [done| |by apply announced_same].
  destruct Hu as (_ & _ & Ho). intros k e Hk _. congruence.
Qed.

(** The transaction of a run settles a job: its row is rewritten, one execution
    and one event are added, and possibly a dead letter. *)
Lemma settle_history k j j' x dead ev d :
  jobs d !! k = Some j -> same j j' -> (well_owned j -> well_owned j') ->
  new_rows x dead ev d -> JobExecution.job_id x = k ->
  OutboxEvent.aggregate_id ev = k -> OutboxEvent.published ev = false ->
  announces (JobExecution.success x) (OutboxEvent.event_type ev) ->
  (forall e, dead = Some e -> DeadLetterEntry.job_id e = k /\
     OutboxEvent.event_type ev = OutboxEventType.JobMovedToDlq) ->
  history d (settle k j' x dead ev d).
Proof.
  intros Hj Hs Hg (Hx & Hd & He) Hxk Hek Hpub Hann Hdead.
  split_and!.
  - unfold settle. split; simpl; try done.
    + by apply (table_evolves_row _ _ j).
    + by apply table_evolves_insert.
    + destruct dead; [by apply table_evolves_insert|done].
    + by apply table_evolves_insert.
  - intros i e. unfold settle. simpl. intros [[<- <-]|[_ Hk]]%lookup_insert_Some Hp; [congruence|done].
  - assert (forall id p, has_event d id p -> has_event (settle k j' x dead ev d) id p) as Hkeep.
    { intros id p (i & e & Hi & ?). exists i, e. split; [|done]. unfold settle. simpl.
      rewrite lookup_insert_ne; [done|congruence]. }
    assert (forall p : OutboxEventType.t -> Prop, p (OutboxEvent.event_type ev) ->
      has_event (settle k j' x dead ev d) k p) as Hnew.
    { intros p Hp. exists (OutboxEvent.id ev), ev. split; [apply lookup_insert_eq|done]. }
    intros []. split.
    + intros i e. unfold settle at 1. simpl. destruct dead as [e0|]; [|eauto].
      destruct (Hdead e0 eq_refl) as [He0 Hty].
      intros [[_ <-]|[_ Hi]]%lookup_insert_Some; [rewrite He0; auto|eauto].
    + intros i y. unfold settle at 1. simpl.
      intros [[_ <-]|[_ Hi]]%lookup_insert_Some; [rewrite Hxk; auto|eauto].
Qed.

Section transactions.
Context {UT : UuidText} {CT : ChronoText} {CH : Chrono} {CR : Cron}.

Lemma stmt_sat_history {A} (s : stmt A) : stmt_sat writes s -> stmt_sat history s.
Proof. apply stmt_sat_mono, history_writes. Qed.

Lemma mark_retried_history k u : stmt_sat history (DlqRepository.mark_retried_stmt k u).
Proof.
  intros c d a d'. unfold DlqRepository.mark_retried_stmt, update_row.
  destruct (dead_letter_queue d !! k) as [x|] eqn:Hx; [|by intros [= _ <-]].
  destruct (has (users d) u); intros [= _ <-]. split_and!.
  - split; simpl; try done. by apply (table_evolves_row _ _ x).
  - intros i e. simpl. done.
  - intros [Hdead Hex]. split; [|exact Hex]. intros i y. simpl.
    intros [[<- <-]|[_ Hi]]%lookup_insert_Some; [by apply (Hdead k x)|by apply (Hdead i y)].
Qed.

(** A transaction whose commit is described by a postcondition. *)
Lemma steps_sat_transaction_post {A} (R : Db -> Db -> Prop) `{!Reflexive R} (body : txm (tx_exit A)) Q :
  (forall base e, tx_post base e body (Q base e)) ->
  (forall base e d x d', Q base e d x d' -> R d d') ->
  steps_sat (on_db R) (transaction body).
Proof.
  intros Hb HQ. split; [|by intros [?|]]. intros e w. unfold on_db.
  destruct (e_fault e 0); try done. destruct (body e _) as [x t] eqn:Eb.
  destruct (finish_tx e (w_db w) x t) as [r d] eqn:Ef. simpl. split; [|done].
  apply finish_tx_cases in Ef as [->|(k & -> & Ha & -> & _)]; [done|].
  apply (Hb (w_db w)) in Eb as [_ Hq]; [|done]. destruct (Hq Ha) as [_ Hq'].
  eapply HQ. by apply Hq'.
Qed.

Lemma success_tx_history job wk eid t0 t1 :
  steps_sat (on_db history) (transaction (Executor.success_tx job wk eid t0 t1)).
Proof.
  eapply steps_sat_transaction_post; [typeclasses eauto|intros; apply success_tx_post|].
  intros _ _ d x d' (j & t & ev & _ & Hj & Hrows & Hty & Hagg & Hpub & ->).
  by eapply settle_history.
Qed.

Lemma failure_tx_history job wk eid t0 t1 msg :
  steps_sat (on_db history) (transaction (Executor.failure_tx job wk eid t0 t1 msg)).
Proof.
  eapply steps_sat_transaction_post; [typeclasses eauto|intros; apply failure_tx_post|].
  intros base e0 d x d' [_ Hset]. unfold dead_lettered, retry_scheduled in Hset. cbv zeta in Hset.
  destruct (Executor.should_dlq job).
  - destruct Hset as (j & t & dead_id & moved & ev & Hj & Hrows & Hty & Hagg & Hpub & ->).
    eapply settle_history; [done|done|done|done|done|done|done|by left|]. by intros e [= <-].
  - destruct Hset as (delay & _ & j & t & t2 & n & ev & Hj & Hrows & _ & Hty & Hagg & Hpub & ->).
    eapply settle_history; [done|done|done|done|done|done|done|by right|]. by intros e [=].
Qed.
End transactions.

#[export] Hint Resolve stmt_sat_history mark_retried_history success_tx_history
  failure_tx_history : sched.
