(* ===== verification/Board.v ===== *)
(** * The job board: an abstract specification of the scheduler

    What the scheduler promises of its jobs, without rows, clocks or statements:
    a board of jobs in five phases, the log of their runs, the dead letters, and
    a multiset of tickets. A worker gets a ticket when it takes a job from the
    board, and it spends the ticket when it records the run; recoveries put a job
    back without taking anybody's ticket away. A manual retry gets its ticket by
    finding a dead letter that nobody has retried, and spends it when it puts the
    letter's job back.

    [sim] says that a program, with the tickets it holds, moves the board of the
    store as the specification allows, in every interleaving: each of its steps
    is one step of the board or none. *)
From stdpp Require Import gmultiset.
From S2P Require Import Prelude Enums Entities RetryPolicy Db Steps JobRepository.
From S2P Require Import JobService DlqService SchedulerCore Executor History.

Module Board.

(** [Waiting]: pending or scheduled; [Ready]: queued; [Taken]: claimed or
    running, by the worker if it still has one; [Done]; [Dead]: failed. *)
Inductive Phase := Waiting | Ready | Taken (by_worker : option Uuid) | Done | Dead.
#[global] Instance Phase_eq_dec : EqDecision Phase.
Proof. solve_decision. Defined.

Record Run := MkRun { run_job : Uuid; run_worker : Uuid; run_success : bool }.

(** To run a job, of a worker; to retry a dead letter, of its job. *)
Definition Ticket : Type := (Uuid * Uuid) + (Uuid * Uuid).
Abbreviation Tickets := (gmultiset Ticket).
Abbreviation ToRun k w := (inl (k, w) : Ticket).
Abbreviation ToRetry x k := (inr (x, k) : Ticket).

(** A dead letter: its job, and whether it was retried. *)
Abbreviation Letter := (Uuid * bool)%type.

Record t := Mk {
  phases : gmap N Phase;
  runs : gmap N Run;
  letters : gmap N Letter;
  tickets : Tickets;
}.

Definition holder (p : Phase) : option Uuid :=
  match p with Taken w => w | _ => None end.

(** Free to be taken, now or later. *)
Definition idle (p : Phase) : bool :=
  match p with Waiting | Ready => true | _ => false end.

(** Where a recorded run leaves its job. *)
Definition settled (success : bool) (p : Phase) : Prop :=
  if success then p = Done else p = Waiting \/ p = Dead.

(** Some jobs move from [P] to [Ready]. *)
Definition readied (P : Phase -> Prop) (m m' : gmap N Phase) : Prop :=
  forall k, m' !! k = m !! k \/ exists p, m !! k = Some p /\ P p /\ m' !! k = Some Ready.

(** A dead end leaves a new dead letter of the job, another end does not. *)
Definition lettered (k : Uuid) (p : Phase) (l l' : gmap N Letter) : Prop :=
  if decide (p = Dead) then exists y, l !! y = None /\ l' = <[y := (k, false)]> l else l' = l.

Inductive step : t -> t -> Prop :=
| Submit k p m r l T :
    m !! k = None -> idle p = true -> step (Mk m r l T) (Mk (<[k := p]> m) r l T)
| Wake m m' r l T :
    readied (fun p => p = Waiting) m m' -> step (Mk m r l T) (Mk m' r l T)
| Take k w m r l T :
    m !! k = Some Ready ->
    step (Mk m r l T) (Mk (<[k := Taken (Some w)]> m) r l ({[+ ToRun k w +]} ⊎ T))
| Start k w p m r l T :
    ToRun k w ∈ T -> m !! k = Some p ->
    step (Mk m r l T) (Mk (<[k := Taken (holder p)]> m) r l T)
| Settle k w x s p m r l l' T :
    is_Some (m !! k) -> r !! x = None -> settled s p -> lettered k p l l' ->
    step (Mk m r l ({[+ ToRun k w +]} ⊎ T)) (Mk (<[k := p]> m) (<[x := MkRun k w s]> r) l' T)
| Recover m m' r l T :
    readied (fun p => exists w, p = Taken (Some w)) m m' -> step (Mk m r l T) (Mk m' r l T)
| Cancel k p m r l T :
    m !! k = Some p -> idle p = true -> step (Mk m r l T) (Mk (<[k := Dead]> m) r l T)
| Look x k m r l T :
    l !! x = Some (k, false) -> step (Mk m r l T) (Mk m r l ({[+ ToRetry x k +]} ⊎ T))
| Revive x k retried m r l T :
    l !! x = Some (k, retried) -> is_Some (m !! k) ->
    step (Mk m r l ({[+ ToRetry x k +]} ⊎ T))
      (Mk (<[k := Ready]> m) r (<[x := (k, true)]> l) T).

(** *** What the board counts *)

(** Tickets for a job, and its recorded successes. *)
Definition to_run (k : Uuid) (x : Ticket) : bool :=
  match x with inl (k', _) => bool_decide (k' = k) | inr _ => false end.
Definition holders (k : Uuid) (T : Tickets) : nat := length (filter (to_run k) (elements T)).
Definition successes (k : Uuid) (r : gmap N Run) : nat :=
  size (filter (fun x => run_job x.2 = k /\ run_success x.2 = true) r).

(** One for a job that may still be taken. *)
Definition open_slot (k : Uuid) (m : gmap N Phase) : nat :=
  match m !! k with Some p => if idle p then 1 else 0 | None => 1 end.

(** The job went back to [Ready] from the hands of a worker or from its end. *)
Definition reopened (k : Uuid) (m m' : gmap N Phase) : bool :=
  match m !! k, m' !! k with
  | Some p, Some Ready => negb (idle p)
  | _, _ => false
  end.

(** A worker that has a ticket, or a job that can be taken, is a chance of one
    more success. *)
Definition chances (k : Uuid) (b : t) : nat :=
  successes k (runs b) + holders k (tickets b) + open_slot k (phases b).
End Board.

(** ** Counting *)

Section counting.
Import Board.

Lemma holders_disj_union k T1 T2 : holders k (T1 ⊎ T2) = (holders k T1 + holders k T2)%nat.
Proof.
  unfold holders. rewrite <- length_app, <- filter_app.
  by rewrite (gmultiset_elements_disj_union T1 T2).
Qed.
Lemma holders_singleton k (x : Ticket) : holders k {[+ x +]} = (if to_run k x then 1 else 0)%nat.
Proof.
  unfold holders. rewrite gmultiset_elements_singleton, filter_cons.
  destruct (to_run k x); by case_decide.
Qed.
Lemma holders_empty k : holders k ∅ = 0%nat.
Proof. done. Qed.

Lemma successes_insert k x y r : r !! x = None ->
  successes k (<[x := y]> r) =
  ((if bool_decide (run_job y = k /\ run_success y = true) then 1 else 0) + successes k r)%nat.
Proof.
  intros Hx. unfold successes. destruct (bool_decide_reflect (run_job y = k /\ run_success y = true)) as [Hy|Hy].
  - rewrite map_filter_insert_True by done. rewrite map_size_insert_None; [done|].
    apply map_lookup_filter_None. by left.
  - rewrite map_filter_insert_False by done. rewrite delete_id by done. done.
Qed.

Lemma open_slot_insert k i p m :
  open_slot k (<[i := p]> m) =
  if bool_decide (i = k) then (if idle p then 1 else 0)%nat else open_slot k m.
Proof.
  unfold open_slot. destruct (bool_decide_reflect (i = k)) as [->|Hne].
  - by rewrite lookup_insert_eq.
  - by rewrite lookup_insert_ne.
Qed.
Lemma open_slot_le k m : (open_slot k m <= 1)%nat.
Proof. unfold open_slot. destruct (m !! k) as [p|]; [destruct (idle p)|]; lia. Qed.

Lemma readied_chances k P m m' : readied P m m' ->
  (open_slot k m' <= open_slot k m + if reopened k m m' then 1 else 0)%nat.
Proof.
  intros Hr. unfold open_slot, reopened. destruct (Hr k) as [->|(p & -> & _ & ->)].
  - lia.
  - destruct (idle p); simpl; lia.
Qed.

(** The law of the board: a step adds a chance only when it reopens the job. *)
Lemma step_chances k b b' : step b b' ->
  (chances k b' <= chances k b + if reopened k (phases b) (phases b') then 1 else 0)%nat.
Proof.
  unfold chances. destruct 1 as
    [i p m r l T Hi Hp|m m' r l T Hr|i w m r l T Hi|i w p m r l T _ Hi|i w x s p m r l l' T [q Hi] Hx Hs _
    |m m' r l T Hr|i p m r l T Hi Hp|x i m r l T Hx|x i retried m r l T _ [q Hi]]; simpl;
    try (pose proof (readied_chances k _ _ _ Hr); lia);
    rewrite ?holders_disj_union, ?holders_singleton, ?successes_insert by done; simpl; [..|lia|];
    rewrite open_slot_insert; unfold open_slot, reopened;
    (destruct (bool_decide_reflect (i = k)) as [->|Hne];
      [rewrite lookup_insert_eq, Hi; simpl
      | rewrite lookup_insert_ne by done;
        rewrite ?(bool_decide_eq_false_2 (i = k /\ _)) by tauto; lia]).
  - rewrite Hp. destruct p; simpl; lia.
  - lia.
  - destruct (idle p); lia.
  - destruct s; simpl in Hs.
    + subst p. rewrite bool_decide_eq_true_2 by done. simpl. lia.
    + rewrite bool_decide_eq_false_2 by naive_solver. destruct (idle p); lia.
  - lia.
  - destruct (idle q); simpl; lia.
Qed.

(** *** Manual retries *)

(** Every ticket for a retry is for a dead letter of that job: no step loses a
    letter. *)
Definition honored (b : t) : Prop := forall x k,
  ToRetry x k ∈ tickets b -> exists retried, letters b !! x = Some (k, retried).

Lemma step_honored b b' : step b b' -> honored b -> honored b'.
Proof.
  unfold honored. destruct 1 as
    [| |i w m r l T _|i w p m r l T _ _|i w x s p m r l l' T _ _ _ Hl| | |x i m r l T Hx|x i retried m r l T Hx _];
    simpl; intros Hb; try done; intros y k Hy.
  - apply gmultiset_elem_of_disj_union in Hy as [Hy%gmultiset_elem_of_singleton|Hy]; [done|auto].
  - destruct (Hb y k) as [b0 Hb0]; [apply gmultiset_elem_of_disj_union; auto|]. exists b0.
    unfold lettered in Hl. case_decide; [|by subst]. destruct Hl as (z & Hz & ->).
    rewrite lookup_insert_ne; [done|]. intros ->. by rewrite Hz in Hb0.
  - apply gmultiset_elem_of_disj_union in Hy as [Hy%gmultiset_elem_of_singleton|Hy]; [|auto].
    injection Hy as -> ->. by exists false.
  - destruct (Hb y k) as [b0 Hb0]; [apply gmultiset_elem_of_disj_union; auto|].
    destruct (decide (y = x)) as [->|]; [|by rewrite lookup_insert_ne by done; exists b0].
    rewrite lookup_insert_eq. exists true. by simplify_eq.
Qed.

(** Steps do not look at the tickets of others. *)
Lemma step_frame m r l T m' r' l' T' F :
  step (Mk m r l T) (Mk m' r' l' T') -> step (Mk m r l (T ⊎ F)) (Mk m' r' l' (T' ⊎ F)).
Proof.
  inversion 1; subst; rewrite <- ?(assoc_L (⊎)); try by econstructor; eauto.
  eapply Start; [|done]. apply gmultiset_elem_of_disj_union. eauto.
Qed.
End counting.

(** ** The board of a store *)

Definition phase_of (j : Job.t) : Board.Phase :=
  match Job.status j with
  | JobStatus.Pending | JobStatus.Scheduled => Board.Waiting
  | JobStatus.Queued => Board.Ready
  | JobStatus.Claimed | JobStatus.Running => Board.Taken (Job.worker_id j)
  | JobStatus.Completed => Board.Done
  | JobStatus.Failed => Board.Dead
  end.
Definition run_of (x : JobExecution.t) : Board.Run :=
  Board.MkRun (JobExecution.job_id x) (JobExecution.worker_id x) (JobExecution.success x).

Definition letter_of (x : DeadLetterEntry.t) : Board.Letter :=
  (DeadLetterEntry.job_id x, is_some (DeadLetterEntry.manually_retried_at x)).

Definition board_of (d : Db) (T : Board.Tickets) : Board.t :=
  Board.Mk (phase_of <$> jobs d) (run_of <$> job_executions d) (letter_of <$> dead_letter_queue d) T.

(** What the specification relies on at a step of a program that holds [T]. *)
Definition sound (d : Db) (T : Board.Tickets) : Prop := consistent d /\ honored (board_of d T).

Lemma sound_part d T F : sound d (T ⊎ F) -> sound d T.
Proof.
  intros [Hc Hh]. split; [done|]. intros x k Hx. apply (Hh x k), gmultiset_elem_of_disj_union. by left.
Qed.

(** One step of the board, or none. *)
Definition advances (d : Db) (T : Board.Tickets) (d' : Db) (T' : Board.Tickets)
  : Prop :=
  board_of d T = board_of d' T' \/ Board.step (board_of d T) (board_of d' T').

(** A change that needs no ticket. *)
Definition calm (d d' : Db) : Prop := consistent d -> forall T, advances d T d' T.

#[global] Instance calm_reflexive : Reflexive calm.
Proof. intros d _ T. by left. Qed.

Lemma advances_honored d T d' T' :
  advances d T d' T' -> honored (board_of d T) -> honored (board_of d' T').
Proof. intros [->|Hs]; [done|]. by apply step_honored. Qed.

Lemma advances_frame d T d' T' F : advances d T d' T' -> advances d (T ⊎ F) d' (T' ⊎ F).
Proof.
  unfold advances, board_of. intros [[= -> -> -> ->]|Hs]; [by left|right]. by apply step_frame.
Qed.

(** ** Programs that play by the board *)

(** [sim p T Q]: holding the tickets [T], and whatever happens to the store
    between its steps as long as it stays [sound], each step of [p] advances the
    board; tickets are handed to the tasks it spawns; when it returns, what it
    holds satisfies [Q]. *)
Fixpoint sim {A : Type} (p : prog A) (T : Board.Tickets)
  (Q : A -> Board.Tickets -> Prop) : Prop :=
  match p with
  | Ret a => Q a T
  | Panic => True
  | Step f k => forall e w, sound (w_db w) T -> exists T',
      advances (w_db w) T (w_db (f e w).2) T' /\ sim (k (f e w).1) T' Q
  | Spawn t k => exists T1 T2, T = T1 ⊎ T2 /\ sim t T1 (fun _ _ => True) /\ sim k T2 Q
  end.

(** A task: what it returns, or keeps, does not matter. *)
Abbreviation plays t T := (sim t T (fun _ _ => True)).

Lemma sim_mono {A} (p : prog A) (T : Board.Tickets) (Q Q' : A -> Board.Tickets -> Prop) :
  (forall a T', Q a T' -> Q' a T') -> sim p T Q -> sim p T Q'.
Proof.
  intros HQ. revert T. induction p as [A a|A|A B f k IH|A t _ p IH]; simpl; intros T Hs; auto.
  - intros e w Hc. destruct (Hs e w Hc) as (T' & Ha & Hk). eauto.
  - destruct Hs as (T1 & T2 & -> & Ht & Hp). eauto 10.
Qed.

Lemma sim_bind {A B} (p : prog A) (k : A -> prog B) T Q :
  sim p T (fun a T' => sim (k a) T' Q) -> sim (bind p k) T Q.
Proof.
  revert B k T Q. induction p as [A a|A|A X f k0 IH|A t _ p IH]; simpl; intros B k T Q Hs; auto.
  - intros e w Hc. destruct (Hs e w Hc) as (T' & Ha & Hk). eauto.
  - destruct Hs as (T1 & T2 & -> & Ht & Hp). eauto 10.
Qed.

(** Every step is calm; messages may be sent. *)
Abbreviation calmly p := (steps_sat (fun _ w w' => calm (w_db w) (w_db w')) p).

Lemma calmly_on_db {A} (p : prog A) : steps_sat (on_db calm) p -> calmly p.
Proof. apply steps_sat_mono. by intros e w w' []. Qed.

(** A calm program keeps its tickets. *)
Lemma sim_calm {A} (p : prog A) (T : Board.Tickets) : calmly p -> sim p T (fun _ T' => T' = T).
Proof.
  revert T. induction p as [A a|A|A B f k IH|A t IHt p IH]; simpl; intros T Hs; [done|done| |].
  - destruct Hs as [Hf Hk]. intros e w [Hc _]. exists T. split; [by apply Hf|by apply IH].
  - destruct Hs as [Ht Hp]. exists ∅, T. split; [multiset_solver|]. split; [|by apply IH].
    eapply sim_mono; [|by apply IHt]. done.
Qed.
Lemma plays_calm {A} (p : prog A) (T : Board.Tickets) : steps_sat (on_db calm) p -> plays p T.
Proof. intros Hp. eapply sim_mono; [|by apply sim_calm, calmly_on_db]. done. Qed.

(** Composition: after a calm program; of rounds; of a spawned task that needs
    no ticket. *)
Lemma sim_after {A B} (p : prog A) (k : A -> prog B) (T : Board.Tickets) Q :
  steps_sat (on_db calm) p -> (forall a, sim (k a) T Q) -> sim (bind p k) T Q.
Proof.
  intros Hp Hk. apply sim_bind. eapply sim_mono; [|by apply sim_calm, calmly_on_db].
  by intros a T' ->.
Qed.
Lemma plays_bind {A B} (p : prog A) (k : A -> prog B) (T : Board.Tickets) :
  plays p T -> (forall a (T' : Board.Tickets), plays (k a) T') -> plays (bind p k) T.
Proof. intros Hp Hk. apply sim_bind. eapply sim_mono; [|exact Hp]. auto. Qed.
Lemma plays_ticks (n : nat) (body : prog unit)
  (T : Board.Tickets) :
  (forall T' : Board.Tickets, plays body T') ->
  plays (ticks n body) T.
Proof.
  intros Hb. revert T. induction n as [|n IH]; intros T; [done|].
  change (ticks (S n) body) with (body ;;; ticks n body). by apply plays_bind.
Qed.
Lemma plays_for_each {A} (l : list A) (body : A -> prog unit) (T : Board.Tickets) :
  (forall x (T' : Board.Tickets), plays (body x) T') -> plays (for_each l body) T.
Proof.
  intros Hb. revert T. induction l as [|x l IH]; intros T; [done|].
  change (for_each (x :: l) body) with (body x ;;; for_each l body). by apply plays_bind.
Qed.
Lemma plays_spawn {A} (t : prog unit) (p : prog A)
  (T : Board.Tickets) :
  plays t (∅ : Board.Tickets) -> plays p T -> plays (Spawn t p) T.
Proof. intros Ht Hp. exists ∅, T. split; [multiset_solver|]. by split. Qed.

(** A statement, and a transaction: what is committed advances the board. *)
Lemma sim_sql {A} (s : stmt A) (T : Board.Tickets)
  (Q : result A sqlx_error -> Board.Tickets -> Prop) :
  (forall e, Q (Err e) T) ->
  (forall c d a d', sound d T -> s c d = Ok (a, d') -> exists T',
     advances d T d' T' /\ Q (Ok a) T' /\ Q (Err Io) T') ->
  sim (sql s) T Q.
Proof.
  intros HE HQ e w Hc. destruct (e_fault e 0); [|exists T; split; [by left|apply HE]|];
    (destruct (s (ctx_of e 0) (w_db w)) as [[a d]|v] eqn:Es; [|exists T; split; [by left|apply HE]]);
    destruct (HQ _ _ _ _ Hc Es) as (T' & ? & ? & ?); by exists T'.
Qed.
Lemma plays_transaction {A} (body : txm (tx_exit A))
  (Q : Db -> Env -> Db -> tx_exit A -> Db -> Prop) (T : Board.Tickets) :
  (forall base e, tx_post base e body (Q base e)) ->
  (forall base e d k d', sound d T -> Q base e d (Commit k) d' -> exists T', advances d T d' T') ->
  plays (transaction body) T.
Proof.
  intros Hb HQ e w Hc. destruct (e_fault e 0); [|by exists T; split; [left|]..].
  destruct (body e _) as [x t] eqn:Eb.
  destruct (finish_tx e (w_db w) x t) as [r d] eqn:Ef.
  assert (exists T', advances (w_db w) T d T') as [T' HT].
  { apply finish_tx_cases in Ef as [->|(k & -> & Ha & -> & _)]; [by exists T; left|].
    apply (Hb (w_db w)) in Eb as [_ Hq]; [|done]. destruct (Hq Ha) as [_ Hq']. eauto. }
  exists T'. split; [done|]. by destruct r.
Qed.

(** ** Pools *)

Definition total (Ts : list Board.Tickets) : Board.Tickets :=
  foldr (⊎) ∅ Ts.

Lemma total_app Ts Ts' : total (Ts ++ Ts') = total Ts ⊎ total Ts'.
Proof. induction Ts as [|T Ts IH]; simpl; [multiset_solver|]. rewrite IH. multiset_solver. Qed.

Lemma total_insert Ts i T T' : Ts !! i = Some T -> exists F,
  total Ts = T ⊎ F /\ total (<[i := T']> Ts) = T' ⊎ F.
Proof.
  revert i. induction Ts as [|T0 Ts IH]; intros [|i] Hi; simplify_eq/=; [eauto|].
  destruct (IH i Hi) as (F & -> & ->). exists (T0 ⊎ F). split; multiset_solver.
Qed.

(** The tasks of a pool, each with the tickets it holds. *)
Abbreviation pool_plays ts Ts := (Forall2 (fun t T => plays t T) ts Ts).

(** The simulation diagram: a step of the pool is a step of the board or none. *)
Lemma pool_step_advances ts Ts w ts' w' :
  sound (w_db w) (total Ts) -> pool_plays ts Ts -> pool_step (ts, w) (ts', w') ->
  exists Ts', pool_plays ts' Ts' /\ advances (w_db w) (total Ts) (w_db w') (total Ts').
Proof.
  intros Hc Hts Hstep. inversion Hstep as [i e t t' sp ? ? ? Hi Ht]; subst.
  destruct (Forall2_lookup_l _ _ _ _ _ Hts Hi) as (T & HT & Hp).
  assert (sound (w_db w) T) as HcT.
  { destruct (total_insert Ts i T T HT) as (F & HF & _). rewrite HF in Hc. by apply sound_part in Hc. }
  assert (exists T' Tsp, plays t' T' /\ pool_plays sp Tsp /\
    advances (w_db w) T (w_db w') (T' ⊎ total Tsp)) as (T' & Tsp & Ht' & Hsp & Ha).
  { destruct t as [a| |B f k|s k]; simpl in Ht; simplify_eq.
    - destruct (Hp e w HcT) as (T' & Ha & Hk). destruct (f e w) as [b w1]. simplify_eq/=.
      exists T', []. split_and!; [done|constructor|]. simpl. by rewrite (right_id_L ∅ (⊎)).
    - destruct Hp as (T1 & T2 & -> & Hs & Hk). exists T2, [T1]. split_and!; [done|by repeat constructor|].
      left. simpl. f_equal. multiset_solver. }
  exists (<[i := T']> Ts ++ Tsp). split.
  - apply Forall2_app; [|done]. by apply Forall2_insert.
  - destruct (total_insert Ts i T T' HT) as (F & -> & HF). rewrite total_app, HF.
    replace (T' ⊎ F ⊎ total Tsp) with (T' ⊎ total Tsp ⊎ F) by multiset_solver.
    by apply advances_frame.
Qed.
