(* ===== verification/Settings.v ===== *)
(** * Settings of a process ([src/main.rs])

    What [main] reads of its environment: the required variables, the ones with
    a default, the port, and the list of queues to poll. *)
From Stdlib Require Import Ascii.
From S2P Require Import Prelude Text Enums Entities Externals.

Module Settings.
Section settings.
Context {UT : UuidText}.

Record t := Mk {
  database_url : string;
  redis_url : string;
  jwt_secret : string;
  port : Z;
  queue_ids : list Uuid;
}.

(** [queue_ids_str.split(',').filter_map(|s| Uuid::parse_str(s.trim()).ok())] *)
Definition parse_queue_ids (s : string) : list Uuid :=
  omap (fun piece => parse_str (trim piece)) (split ","%char s).

(** [main]'s reading of its variables; [var] is [std::env::var(_).ok()]. *)
Definition from_env (var : string -> option string) : result t string :=
  match var "DATABASE_URL" with
  | None => Err "DATABASE_URL not set"
  | Some database_url =>
      let redis_url := unwrap_or (var "REDIS_URL") "redis://localhost:6379" in
      match var "JWT_SECRET" with
      | None => Err "JWT_SECRET not set"
      | Some jwt_secret =>
          let port := unwrap_or (parse_u16 (unwrap_or (var "PORT") "8080")) 8080 in
          let queue_ids := parse_queue_ids (unwrap_or (var "QUEUE_IDS") "") in
          Ok (Mk database_url redis_url jwt_secret port queue_ids)
      end
  end.
End settings.
End Settings.

(** ** Printing and parsing *)

Section strings.

Lemma app_empty_r s : s +:+ "" = s.
Proof. induction s as [|c s IH]; [done|]. change (String c (s +:+ "") = String c s). by rewrite IH. Qed.

Definition chars (p : ascii -> bool) (s : string) : bool := forallb p (String.list_ascii_of_string s).

Lemma chars_cons p c s : chars p (String c s) = p c && chars p s.
Proof. done. Qed.

Lemma split_no_sep sep s : chars (fun c => negb (Ascii.eqb c sep)) s = true -> split sep s = [s].
Proof.
  induction s as [|c s IH]; [done|]. rewrite chars_cons, andb_true_iff, negb_true_iff.
  intros [Hc Hs]. simpl. by rewrite Hc, IH.
Qed.

Lemma split_app sep s rest : chars (fun c => negb (Ascii.eqb c sep)) s = true ->
  split sep (s +:+ String sep rest) = s :: split sep rest.
Proof.
  induction s as [|c s IH]; intros Hs.
  - simpl. by rewrite Ascii.eqb_refl.
  - rewrite chars_cons, andb_true_iff, negb_true_iff in Hs. destruct Hs as [Hc Hs].
    change (String c s +:+ String sep rest) with (String c (s +:+ String sep rest)).
    simpl. by rewrite Hc, IH.
Qed.

(** The pieces joined by the separator are the pieces again. *)
Lemma split_concat sep piece pieces :
  Forall (fun s => chars (fun c => negb (Ascii.eqb c sep)) s = true) (piece :: pieces) ->
  split sep (String.concat (String sep "") (piece :: pieces)) = piece :: pieces.
Proof.
  revert piece. induction pieces as [|p pieces IH]; intros piece [Hp Hps]%Forall_cons.
  - by apply split_no_sep.
  - change (String.concat (String sep "") (piece :: p :: pieces)) with
      (piece +:+ String sep (String.concat (String sep "") (p :: pieces))).
    rewrite split_app by done. by rewrite IH.
Qed.

(** Unicode's White_Space characters, and the UTF-8 encoding of a code point
    below U+10000. *)
Definition White_Space : list N :=
  [9; 10; 11; 12; 13; 32; 133; 160; 5760; 8192; 8193; 8194; 8195; 8196; 8197; 8198; 8199; 8200; 8201;
   8202; 8232; 8233; 8239; 8287; 12288]%N.
Definition utf8 (n : N) : string :=
  let byte (m : N) := ascii_of_N m in
  (if n <? 128 then String (byte n) ""
   else if n <? 2048 then String (byte (192 + n / 64)) (String (byte (128 + n mod 64)) "")
   else String (byte (224 + n / 4096)) (String (byte (128 + n / 64 mod 64))
          (String (byte (128 + n mod 64)) "")))%N.
Definition blanks (l : list N) : string := foldr (fun n s => utf8 n +:+ s) "" l.

Lemma blanks_cons n l : blanks (n :: l) = utf8 n +:+ blanks l.
Proof. done. Qed.

Lemma trim_start_utf8 n s : n ∈ White_Space -> trim_start (utf8 n +:+ s) = trim_start s.
Proof.
  intros Hn. unfold White_Space in Hn. rewrite !elem_of_cons, elem_of_nil in Hn.
  destruct_or! Hn; by subst.
Qed.
Lemma trim_start_app l s : Forall (.∈ White_Space) l -> trim_start (blanks l +:+ s) = trim_start s.
Proof.
  induction 1 as [|n l Hn _ IH]; [done|].
  rewrite blanks_cons, <- app_string_assoc, trim_start_utf8 by done. done.
Qed.

(** The characters of a UUID begin no whitespace. *)
Lemma uuid_char_no_space c : uuid_char c = true ->
  space1 (nat_of_ascii c) = false /\ (forall n, space2 (nat_of_ascii c) n = false) /\
  (forall n m, space3 (nat_of_ascii c) n m = false) /\ Ascii.eqb c "," = false.
Proof.
  destruct c as [b0 b1 b2 b3 b4 b5 b6 b7].
  destruct b0, b1, b2, b3, b4, b5, b6, b7; intros Hc; (discriminate Hc || by split_and!).
Qed.

Lemma trim_start_id c s : uuid_char c = true -> trim_start (String c s) = String c s.
Proof.
  intros (H1 & H2 & H3 & _)%uuid_char_no_space. simpl. rewrite H1.
  destruct s as [|b s]; [done|]. rewrite H2. destruct s as [|d s]; [done|]. by rewrite H3.
Qed.

Lemma trim_end_app s r : chars uuid_char s = true -> Forall (.∈ White_Space) r ->
  trim_end (s +:+ blanks r) = s.
Proof.
  intros Hs Hr. induction s as [|c s IH].
  - change ("" +:+ blanks r) with (blanks r).
    pose proof (trim_start_app r "" Hr) as Hb. rewrite app_empty_r in Hb.
    destruct (blanks r) as [|c l]; [done|]. cbn [trim_end]. unfold blank. by rewrite Hb.
  - rewrite chars_cons, andb_true_iff in Hs. destruct Hs as [Hc Hs].
    change (String c s +:+ blanks r) with (String c (s +:+ blanks r)). cbn [trim_end]. unfold blank.
    rewrite trim_start_id by done. by rewrite IH.
Qed.

Lemma trim_padded l s r : Forall (.∈ White_Space) l -> chars uuid_char s = true -> s <> "" ->
  Forall (.∈ White_Space) r -> trim (blanks l +:+ (s +:+ blanks r)) = s.
Proof.
  intros Hl Hs Hne Hr. unfold trim. rewrite trim_start_app by done.
  destruct s as [|c s]; [done|]. pose proof Hs as Hs'. rewrite chars_cons, andb_true_iff in Hs'.
  change (String c s +:+ blanks r) with (String c (s +:+ blanks r)). rewrite trim_start_id by tauto.
  change (String c (s +:+ blanks r)) with (String c s +:+ blanks r). by apply trim_end_app.
Qed.

Lemma chars_append p s1 s2 : chars p (s1 +:+ s2) = chars p s1 && chars p s2.
Proof.
  induction s1 as [|c s IH]; [done|].
  change (String c s +:+ s2) with (String c (s +:+ s2)). by rewrite !chars_cons, IH, andb_assoc.
Qed.
Lemma chars_impl (p q : ascii -> bool) s :
  (forall c, p c = true -> q c = true) -> chars p s = true -> chars q s = true.
Proof.
  intros Hpq. induction s as [|c s IH]; [done|]. rewrite !chars_cons, !andb_true_iff. naive_solver.
Qed.
End strings.

(** A list of ids as an operator writes it: each id with whitespace around it. *)
Definition written `{!UuidText} (x : list N * Uuid * list N) : string :=
  blanks x.1.1 +:+ (uuid_to_string x.1.2 +:+ blanks x.2).
Definition padded (x : list N * Uuid * list N) : Prop :=
  Forall (.∈ White_Space) x.1.1 /\ Forall (.∈ White_Space) x.2.

Lemma blanks_no_comma l : Forall (.∈ White_Space) l ->
  chars (fun c => negb (Ascii.eqb c ",")) (blanks l) = true.
Proof.
  induction 1 as [|n l Hn _ IH]; [done|]. rewrite blanks_cons, chars_append, IH, andb_true_r.
  unfold White_Space in Hn. rewrite !elem_of_cons, elem_of_nil in Hn. destruct_or! Hn; by subst.
Qed.

(** C39: [QUEUE_IDS] round trip: the ids of a comma-separated list, each with any
    number of Unicode White_Space characters on either side, are read back, all
    of them and in order; the empty text names no queue. *)
Theorem queue_ids_round_trip `{!UuidText, !UuidTextSpec} (xs : list (list N * Uuid * list N)) :
  Forall padded xs ->
  Settings.parse_queue_ids (String.concat "," (written <$> xs)) = (fun x => x.1.2) <$> xs.
Proof.
  intros Hxs. unfold Settings.parse_queue_ids. destruct xs as [|x xs].
  { simpl. by rewrite parse_empty. }
  assert (Forall (fun s => chars (fun c => negb (Ascii.eqb c ",")) s = true) (written <$> (x :: xs)))
    as Hsep.
  { apply Forall_fmap. eapply Forall_impl; [exact Hxs|]. intros y [Hl Hr]. unfold written. simpl.
    rewrite !chars_append, !andb_true_iff. split_and!; [by apply blanks_no_comma| |by apply blanks_no_comma].
    eapply chars_impl; [|apply to_string_chars]. intros c (_ & _ & _ & ->)%uuid_char_no_space. done. }
  change (written <$> (x :: xs)) with (written x :: (written <$> xs)) in *.
  rewrite split_concat by done. clear Hsep.
  change (written x :: (written <$> xs)) with (written <$> (x :: xs)).
  induction Hxs as [|y ys [Hl Hr] _ IH]; [done|]. simpl. unfold written at 1.
  rewrite trim_padded, parse_to_string; [by f_equal|done|apply to_string_chars| |done].
  intros He. pose proof (to_string_long y.1.2) as Hlong. rewrite He in Hlong. simpl in Hlong. lia.
Qed.

Section settings_example.
Import Toy.
Lemma queue_ids_round_trip_witness :
  Settings.parse_queue_ids (String.concat "," (written <$> [([], 7%N, []); ([32; 160], 12%N, [12288; 9])%N]))
    = [7%N; 12%N].
Proof.
  apply queue_ids_round_trip.
  repeat first [apply Forall_nil_2 | apply Forall_cons_2 | split]; compute_decide.
Defined.

(** Defaults, and pieces that are no ids. *)
Definition variables (name : string) : option string :=
  if String.eqb name "DATABASE_URL" then Some "postgres://db" else
  if String.eqb name "JWT_SECRET" then Some "k" else
  if String.eqb name "QUEUE_IDS" then Some "x, ,7,," else
  if String.eqb name "PORT" then Some "65536" else None.
Lemma settings_example : Settings.from_env variables =
  Ok (Settings.Mk "postgres://db" "redis://localhost:6379" "k" 8080 [7%N]).
Proof. vm_compute. reflexivity. Qed.
End settings_example.
