(* ===== verification/System.v ===== *)
(** * The whole program ([src/main.rs], [crates/api/src/routes], [server.rs])

    The process as one program that reads its settings, connects, spawns its
    background tasks, registers its worker, polls its queues and serves
    requests, each request a task of its own. Several processes on one store are
    pools side by side.

    The second part takes the program apart once: [Tolerated R] lists the
    statements and transactions of the program, and whoever shows that each of
    them changes the store as [R] allows gets the same for every request and
    every background task. *)
From S2P Require Import Prelude Enums Entities RetryPolicy Db Fixture Steps JobRepository.
From S2P Require Import Repositories Externals JobService QueueService DlqService SchedulerCore.
From S2P Require Import Executor Poller OutboxRelay ProjectService WorkflowService AuthService.
From S2P Require Import RateLimit Requests Api WebSocket Settings History.

Module System.

(** The routes that use the store. *)
Inductive Call :=
| Health | Ready | Live
| Register (req : RegisterRequest.t)
| Login (req : LoginRequest.t)
| Refresh (req : RefreshRequest.t)
| Logout (req : LogoutRequest.t)
| CreateJob (queue_id : Uuid) (req : CreateJobRequest.t)
| ListJobs (queue_id : Uuid) (params : ListJobsQuery.t)
| GetJob (job_id : Uuid)
| ListJobExecutions (job_id : Uuid)
| CancelJob (job_id : Uuid)
| ListProjects
| CreateProject (req : CreateProjectRequest.t)
| ListQueues (project_id : Uuid)
| CreateQueue (req : CreateQueueRequest.t)
| QueueStats (queue_id : Uuid)
| PauseQueue (queue_id : Uuid)
| ResumeQueue (queue_id : Uuid)
| ListDlq (params : ListDlqQuery.t)
| RetryDlqJob (dlq_id : Uuid)
| CreateDependency (req : CreateDependencyRequest.t)
| Metrics
| ListWorkers
| Events (socket : N) (polls : nat).

Section system.
Context {UT : UuidText} {CT : ChronoText} {CH : Chrono} {CR : Cron} {BC : Bcrypt} {JW : Jwt}
  {JT : JsonText} {ET : ErrorText} {RU : RedisUrl}.
Context {S1 : Serialize Job.t} {S2 : Serialize Queue.t} {S3 : Serialize QueueStats.t}
  {S4 : Serialize Project.t} {S5 : Serialize DeadLetterEntry.t} {S6 : Serialize JobSummary.t}
  {S7 : Serialize JobExecution.t} {S8 : Serialize JobStatus.t}.
Import Handlers Routes.

(** [build_router]; [redis_url] is what the WebSocket handler reads of the
    process's environment. *)
Definition route (state : AppState.t) (redis_url : option string) (req : Request.t) (c : Call)
  : prog (Z * string * option Value) :=
  let auth := AppState.auth_service state in
  match c with
  | Health => public req health
  | Ready => public req ready
  | Live => public req live
  | Register body => public req (register body)
  | Login body => public req (login auth body)
  | Refresh body => public req (refresh auth body)
  | Logout body => public req (logout body)
  | CreateJob q body => protected auth req (fun claims => create_job claims q body)
  | ListJobs q params => protected auth req (fun _ => list_jobs q params)
  | GetJob k => protected auth req (fun _ => get_job k)
  | ListJobExecutions k => protected auth req (fun _ => list_job_executions k)
  | CancelJob k => protected auth req (fun claims => cancel_job claims k)
  | ListProjects => protected auth req list_projects
  | CreateProject body => protected auth req (fun claims => create_project claims body)
  | ListQueues p => protected auth req (fun claims => list_queues claims p)
  | CreateQueue body => protected auth req (fun claims => create_queue claims body)
  | QueueStats q => protected auth req (fun claims => queue_stats claims q)
  | PauseQueue q => protected auth req (fun claims => pause_queue claims q)
  | ResumeQueue q => protected auth req (fun claims => resume_queue claims q)
  | ListDlq params => protected auth req (fun _ => list_dlq params)
  | RetryDlqJob x => protected auth req (fun claims => retry_dlq_job claims x)
  | CreateDependency body => protected auth req (fun claims => create_dependency claims body)
  | Metrics => protected auth req (fun _ => metrics)
  | ListWorkers => protected auth req (fun _ => list_workers)
  | Events socket polls => guarded auth req (fun _ => WebSocket.ws_handler redis_url socket polls)
  end.

(** [axum::serve]: every request is a task. *)
Fixpoint serve (state : AppState.t) (redis_url : option string)
  (requests : list (Request.t * Call)) : prog unit :=
  match requests with
  | [] => Ret tt
  | (req, c) :: rest =>
      Spawn (r <- route state redis_url req c ;; Ret tt) (serve state redis_url rest)
  end.

(** A connection attempt: to the database, for the migrations, to Redis, or to
    the port. *)
Definition connect : prog bool :=
  Step (fun e w => (match e_fault e 0 with NoFault => true | _ => false end, w)) Ret.

(** [server::run]: [bind(addr).await.unwrap()], then serve. *)
Definition run (state : AppState.t) (redis_url : option string)
  (requests : list (Request.t * Call)) : prog unit :=
  bound <- connect ;;
  if (bound : bool) then serve state redis_url requests else Panic.

(** What a process is started with: its environment variables, the name of its
    host, its generated worker id, and, until it is stopped, the number of rounds
    each of its loops makes and the requests it receives. *)
Record Config := MkConfig {
  variables : string -> option string;
  host : option string;
  worker_id : Uuid;
  rounds : nat;
  requests : list (Request.t * Call);
}.

Definition STALE_THRESHOLD_SECONDS : Z := 60.

(** [format!("worker-{}", &worker_id.to_string()[..8])]: the slice panics on a
    text of less than eight bytes. *)
Definition worker_name (worker_id : Uuid) : option string :=
  let text := uuid_to_string worker_id in
  if (8 <=? String.length text)%nat then Some ("worker-" +:+ String.substring 0 8 text) else None.

(** [main] once it is connected. A failed registration ends the process; its
    other tasks end with it, which is one of the interleavings in which they
    stop. *)
Definition start (handler : Job.t -> prog (result unit string)) (settings : Settings.t)
  (cfg : Config) (name : string) : prog unit :=
  let state := AppState.new (Settings.jwt_secret settings) in
  worker <- WorkerAppState.new (worker_id cfg) name ;;
  Spawn (OutboxRelay.run_relay (rounds cfg))
  (Spawn (CronScheduler.run_scheduled_job_promoter (rounds cfg))
  (Spawn (StaleRecovery.run_stale_recovery STALE_THRESHOLD_SECONDS (rounds cfg))
  (Spawn (Heartbeat.run_heartbeat (worker_id cfg) (rounds cfg))
  (r <- WorkerRepository.register (worker_id cfg) (WorkerAppState.worker_name worker)
          (unwrap_or (host cfg) "unknown") ;;
   match r with
   | Err _ => Ret tt
   | Ok _ =>
       let queue_ids := Settings.queue_ids settings in
       let polling :=
         Poller.run_poller_with_counter handler (worker_id cfg) queue_ids (rounds cfg) in
       let serving :=
         run state (variables cfg "REDIS_URL") (requests cfg) ;;;
         r <- WorkerRepository.deregister (worker_id cfg) ;; Ret tt in
       if bool_decide (queue_ids = []) then serving else Spawn polling serving
   end)))).

(** [main]: the handler of jobs is an argument, [Executor.simulate_execute] in
    the program as shipped. A missing variable or a connection that cannot be
    made ends the process before it did anything. *)
Definition main (handler : Job.t -> prog (result unit string)) (cfg : Config) : prog unit :=
  match Settings.from_env (variables cfg) with
  | Err _ => Ret tt
  | Ok settings =>
      pool <- connect ;;
      if negb pool then Ret tt else
      migrated <- connect ;;
      if negb migrated then Ret tt else
      redis <- connect ;;
      if negb redis then Ret tt else
      match worker_name (worker_id cfg) with
      | None => Panic
      | Some name => start handler settings cfg name
      end
  end.
End system.
End System.

(** ** The program, statement by statement *)

(** What a relation between stores has to allow: the statements and transactions
    of requests and of the background tasks. *)
Class Tolerated `{!UuidText, !ChronoText, !Chrono, !Cron, !Bcrypt, !Jwt} (R : Db -> Db -> Prop)
  : Prop := {
  tolerated_reflexive :: Reflexive R;
  tol_insert_job q p req st pr n s corr pol :
    st = JobStatus.Queued \/ st = JobStatus.Scheduled ->
    stmt_sat R (JobService.insert_job_stmt q p req st pr n s corr pol);
  tol_cancel k : stmt_sat R (JobService.cancel_stmt k);
  tol_create_queue q : stmt_sat R (insert_row queues Queue.id queues_constraints q);
  tol_set_paused q b : stmt_sat R (QueueRepository.set_paused_stmt q b);
  tol_create_tx u on os n s d :
    steps_sat (on_db R) (transaction (ProjectService.create_tx u on os n s d));
  tol_dependency a b : stmt_sat R (WorkflowService.create_dependency_stmt a b);
  tol_user u : stmt_sat R (insert_row users User.id users_constraints u);
  tol_token r :
    stmt_sat R (insert_row refresh_tokens RefreshToken.id refresh_tokens_constraints r);
  tol_revoke h : stmt_sat R (UserRepository.revoke_stmt h);
  tol_insert_next k t : stmt_sat R (Recurring.insert_next_stmt k t);
  tol_heartbeat wk n : stmt_sat R (WorkerRepository.upsert_heartbeat_stmt wk n);
  tol_register wk name host : stmt_sat R (WorkerRepository.register_stmt wk name host);
  tol_deregister wk : stmt_sat R (WorkerRepository.deregister_stmt wk);
  tol_re_queue : stmt_sat R JobRepository.re_queue_stmt;
  tol_recover thr : stmt_sat R (JobRepository.recover_stmt thr);
}.
(** The transaction of a manual retry, which one request needs. *)
Class ToleratesRetry `{!UuidText, !ChronoText, !Chrono, !Cron} (R : Db -> Db -> Prop) : Prop :=
  tol_retry_tx j x u : steps_sat (on_db R) (transaction (DlqService.retry_tx j x u)).
#[export] Hint Resolve tol_insert_job tol_cancel tol_create_queue tol_set_paused tol_dependency
  tol_user tol_token tol_revoke tol_insert_next tol_heartbeat tol_register tol_deregister
  tol_re_queue tol_recover : sched.

(** Every leaf of a program is a tolerated statement. *)
Ltac leaf :=
  try first
    [ typeclasses eauto
    | solve [eauto with sched]
    | apply stmt_sat_with_ctx; intros; first [apply stmt_sat_page; typeclasses eauto
                                             | solve [eauto with sched]] ].
Ltac keeping_with known :=
  steps_tac_with ltac:(first [known | apply tol_create_tx]); leaf.
Ltac keeping := keeping_with fail.

Section guarantees.
Context {UT : UuidText} {CT : ChronoText} {CH : Chrono} {CR : Cron} {BC : Bcrypt} {JW : Jwt}
  {JT : JsonText} {ET : ErrorText} {RU : RedisUrl}.
Context (R : Db -> Db -> Prop) {TR : Tolerated R}.

(** [p] changes the store as [R] allows. *)
Abbreviation keeps p := (steps_sat (on_db R) p).

Lemma keeps_local {A} (f : Env -> World -> A * World) :
  (forall e w, w_db (f e w).2 = w_db w /\ w_bus (f e w).2 = w_bus w) -> keeps (Step f Ret).
Proof.
  intros Hf. split; [|done]. intros e w. destruct (Hf e w) as [Hd Hb]. unfold on_db. by rewrite Hd.
Qed.

Lemma create_job_keeps q u req : keeps (JobService.create_job q u req).
Proof.
  unfold JobService.create_job, JobRepository.find_by_idempotency_key, QueueRepository.find_by_id,
    ProjectRepository.get_member_role.
  pose proof (initial_state_status req) as Hst.
  destruct (JobService.initial_state req) as [st sch]. simpl in Hst. subst st.
  keeping. apply tol_insert_job. destruct (CreateJobRequest.job_type req); auto.
Qed.
Lemma cancel_job_keeps k u : keeps (JobService.cancel_job k u).
Proof.
  unfold JobService.cancel_job, JobRepository.find_by_id, ProjectRepository.get_member_role. keeping.
Qed.
Lemma require_member_keeps p u : keeps (QueueService.require_project_member p u).
Proof. unfold QueueService.require_project_member, ProjectRepository.get_member_role. keeping. Qed.
Lemma require_writer_keeps p u : keeps (QueueService.require_project_writer p u).
Proof. unfold QueueService.require_project_writer. keeping. apply require_member_keeps. Qed.
Lemma queue_for_action_keeps q u b : keeps (QueueService.queue_for_action q u b).
Proof.
  unfold QueueService.queue_for_action, QueueRepository.find_by_id. keeping;
    first [apply require_member_keeps | apply require_writer_keeps].
Qed.
Lemma create_queue_keeps u p n d l r : keeps (QueueService.create_queue u p n d l r).
Proof.
  unfold QueueService.create_queue, QueueRepository.create. keeping. apply require_writer_keeps.
Qed.
Lemma list_queues_keeps u p : keeps (QueueService.list_by_project u p).
Proof.
  unfold QueueService.list_by_project, QueueRepository.list_by_project. keeping.
  apply require_member_keeps.
Qed.
Lemma queue_stats_keeps u q : keeps (QueueService.get_stats u q).
Proof.
  unfold QueueService.get_stats, QueueRepository.get_stats. keeping. apply queue_for_action_keeps.
Qed.
Lemma set_pause_keeps b u q : keeps (set_pause b u q).
Proof.
  destruct b; unfold set_pause, QueueService.pause_queue, QueueService.resume_queue,
    QueueRepository.set_paused; keeping; apply queue_for_action_keeps.
Qed.
Lemma retry_job_keeps `{!ToleratesRetry R} x u : keeps (DlqService.retry_job x u).
Proof.
  unfold DlqService.retry_job, DlqService.retry_tx, DlqRepository.find_by_id,
    ProjectRepository.get_member_role. keeping_with ltac:(apply tol_retry_tx).
Qed.
Lemma create_project_keeps u on os n s d : keeps (ProjectService.create_project u on os n s d).
Proof. unfold ProjectService.create_project, ProjectService.create_tx. keeping. Qed.
Lemma create_dependency_keeps a b : keeps (WorkflowService.create_dependency a b).
Proof. unfold WorkflowService.create_dependency. keeping. Qed.
Lemma register_keeps email password name : keeps (AuthService.register email password name).
Proof.
  unfold AuthService.register, AuthService.hash, UserRepository.find_by_email, UserRepository.create.
  keeping.
Qed.
Lemma mint_keeps auth u : keeps (AuthService.mint_access_token auth u).
Proof. unfold AuthService.mint_access_token. keeping. Qed.
Lemma store_token_keeps u : keeps (AuthService.store_refresh_token u).
Proof.
  unfold AuthService.store_refresh_token, AuthService.hash, UserRepository.store_refresh_token. keeping.
Qed.
Lemma login_keeps auth email password : keeps (AuthService.login auth email password).
Proof.
  unfold AuthService.login, UserRepository.find_by_email. keeping;
    first [apply mint_keeps | apply store_token_keeps].
Qed.
Lemma refresh_keeps auth token : keeps (AuthService.refresh auth token).
Proof.
  unfold AuthService.refresh, UserRepository.find_all_active_refresh_tokens,
    UserRepository.active_tokens_stmt, UserRepository.find_by_id. keeping. apply mint_keeps.
Qed.
Lemma logout_keeps token : keeps (AuthService.logout token).
Proof.
  unfold AuthService.logout, UserRepository.find_all_active_refresh_tokens,
    UserRepository.active_tokens_stmt, UserRepository.revoke_refresh_token. keeping.
Qed.

(** *** Background tasks *)

Lemma schedule_next_keeps job : keeps (Recurring.schedule_next_occurrence job).
Proof. unfold Recurring.schedule_next_occurrence. keeping. Qed.

Lemma fetch_add_keeps wk n : keeps (ActiveJobs.fetch_add wk n).
Proof. by apply keeps_local. Qed.

Lemma heartbeat_keeps wk n : keeps (Heartbeat.run_heartbeat wk n).
Proof.
  apply steps_sat_ticks. unfold Heartbeat.heartbeat_round, WorkerRepository.upsert_heartbeat.
  keeping. by apply keeps_local.
Qed.
Lemma register_worker_keeps wk name host : keeps (WorkerRepository.register wk name host).
Proof. unfold WorkerRepository.register. keeping. Qed.
Lemma deregister_keeps wk : keeps (WorkerRepository.deregister wk).
Proof. unfold WorkerRepository.deregister. keeping. Qed.
Lemma promoter_keeps n : keeps (CronScheduler.run_scheduled_job_promoter n).
Proof.
  apply steps_sat_ticks. unfold CronScheduler.promoter_round, JobRepository.re_queue_scheduled_jobs.
  keeping.
Qed.
Lemma recovery_keeps thr n : keeps (StaleRecovery.run_stale_recovery thr n).
Proof.
  apply steps_sat_ticks. unfold StaleRecovery.recovery_round, JobRepository.recover_stale_jobs. keeping.
Qed.
Lemma connect_keeps : keeps System.connect.
Proof. by apply keeps_local. Qed.
Lemma worker_state_keeps wk name : keeps (WorkerAppState.new wk name).
Proof. unfold WorkerAppState.new, atomically. keeping. by apply keeps_local. Qed.

(** *** Requests *)

Lemma check_bucket_keeps key now : keeps (RateLimit.check_bucket key now).
Proof.
  apply keeps_local. intros e w. destruct (RateLimit.script _ _ _ _ _ _ _ _ _). by destruct (e_fault e 0).
Qed.
Lemma rate_limit_keeps {A} req (next : prog A) :
  keeps next -> keeps (RateLimit.rate_limit_middleware req next).
Proof.
  intros Hn. unfold RateLimit.rate_limit_middleware. keeping. apply check_bucket_keeps.
Qed.

Lemma correlation_keeps req next : keeps next -> keeps (Routes.correlation_id_middleware req next).
Proof. intros Hn. unfold Routes.correlation_id_middleware. keeping. Qed.

Lemma public_keeps req h : keeps h -> keeps (Routes.public req h).
Proof.
  intros Hh. apply correlation_keeps. keeping_with ltac:(apply rate_limit_keeps).
Qed.
Lemma guarded_keeps auth req (next : Claims.t -> prog (Z * option Value)) :
  (forall claims, keeps (next claims)) -> keeps (Routes.guarded auth req next).
Proof.
  intros Hn. apply correlation_keeps. unfold Routes.auth_middleware.
  keeping_with ltac:(apply rate_limit_keeps).
Qed.
Lemma protected_keeps auth req h : (forall claims, keeps (h claims)) -> keeps (Routes.protected auth req h).
Proof. intros Hh. apply guarded_keeps. intros claims. keeping. Qed.

Lemma forward_keeps socket polls pos : keeps (WebSocket.forward socket polls pos).
Proof.
  revert pos. induction polls as [|polls IH]; intros pos; [done|]. cbn [WebSocket.forward].
  unfold WebSocket.select_event, WebSocket.send.
  keeping_with ltac:(first [apply IH | apply keeps_local; intros e w]);
    [by destruct (e_timer e), (e_fault e 0)|by destruct (e_fault e 0)..].
Qed.
Lemma handle_socket_keeps url socket polls : keeps (WebSocket.handle_socket url socket polls).
Proof.
  unfold WebSocket.handle_socket, WebSocket.get_async_pubsub, WebSocket.subscribe, WebSocket.redis_request.
  keeping_with ltac:(first [apply forward_keeps | apply keeps_local; intros e w; done]).
Qed.

Section requests.
Context {S1 : Serialize Job.t} {S2 : Serialize Queue.t} {S3 : Serialize QueueStats.t}
  {S4 : Serialize Project.t} {S5 : Serialize DeadLetterEntry.t} {S6 : Serialize JobSummary.t}
  {S7 : Serialize JobExecution.t} {S8 : Serialize JobStatus.t}.

(** A call that needs no manual retry. *)
Definition plain_call (c : System.Call) : bool :=
  match c with System.RetryDlqJob _ => false | _ => true end.

Lemma plain_route_keeps state url req c : plain_call c = true -> keeps (System.route state url req c).
Proof.
  destruct c; simpl; (intros [=] || intros _);
    try (apply guarded_keeps; intros claims; split; [apply handle_socket_keeps|exact I]);
    (apply public_keeps || (apply protected_keeps; intros claims));
    unfold Handlers.health, Handlers.ready, Handlers.live, Handlers.register, Handlers.login,
      Handlers.refresh, Handlers.logout, Handlers.create_job, Handlers.list_jobs, Handlers.get_job,
      Handlers.list_job_executions, Handlers.cancel_job, Handlers.list_projects,
      Handlers.create_project, Handlers.list_queues, Handlers.create_queue, Handlers.queue_stats,
      Handlers.pause_queue, Handlers.resume_queue, Handlers.list_dlq, Handlers.retry_dlq_job,
      Handlers.create_dependency, Handlers.metrics, Handlers.list_workers, Handlers.as_user,
      JobService.list_jobs, JobRepository.list_by_queue, JobService.get_job, JobRepository.find_by_id,
      JobService.list_executions, JobRepository.list_executions, ProjectService.list_for_user,
      ProjectRepository.list_by_user, DlqService.list, DlqRepository.list_by_project,
      WorkerRepository.list_active;
    keeping;
    first [ apply register_keeps | apply login_keeps | apply refresh_keeps | apply logout_keeps
          | apply create_job_keeps | apply cancel_job_keeps | apply create_project_keeps
          | apply list_queues_keeps | apply create_queue_keeps | apply queue_stats_keeps
          | apply (set_pause_keeps true) | apply (set_pause_keeps false)
          | apply create_dependency_keeps ].
Qed.

Context `{!ToleratesRetry R}.

Lemma route_keeps state url req c : keeps (System.route state url req c).
Proof.
  destruct (plain_call c) eqn:Hc; [by apply plain_route_keeps|]. destruct c as []; try done.
  apply protected_keeps. intros claims. unfold Handlers.retry_dlq_job, Handlers.as_user. keeping.
  by apply retry_job_keeps.
Qed.

Lemma serve_keeps state url l : keeps (System.serve state url l).
Proof.
  induction l as [|[req c] l IH]; simpl; [done|]. split; [|done].
  apply steps_sat_bind; [apply route_keeps|done].
Qed.
Lemma run_keeps state url l : keeps (System.run state url l).
Proof.
  unfold System.run. keeping_with ltac:(first [simple apply connect_keeps | simple apply serve_keeps]).
Qed.
End requests.
End guarantees.

(** The handler of jobs works outside the scheduler's tables and channels. *)
Definition external (handler : Job.t -> prog (result unit string)) : Prop :=
  forall job, steps_sat (on_db eq) (handler job).

Lemma external_keeps (R : Db -> Db -> Prop) `{!Reflexive R} handler job :
  external handler -> steps_sat (on_db R) (handler job).
Proof.
  intros He. eapply steps_sat_mono; [|apply He]. intros e w w' [Hd Hb]. split; [by rewrite Hd|done].
Qed.
Lemma shipped_handler_external : external Executor.simulate_execute.
Proof. intros job. exact I. Qed.

(** *** Workers *)

(** What a relation has to allow besides: the statements of pollers and
    executors. *)
Class ToleratedWorker `{!UuidText, !ChronoText, !Chrono, !Cron, !Bcrypt, !Jwt} (R : Db -> Db -> Prop)
  : Prop := {
  tolerated_requests :: Tolerated R;
  tolerated_retries :: ToleratesRetry R;
  tol_claim q wk : stmt_sat R (JobRepository.claim_stmt q wk);
  tol_mark_running k : stmt_sat R (JobRepository.mark_running_stmt k);
  tol_success_tx job wk eid t0 t1 :
    steps_sat (on_db R) (transaction (Executor.success_tx job wk eid t0 t1));
  tol_failure_tx job wk eid t0 t1 msg :
    steps_sat (on_db R) (transaction (Executor.failure_tx job wk eid t0 t1 msg));
}.
#[export] Hint Resolve tol_claim tol_mark_running : sched.

(** The parts of a process besides its relay; [poller] is about its poller. *)
Ltac process_part poller :=
  first [ poller
        | first [ simple apply promoter_keeps | simple apply recovery_keeps
                | simple apply heartbeat_keeps | simple apply register_worker_keeps
                | simple apply run_keeps | simple apply deregister_keeps ]; typeclasses eauto ].

Section workers.
Context {UT : UuidText} {CT : ChronoText} {CH : Chrono} {CR : Cron} {BC : Bcrypt} {JW : Jwt}
  {JT : JsonText} {ET : ErrorText} {RU : RedisUrl}.
Context {S1 : Serialize Job.t} {S2 : Serialize Queue.t} {S3 : Serialize QueueStats.t}
  {S4 : Serialize Project.t} {S5 : Serialize DeadLetterEntry.t} {S6 : Serialize JobSummary.t}
  {S7 : Serialize JobExecution.t} {S8 : Serialize JobStatus.t}.
Context (R : Db -> Db -> Prop) {TR : ToleratedWorker R}.
Context (handler : Job.t -> prog (result unit string)) (handler_external : external handler).

Lemma execute_job_keeps wk job : steps_sat (on_db R) (Executor.execute_job_with handler wk job).
Proof.
  unfold Executor.execute_job_with.
  keeping_with ltac:(first [apply tol_success_tx | apply tol_failure_tx
    | apply external_keeps; [typeclasses eauto|exact handler_external]
    | apply schedule_next_keeps; typeclasses eauto]).
Qed.

Lemma poll_queue_keeps on_claim wk q : (forall job, steps_sat (on_db R) (on_claim job)) ->
  steps_sat (on_db R) (Poller.poll_queue on_claim wk q).
Proof.
  intros Hc. unfold Poller.poll_queue, QueueRepository.find_by_id, QueueRepository.count_running_jobs,
    JobRepository.claim_next_job. keeping.
Qed.

Lemma run_poller_keeps wk qs n :
  steps_sat (on_db R) (Poller.run_poller_with_counter handler wk qs n).
Proof.
  apply steps_sat_ticks, steps_sat_for_each. intros q. apply poll_queue_keeps. intros job.
  unfold Poller.spawn_counted, Poller.counted_task.
  keeping_with ltac:(first [simple apply fetch_add_keeps; typeclasses eauto | simple apply execute_job_keeps]).
Qed.

(** What a process does once it is connected and its relay is spawned. *)
Lemma start_keeps (settings : Settings.t) cfg (name : string) (P : Env -> World -> World -> Prop) :
  (forall e w w', on_db R e w w' -> P e w w') ->
  steps_sat P (OutboxRelay.run_relay (System.rounds cfg)) ->
  steps_sat P (System.start handler settings cfg name).
Proof.
  intros HP Hrelay. unfold System.start. apply steps_sat_bind.
  { eapply steps_sat_mono; [exact HP|]. apply worker_state_keeps. typeclasses eauto. }
  intros worker. split; [exact Hrelay|]. eapply steps_sat_mono; [exact HP|].
  keeping_with ltac:(process_part ltac:(simple apply run_poller_keeps)).
Qed.
End workers.

(** *** Processes *)

(** Any number of processes share the store: each has its configuration. *)
Section processes.
Context {UT : UuidText} {CT : ChronoText} {CH : Chrono} {CR : Cron} {BC : Bcrypt} {JW : Jwt}
  {JT : JsonText} {ET : ErrorText} {RU : RedisUrl}.
Context {S1 : Serialize Job.t} {S2 : Serialize Queue.t} {S3 : Serialize QueueStats.t}
  {S4 : Serialize Project.t} {S5 : Serialize DeadLetterEntry.t} {S6 : Serialize JobSummary.t}
  {S7 : Serialize JobExecution.t} {S8 : Serialize JobStatus.t}.

Definition processes (handler : Job.t -> prog (result unit string)) (cfgs : list System.Config)
  : pool := System.main handler <$> cfgs.

(** A relation that allows every statement, the relay's too, relates the store
    before any interleaving to the store after it. *)
Context (R : Db -> Db -> Prop) `{!PreOrder R} {TR : ToleratedWorker R}.
Context (mark_tolerated : forall id, stmt_sat R (OutboxRelay.mark_stmt id)).
Abbreviation changes p := (steps_sat (fun _ w w' => R (w_db w) (w_db w')) p).

Lemma changes_on_db {A} (p : prog A) : steps_sat (on_db R) p -> changes p.
Proof. apply steps_sat_mono. by intros e w w' []. Qed.

Lemma relay_changes n : changes (OutboxRelay.run_relay n).
Proof.
  apply steps_sat_ticks. unfold OutboxRelay.relay_round. apply steps_sat_bind.
  { apply changes_on_db. keeping. }
  intros [events|]; [|done]. apply steps_sat_for_each. intros e.
  unfold OutboxRelay.relay_event, RedisClient.publish. apply steps_sat_bind.
  - split; [|done]. intros env w. by destruct (e_fault env 0).
  - intros [[]|]; [|done]. apply changes_on_db. keeping.
Qed.

Lemma main_changes handler cfg : external handler -> changes (System.main handler cfg).
Proof.
  intros He. unfold System.main. destruct (Settings.from_env _) as [settings|]; [|done].
  do 3 (apply steps_sat_bind; [apply changes_on_db, connect_keeps; typeclasses eauto|];
        intros [|]; [|done]; cbn [negb]).
  destruct (System.worker_name _); [|done].
  apply (start_keeps R); [exact He|by intros e w w' []|apply relay_changes].
Qed.

Lemma processes_change handler cfgs w c : external handler ->
  rtc pool_step (processes handler cfgs, w) c -> R (w_db w) (w_db c.2).
Proof.
  intros He Hr. destruct c as [ts' w'].
  apply (pool_invariant (fun _ w w' => R (w_db w) (w_db w')) (fun w' => R (w_db w) (w_db w')) _ _ _ _) in Hr;
    [done| |by apply Forall_fmap, Forall_forall; intros cfg _; apply main_changes|done].
  intros _ w1 w2 H12 H1. by etrans.
Qed.
End processes.
