(* ===== verification/Safety.v ===== *)
(** * Safety of every interleaving

    The statements keep the history of the store ([History.v]), the relay marks
    only what it sent; so every interleaving of any number of processes keeps
    the store in order, loses nothing, and announces what happened. A run of
    one process on the fixture, and an interleaving that runs a job twice. *)
From S2P Require Import Prelude Enums Entities RetryPolicy Db Fixture Steps JobRepository.
From S2P Require Import Repositories Externals JobService QueueService DlqService SchedulerCore.
From S2P Require Import Executor Poller OutboxRelay ProjectService WorkflowService AuthService.
From S2P Require Import RateLimit Api WebSocket Settings History System.

(** ** Every task but the relay *)

Section worker.
Context {UT : UuidText} {CT : ChronoText} {CH : Chrono} {CR : Cron} {BC : Bcrypt} {JW : Jwt}.

#[export] Instance history_tolerated : Tolerated history.
Proof.
  split; try typeclasses eauto; intros; try (apply stmt_sat_history; solve [eauto with sched]).
  - apply stmt_sat_history, create_job_writes. naive_solver.
  - unfold ProjectService.create_tx. steps_tac; eauto with sched.
Qed.
#[export] Instance history_tolerates_retry : ToleratesRetry history.
Proof. intros j x u. unfold DlqService.retry_tx. steps_tac; eauto with sched. Qed.

#[export] Instance history_tolerated_worker : ToleratedWorker history.
Proof. split; try typeclasses eauto; eauto with sched. Qed.
End worker.

(** ** The relay, and every task together *)

(** What every step of every task guarantees. *)
Definition guarantee `{!UuidText, !JsonText} (w w' : World) : Prop :=
  evolves (w_db w) (w_db w') /\ (announced (w_db w) -> announced (w_db w')) /\
  w_bus w `prefix_of` w_bus w' /\ (delivered w -> delivered w').

Section relay.
Context {UT : UuidText} {JT : JsonText}.
Import OutboxRelay.

#[global] Instance guarantee_preorder : PreOrder guarantee.
Proof.
  unfold guarantee. split; [intros w; by split_and!|].
  intros w1 w2 w3 (? & ? & ? & ?) (? & ? & ? & ?). split_and!; [by etrans|auto|by etrans|auto].
Qed.

Lemma sent_mono w w' e : w_bus w `prefix_of` w_bus w' -> sent w e -> sent w' e.
Proof. intros [l Hl]. unfold sent. rewrite Hl, elem_of_app. auto. Qed.

Lemma history_guarantee env w w' : on_db history env w w' -> guarantee w w'.
Proof.
  intros [(Hev & Hun & Han) Hbus]. split_and!; [done|done|by rewrite Hbus|].
  intros Hd k e Hk Hp. unfold sent. rewrite Hbus. by apply (Hd k e (Hun k e Hk Hp)).
Qed.

(** The event, as far as its message goes, is in the outbox. *)
Definition stored (w : World) (e : OutboxEvent.t) : Prop :=
  exists e', outbox_events (w_db w) !! OutboxEvent.id e = Some e' /\ content e' = content e.

Lemma content_sent w e e' : content e' = content e -> sent w e -> sent w e'.
Proof.
  unfold content, sent, channel_of, message_of. intros Hc. injection Hc. by intros -> _ -> -> -> _.
Qed.

Lemma stored_mono w w' e : consistent (w_db w) -> guarantee w w' -> stored w e -> stored w' e.
Proof.
  intros Hc (Hev & _) (e1 & He1 & Hc1). destruct (ev_outbox _ _ Hev (ok_outbox _ Hc)) as [_ Hk].
  destruct (Hk _ _ He1) as (e2 & He2 & [Hs _]). exists e2. split; [done|]. unfold agree in Hs. congruence.
Qed.

Lemma guarantee_consistent w w' : guarantee w w' -> consistent (w_db w) -> consistent (w_db w').
Proof. intros [? _]. by apply evolves_consistent. Qed.

Lemma publish_guarantee w m :
  guarantee w (w <| w_bus ::= fun l => l ++ [m] |>).
Proof.
  assert (w_bus w `prefix_of` w_bus (w <| w_bus ::= fun l => l ++ [m] |>)) as Hp by (by eexists).
  split_and!; [done|done|done|]. intros Hd k e Hk Hpub. eapply sent_mono; [done|]. by apply (Hd k).
Qed.

Lemma mark_guarantee w e t : sent w e -> stored w e ->
  guarantee w (w <| w_db ::= marked t (OutboxEvent.id e) |>).
Proof.
  intros Hsent (e0 & He0 & Hc).
  assert (forall i, outbox_events (marked t (OutboxEvent.id e) (w_db w)) !! i =
    (if decide (i = OutboxEvent.id e) then Some (set_published t e0) else outbox_events (w_db w) !! i))
    as Hrow.
  { intros i. unfold marked. simpl. destruct (decide (i = OutboxEvent.id e)) as [->|];
      [by rewrite lookup_alter_eq, He0|by rewrite lookup_alter_ne]. }
  split_and!.
  - unfold marked. split; simpl; try done. apply table_evolves_rewrite. intros _ i.
    specialize (Hrow i). unfold marked in Hrow. simpl in Hrow. rewrite Hrow.
    destruct (decide (i = OutboxEvent.id e)) as [->|].
    + rewrite He0. by split; [split|].
    + destruct (outbox_events (w_db w) !! i); [by split|done].
  - assert (forall id p, has_event (w_db w) id p -> has_event (marked t (OutboxEvent.id e) (w_db w)) id p)
      as Hkeep.
    { intros id p (i & e1 & Hi & Ha & Hp). exists i. rewrite Hrow.
      destruct (decide (i = OutboxEvent.id e)) as [->|]; [|eauto].
      assert (e1 = e0) as -> by congruence. by eexists. }
    intros []. split; intros i x Hx; apply Hkeep; eauto.
  - done.
  - intros Hd i e1 Hi Hp. change (sent w e1). simpl in Hi. rewrite Hrow in Hi.
    destruct (decide (i = OutboxEvent.id e)) as [->|]; [|by apply (Hd i)].
    injection Hi as <-. apply sent_published. by apply (content_sent w e).
Qed.

Lemma relay_event_safe w e : consistent (w_db w) -> stored w e ->
  safe guarantee (relay_event e) w.
Proof.
  intros Hc Hst. unfold relay_event, RedisClient.publish. cbn [bind safe]. intros env w0 HR.
  pose proof (guarantee_consistent _ _ HR Hc) as Hc0. pose proof (stored_mono _ _ _ Hc HR Hst) as Hst0.
  destruct (e_fault env 0); cbn [fst snd]; [|split; [done|exact I]|split; [apply publish_guarantee|exact I]].
  split; [apply publish_guarantee|].
  set (w1 := w0 <| w_bus ::= _ |>).
  assert (sent w1 e) as Hs1 by (unfold sent, w1; simpl; rewrite elem_of_app; right; set_solver).
  cbn [bind sql safe]. intros env2 w2 HR2.
  assert (stored w2 e) as Hst2 by (eapply (stored_mono w1); done).
  assert (sent w2 e) as Hs2 by (eapply sent_mono; [apply HR2|done]).
  destruct (mark_stmt_Ok (OutboxEvent.id e) (ctx_of env2 0) (w_db w2)) as [n ->].
  split; [|by destruct (e_fault env2 0)].
  destruct (e_fault env2 0); cbn [fst snd]; [|done|]; by apply mark_guarantee.
Qed.

Lemma relay_events_safe l w : consistent (w_db w) -> Forall (stored w) l ->
  safe guarantee (for_each l relay_event) w.
Proof.
  revert w. induction l as [|e l IH]; intros w Hc Hl; [done|].
  apply Forall_cons in Hl as [He Hl].
  change (for_each (e :: l) relay_event) with (relay_event e ;;; for_each l relay_event).
  apply safe_bind; [typeclasses eauto|by apply relay_event_safe|]. intros _ w' HR. apply IH.
  - by eapply guarantee_consistent.
  - eapply Forall_impl; [exact Hl|]. intros x Hx. by apply (stored_mono w).
Qed.

Lemma relay_safe n w : consistent (w_db w) -> safe guarantee (run_relay n) w.
Proof.
  revert w. induction n as [|n IH]; intros w Hc; [done|].
  change (run_relay (S n)) with (relay_round ;;; run_relay n).
  apply safe_bind; [typeclasses eauto| |intros _ w' HR; apply IH; by eapply guarantee_consistent].
  unfold relay_round. cbn [bind sql safe]. intros env w0 HR.
  pose proof (guarantee_consistent _ _ HR Hc) as Hc0.
  unfold query. destruct (e_fault env 0); cbn [fst snd]; rewrite ?world_db_id; (split; [done|]);
    try exact I.
  apply relay_events_safe; [done|]. apply Forall_forall. intros e He.
  unfold pending in He. apply elem_of_limit_offset in He.
  rewrite elem_of_order_by, elem_of_select in He. destruct He as [_ [k Hk]].
  exists e. split; [|done]. destruct (ok_outbox _ Hc0) as [Hok _]. destruct (Hok k e Hk) as [<- _]. done.
Qed.
End relay.

(** ** Every interleaving of the program *)

Section program.
Context {UT : UuidText} {CT : ChronoText} {CH : Chrono} {CR : Cron} {BC : Bcrypt} {JW : Jwt}
  {JT : JsonText} {ET : ErrorText} {RU : RedisUrl}.
Context {S1 : Serialize Job.t} {S2 : Serialize Queue.t} {S3 : Serialize QueueStats.t}
  {S4 : Serialize Project.t} {S5 : Serialize DeadLetterEntry.t} {S6 : Serialize JobSummary.t}
  {S7 : Serialize JobExecution.t} {S8 : Serialize JobStatus.t}.

Lemma safe_keeps {A} (p : prog A) w : steps_sat (on_db history) p -> safe guarantee p w.
Proof. apply safe_of_steps_sat. intros. by eapply history_guarantee. Qed.

Lemma start_safe handler settings cfg name w : external handler -> consistent (w_db w) ->
  safe guarantee (System.start handler settings cfg name) w.
Proof.
  intros He Hc. unfold System.start. apply safe_bind; [typeclasses eauto| |].
  { apply safe_keeps, worker_state_keeps; typeclasses eauto. }
  intros worker w1 HR. split.
  { apply relay_safe. by apply (guarantee_consistent w). }
  simple apply safe_keeps.
  keeping_with ltac:(process_part ltac:(simple apply run_poller_keeps; [typeclasses eauto|exact He])).
Qed.

Lemma main_safe handler cfg w : external handler -> consistent (w_db w) ->
  safe guarantee (System.main handler cfg) w.
Proof.
  intros He Hc. unfold System.main. destruct (Settings.from_env _) as [settings|]; [|done].
  revert w Hc. assert (forall (p : prog unit), (forall w, consistent (w_db w) -> safe guarantee p w) ->
    forall w, consistent (w_db w) ->
    safe guarantee (up <- System.connect ;; if negb up then Ret tt else p) w) as Hconn.
  { intros p Hp w Hc. apply safe_bind; [typeclasses eauto| |].
    - apply safe_keeps, connect_keeps. typeclasses eauto.
    - intros [|] w' HR; [|done]. by apply Hp, (guarantee_consistent w). }
  do 3 apply Hconn. intros w Hc. destruct (System.worker_name _); [|done]. by apply start_safe.
Qed.

Lemma processes_guarantee handler cfgs w ts' w' : external handler -> consistent (w_db w) ->
  rtc pool_step (processes handler cfgs, w) (ts', w') -> guarantee w w'.
Proof.
  intros He Hc. apply safe_pool; [typeclasses eauto|]. apply Forall_fmap, Forall_forall.
  intros cfg _. by apply main_safe.
Qed.

(** C1: the scheduler's invariant. However many processes run, with whatever
    requests, interleavings, clocks and failures: rows stay under their keys
    and unique indexes stay unique (one job per queue and idempotency key, one
    account per email, one membership per user and project); a claimed job has
    a worker, and a job that is neither claimed nor running has none. Nothing
    is lost: every job, execution, dead letter and event stays in the store,
    with what was submitted or recorded unchanged. *)
Theorem nothing_is_lost (handler : Job.t -> prog (result unit string)) (cfgs : list System.Config)
  (w w' : World) (ts' : pool) :
  external handler -> consistent (w_db w) ->
  rtc pool_step (processes handler cfgs, w) (ts', w') ->
  consistent (w_db w') /\
  (forall k j, jobs (w_db w) !! k = Some j -> exists j', jobs (w_db w') !! k = Some j' /\
     submitted j' = submitted j) /\
  job_executions (w_db w) ⊆ job_executions (w_db w') /\
  (forall k x, dead_letter_queue (w_db w) !! k = Some x -> exists x',
     dead_letter_queue (w_db w') !! k = Some x' /\ recorded x' = recorded x) /\
  (forall k e, outbox_events (w_db w) !! k = Some e -> exists e',
     outbox_events (w_db w') !! k = Some e' /\ content e' = content e).
Proof.
  intros He Hc Hr. apply processes_guarantee in Hr as (Hev & _); [|done..].
  split; [by eapply evolves_consistent|]. split_and!.
  - intros k j Hk. destruct (ev_jobs _ _ Hev (ok_jobs _ Hc)) as [_ Hkept].
    destruct (Hkept k j Hk) as (j' & Hj' & Hs). by exists j'.
  - apply map_subseteq_spec. intros k x Hk. destruct (ev_executions _ _ Hev (ok_executions _ Hc)) as [_ Hkept].
    by destruct (Hkept k x Hk) as (x' & Hx' & <-).
  - intros k x Hk. destruct (ev_dead_letters _ _ Hev (ok_dead_letters _ Hc)) as [_ Hkept].
    destruct (Hkept k x Hk) as (x' & Hx' & Hs). by exists x'.
  - intros k e Hk. destruct (ev_outbox _ _ Hev (ok_outbox _ Hc)) as [_ Hkept].
    destruct (Hkept k e Hk) as (e' & He' & [Hs _]). by exists e'.
Qed.

(** C2: the transactional outbox, end to end. From a store in which every dead
    letter and execution is announced and nothing is marked published that was
    not sent, every interleaving of any number of processes, failures included,
    leads to such a store: a dead letter always has its event in the outbox, an
    execution its completion, retry or dead-letter event; and an event marked
    published has been sent on its channel (at least once). *)
Theorem outbox_end_to_end (handler : Job.t -> prog (result unit string))
  (cfgs : list System.Config) (w w' : World) (ts' : pool) :
  external handler -> consistent (w_db w) -> announced (w_db w) -> delivered w ->
  rtc pool_step (processes handler cfgs, w) (ts', w') ->
  announced (w_db w') /\ delivered w'.
Proof. intros He Hc Ha Hd Hr. apply processes_guarantee in Hr as (_ & ? & _ & ?); auto. Qed.

End program.

(** ** One process runs the most urgent job of the fixture *)

Section run.
Import Toy.

#[local] Instance any_body {A} : Serialize A := fun _ => VNull.
#[local] Instance no_text : ErrorText := {|
  sqlx_error_text := fun _ => ""; auth_error_text := fun _ => ""; domain_error_text := fun _ => "" |}.

Definition one_process : System.Config :=
  System.MkConfig Settings.variables (Some "host") Fixture.worker 2 [].

(** Connect, start, poll, run the job, relay its event: task 0 is [main], 1 the
    relay, 5 the poller, 6 the spawned run. *)
Definition one_run : list (nat * Env) :=
  imap (fun n i => (i, Fixture.env_at (Fixture.noon + Z.of_nat n) n))
    [0; 0; 0; 0; 0; 0; 0; 0; 0; 0; 5; 5; 5; 5; 5; 6; 6; 6; 6; 6; 1; 1; 1]%nat.
Definition after_run : pool * World :=
  run_pool one_run (processes Executor.simulate_execute [one_process], Fixture.world Fixture.two_queued).

Lemma fixture_consistent : consistent Fixture.two_queued.
Proof. compute_decide. Qed.

Lemma nothing_is_lost_witness :
  consistent (w_db after_run.2) /\
  Job.status <$> (jobs (w_db after_run.2) !! 21%N) = Some JobStatus.Completed /\
  exists j', jobs (w_db after_run.2) !! 21%N = Some j' /\
    submitted j' = submitted (Fixture.job 21 JobStatus.Queued JobPriority.High 20).
Proof.
  destruct (nothing_is_lost Executor.simulate_execute [one_process] (Fixture.world Fixture.two_queued)
    after_run.2 after_run.1 shipped_handler_external fixture_consistent) as (Hc & Hjobs & _).
  - assert (rtc pool_step (processes Executor.simulate_execute [one_process],
      Fixture.world Fixture.two_queued) after_run) as Hr by apply run_pool_sound.
    destruct after_run as [ts w]. exact Hr.
  - split; [exact Hc|]. split; [vm_compute; reflexivity|]. apply Hjobs. vm_compute. reflexivity.
Defined.

Lemma outbox_end_to_end_witness :
  announced (w_db after_run.2) /\ delivered after_run.2 /\
  length (w_bus after_run.2) = 1%nat.
Proof.
  destruct (outbox_end_to_end Executor.simulate_execute [one_process]
    (Fixture.world Fixture.two_queued) after_run.2 after_run.1 shipped_handler_external
    fixture_consistent) as [Ha Hd].
  - split; intros k x Hx; vm_compute in Hx; discriminate Hx.
  - intros k e He. vm_compute in He. discriminate He.
  - assert (rtc pool_step (processes Executor.simulate_execute [one_process],
      Fixture.world Fixture.two_queued) after_run) as Hr by apply run_pool_sound.
    destruct after_run as [ts w]. exact Hr.
  - split; [exact Ha|]. split; [exact Hd|]. vm_compute. reflexivity.
Defined.
End run.

(** ** At least once, not exactly once *)

(** Worker [dead_worker], whose heartbeat is a hundred seconds old, polls and
    claims; recovery takes the job back; another worker claims it; both run. *)
Section twice.
Import Toy.

Definition two_workers : pool :=
  [ Poller.run_poller Executor.simulate_execute Fixture.dead_worker [Fixture.queue] 1;
    StaleRecovery.run_stale_recovery System.STALE_THRESHOLD_SECONDS 1;
    Poller.run_poller Executor.simulate_execute Fixture.worker [Fixture.queue] 1 ].
Definition one_job : Db :=
  Fixture.with_jobs [ Fixture.job 20 JobStatus.Queued JobPriority.Normal 0 ].
Definition both_run : list (nat * Env) :=
  imap (fun n i => (i, Fixture.env_at (Fixture.noon + Z.of_nat n) n))
    [0; 0; 0; 0; 1; 2; 2; 2; 2; 4; 4; 4; 4; 4; 3; 3; 3; 3; 3]%nat.

(** Execution is at least once: a job has an interleaving of two workers
    and recovery in which both workers run it to completion, each recording its
    success and its event; no update of the executor asks whether the worker
    still holds the job. *)
Theorem execution_is_at_least_once : exists c,
  rtc pool_step (two_workers, Fixture.world one_job) c /\
  Job.status <$> (jobs (w_db c.2) !! 20%N) = Some JobStatus.Completed /\
  (exists k1 k2 x1 x2, job_executions (w_db c.2) !! k1 = Some x1 /\
     job_executions (w_db c.2) !! k2 = Some x2 /\
     JobExecution.job_id x1 = 20%N /\ JobExecution.job_id x2 = 20%N /\
     JobExecution.success x1 = true /\ JobExecution.success x2 = true /\
     JobExecution.worker_id x1 = Fixture.dead_worker /\ JobExecution.worker_id x2 = Fixture.worker) /\
  size (outbox_events (w_db c.2)) = 2%nat.
Proof.
  exists (run_pool both_run (two_workers, Fixture.world one_job)).
  split; [apply run_pool_sound|]. split; [vm_compute; reflexivity|].
  split; [|vm_compute; reflexivity].
  exists 2700%N, 2200%N. eexists _, _. split; [vm_compute; reflexivity|].
  split; [vm_compute; reflexivity|]. by split_and!.
Qed.
End twice.
