(* ===== verification/Submission.v ===== *)
(** * From the submission of a job to its display

    What a client gets back: the answer to a submission names a job, and however
    the scheduler works on it in between, asking for the job of that name shows
    it, with what was submitted. *)
From S2P Require Import Prelude Enums Entities RetryPolicy Db Fixture Steps JobRepository.
From S2P Require Import Repositories Externals JobService QueueService DlqService SchedulerCore.
From S2P Require Import Executor Poller OutboxRelay ProjectService WorkflowService AuthService.
From S2P Require Import RateLimit Requests Api WebSocket Settings History System Safety.

Section submission.
Context {UT : UuidText} {US : UuidTextSpec} {CT : ChronoText} {CH : Chrono} {CR : Cron}
  {BC : Bcrypt} {JW : Jwt} {JT : JsonText} {ET : ErrorText} {RU : RedisUrl}.
Context {S1 : Serialize Job.t} {S2 : Serialize Queue.t} {S3 : Serialize QueueStats.t}
  {S4 : Serialize Project.t} {S5 : Serialize DeadLetterEntry.t} {S6 : Serialize JobSummary.t}
  {S7 : Serialize JobExecution.t} {S8 : Serialize JobStatus.t}.

(** The job a submission is about: a new row with the request's fields, or the
    queue's job under the request's idempotency key. *)
Definition asked_for (queue_id : Uuid) (body : CreateJobRequest.t) (j : Job.t) : Prop :=
  (exists c queue corr, j = new_job c queue queue_id corr body) \/
  exists key, CreateJobRequest.idempotency_key body = Some key /\
    Job.idempotency_key j = Some key /\ Job.queue_id j = queue_id.

(** What the answer shows of it. *)
Definition receipt (j : Job.t) : Value :=
  VObject [("job_id", VString (uuid_to_string (Job.id j)));
    ("correlation_id", VString (uuid_to_string (Job.correlation_id j)));
    ("status", to_value (Job.status j)); ("name", VString (Job.name j));
    ("created_at", VString (rfc3339 (Job.created_at j)))].

(** A successful service call left the job it answers with in the store. *)
Lemma create_job_stored q u body env n w j w' n' ts : table_ok (jobs (w_db w)) ->
  exec (JobService.create_job q u body) env n w = (Returned (Ok j), w', n', ts) ->
  asked_for q body j /\ jobs (w_db w') !! Job.id j = Some j.
Proof.
  intros [Hok _] Hx.
  apply create_job_cases in Hx as [[_ [? ?]]|[(key & j1 & Hkey & Hj & -> & [= <-])|[_ [m Hx]]]]; [done| |].
  - apply keyed_job_Some in Hj as ([k Hk] & Hj & Hq). destruct (Hok k j Hk) as [<- _].
    split; [right; eauto|done].
  - apply create_checked_cases in Hx
      as [[_ [? ?]]|(queue & corr & c & _ & _ & _ & _ & _ & -> & [[= ->]|?])]; [done| |done].
    split; [left; eauto|]. apply lookup_insert_eq.
Qed.

(** A submission answered with 201. *)
Lemma submission_stored state url req q body env w id answer w1 : consistent (w_db w) ->
  run (System.route state url req (System.CreateJob q body)) env w
    = (Returned (201, id, Some answer), w1) ->
  exists j, asked_for q body j /\ answer = receipt j /\ jobs (w_db w1) !! Job.id j = Some j.
Proof.
  intros Hc (n' & ts & Hx)%run_exec.
  apply protected_cases in Hx
    as [(? & ? & _)|(? & _ & claims & _ & _ & _ & [(s & ? & ? & _)|(kv & m & x & ts' & Hx & Hr)])];
    [done|naive_solver lia|].
  revert Hx. unfold Handlers.create_job, Handlers.as_user.
  destruct (parse_str (Claims.sub claims)) as [u|]; [|intros; simplify_eq/=; lia].
  intros (y & n1 & ts1 & Hx & ->)%exec_call.
  destruct y as [[j|e]|]; [|destruct e; simplify_eq/=; lia|done].
  apply create_job_stored in Hx as [Ha Hj]; [|apply Hc]. exists j. by simplify_eq/=.
Qed.

(** A request of a job in the store, without faults: its text, or the answer of
    a middleware that turned the request away. *)
Lemma job_served state url req k j env w r w' : quiet env -> jobs (w_db w) !! k = Some j ->
  run (System.route state url req (System.GetJob k)) env w = (r, w') ->
  w_db w' = w_db w /\ exists s id,
    (s = 401 \/ s = 429 \/ s = 500) /\ r = Returned (s, id, None) \/
    r = Returned (200, id, Some (to_value j)).
Proof.
  intros Hq Hj (n' & ts & Hx)%run_exec.
  apply protected_cases in Hx
    as [(id & -> & ->)|(id & _ & _ & _ & _ & _ & [(s & Hs & -> & Hd & _)|(kv & m & x & ts' & Hx & ->)])].
  - split; [done|]. exists 401, id. auto.
  - split; [done|]. exists s, id. naive_solver.
  - unfold Handlers.get_job, JobService.get_job, JobRepository.find_by_id in Hx.
    rewrite exec_query_quiet in Hx by done. simpl in Hx. rewrite Hj in Hx. simplify_eq/=.
    split; [done|]. exists 200, id. auto.
Qed.

(** C6: submit and read back. A submission answered with 201 names a job that
    has what was submitted (or is the one its idempotency key already stands
    for). After any interleaving of any number of processes, whatever they did
    with the job, the name parses to an id under which the store has a job with
    the same submitted fields, and a request for it that meets no fault and is
    not turned away by authentication or rate limit is answered with 200 and
    that job, and changes nothing. *)
Theorem submitted_job_is_served (handler : Job.t -> prog (result unit string))
  (cfgs : list System.Config) (state state' : AppState.t) (url url' : option string)
  (req req' : Request.t) (queue_id : Uuid) (body : CreateJobRequest.t) (env : nat -> Env)
  (w w1 w2 : World) (ts' : pool) (id : string) (answer : Value) :
  external handler -> consistent (w_db w) ->
  run (System.route state url req (System.CreateJob queue_id body)) env w
    = (Returned (201, id, Some answer), w1) ->
  rtc pool_step (processes handler cfgs, w1) (ts', w2) ->
  exists job k job',
    asked_for queue_id body job /\ answer = receipt job /\
    parse_str (uuid_to_string (Job.id job)) = Some k /\
    jobs (w_db w2) !! k = Some job' /\ submitted job' = submitted job /\
    forall env' r w3, quiet env' ->
      run (System.route state' url' req' (System.GetJob k)) env' w2 = (r, w3) ->
      w_db w3 = w_db w2 /\ exists s id',
        (s = 401 \/ s = 429 \/ s = 500) /\ r = Returned (s, id', None) \/
        r = Returned (200, id', Some (to_value job')).
Proof.
  intros He Hc Hx Hr. destruct (submission_stored _ _ _ _ _ _ _ _ _ _ Hc Hx) as (job & Ha & -> & Hj).
  assert (consistent (w_db w1)) as Hc1.
  { apply run_exec in Hx as (n' & ts & Hx). apply (guarantee_consistent w); [|done].
    eapply exec_guarantee; [typeclasses eauto| |exact Hx]. eapply steps_sat_mono; cycle 1;
      [apply route_keeps; typeclasses eauto|intros e w0 w0'; apply history_guarantee]. }
  apply processes_guarantee in Hr as [Hev _]; [|done..].
  destruct (ev_jobs _ _ Hev (ok_jobs _ Hc1)) as [_ Hkept]. destruct (Hkept _ _ Hj) as (job' & Hj' & Hs).
  exists job, (Job.id job), job'. split_and!; [done..|by apply parse_to_string|done|done|].
  intros env' r w3 Hq. by apply job_served.
Qed.
End submission.

(** ** The member of the fixture submits a job, a process runs it *)

Section run.
Import Toy.

#[local] Instance name_and_status : Serialize Job.t := fun j =>
  VArray [VString (Job.name j); VBool (bool_decide (Job.status j = JobStatus.Completed))].
#[local] Instance any_body {A} : Serialize A | 10 := fun _ => VNull.
#[local] Instance no_text : ErrorText := {|
  sqlx_error_text := fun _ => ""; auth_error_text := fun _ => ""; domain_error_text := fun _ => "" |}.

Definition state : AppState.t := AppState.new "k".
Definition submission : outcome (Z * string * option Value) * World :=
  run (System.route state None (request_of Fixture.member)
        (System.CreateJob Fixture.queue keyed_request))
    (fun n => Fixture.env_at Fixture.noon (50 + n)) (Fixture.world (Fixture.with_jobs [])).

(** The interleaving [one_run] runs the submitted job. *)
Definition after_submission : pool * World :=
  run_pool one_run (processes Executor.simulate_execute [one_process], submission.2).

Definition display (k : Uuid) : outcome (Z * string * option Value) * World :=
  run (System.route state None (request_of Fixture.viewer) (System.GetJob k))
    (fun n => Fixture.env_at (Fixture.noon + SECOND) n) after_submission.2.

Definition job_id : Uuid := 6800%N.
Definition shown : Value :=
  VObject [("job_id", VString (uuid_to_string job_id)); ("correlation_id", VString (uuid_to_string 6700));
           ("status", VNull); ("name", VString "report"); ("created_at", VString (rfc3339 Fixture.noon))].

Lemma submitted_job_is_served_witness : exists job k id' body,
  asked_for Fixture.queue keyed_request job /\ jobs (w_db after_submission.2) !! k <> None /\
  Job.status <$> (jobs (w_db after_submission.2) !! k) = Some JobStatus.Completed /\
  (display k).1 = Returned (200, id', Some body) /\ w_db (display k).2 = w_db after_submission.2.
Proof.
  destruct (submitted_job_is_served Executor.simulate_execute [one_process] state state None None
    (request_of Fixture.member) (request_of Fixture.viewer) Fixture.queue keyed_request
    (fun n => Fixture.env_at Fixture.noon (50 + n)) (Fixture.world (Fixture.with_jobs []))
    submission.2 after_submission.2 after_submission.1 "000000000000000000000000000000006000"
    shown
    shipped_handler_external)
    as (job & k & job' & Ha & Hr & Hk & Hj' & _ & Hget).
  - compute_decide.
  - unfold submission. vm_compute. reflexivity.
  - rewrite <- surjective_pairing. apply run_pool_sound.
  - assert (k = job_id) as ->.
    { rewrite parse_to_string in Hk. injection Hk as <-.
      apply (f_equal (fun v => match v with
        | VObject ((_, VString s) :: _) => parse_str s | _ => None end)) in Hr.
      unfold shown, receipt in Hr. rewrite !parse_to_string in Hr. congruence. }
    exists job, job_id. eexists _, _. split; [exact Ha|]. split; [rewrite Hj'; discriminate|].
    split; [vm_compute; reflexivity|]. split; [vm_compute; reflexivity|].
    destruct (Hget (fun n => Fixture.env_at (Fixture.noon + SECOND) n) (display job_id).1
      (display job_id).2) as [Hd _]; [by intros n i| |exact Hd].
    unfold display. apply surjective_pairing.
Defined.
End run.
