(* ===== verification/Refinement.v ===== *)
(** * The program implements the job board

    The statements of requests and background tasks are calm; a claim takes a
    ticket and the executor's transactions spend it, and so do the lookup and the
    transaction of a manual retry. So the stores of every interleaving of any
    number of processes are a history of the board of [Board.v], step by step, and
    a job succeeds no more often than it was opened. *)
From stdpp Require Import gmultiset.
From S2P Require Import Prelude Enums Entities RetryPolicy Db Fixture Steps JobRepository.
From S2P Require Import Repositories Externals JobService QueueService DlqService SchedulerCore.
From S2P Require Import Executor Poller OutboxRelay ProjectService WorkflowService AuthService.
From S2P Require Import RateLimit Api WebSocket Settings History Board System Safety.

(** ** Calm statements *)

(** Jobs, executions and dead letters are left alone. *)
Definition off_board (d d' : Db) : Prop :=
  jobs d' = jobs d /\ job_executions d' = job_executions d /\
  dead_letter_queue d' = dead_letter_queue d.
#[global] Instance off_board_preorder : PreOrder off_board.
Proof.
  unfold off_board. split; [done|]. intros d1 d2 d3 (? & ? & ?) (? & ? & ?). split_and!; congruence.
Qed.

Lemma off_board_eq d d' T : off_board d d' -> board_of d' T = board_of d T.
Proof. intros (Hj & Hx & Hl). unfold board_of. by rewrite Hj, Hx, Hl. Qed.
Lemma off_board_calm d d' : off_board d d' -> calm d d'.
Proof. intros Hd _ T. left. symmetry. by apply off_board_eq. Qed.

(** The board after one row of [jobs] is written. *)
Lemma board_insert k j d T :
  board_of (d <| jobs ::= <[k := j]> |>) T =
  Board.Mk (<[k := phase_of j]> (phase_of <$> jobs d)) (run_of <$> job_executions d)
    (letter_of <$> dead_letter_queue d) T.
Proof. unfold board_of. simpl. by rewrite fmap_insert. Qed.

Lemma board_lookup d k j : jobs d !! k = Some j -> (phase_of <$> jobs d) !! k = Some (phase_of j).
Proof. intros Hk. by rewrite lookup_fmap, Hk. Qed.

Lemma well_owned_lookup d k j : consistent d -> jobs d !! k = Some j -> well_owned j.
Proof. intros Hc Hk. destruct (ok_jobs _ Hc) as [Hok _]. by destruct (Hok k j Hk). Qed.

(** Rows that satisfy a condition are moved to [Ready]. *)
Lemma readied_update_where (P : Board.Phase -> Prop) (p : Job.t -> bool) f (m : gmap N Job.t) :
  (forall k j, m !! k = Some j -> p j = true -> P (phase_of j) /\ phase_of (f j) = Board.Ready) ->
  Board.readied P (phase_of <$> m) (phase_of <$> update_where p f m).
Proof.
  intros Hp k. rewrite !lookup_fmap, lookup_update_where. destruct (m !! k) as [j|] eqn:Hk; [|by left].
  simpl. destruct (p j) eqn:Hj; [|by left]. destruct (Hp k j Hk Hj) as [? ->]. right. eauto.
Qed.

Section statements.
Context {UT : UuidText} {CT : ChronoText} {CH : Chrono} {CR : Cron} {BC : Bcrypt} {JW : Jwt}.

Lemma submit_calm j c d a d' : Board.idle (phase_of j) = true ->
  insert_row jobs Job.id jobs_constraints j c d = Ok (a, d') -> calm d d'.
Proof.
  intros Hidle (_ & Hc & ->)%insert_row_Ok _ T. right. rewrite board_insert.
  apply Forall_cons in Hc as [Hid _]. apply Board.Submit; [|done].
  by rewrite lookup_fmap, (free_key _ _ Hid).
Qed.

Lemma cancel_calm k : stmt_sat calm (JobService.cancel_stmt k).
Proof.
  intros c d a d'. rewrite cancel_stmt_eq. destruct (jobs d !! k) as [j|] eqn:Hj;
    [|by intros [= _ <-]].
  destruct (JobService.cancellable _) eqn:Hcan; intros [= _ <-]; [|done].
  intros Hc T. right. rewrite board_insert. eapply Board.Cancel; [by apply board_lookup|].
  unfold phase_of. by destruct (Job.status j).
Qed.

Lemma re_queue_calm : stmt_sat calm JobRepository.re_queue_stmt.
Proof.
  intros c d a d' [= _ <-] _ T. right. apply Board.Wake, readied_update_where.
  intros k j _ Hdue. apply due_true in Hdue as [Hs _]. unfold phase_of. simpl. by rewrite Hs.
Qed.

Lemma recover_calm thr : stmt_sat calm (JobRepository.recover_stmt thr).
Proof.
  intros c d a d' [= _ <-] _ T. right. apply Board.Recover, readied_update_where.
  intros k j _ Hheld. apply held_by_stale_true in Hheld as [Hs (wk & Hw & _)].
  split; [|done]. exists wk. unfold phase_of. rewrite Hw. by destruct Hs as [-> | ->].
Qed.

(** Statements on other tables. *)
Lemma off_board_stmt {A} (s : stmt A) : stmt_sat off_board s -> stmt_sat calm s.
Proof. apply stmt_sat_mono, off_board_calm. Qed.

Lemma update_row_off_board {V} (table : Db -> gmap N V) `{!Setter table} k f :
  (forall d g, off_board d (d <| table ::= g |>)) -> stmt_sat off_board (update_row table k f).
Proof. intros Hf c d a d'. unfold update_row. destruct (table d !! k); intros [= _ <-]; [apply Hf|done]. Qed.
Lemma insert_row_off_board {V} (table : Db -> gmap N V) `{!Setter table} key constraints (row : V) :
  (forall d g, off_board d (d <| table ::= g |>)) ->
  stmt_sat off_board (insert_row table key constraints row).
Proof. intros Hf c d a d' (_ & _ & ->)%insert_row_Ok. apply Hf. Qed.

Ltac off_rows := first [apply update_row_off_board | apply insert_row_off_board]; by split.

Ltac off_board_tac :=
  unfold update_rows; intros ? ? ? ?; repeat case_match; intros; simplify_eq/=; by split_and!.

Lemma upsert_org_off_board name slug : stmt_sat off_board (ProjectService.upsert_org_stmt name slug).
Proof. unfold ProjectService.upsert_org_stmt. off_board_tac. Qed.
Lemma insert_project_off_board org name slug desc :
  stmt_sat off_board (ProjectRepository.insert_project_stmt org name slug desc).
Proof. apply stmt_sat_with_ctx. intros c. off_rows. Qed.
Lemma add_admin_off_board p u : stmt_sat off_board (ProjectService.add_admin_stmt p u).
Proof.
  intros c d a d'. unfold ProjectService.add_admin_stmt.
  destruct (exists_row _ _); [by intros [= _ <-]|].
  destruct (insert_row _ _ _ _ c d) as [[m d1]|v] eqn:E; intros [= _ <-].
  revert E. off_rows.
Qed.
Lemma heartbeat_off_board wk n : stmt_sat off_board (WorkerRepository.upsert_heartbeat_stmt wk n).
Proof. unfold WorkerRepository.upsert_heartbeat_stmt. off_board_tac. Qed.
Lemma register_off_board wk name host :
  stmt_sat off_board (WorkerRepository.register_stmt wk name host).
Proof. unfold WorkerRepository.register_stmt. off_board_tac. Qed.
Lemma mark_off_board id : stmt_sat off_board (OutboxRelay.mark_stmt id).
Proof. apply stmt_sat_with_ctx. intros c. off_rows. Qed.
Lemma dependency_off_board a b : stmt_sat off_board (WorkflowService.create_dependency_stmt a b).
Proof. unfold WorkflowService.create_dependency_stmt. off_board_tac. Qed.

#[export] Instance calm_tolerated : Tolerated calm.
Proof.
  split; try typeclasses eauto; intros.
  - intros c d a d'. unfold JobService.insert_job_stmt. autorewrite with casts. simpl.
    apply submit_calm. unfold phase_of. simpl. naive_solver.
  - apply cancel_calm.
  - apply off_board_stmt; off_rows.
  - apply off_board_stmt, stmt_sat_with_ctx. intros c. off_rows.
  - apply (steps_sat_mono (on_db off_board)).
    + intros e w w' [Hd Hb]. split; [by apply off_board_calm|done].
    + unfold ProjectService.create_tx. steps_tac;
        auto using upsert_org_off_board, insert_project_off_board, add_admin_off_board.
  - apply off_board_stmt, dependency_off_board.
  - apply off_board_stmt; off_rows.
  - apply off_board_stmt; off_rows.
  - apply off_board_stmt. intros c d a d' [= _ <-]. done.
  - intros c d a d'. unfold Recurring.insert_next_stmt. destruct (jobs d !! k) as [j|];
      [|by intros [= _ <-]].
    destruct (insert_row _ _ _ _ c d) as [[j' d1]|v] eqn:E; intros [= _ <-].
    by eapply submit_calm in E.
  - apply off_board_stmt, heartbeat_off_board.
  - apply off_board_stmt, register_off_board.
  - apply off_board_stmt, stmt_sat_with_ctx. intros c. off_rows.
  - apply re_queue_calm.
  - apply recover_calm.
Qed.
End statements.

(** ** Tasks *)

Section tasks.
Context {UT : UuidText} {CT : ChronoText} {CH : Chrono} {CR : Cron} {BC : Bcrypt} {JW : Jwt}
  {JT : JsonText} {ET : ErrorText} {RU : RedisUrl}.
Context (handler : Job.t -> prog (result unit string)) (handler_external : external handler).

(** Marking a job as running asks for a ticket. *)
Lemma mark_running_advances k wk c d n d' T : consistent d -> Board.ToRun k wk ∈ T ->
  JobRepository.mark_running_stmt k c d = Ok (n, d') -> advances d T d' T.
Proof.
  intros Hc HT. destruct (mark_running_eq k c d) as [m ->]. intros [= _ <-]. unfold running_at.
  destruct (jobs d !! k) as [j|] eqn:Hj; [|by left]. right. rewrite board_insert.
  pose proof (well_owned_lookup _ _ _ Hc Hj) as Hw.
  replace (phase_of _) with (Board.Taken (Board.holder (phase_of j))).
  - by eapply Board.Start; [|apply board_lookup].
  - unfold phase_of. unfold well_owned in Hw. simpl. by destruct (Job.status j); simpl; rewrite ?Hw.
Qed.

(** Settling a run spends it, and a dead end leaves a dead letter. *)
Lemma settle_advances k wk j j' x dead ev d T : jobs d !! k = Some j -> new_rows x dead ev d ->
  JobExecution.job_id x = k -> JobExecution.worker_id x = wk ->
  Board.settled (JobExecution.success x) (phase_of j') ->
  match dead with
  | Some y => phase_of j' = Board.Dead /\ letter_of y = (k, false)
  | None => phase_of j' <> Board.Dead
  end ->
  advances d ({[+ Board.ToRun k wk +]} ⊎ T) (settle k j' x dead ev d) T.
Proof.
  intros Hj (Hx & Hdead & _) <- <- Hs Hl. right.
  eapply eq_ind_r with (P := Board.step _).
  2: { unfold board_of, settle. simpl. by rewrite !fmap_insert. }
  eapply (Board.Settle _ _ _ (JobExecution.success x));
    [by erewrite board_lookup|by rewrite lookup_fmap, Hx|done|].
  unfold Board.lettered. destruct dead as [y|].
  - destruct Hl as [-> Hy]. rewrite decide_True by done. exists (DeadLetterEntry.id y).
    by rewrite lookup_fmap, Hdead, fmap_insert, Hy.
  - by rewrite decide_False by done.
Qed.

Lemma success_tx_plays (job : Job.t) (wk eid : Uuid) (t0 t1 : Timestamp) (T : Board.Tickets) :
  plays (transaction (Executor.success_tx job wk eid t0 t1)) ({[+ Board.ToRun (Job.id job) wk +]} ⊎ T).
Proof.
  eapply plays_transaction; [intros; apply success_tx_post|].
  intros _ _ d x d' _ (j & t & ev & _ & Hj & Hrows & _ & _ & _ & ->). exists T.
  by eapply settle_advances.
Qed.

Lemma failure_tx_plays (job : Job.t) (wk eid : Uuid) (t0 t1 : Timestamp) (msg : string) (T : Board.Tickets) :
  plays (transaction (Executor.failure_tx job wk eid t0 t1 msg)) ({[+ Board.ToRun (Job.id job) wk +]} ⊎ T).
Proof.
  eapply plays_transaction; [intros; apply failure_tx_post|].
  intros base e0 d x d' _ [_ Hset]. exists T. unfold dead_lettered, retry_scheduled in Hset.
  cbv zeta in Hset. destruct (Executor.should_dlq job).
  - destruct Hset as (j & t & dead_id & moved & ev & Hj & Hrows & _ & _ & _ & ->).
    eapply settle_advances; [done|done|done|done|by right|done].
  - destruct Hset as (delay & _ & j & t & t2 & n & ev & Hj & Hrows & _ & _ & _ & _ & ->).
    eapply settle_advances; [done|done|done|done|by left|done].
Qed.

Lemma execute_job_plays (wk : Uuid) (job : Job.t) (T : Board.Tickets) :
  plays (Executor.execute_job_with handler wk job) ({[+ Board.ToRun (Job.id job) wk +]} ⊎ T).
Proof.
  unfold Executor.execute_job_with. apply sim_after; [keeping|intros t0].
  apply sim_bind. apply sim_sql; [done|]. intros c d n d' [Hc _] Hs.
  exists ({[+ Board.ToRun (Job.id job) wk +]} ⊎ T).
  split; [|split; [|done]].
  { eapply mark_running_advances; [done| |done]. apply gmultiset_elem_of_disj_union. left.
    by apply gmultiset_elem_of_singleton. }
  apply sim_after; [by apply (external_keeps calm)|intros result].
  apply sim_after; [keeping|intros t1].
  apply sim_after; [keeping|intros eid].
  destruct result as [[]|msg]; (apply plays_bind; [by apply success_tx_plays || by apply failure_tx_plays|]);
    [|done]. intros [[[]|]|] T'; [|done..]. destruct (Job.is_recurring job); [|done].
  apply plays_bind; [|done]. apply plays_calm, schedule_next_keeps. typeclasses eauto.
Qed.
(** A claim takes the job's ticket, even when its answer is lost. *)
Lemma claim_takes (q wk : Uuid) (T : Board.Tickets) :
  sim (JobRepository.claim_next_job q wk) T (fun r T' =>
    match r with
    | Ok (Some job) => exists T0, T' = {[+ Board.ToRun (Job.id job) wk +]} ⊎ T0
    | _ => True
    end).
Proof.
  apply sim_sql; [done|]. intros c d [j'|] d' [Hc _] Hs.
  - apply claim_stmt_Some in Hs as (j & Hcand & Hj & -> & ->).
    2: { intros k j Hk. destruct (ok_jobs _ Hc) as [Hok _]. by destruct (Hok k j Hk). }
    exists ({[+ Board.ToRun (Job.id j) wk +]} ⊎ T). split; [|split; [by exists T|done]].
    right. rewrite board_insert. apply Board.Take. erewrite board_lookup by done. f_equal.
    apply claim_candidate_Some in Hcand as (Hclaim & _). apply claimable_true in Hclaim as [Hst _].
    unfold phase_of. by rewrite Hst.
  - unfold JobRepository.claim_stmt in Hs. destruct (JobRepository.claim_candidate c q d);
      [by destruct (has _ wk)|]. injection Hs as <-. exists T. split; [by left|done].
Qed.

Lemma spawn_counted_plays (wk : Uuid) (job : Job.t) (T : Board.Tickets) :
  plays (Poller.spawn_counted handler wk job) ({[+ Board.ToRun (Job.id job) wk +]} ⊎ T).
Proof.
  apply sim_after; [simple apply fetch_add_keeps; typeclasses eauto|]. intros _.
  exists ({[+ Board.ToRun (Job.id job) wk +]} ⊎ T), ∅. split; [multiset_solver|]. split; [|done].
  apply plays_bind; [apply execute_job_plays|]. intros _ T'.
  apply plays_calm, fetch_add_keeps. typeclasses eauto.
Qed.

Lemma poll_queue_plays (wk q : Uuid) (T : Board.Tickets) :
  plays (Poller.poll_queue (Poller.spawn_counted handler wk) wk q) T.
Proof.
  unfold Poller.poll_queue, QueueRepository.find_by_id, QueueRepository.count_running_jobs.
  apply sim_after; [keeping|intros [[queue|]|]; [|done..]]. destruct (Queue.is_paused queue); [done|].
  apply sim_after; [keeping|intros [running|]; [|done]]. case_match; [done|].
  apply sim_bind. eapply sim_mono; [|apply claim_takes]. intros [[job|]|] T'; [|done..].
  intros [T0 ->]. apply spawn_counted_plays.
Qed.

Lemma run_poller_plays (wk : Uuid) (qs : list Uuid) (n : nat) (T : Board.Tickets) :
  plays (Poller.run_poller_with_counter handler wk qs n) T.
Proof. apply plays_ticks. intros T'. apply plays_for_each. intros q T''. apply poll_queue_plays. Qed.

Lemma relay_plays (n : nat) (T : Board.Tickets) : plays (OutboxRelay.run_relay n) T.
Proof.
  apply plays_ticks. intros T'. unfold OutboxRelay.relay_round.
  apply sim_after; [keeping|]. intros [events|]; [|done]. apply plays_for_each. intros e T''.
  unfold OutboxRelay.relay_event, RedisClient.publish. apply sim_bind. intros env w _.
  exists T''. split; [left; by destruct (e_fault env 0)|].
  destruct (e_fault env 0); [|done..]. apply plays_calm. keeping.
  apply off_board_stmt, mark_off_board.
Qed.
End tasks.

(** ** Requests *)

Section requests.
Context {UT : UuidText} {CT : ChronoText} {CH : Chrono} {CR : Cron} {BC : Bcrypt} {JW : Jwt}
  {JT : JsonText} {ET : ErrorText} {RU : RedisUrl}.

(** What a manual retry commits. *)
Lemma retry_tx_post base e (k q u : Uuid) : tx_post base e (DlqService.retry_tx k q u) (fun d r d' =>
  forall f x, r = Commit f -> dead_letter_queue d !! q = Some x -> DeadLetterEntry.job_id x = k ->
  exists j t t', jobs d !! k = Some j /\ d' = retried t t' q u x j d).
Proof.
  eapply tx_post_mono.
  - apply tx_post_bind with (Q2 := fun r1 d1 r d' => forall f, r = Commit f ->
      exists n a c, r1 = Ok n /\ n <> 0 /\ DlqRepository.mark_retried_stmt q u c d1 = Ok (a, d'));
      [apply tx_post_sql|].
    intros [n|err]; [destruct (n =? 0) eqn:Hn|].
    1, 3: eapply tx_post_mono; [apply tx_post_ret|by intros d r d' [-> _] f [=]].
    eapply tx_post_mono.
    + apply tx_post_bind with (Q2 := fun _ d2 _ d' => d' = d2); [apply tx_post_sql|].
      intros [a|err]; (eapply tx_post_mono; [apply tx_post_ret|by intros d r d' [_ ->]]).
    + intros d1 r d' (r2 & d2 & (a & c & _ & Hm) & ->) f _. apply Z.eqb_neq in Hn. eauto 10.
  - intros d r d' (r1 & d1 & (a & c & -> & Hs) & H2) f x -> Hx <-.
    destruct (H2 f eq_refl) as (n & a' & c' & [= ->] & Hn & Hm).
    apply requeue_stmt_Ok in Hs as (j & Hj & ->); [|done].
    apply (mark_retried_stmt_Ok _ _ _ _ _ _ x) in Hm; [|done]. eexists j, _, _. by rewrite Hm.
Qed.

Lemma retry_tx_plays (k q u : Uuid) (T : Board.Tickets) :
  plays (transaction (DlqService.retry_tx k q u)) ({[+ Board.ToRetry q k +]} ⊎ T).
Proof.
  eapply plays_transaction; [intros; apply retry_tx_post|]. intros _ _ d f d' [_ Hh] Hq.
  destruct (Hh q k) as [b Hb].
  { apply gmultiset_elem_of_disj_union. left. by apply gmultiset_elem_of_singleton. }
  simpl in Hb. rewrite lookup_fmap in Hb. destruct (dead_letter_queue d !! q) as [x|] eqn:Hx; [|done].
  injection Hb as Hk Hb. destruct (Hq f x eq_refl eq_refl Hk) as (j & t & t' & Hj & ->).
  exists T. right. unfold board_of at 2, retried. simpl. rewrite Hk, !fmap_insert.
  change (letter_of (x <| DeadLetterEntry.manually_retried_at := Some t' |>
    <| DeadLetterEntry.manually_retried_by := Some u |>)) with (DeadLetterEntry.job_id x, true).
  rewrite Hk. eapply Board.Revive; [|by erewrite board_lookup].
  rewrite lookup_fmap, Hx. simpl. unfold letter_of. by rewrite Hk.
Qed.

(** A retry request looks for a dead letter that nobody retried. *)
Lemma retry_job_plays (q u : Uuid) (T : Board.Tickets) : plays (DlqService.retry_job q u) T.
Proof.
  unfold DlqService.retry_job. apply sim_bind. apply sim_sql; [done|]. intros c d a d' _ [= <- <-].
  destruct (dead_letter_queue d !! q) as [x|] eqn:Hx; [|by exists T; split; [left|]].
  destruct (DeadLetterEntry.manually_retried_at x) eqn:Hm; cbn [is_some];
    [by exists T; split; [left|]|].
  exists ({[+ Board.ToRetry q (DeadLetterEntry.job_id x) +]} ⊎ T). split; [|split; [|done]].
  { right. apply Board.Look. rewrite lookup_fmap, Hx. simpl. unfold letter_of. by rewrite Hm. }
  apply sim_after; [unfold ProjectRepository.get_member_role; keeping|intros [[role|]|]; [|done..]].
  case_match; [done|]. apply plays_bind; [apply retry_tx_plays|]. by intros [|] T'.
Qed.

Lemma rate_limit_plays {A} (req : Request.t) (next : prog A) (T : Board.Tickets) :
  (forall T' : Board.Tickets, plays next T') -> plays (RateLimit.rate_limit_middleware req next) T.
Proof.
  intros Hn. unfold RateLimit.rate_limit_middleware. apply sim_after; [keeping|intros t].
  case_match; [done|]. apply sim_after; [apply check_bucket_keeps; typeclasses eauto|].
  intros [n|]; [case_match; [|done]|]; by apply plays_bind.
Qed.

Lemma guarded_plays (auth : AuthService.t) (req : Request.t) (next : Claims.t -> prog (Z * option Value))
  (T : Board.Tickets) :
  (forall claims (T' : Board.Tickets), plays (next claims) T') -> plays (Routes.guarded auth req next) T.
Proof.
  intros Hn. unfold Routes.guarded, Routes.correlation_id_middleware, Routes.auth_middleware.
  apply sim_after; [keeping|intros id]. apply plays_bind; [|done]. apply plays_bind; [|done].
  case_match; [|done]. apply sim_after; [keeping|intros t]. case_match; [|done].
  apply plays_bind; [|done]. apply plays_bind; [|done]. apply rate_limit_plays. intros T'.
  case_match; [apply Hn|done].
Qed.

Context {S1 : Serialize Job.t} {S2 : Serialize Queue.t} {S3 : Serialize QueueStats.t}
  {S4 : Serialize Project.t} {S5 : Serialize DeadLetterEntry.t} {S6 : Serialize JobSummary.t}
  {S7 : Serialize JobExecution.t} {S8 : Serialize JobStatus.t}.

Lemma route_plays (state : AppState.t) (url : option string) (req : Request.t) (c : System.Call)
  (T : Board.Tickets) :
  plays (System.route state url req c) T.
Proof.
  destruct (plain_call c) eqn:Hc; [by apply plays_calm, plain_route_keeps; [typeclasses eauto|]|].
  destruct c as []; try done. apply guarded_plays. intros claims T'.
  apply plays_bind; [|done]. unfold Handlers.retry_dlq_job, Handlers.as_user. case_match; [|done].
  apply plays_bind; [apply retry_job_plays|]. by intros [|] T''.
Qed.

(** Every request starts without a ticket. *)
Lemma serve_plays (state : AppState.t) (url : option string) (l : list (Request.t * System.Call))
  (T : Board.Tickets) :
  plays (System.serve state url l) T.
Proof.
  revert T. induction l as [|[req c] l IH]; intros T; [done|]. cbn [System.serve].
  apply plays_spawn; [|apply IH]. apply plays_bind; [apply route_plays|done].
Qed.

Lemma run_plays (state : AppState.t) (url : option string) (l : list (Request.t * System.Call))
  (T : Board.Tickets) :
  plays (System.run state url l) T.
Proof.
  unfold System.run. apply sim_after; [apply connect_keeps; typeclasses eauto|].
  intros [|]; [apply serve_plays|done].
Qed.
End requests.

(** ** Processes *)

Section processes.
Context {UT : UuidText} {CT : ChronoText} {CH : Chrono} {CR : Cron} {BC : Bcrypt} {JW : Jwt}
  {JT : JsonText} {ET : ErrorText} {RU : RedisUrl}.
Context {S1 : Serialize Job.t} {S2 : Serialize Queue.t} {S3 : Serialize QueueStats.t}
  {S4 : Serialize Project.t} {S5 : Serialize DeadLetterEntry.t} {S6 : Serialize JobSummary.t}
  {S7 : Serialize JobExecution.t} {S8 : Serialize JobStatus.t}.
Context (handler : Job.t -> prog (result unit string)) (handler_external : external handler).

Lemma start_plays (settings : Settings.t) (cfg : System.Config) (name : string) (T : Board.Tickets) :
  plays (System.start handler settings cfg name) T.
Proof.
  unfold System.start. apply sim_after; [apply worker_state_keeps; typeclasses eauto|]. intros worker.
  apply plays_spawn; [apply relay_plays|].
  apply plays_spawn; [apply plays_calm, promoter_keeps; typeclasses eauto|].
  apply plays_spawn; [apply plays_calm, recovery_keeps; typeclasses eauto|].
  apply plays_spawn; [apply plays_calm, heartbeat_keeps; typeclasses eauto|].
  apply sim_after; [apply register_worker_keeps; typeclasses eauto|]. intros [_w|]; [|done].
  assert (forall T' : Board.Tickets, plays (System.run (AppState.new (Settings.jwt_secret settings))
    (System.variables cfg "REDIS_URL") (System.requests cfg) ;;;
    r <- WorkerRepository.deregister (System.worker_id cfg) ;; Ret tt) T') as Hserve.
  { intros T'. apply plays_bind; [apply run_plays|]. intros _ T''. apply plays_calm.
    apply steps_sat_bind; [apply deregister_keeps; typeclasses eauto|done]. }
  case_match; [apply Hserve|]. apply plays_spawn; [by apply run_poller_plays|apply Hserve].
Qed.

Lemma main_plays (cfg : System.Config) (T : Board.Tickets) : plays (System.main handler cfg) T.
Proof.
  unfold System.main. destruct (Settings.from_env _) as [settings|]; [|done].
  do 3 (apply sim_after; [apply connect_keeps; typeclasses eauto|]; intros [|]; [|done]; cbn [negb]).
  destruct (System.worker_name _); [|done]. apply start_plays.
Qed.

Lemma processes_play cfgs : exists Ts, pool_plays (processes handler cfgs) Ts /\ total Ts = ∅.
Proof.
  unfold processes. induction cfgs as [|cfg cfgs (Ts & Hp & Ht)]; [by exists []|].
  exists (∅ :: Ts). split; [by constructor; [apply main_plays|]|]. simpl. rewrite Ht. multiset_solver.
Qed.

(** Whatever interleaving led to [c], its next step advances the board. *)
Lemma processes_advance cfgs w c c' Ts : consistent (w_db w) ->
  rtc pool_step (processes handler cfgs, w) c ->
  pool_plays c.1 Ts -> honored (board_of (w_db c.2) (total Ts)) -> pool_step c c' ->
  exists Ts', pool_plays c'.1 Ts' /\ honored (board_of (w_db c'.2) (total Ts')) /\
    advances (w_db c.2) (total Ts) (w_db c'.2) (total Ts').
Proof.
  destruct c as [ts1 w1], c' as [ts2 w2]. simpl. intros Hc Hr Hp Hh Hstep.
  pose proof (processes_guarantee _ _ _ _ _ handler_external Hc Hr) as HG.
  destruct (pool_step_advances ts1 Ts w1 ts2 w2) as (Ts' & Hp' & Ha); [|done..|].
  { split; [by eapply guarantee_consistent|done]. }
  exists Ts'. split_and!; [done| |done]. by eapply advances_honored.
Qed.
End processes.

(** ** The theorems *)

(** The stores that an interleaving goes through, the last first. *)
Inductive stores (c0 : pool * World) : list Db -> pool * World -> Prop :=
| stores_start : stores c0 [w_db c0.2] c0
| stores_step h c c' : stores c0 h c -> pool_step c c' -> stores c0 (w_db c'.2 :: h) c'.

Lemma stores_rtc c0 h c : stores c0 h c -> rtc pool_step c0 c.
Proof. induction 1; [done|]. by eapply rtc_r. Qed.
Lemma stores_last c0 h c : stores c0 h c -> exists h', h = w_db c.2 :: h'.
Proof. destruct 1; eauto. Qed.

(** A history of the board, the last store first: no ticket is out at its start,
    and from each store to the next the board makes one step or none. *)
Inductive board_history (d0 : Db) : list Db -> Board.Tickets -> Prop :=
| history_start : board_history d0 [d0] ∅
| history_step d h T d' T' :
    board_history d0 (d :: h) T -> advances d T d' T' -> board_history d0 (d' :: d :: h) T'.

(** Recorded successes of a job; and whether it may still be taken: it is not
    submitted yet, or it is pending, queued or scheduled. *)
Definition recorded_successes (k : Uuid) (d : Db) : nat :=
  size (filter (fun x => JobExecution.job_id x.2 = k /\ JobExecution.success x.2 = true)
          (job_executions d)).
Definition takeable (k : Uuid) (d : Db) : bool :=
  match jobs d !! k with Some j => JobService.cancellable (Job.status j) | None => true end.

(** Between two stores the job was put back in the queue, after it was claimed,
    ran, or ended: by recovery or by a manual retry. *)
Definition reopened (k : Uuid) (d d' : Db) : bool :=
  match jobs d !! k, jobs d' !! k with
  | Some j, Some j' => negb (JobService.cancellable (Job.status j))
                       && bool_decide (Job.status j' = JobStatus.Queued)
  | _, _ => false
  end.

Lemma reopened_refl k d : reopened k d d = false.
Proof. unfold reopened. destruct (jobs d !! k) as [j|]; [|done]. by destruct (Job.status j). Qed.

(** An interleaving, and how often the job was reopened in it. *)
Inductive watched (k : Uuid) (c0 : pool * World) : nat -> pool * World -> Prop :=
| watched_start : watched k c0 0 c0
| watched_step n c c' : watched k c0 n c -> pool_step c c' ->
    watched k c0 ((if reopened k (w_db c.2) (w_db c'.2) then 1 else 0) + n) c'.

Lemma watched_rtc k c0 n c : watched k c0 n c -> rtc pool_step c0 c.
Proof. induction 1; [done|]. by eapply rtc_r. Qed.

Lemma successes_board k d : Board.successes k (run_of <$> job_executions d) = recorded_successes k d.
Proof. unfold Board.successes, recorded_successes. by rewrite map_filter_fmap, map_size_fmap. Qed.
Lemma idle_phase_of j : Board.idle (phase_of j) = JobService.cancellable (Job.status j).
Proof. unfold phase_of. by destruct (Job.status j). Qed.
Lemma open_slot_board k d :
  Board.open_slot k (phase_of <$> jobs d) = if takeable k d then 1%nat else 0%nat.
Proof.
  unfold Board.open_slot, takeable. rewrite lookup_fmap. destruct (jobs d !! k); [|done].
  simpl. by rewrite idle_phase_of.
Qed.
Lemma reopened_board k d d' :
  Board.reopened k (phase_of <$> jobs d) (phase_of <$> jobs d') = reopened k d d'.
Proof.
  unfold Board.reopened, reopened. rewrite !lookup_fmap.
  destruct (jobs d !! k) as [j|]; [|done]. destruct (jobs d' !! k) as [j'|]; [|done]. simpl.
  rewrite idle_phase_of, andb_comm. unfold phase_of. by destruct (Job.status j').
Qed.

Section theorems.
Context {UT : UuidText} {CT : ChronoText} {CH : Chrono} {CR : Cron} {BC : Bcrypt} {JW : Jwt}
  {JT : JsonText} {ET : ErrorText} {RU : RedisUrl}.
Context {S1 : Serialize Job.t} {S2 : Serialize Queue.t} {S3 : Serialize QueueStats.t}
  {S4 : Serialize Project.t} {S5 : Serialize DeadLetterEntry.t} {S6 : Serialize JobSummary.t}
  {S7 : Serialize JobExecution.t} {S8 : Serialize JobStatus.t}.

(** C3: the program refines the job board, step by step. However many processes
    run, with whatever requests, interleavings, clocks and failures: between any
    two consecutive stores the board of jobs, log of runs and dead letters makes
    one step or none, with no ticket out at the start and no ticket from
    elsewhere. So a job is submitted idle under a new id; waiting jobs wake; a
    job is taken, by one worker, only when it is ready, and nothing else gives a
    ticket to run it; a job is marked as running only by a worker with such a
    ticket, whatever became of the job since; a run is recorded under a new id by
    a worker that took the job, once for each time it took it, and leaves the job
    done, waiting, or dead with a new dead letter; only idle jobs are cancelled;
    recovery only puts back jobs that a worker holds; and a job is revived only by
    a manual retry that had found a dead letter of it, not retried at that time,
    and that marks the letter. *)
Theorem scheduler_refines_board (handler : Job.t -> prog (result unit string))
  (cfgs : list System.Config) (w w' : World) (ts' : pool) (h : list Db) :
  external handler -> consistent (w_db w) ->
  stores (processes handler cfgs, w) h (ts', w') ->
  exists tickets, board_history (w_db w) h tickets.
Proof.
  intros He Hc Hs.
  assert (exists Ts, pool_plays (ts', w').1 Ts /\ honored (board_of (w_db (ts', w').2) (total Ts)) /\
    board_history (w_db w) h (total Ts)) as (Ts & _ & _ & Hb); [|by exists (total Ts)].
  induction Hs as [|h c c' Hs (Ts & Hp & Hh & Hb) Hstep].
  - destruct (processes_play handler He cfgs) as (Ts & Hp & Ht). exists Ts. rewrite Ht.
    split_and!; [done|by intros x k Hx%gmultiset_not_elem_of_empty|constructor].
  - destruct (processes_advance handler He cfgs w c c' Ts) as (Ts' & Hp' & Hh' & Ha);
      [by eauto using stores_rtc..|].
    exists Ts'. split_and!; [done..|]. destruct (stores_last _ _ _ Hs) as [h' ->]. by econstructor.
Qed.

(** C4: how often a job can succeed. In every interleaving of any number of
    processes, the recorded successes of a job grow at most by one if it may
    still be taken at the start, and by one each time recovery or a manual retry
    put it back in the queue: while nothing reopens it, a job succeeds at most
    once, whatever fails. *)
Theorem success_once_per_opening (handler : Job.t -> prog (result unit string))
  (cfgs : list System.Config) (w w' : World) (ts' : pool) (k : Uuid) (n : nat) :
  external handler -> consistent (w_db w) ->
  watched k (processes handler cfgs, w) n (ts', w') ->
  (recorded_successes k (w_db w') <=
   recorded_successes k (w_db w) + (if takeable k (w_db w) then 1 else 0) + n)%nat.
Proof.
  intros He Hc Hw.
  assert (exists Ts, pool_plays (ts', w').1 Ts /\ honored (board_of (w_db (ts', w').2) (total Ts)) /\
    (Board.chances k (board_of (w_db (ts', w').2) (total Ts)) <=
     Board.chances k (board_of (w_db w) ∅) + n)%nat) as (Ts & _ & _ & Hle).
  { induction Hw as [|n c c' Hw (Ts & Hp & Hh & Hle) Hstep].
    - destruct (processes_play handler He cfgs) as (Ts & Hp & Ht). exists Ts. rewrite Ht. simpl.
      split_and!; [done|by intros x j Hx%gmultiset_not_elem_of_empty|lia].
    - destruct (processes_advance handler He cfgs w c c' Ts) as (Ts' & Hp' & Hh' & Ha);
        [by eauto using watched_rtc..|].
      exists Ts'. split_and!; [done..|].
      destruct Ha as [<-|Hs]; [lia|]. apply (step_chances k) in Hs.
      unfold board_of in Hs at 3 4. simpl in Hs. rewrite reopened_board in Hs. lia. }
  unfold Board.chances in Hle. simpl in Hle.
  rewrite !successes_board, holders_empty, !open_slot_board in Hle. lia.
Qed.
End theorems.

(** ** Two processes run a job twice *)

(** A schedule, and how often it reopens the job. *)
Fixpoint count_reopened (k : Uuid) (schedule : list (nat * Env)) (c : pool * World) : nat :=
  match schedule with
  | [] => 0
  | x :: rest =>
      let c' := run_pool [x] c in
      (if reopened k (w_db c.2) (w_db c'.2) then 1 else 0) + count_reopened k rest c'
  end.

Lemma run_pool_watched k schedule c0 n c : watched k c0 n c ->
  watched k c0 (count_reopened k schedule c + n) (run_pool schedule c).
Proof.
  revert n c. induction schedule as [|[i e] rest IH]; intros n c Hw; [done|].
  cbn [count_reopened]. replace (run_pool ((i, e) :: rest) c) with (run_pool rest (run_pool [(i, e)] c)).
  2: { simpl. destruct c as [ts w]. by repeat case_match. }
  assert (watched k c0 ((if reopened k (w_db c.2) (w_db (run_pool [(i, e)] c).2) then 1 else 0) + n)
    (run_pool [(i, e)] c)) as Hw'.
  { destruct c as [ts w]. simpl. destruct (ts !! i) as [t|] eqn:Hi; [|by rewrite reopened_refl].
    destruct (task_step e t w) as [[[t' sp] w']|] eqn:Ht; [|by rewrite reopened_refl].
    change w' with (t' :: ts, w').2 at 1. eapply (watched_step _ _ _ (ts, w)); [done|]. by econstructor. }
  apply IH in Hw'. by match type of Hw' with watched _ _ ?m _ =>
    match goal with |- watched _ _ ?m' _ => replace m' with m by lia end end.
Qed.

(** The stores of a schedule, the last first, and where it ends. *)
Fixpoint trace (schedule : list (nat * Env)) (h : list Db) (c : pool * World)
  : list Db * (pool * World) :=
  match schedule with
  | [] => (h, c)
  | (i, e) :: rest =>
      match c.1 !! i with
      | Some t =>
          match task_step e t c.2 with
          | Some (t', sp, w') => trace rest (w_db w' :: h) (<[i := t']> c.1 ++ sp, w')
          | None => trace rest h c
          end
      | None => trace rest h c
      end
  end.

(** The phases a job goes through. *)
Fixpoint way (k : Uuid) (h : list Db) : list Board.Phase :=
  match h with
  | [] => []
  | d :: h' =>
      match phase_of <$> jobs d !! k, way k h' with
      | Some p, q :: ps => if decide (p = q) then q :: ps else p :: q :: ps
      | Some p, [] => [p]
      | None, ps => ps
      end
  end.

Section example.
Import Toy.
#[local] Existing Instances any_body no_text.

(** Task 0 is the process of [dead_worker], whose last heartbeat is a hundred
    seconds old: it claims the job (task 6 is its poller, 12 its run). Task 1 is
    the process of [worker]: its recovery (task 9) takes the job back, its poller
    (task 11) claims it again, and both runs (12, 13) succeed. *)
Definition two_processes : list System.Config :=
  [ System.MkConfig Settings.variables (Some "b") Fixture.dead_worker 1 [];
    System.MkConfig Settings.variables (Some "a") Fixture.worker 1 [] ].
Definition both_succeed : list (nat * Env) :=
  imap (fun n i => (i, Fixture.env_at (Fixture.noon + Z.of_nat n) n))
    (replicate 10 0 ++ replicate 10 1 ++ replicate 5 6 ++ [9] ++ replicate 5 11 ++
     replicate 5 13 ++ replicate 5 12)%nat.
Definition start_of_two : pool * World :=
  (processes Executor.simulate_execute two_processes, Fixture.world one_job).

Lemma both_watched : exists ts' w', watched 20%N start_of_two 1 (ts', w') /\
  w' = (run_pool both_succeed start_of_two).2.
Proof.
  pose proof (run_pool_watched 20 both_succeed start_of_two 0 _ (watched_start _ _)) as Hw.
  replace (count_reopened 20 both_succeed start_of_two + 0)%nat with 1%nat in Hw
    by (vm_compute; reflexivity).
  destruct (run_pool both_succeed start_of_two) as [ts w]. by exists ts, w.
Qed.

Lemma one_job_consistent : consistent one_job.
Proof. compute_decide. Qed.

(** The bound is reached: two successes, one recovery. *)
Lemma success_once_per_opening_witness : exists ts' w',
  watched 20 start_of_two 1 (ts', w') /\ recorded_successes 20 (w_db w') = 2%nat /\
  (recorded_successes 20 (w_db w') <= 0 + 1 + 1)%nat.
Proof.
  destruct both_watched as (ts' & w' & Hw & Hw'). exists ts', w'. split; [exact Hw|]. split.
  - rewrite Hw'. vm_compute. reflexivity.
  - apply (success_once_per_opening Executor.simulate_execute two_processes (Fixture.world one_job)
      w' ts' 20 1 shipped_handler_external one_job_consistent Hw).
Defined.

Lemma trace_stores c0 schedule h c : stores c0 h c ->
  stores c0 (trace schedule h c).1 (trace schedule h c).2.
Proof.
  revert h c. induction schedule as [|[i e] rest IH]; intros h [ts w] Hs; [done|]. cbn [trace fst snd].
  destruct (ts !! i) as [t|] eqn:Hi; [|by apply IH].
  destruct (task_step e t w) as [[[t' sp] w']|] eqn:Ht; [|by apply IH]. apply IH.
  eapply (stores_step _ _ _ (_, w')); [done|by econstructor].
Qed.

(** The job's way over the board in that run: the late start of the first worker
    finds it done and marks it as running once more, held by nobody. *)
Lemma scheduler_refines_board_witness :
  let h := (trace both_succeed [one_job] start_of_two).1 in
  way 20 (rev h) = [Board.Ready; Board.Taken (Some Fixture.dead_worker); Board.Ready;
    Board.Taken (Some Fixture.worker); Board.Done; Board.Taken None; Board.Done] /\
  exists tickets, board_history one_job h tickets.
Proof.
  split; [vm_compute; reflexivity|].
  pose proof (trace_stores start_of_two both_succeed _ _ (stores_start start_of_two)) as Hs.
  change (w_db start_of_two.2) with one_job in Hs. revert Hs.
  destruct (trace both_succeed [one_job] start_of_two) as [h [ts w]]. intros Hs.
  exact (scheduler_refines_board Executor.simulate_execute two_processes (Fixture.world one_job)
    w ts h shipped_handler_external one_job_consistent Hs).
Defined.
End example.
