(* ===== verification/Integrity.v ===== *)
(** * Referential integrity, and the width of the counters

    Every reference of a row leads to a row, and every attempt number is a
    32-bit integer. The schema declares the references, an insertion checks
    them, and no statement of the program deletes a row or writes a reference
    it did not check: so they hold in every interleaving. *)
From S2P Require Import Prelude Enums Entities RetryPolicy Db Fixture Steps JobRepository.
From S2P Require Import Repositories Externals JobService QueueService DlqService SchedulerCore.
From S2P Require Import Executor Poller OutboxRelay ProjectService WorkflowService AuthService.
From S2P Require Import RateLimit Api WebSocket Settings History System Safety.

(** ** Well-typed stores *)

Definition ref {V} (t : gmap N V) (k : N) : Prop := is_Some (t !! k).
Definition ref_opt {V} (t : gmap N V) (k : option N) : Prop :=
  match k with Some k => ref t k | None => True end.
#[global] Instance ref_dec {V} (t : gmap N V) k : Decision (ref t k).
Proof. unfold ref. apply _. Defined.
#[global] Instance ref_opt_dec {V} (t : gmap N V) k : Decision (ref_opt t k).
Proof. destruct k; simpl; apply _. Defined.
#[global] Instance in_width_dec w z : Decision (in_width w z).
Proof. unfold in_width. apply _. Defined.

(** The rows of each table, by the references of the schema. *)
Definition token_ok (d : Db) (r : RefreshToken.t) : Prop := ref (users d) (RefreshToken.user_id r).
Definition project_ok (d : Db) (p : Project.t) : Prop :=
  ref (organizations d) (Project.organization_id p).
Definition member_ok (d : Db) (m : ProjectMember.t) : Prop :=
  ref (projects d) (ProjectMember.project_id m) /\ ref (users d) (ProjectMember.user_id m).
Definition queue_ok (d : Db) (q : Queue.t) : Prop :=
  ref (projects d) (Queue.project_id q) /\ ref_opt (retry_policies d) (Queue.retry_policy_id q).
Definition heartbeat_ok (d : Db) (h : WorkerHeartbeat.t) : Prop :=
  ref (workers d) (WorkerHeartbeat.worker_id h).
Definition job_ok (d : Db) (j : Job.t) : Prop :=
  ref (queues d) (Job.queue_id j) /\ ref (projects d) (Job.project_id j) /\
  ref_opt (workers d) (Job.worker_id j) /\ ref_opt (retry_policies d) (Job.retry_policy_id j) /\
  in_width 32 (Job.attempt_count j).
Definition execution_ok (d : Db) (x : JobExecution.t) : Prop :=
  ref (jobs d) (JobExecution.job_id x) /\ in_width 32 (JobExecution.attempt_number x).
Definition dead_letter_ok (d : Db) (x : DeadLetterEntry.t) : Prop :=
  ref (jobs d) (DeadLetterEntry.job_id x) /\
  ref_opt (users d) (DeadLetterEntry.manually_retried_by x) /\
  in_width 32 (DeadLetterEntry.attempt_count x).
Definition dependency_ok (d : Db) (x : JobDependency.t) : Prop :=
  ref (jobs d) (JobDependency.dependent_job_id x) /\ ref (jobs d) (JobDependency.dependency_job_id x).

Abbreviation all_rows P t := (map_Forall (fun _ => P) t).

Record typed (d : Db) : Prop := {
  typed_tokens : all_rows (token_ok d) (refresh_tokens d);
  typed_projects : all_rows (project_ok d) (projects d);
  typed_members : all_rows (member_ok d) (project_members d);
  typed_queues : all_rows (queue_ok d) (queues d);
  typed_heartbeats : all_rows (heartbeat_ok d) (worker_heartbeats d);
  typed_jobs : all_rows (job_ok d) (jobs d);
  typed_executions : all_rows (execution_ok d) (job_executions d);
  typed_dead_letters : all_rows (dead_letter_ok d) (dead_letter_queue d);
  typed_dependencies : all_rows (dependency_ok d) (job_dependencies d);
}.

#[global] Instance typed_dec d : Decision (typed d).
Proof.
  refine (cast_if (decide (all_rows (token_ok d) (refresh_tokens d) /\
    all_rows (project_ok d) (projects d) /\ all_rows (member_ok d) (project_members d) /\
    all_rows (queue_ok d) (queues d) /\ all_rows (heartbeat_ok d) (worker_heartbeats d) /\
    all_rows (job_ok d) (jobs d) /\ all_rows (execution_ok d) (job_executions d) /\
    all_rows (dead_letter_ok d) (dead_letter_queue d) /\
    all_rows (dependency_ok d) (job_dependencies d))));
    abstract (try split; try intros []; naive_solver).
Defined.

(** ** Tables

    What a table promises to the statements on it: its rows are well typed, and
    it may be rewritten, as long as no key is lost, with well-typed rows. *)
Definition keeps_keys {V} (t t' : gmap N V) : Prop := forall k, ref t k -> ref t' k.

Class TypedTable {V} (table : Db -> gmap N V) `{!Setter table} : Type := {
  row_ok : Db -> V -> Prop;
  typed_rows d : typed d -> all_rows (row_ok d) (table d);
  typed_write d f : keeps_keys (table d) (f (table d)) ->
    all_rows (row_ok d) (f (table d)) -> typed d -> typed (d <| table ::= f |>);
}.

Lemma ref_opt_mono {V} (t t' : gmap N V) k : keeps_keys t t' -> ref_opt t k -> ref_opt t' k.
Proof. intros Ht. destruct k; [apply Ht|done]. Qed.

Ltac typed_table :=
  first [by intros d []|idtac]; intros d f Hkeys Hrows []; split; simpl; try assumption;
  (eapply map_Forall_impl; [eassumption|]; cbv beta; intros ? ?;
   unfold token_ok, project_ok, member_ok, queue_ok, heartbeat_ok, job_ok, execution_ok,
     dead_letter_ok, dependency_ok; simpl; intros; destruct_and?; split_and?; eauto using ref_opt_mono).

#[global] Program Instance typed_organizations_table : TypedTable organizations :=
  {| row_ok _ _ := True |}.
Solve Obligations with typed_table.
#[global] Program Instance typed_users_table : TypedTable users := {| row_ok _ _ := True |}.
Solve Obligations with typed_table.
#[global] Program Instance typed_workers_table : TypedTable workers := {| row_ok _ _ := True |}.
Solve Obligations with typed_table.
#[global] Program Instance typed_outbox_table : TypedTable outbox_events := {| row_ok _ _ := True |}.
Solve Obligations with typed_table.
#[global] Program Instance typed_tokens_table : TypedTable refresh_tokens := {| row_ok := token_ok |}.
Solve Obligations with typed_table.
#[global] Program Instance typed_projects_table : TypedTable projects := {| row_ok := project_ok |}.
Solve Obligations with typed_table.
#[global] Program Instance typed_members_table : TypedTable project_members :=
  {| row_ok := member_ok |}.
Solve Obligations with typed_table.
#[global] Program Instance typed_queues_table : TypedTable queues := {| row_ok := queue_ok |}.
Solve Obligations with typed_table.
#[global] Program Instance typed_heartbeats_table : TypedTable worker_heartbeats :=
  {| row_ok := heartbeat_ok |}.
Solve Obligations with typed_table.
#[global] Program Instance typed_jobs_table : TypedTable jobs := {| row_ok := job_ok |}.
Solve Obligations with typed_table.
#[global] Program Instance typed_executions_table : TypedTable job_executions :=
  {| row_ok := execution_ok |}.
Solve Obligations with typed_table.
#[global] Program Instance typed_dead_letters_table : TypedTable dead_letter_queue :=
  {| row_ok := dead_letter_ok |}.
Solve Obligations with typed_table.
#[global] Program Instance typed_dependencies_table : TypedTable job_dependencies :=
  {| row_ok := dependency_ok |}.
Solve Obligations with typed_table.

(** ** Statements *)

Section tables.
Context {V : Type} (table : Db -> gmap N V) `{!Setter table, !TypedTable table}.

Lemma typed_put d k v : row_ok d v -> typed d -> typed (d <| table ::= <[k := v]> |>).
Proof.
  intros Hv Hd. apply typed_write; [| |done].
  - intros i Hi. unfold ref. destruct (decide (i = k)) as [->|Hne];
      [by rewrite lookup_insert_eq|by rewrite lookup_insert_ne].
  - apply map_Forall_insert_2; [done|]. by apply typed_rows.
Qed.

(** An insertion checks the references of its row. *)
Lemma insert_row_typed key constraints (row : V) :
  (forall d, Forall (fun x => x.1 = true) (constraints d row) -> row_ok d row) ->
  stmt_sat (preserves typed) (insert_row table key constraints row).
Proof. intros Hrow c d a d' (_ & Hc & ->)%insert_row_Ok Hd. apply typed_put; auto. Qed.

(** Updates of a row, and of the rows that satisfy a condition. *)
Lemma update_row_typed k (f : V -> V) :
  (forall d v, row_ok d v -> row_ok d (f v)) ->
  stmt_sat (preserves typed) (update_row table k f).
Proof.
  intros Hf c d a d'. unfold update_row. destruct (table d !! k) as [v|] eqn:Hk; intros [= _ <-]; [|done].
  intros Hd. apply typed_put; [|done]. apply Hf. by apply (typed_rows d Hd k).
Qed.
Lemma update_rows_typed (p : V -> bool) (f : V -> V) :
  (forall d v, row_ok d v -> row_ok d (f v)) ->
  stmt_sat (preserves typed) (update_rows table p f).
Proof.
  intros Hf c d a d' [= _ <-] Hd. apply typed_write; [| |done].
  - intros k. unfold ref. rewrite lookup_update_where. by destruct (table d !! k).
  - intros k v' (v & Hk & ->)%lookup_update_where_inv. pose proof (typed_rows d Hd k v Hk).
    destruct (p v); [by apply Hf|done].
Qed.
End tables.

(** Read the references off the satisfied constraints of a row. *)
Ltac checked :=
  let Hc := fresh in intros ? Hc;
  repeat (let H := fresh in apply Forall_cons in Hc as [H Hc]; simpl in H);
  simpl; unfold token_ok, project_ok, member_ok, queue_ok, job_ok, execution_ok, dead_letter_ok,
    dependency_ok, ref, ref_opt; simpl;
  repeat match goal with
  | H : has _ _ = true |- _ => apply has_true in H
  | H : has_opt _ ?k = true |- _ => destruct k; simpl in H
  end; split_and?; auto; try (unfold in_width; lia).

Section statements.
Context {UT : UuidText} {CT : ChronoText} {CH : Chrono} {CR : Cron} {BC : Bcrypt} {JW : Jwt}.
Abbreviation well_typed s := (stmt_sat (preserves typed) s).

(** Rewriting jobs: the references stay, or the worker is dropped. *)
Definition keeps_job (f : Job.t -> Job.t) : Prop := forall d j, job_ok d j -> job_ok d (f j).

Lemma release_keeps_job t : keeps_job (JobRepository.release t).
Proof. intros d j (? & ? & ? & ? & ?). by split_and!. Qed.

Lemma claim_typed q wk : well_typed (JobRepository.claim_stmt q wk).
Proof.
  intros c d a d'. unfold JobRepository.claim_stmt.
  destruct (JobRepository.claim_candidate c q d) as [j|] eqn:E; [|by intros [= _ <-]].
  destruct (has _ wk) eqn:Hw; intros [= _ <-]. intros Hd. apply (typed_put jobs); [|done].
  apply claim_candidate_Some in E as (_ & _ & [k Hk] & _).
  destruct (typed_jobs d Hd k j Hk) as (? & ? & ? & ? & ?). apply has_true in Hw. by split_and!.
Qed.

Ltac job_update := apply stmt_sat_with_ctx; intros c;
  first [apply (update_row_typed jobs) | apply (update_rows_typed jobs)]; intros d j (? & ? & ? & ? & ?); by split_and!.

Lemma mark_running_typed k : well_typed (JobRepository.mark_running_stmt k).
Proof. job_update. Qed.
Lemma mark_completed_typed k : well_typed (JobRepository.mark_completed_stmt k).
Proof. job_update. Qed.
Lemma fail_typed k n : in_width 32 n -> well_typed (Executor.fail_stmt k n).
Proof. intros Hn. job_update. Qed.
Lemma retry_typed k n t : in_width 32 n -> well_typed (Executor.retry_stmt k n t).
Proof. intros Hn. job_update. Qed.
Lemma requeue_typed k : well_typed (DlqService.requeue_stmt k).
Proof. job_update. Qed.
Lemma re_queue_typed : well_typed JobRepository.re_queue_stmt.
Proof. job_update. Qed.
Lemma recover_typed thr : well_typed (JobRepository.recover_stmt thr).
Proof.
  intros c d. apply (update_rows_typed jobs). intros d0 j. apply release_keeps_job.
Qed.
Lemma cancel_typed k : well_typed (JobService.cancel_stmt k).
Proof.
  intros c d a d'. unfold JobService.cancel_stmt. destruct (jobs d !! k); [|by intros [= _ <-]].
  destruct (JobService.cancellable _); [|by intros [= _ <-]]. apply (update_row_typed jobs).
  intros d0 j0 (? & ? & ? & ? & ?). by split_and!.
Qed.
Lemma create_job_typed q p req st pr n s corr pol :
  well_typed (JobService.insert_job_stmt q p req st pr n s corr pol).
Proof.
  intros c d a d'. unfold JobService.insert_job_stmt. autorewrite with casts. simpl.
  apply (insert_row_typed jobs). checked.
Qed.
Lemma insert_next_typed k t : well_typed (Recurring.insert_next_stmt k t).
Proof.
  intros c d a d'. unfold Recurring.insert_next_stmt. destruct (jobs d !! k) as [j|];
    [|by intros [= _ <-]].
  destruct (insert_row _ _ _ _ c d) as [[j' d1]|v] eqn:E; intros [= _ <-].
  revert E. apply (insert_row_typed jobs). checked.
Qed.

Lemma execution_typed x : in_width 32 (JobExecution.attempt_number x) ->
  well_typed (Executor.insert_execution_stmt x).
Proof. intros Hn. apply (insert_row_typed job_executions). checked. Qed.
Lemma dead_letter_typed x : in_width 32 (DeadLetterEntry.attempt_count x) ->
  well_typed (Executor.insert_dlq_stmt x).
Proof. intros Hn. apply (insert_row_typed dead_letter_queue). checked. Qed.
Lemma outbox_typed e : well_typed (OutboxRepository.insert_stmt e).
Proof.
  intros c d a d'. unfold OutboxRepository.insert_stmt. case_match; [|done].
  by apply (insert_row_typed outbox_events).
Qed.
Lemma mark_typed id : well_typed (OutboxRelay.mark_stmt id).
Proof. apply stmt_sat_with_ctx. intros c. by apply (update_row_typed outbox_events). Qed.

Lemma mark_retried_typed k u : well_typed (DlqRepository.mark_retried_stmt k u).
Proof.
  intros c d a d'. unfold DlqRepository.mark_retried_stmt, update_row.
  destruct (dead_letter_queue d !! k) as [x|] eqn:Hx; [|by intros [= _ <-]].
  destruct (has (users d) u) eqn:Hu; intros [= _ <-]. intros Hd. apply (typed_put dead_letter_queue); [|done].
  destruct (typed_dead_letters d Hd k x Hx) as (? & ? & ?). apply has_true in Hu. by split_and!.
Qed.
Lemma set_paused_typed q b : well_typed (QueueRepository.set_paused_stmt q b).
Proof. apply stmt_sat_with_ctx. intros c. by apply (update_row_typed queues). Qed.
Lemma register_worker_typed wk name host : well_typed (WorkerRepository.register_stmt wk name host).
Proof.
  intros c d a d'. unfold WorkerRepository.register_stmt.
  destruct (workers d !! wk); intros [= _ <-] Hd; by apply (typed_put workers).
Qed.
Lemma deregister_typed wk : well_typed (WorkerRepository.deregister_stmt wk).
Proof. apply stmt_sat_with_ctx. intros c. by apply (update_row_typed workers). Qed.
Lemma heartbeat_typed wk n : well_typed (WorkerRepository.upsert_heartbeat_stmt wk n).
Proof.
  intros c d a d'. unfold WorkerRepository.upsert_heartbeat_stmt. destruct (exists_row _ _).
  - by apply (update_rows_typed worker_heartbeats).
  - destruct (first_violation _) eqn:Hv; intros [= _ <-]. apply first_violation_None in Hv.
    apply Forall_cons in Hv as [_ [Hw _]%Forall_cons]. simpl in Hw. apply has_true in Hw.
    intros Hd. by apply (typed_put worker_heartbeats).
Qed.
Lemma revoke_typed hash : well_typed (UserRepository.revoke_stmt hash).
Proof. by apply (update_rows_typed refresh_tokens). Qed.
Lemma user_typed u : well_typed (insert_row users User.id users_constraints u).
Proof. by apply (insert_row_typed users). Qed.
Lemma token_typed r :
  well_typed (insert_row refresh_tokens RefreshToken.id refresh_tokens_constraints r).
Proof. apply (insert_row_typed refresh_tokens). checked. Qed.
Lemma create_queue_typed q : well_typed (insert_row queues Queue.id queues_constraints q).
Proof. apply (insert_row_typed queues). checked. Qed.
Lemma insert_project_typed org name slug desc :
  well_typed (ProjectRepository.insert_project_stmt org name slug desc).
Proof. apply stmt_sat_with_ctx. intros c. apply (insert_row_typed projects). checked. Qed.
Lemma upsert_org_typed name slug : well_typed (ProjectService.upsert_org_stmt name slug).
Proof.
  intros c d a d'. unfold ProjectService.upsert_org_stmt.
  destruct (ProjectService.org_by_slug slug d); [|destruct (has _ _)]; intros [= _ <-] Hd; by apply (typed_put organizations).
Qed.
Lemma add_admin_typed p u : well_typed (ProjectService.add_admin_stmt p u).
Proof.
  intros c d a d'. unfold ProjectService.add_admin_stmt. destruct (exists_row _ _); [by intros [= _ <-]|].
  destruct (insert_row _ _ _ _ c d) as [[m d1]|v] eqn:E; intros [= _ <-].
  revert E. apply (insert_row_typed project_members). checked.
Qed.
Lemma dependency_typed a b : well_typed (WorkflowService.create_dependency_stmt a b).
Proof.
  intros c d n d'. unfold WorkflowService.create_dependency_stmt.
  destruct (first_violation _) as [[]|] eqn:E; intros [= _ <-]; [done|]. intros Hd.
  apply first_violation_None in E. apply (typed_put job_dependencies); [|done]. revert E. generalize d at 1 2. checked.
Qed.
End statements.
#[export] Hint Resolve claim_typed mark_running_typed mark_completed_typed fail_typed retry_typed
  requeue_typed re_queue_typed recover_typed cancel_typed create_job_typed insert_next_typed
  execution_typed dead_letter_typed outbox_typed mark_typed mark_retried_typed set_paused_typed
  register_worker_typed deregister_typed heartbeat_typed revoke_typed user_typed token_typed
  create_queue_typed insert_project_typed upsert_org_typed add_admin_typed dependency_typed : sched.

(** ** The whole program *)

Section program.
Context {UT : UuidText} {CT : ChronoText} {CH : Chrono} {CR : Cron} {BC : Bcrypt} {JW : Jwt}
  {JT : JsonText} {ET : ErrorText} {RU : RedisUrl}.
Context {S1 : Serialize Job.t} {S2 : Serialize Queue.t} {S3 : Serialize QueueStats.t}
  {S4 : Serialize Project.t} {S5 : Serialize DeadLetterEntry.t} {S6 : Serialize JobSummary.t}
  {S7 : Serialize JobExecution.t} {S8 : Serialize JobStatus.t}.

#[export] Instance typed_tolerated : Tolerated (preserves typed).
Proof.
  split; try typeclasses eauto; intros; eauto with sched.
  unfold ProjectService.create_tx. steps_tac; eauto with sched.
Qed.
#[export] Instance typed_tolerates_retry : ToleratesRetry (preserves typed).
Proof. intros j x u. unfold DlqService.retry_tx. steps_tac; eauto with sched. Qed.

Lemma i32_width z : in_width 32 (i32 z).
Proof. by apply wrap_in_width. Qed.
#[local] Hint Resolve i32_width : sched.

#[export] Instance typed_tolerated_worker : ToleratedWorker (preserves typed).
Proof.
  split; try typeclasses eauto; intros; eauto with sched.
  - unfold Executor.success_tx, Executor.emit, OutboxRepository.insert_in_tx. steps_tac; eauto with sched.
    apply execution_typed, i32_width.
  - unfold Executor.failure_tx, Executor.calculate_retry_delay, Executor.emit,
      OutboxRepository.insert_in_tx. steps_tac; eauto with sched;
      first [apply execution_typed | apply dead_letter_typed]; apply i32_width.
Qed.

(** C5: rows are well typed in every interleaving. However many processes run,
    with whatever requests and failures: every reference of a row leads to a row
    (an execution, a dead letter or a dependency to its job; a job to its queue
    and project, and to its worker and retry policy if it has them; a membership
    to its user and project; a queue, a project, a heartbeat, a token to their
    owner), and every attempt number fits in its 32-bit column. *)
Theorem references_resolve (handler : Job.t -> prog (result unit string))
  (cfgs : list System.Config) (w w' : World) (ts' : pool) :
  external handler -> typed (w_db w) ->
  rtc pool_step (processes handler cfgs, w) (ts', w') -> typed (w_db w').
Proof.
  intros He Hd Hr.
  exact (processes_change (preserves typed) mark_typed handler cfgs w (ts', w') He Hr Hd).
Qed.
End program.

Section example.
Import Toy.
#[local] Existing Instances any_body no_text.

Lemma references_resolve_witness :
  typed (w_db after_run.2) /\ size (job_executions (w_db after_run.2)) = 1%nat.
Proof.
  split; [|vm_compute; reflexivity].
  apply (references_resolve Executor.simulate_execute [one_process] (Fixture.world Fixture.two_queued)
    after_run.2 after_run.1 shipped_handler_external); [compute_decide|].
  assert (rtc pool_step (processes Executor.simulate_execute [one_process],
    Fixture.world Fixture.two_queued) after_run) as Hr by apply run_pool_sound.
  destruct after_run as [ts w]. exact Hr.
Defined.
End example.
