(* ===== verification/Pipeline.v ===== *)
(** * The life of a failing job

    The promoter, a poller and the executor, composed: rounds in which a due job
    is queued, claimed and run. A job whose runs fail is run exactly as often as
    it has attempts, each run recorded, and then rests in the dead-letter queue;
    later rounds leave it alone. *)
From S2P Require Import Prelude Enums Entities RetryPolicy Db Fixture Steps JobRepository.
From S2P Require Import Repositories Externals SchedulerCore Executor Poller History.

(** ** Rounds *)

Section rounds.
Context {UT : UuidText} {CT : ChronoText} {CH : Chrono} {CR : Cron}.

(** One round of the promoter, one poll of a queue, and the run it starts: their
    steps one after the other, in the environments [env 0], [env 1], ... *)
Definition round (handler : Job.t -> prog (result unit string)) (worker_id queue_id : Uuid)
  (env : nat -> Env) (w : World) : World :=
  let '(_, w1, n1, _) := exec CronScheduler.promoter_round env 0 w in
  let '(_, w2, n2, spawned) :=
    exec (Poller.poll_queue (Poller.spawn_counted handler worker_id) worker_id queue_id) env n1 w1 in
  foldl (fun w t => (run t (fun n => env (n2 + n)%nat) w).2) w2 spawned.

Fixpoint rounds (handler : Job.t -> prog (result unit string)) (worker_id queue_id : Uuid)
  (env : nat -> nat -> Env) (n : nat) (w : World) : World :=
  match n with
  | O => w
  | S n => round handler worker_id queue_id (env n) (rounds handler worker_id queue_id env n w)
  end.
End rounds.

(** The rounds are an interleaving of the program's own loops. *)
Section interleaving.
Context {UT : UuidText} {CT : ChronoText} {CH : Chrono} {CR : Cron}.
Context (handler : Job.t -> prog (result unit string)) (worker_id queue_id : Uuid).

Definition loops (n : nat) : list (prog unit) :=
  [ CronScheduler.run_scheduled_job_promoter n;
    Poller.run_poller_with_counter handler worker_id [queue_id] n ].

Lemma exec_promoter_returns env n w r w' n' ts :
  exec CronScheduler.promoter_round env n w = (r, w', n', ts) -> r = Returned tt /\ ts = [].
Proof.
  unfold CronScheduler.promoter_round, JobRepository.re_queue_scheduled_jobs. intros Hx.
  match type of Hx with exec (bind (sql ?s) ?k) _ _ _ = _ =>
    destruct (exec_sql s k env n w) as (r1 & w1 & Hs & _) end.
  rewrite Hs in Hx. by simplify_eq/=.
Qed.

Lemma exec_poll_tick env n w :
  exec (Poller.poll_tick (Poller.spawn_counted handler worker_id) worker_id [queue_id]) env n w =
  exec (Poller.poll_queue (Poller.spawn_counted handler worker_id) worker_id queue_id) env n w.
Proof. 
  unfold Poller.poll_tick. cbn [for_each]. rewrite exec_bind.
  destruct (exec _ env n w) as [[[[[]|] w'] n'] ts]; [|done]. simpl. by rewrite app_nil_r.
Qed.

Lemma exec_poll_returns env n w r w' n' ts :
  exec (Poller.poll_queue (Poller.spawn_counted handler worker_id) worker_id queue_id) env n w
    = (r, w', n', ts) -> r = Returned tt.
Proof.
  intros Hx. apply exec_poll_queue in Hx as [[m Hx]|(_ & j & d & _ & [Hx|Hx])]; by simplify_eq/=.
Qed.

Lemma round_interleaved env m post w : exists rest,
  rtc pool_step (loops (S m) ++ post, w) (loops m ++ rest, round handler worker_id queue_id env w).
Proof.
  unfold round. set (promoter_loop := CronScheduler.run_scheduled_job_promoter m).
  set (polls := Poller.run_poller_with_counter handler worker_id [queue_id] m).
  destruct (exec CronScheduler.promoter_round env 0 w) as [[[r1 w1] n1] ts1] eqn:E1.
  destruct (exec (Poller.poll_queue _ _ _) env n1 w1) as [[[r2 w2] n2] ts2] eqn:E2.
  pose proof (exec_promoter_returns _ _ _ _ _ _ _ E1) as [-> ->].
  pose proof (exec_poll_returns _ _ _ _ _ _ _ E2) as ->. rewrite <- exec_poll_tick in E2.
  destruct (exec_pool _ _ _ _ _ _ _ _ _ (loops (S m) ++ post) 0
    (context_bind (fun _ => promoter_loop)) E1 eq_refl) as (p1 & H1 & Hp1).
  destruct (exec_pool _ _ _ _ _ _ _ _ _ (promoter_loop :: tail (loops (S m)) ++ post) 1
    (context_bind (fun _ => polls)) E2 eq_refl) as (p2 & H2 & Hp2).
  rewrite (Hp1 tt eq_refl), app_nil_r in H1. rewrite (Hp2 tt eq_refl) in H2.
  destruct (run_each_pool (fun n => env (n2 + n)%nat) ts2 (loops m ++ post) [] w2) as [rest H3].
  rewrite app_nil_r in H3. exists (post ++ rest). rewrite app_assoc. etrans; [exact H1|].
  etrans; [exact H2|exact H3].
Qed.

Lemma rounds_interleaved env n m w : exists rest,
  rtc pool_step (loops (n + m), w) (loops m ++ rest, rounds handler worker_id queue_id env n w).
Proof.
  revert m. induction n as [|n IH]; intros m; [by exists []; rewrite app_nil_r|].
  destruct (IH (S m)) as [rest Hr]. destruct (round_interleaved (env n) m rest
    (rounds handler worker_id queue_id env n w)) as [rest' Hr'].
  exists rest'. replace (S n + m)%nat with (n + S m)%nat by lia. etrans; [exact Hr|exact Hr'].
Qed.
End interleaving.

(** ** Counting *)

Definition failures (k : Uuid) (d : Db) : nat :=
  size (filter (fun x => JobExecution.job_id x.2 = k /\ JobExecution.success x.2 = false)
          (job_executions d)).
Definition dead_entries (k : Uuid) (d : Db) : nat :=
  size (filter (fun x => DeadLetterEntry.job_id x.2 = k) (dead_letter_queue d)).

Lemma size_filter_insert {V} (P : N * V -> Prop) `{!forall x, Decision (P x)} (t : gmap N V) k v :
  t !! k = None -> P (k, v) -> size (filter P (<[k := v]> t)) = S (size (filter P t)).
Proof.
  intros Hk HP. rewrite map_filter_insert_True by done. apply map_size_insert_None.
  apply map_lookup_filter_None. by left.
Qed.

(** ** Stages *)

Section stages.
Context (q k wk : Uuid) (j0 : Job.t).

(** The job has failed [a] times. While it has attempts left it is queued, or
    due at [t]; then it is failed. It is the only job of its queue to be run; the
    queue is open and the worker registered. *)
Definition waiting (t : Timestamp) (j : Job.t) : Prop :=
  Job.status j = JobStatus.Queued \/
  Job.status j = JobStatus.Scheduled /\
    exists s, coalesce (Job.next_attempt_at j) (Job.scheduled_at j) = Some s /\ s <= t.
Definition over (j : Job.t) : Prop :=
  Job.status j = JobStatus.Completed \/ Job.status j = JobStatus.Failed.

Record stage (a : Z) (t : Timestamp) (d : Db) : Prop := {
  stage_keyed : jobs_keyed d;
  stage_alone : forall k' j, jobs d !! k' = Some j -> k' <> k -> Job.queue_id j = q -> over j;
  stage_queue : exists row, queues d !! q = Some row /\ Queue.is_paused row = false /\
    0 < Queue.concurrency_limit row;
  stage_worker : is_Some (workers d !! wk);
  stage_job : exists j, jobs d !! k = Some j /\ submitted j = submitted j0 /\
    Job.attempt_count j = a /\
    (if a <? Job.max_attempts j0 then waiting t j else Job.status j = JobStatus.Failed);
}.

Lemma over_not_due t j : over j -> JobRepository.due t j = false.
Proof. unfold JobRepository.due. by intros [-> | ->]. Qed.
Lemma over_not_claimable t j : over j -> JobRepository.claimable q t j = false.
Proof. unfold JobRepository.claimable. by intros [-> | ->]. Qed.

(** The promoter queues the job if it is due, and leaves the others of its
    queue. *)
Lemma promoted_stage a t d : stage a t d -> stage a t (promoted t d) /\
  (forall j, a < Job.max_attempts j0 -> jobs (promoted t d) !! k = Some j ->
     Job.status j = JobStatus.Queued) /\
  (Job.max_attempts j0 <= a -> jobs (promoted t d) !! k = jobs d !! k).
Proof.
  intros [Hkey Halone Hq Hw (j & Hj & Hsub & Ha & Hst)].
  assert (forall i, jobs (promoted t d) !! i = (fun j => if JobRepository.due t j
    then JobRepository.set_queued t j else j) <$> jobs d !! i) as Hlook by apply promoted_lookup.
  assert (exists j', jobs (promoted t d) !! k = Some j' /\ submitted j' = submitted j /\
    Job.attempt_count j' = a /\
    (if a <? Job.max_attempts j0 then Job.status j' = JobStatus.Queued else j' = j))
    as (j' & Hj' & Hsub' & Ha' & Hst').
  { rewrite Hlook, Hj. simpl. eexists. split; [reflexivity|].
    destruct (a <? Job.max_attempts j0).
    - destruct (JobRepository.due t j) eqn:Hdue; [done|]. split_and!; [done..|].
      destruct Hst as [Hst|(Hst & Hs)]; [done|]. exfalso.
      assert (JobRepository.due t j = true) by (by apply due_true). congruence.
    - rewrite over_not_due by (by right). done. }
  split_and!.
  - split; [| |exact Hq|exact Hw|].
    + intros i x. rewrite Hlook. intros (y & Hy & ->)%fmap_Some_1.
      rewrite <- (Hkey i y Hy). by destruct (JobRepository.due t y).
    + intros i x. rewrite Hlook. intros (y & Hy & ->)%fmap_Some_1 Hi Hxq.
      assert (over y) as Hov by (apply (Halone i y); [done..|]; revert Hxq; by destruct (JobRepository.due t y)).
      by rewrite over_not_due.
    + exists j'. split_and!; [done|congruence|done|].
      destruct (a <? Job.max_attempts j0); [by left|congruence].
  - intros x Hlt Hx. apply Z.ltb_lt in Hlt. rewrite Hlt in Hst'. congruence.
  - intros Hge. apply Z.ltb_ge in Hge. rewrite Hge in Hst'. congruence.
Qed.

(** A poll of the open queue claims the job; of a queue with nothing left to
    run, nothing. *)
Lemma idle_running_count a t d j : stage a t d -> jobs d !! k = Some j ->
  Job.status j <> JobStatus.Running -> QueueRepository.running_count q d = 0.
Proof.
  intros [Hkey Halone _ _ _] Hj Hst. apply rows_affected_zero. intros i x Hi.
  destruct (bool_decide_reflect (Job.queue_id x = q)) as [Hq|]; [|done]. simpl.
  apply bool_decide_eq_false. destruct (decide (i = k)) as [->|Hne]; [congruence|].
  destruct (Halone i x Hi Hne Hq) as [-> | ->]; done.
Qed.

Lemma claim_stage a t d j c : stage a t d -> jobs d !! k = Some j ->
  Job.status j = JobStatus.Queued -> Job.queue_id j = q ->
  (forall s, Job.scheduled_at j = Some s -> s <= now c) -> locked c k = false ->
  JobRepository.claim_stmt q wk c d =
    Ok (Some (JobRepository.set_claimed wk (now c) j),
        d <| jobs ::= <[k := JobRepository.set_claimed wk (now c) j]> |>).
Proof.
  intros [Hkey Halone _ [w Hw] _] Hj Hst Hq Hs Hl. unfold JobRepository.claim_stmt.
  destruct (JobRepository.claim_candidate c q d) as [x|] eqn:Ec.
  - apply claim_candidate_Some in Ec as (Hc & _ & [i Hi] & _).
    assert (i = k) as ->.
    { destruct (decide (i = k)) as [|Hne]; [done|exfalso]. pose proof Hc as (_ & Hxq & _)%claimable_true.
      by rewrite (over_not_claimable _ x (Halone i x Hi Hne Hxq)) in Hc. }
    simplify_eq. unfold has, is_some. rewrite Hw. by rewrite (Hkey k j Hj).
  - exfalso. rewrite claim_candidate_None in Ec.
    assert (JobRepository.claimable q (now c) j = true) as Hc by (by apply claimable_true).
    specialize (Ec k j Hj Hc). rewrite (Hkey k j Hj) in Ec. congruence.
Qed.

Lemma claim_nothing a t d j c : stage a t d -> jobs d !! k = Some j -> over j ->
  JobRepository.claim_stmt q wk c d = Ok (None, d).
Proof.
  intros [_ Halone _ _ _] Hj Hov. apply claim_none_iff. split; [done|]. intros i x Hi Hst Hxq _. exfalso.
  assert (over x) as [?|?]; [|congruence..].
  destruct (decide (i = k)) as [->|Hne]; [congruence|by apply (Halone i x)].
Qed.

Lemma exec_poll_quiet `{!UuidText, !ChronoText, !Chrono, !Cron} a t d j on_claim env n w :
  quiet env -> w_db w = d -> stage a t d -> jobs d !! k = Some j ->
  Job.status j <> JobStatus.Running ->
  exec (Poller.poll_queue on_claim wk q) env n w =
  match JobRepository.claim_stmt q wk (ctx_of (env (S (S n))) 0) d with
  | Ok (Some job, d') => exec (on_claim job) env (S (S (S n))) (w <| w_db := d' |>)
  | Ok (None, d') => (Returned tt, w <| w_db := d' |>, S (S (S n)), [])
  | Err _ => (Returned tt, w, S (S (S n)), [])
  end.
Proof.
  intros Hq <- Hst Hj Hrun. unfold Poller.poll_queue, QueueRepository.find_by_id,
    QueueRepository.count_running_jobs, JobRepository.claim_next_job.
  rewrite exec_query_quiet by done. destruct (stage_queue _ _ _ Hst) as (row & -> & -> & Hlim).
  rewrite exec_query_quiet by done. erewrite idle_running_count by done.
  destruct (Z.leb_spec (Queue.concurrency_limit row) 0); [lia|].
  rewrite exec_sql_quiet by done. by destruct (JobRepository.claim_stmt _ _ _ _) as [[[job|] d']|].
Qed.

Lemma stage_later a t t' d : stage a t d -> (a < Job.max_attempts j0 -> t <= t') -> stage a t' d.
Proof.
  intros [Hkey Halone Hq Hw (j & Hj & Hsub & Ha & Hst)] Hle. split; [done..|].
  exists j. split_and!; [done..|]. destruct (Z.ltb_spec a (Job.max_attempts j0)) as [Hlt|]; [|done].
  specialize (Hle Hlt). destruct Hst as [|(? & s & ? & ?)]; [by left|right].
  split; [done|]. exists s. split; [done|lia].
Qed.

(** Only the job's row changed. *)
Lemma stage_rewrite a a' t t' d d' j' : stage a t d ->
  (forall i, i <> k -> jobs d' !! i = jobs d !! i) -> queues d' = queues d -> workers d' = workers d ->
  jobs d' !! k = Some j' -> Job.id j' = k -> submitted j' = submitted j0 -> Job.attempt_count j' = a' ->
  (if a' <? Job.max_attempts j0 then waiting t' j' else Job.status j' = JobStatus.Failed) ->
  stage a' t' d'.
Proof.
  intros [Hkey Halone Hq Hw _] Hne Heq Hew Hj' Hid Hsub Ha Hst. split.
  - intros i x Hi. destruct (decide (i = k)) as [->|Hik]; [congruence|].
    rewrite Hne in Hi by done. by apply Hkey.
  - intros i x Hi Hik. rewrite Hne in Hi by done. by eapply Halone.
  - by rewrite Heq.
  - by rewrite Hew.
  - by exists j'.
Qed.
End stages.

(** ** A round of a failing job *)

Section failing.
Context {UT : UuidText} {CT : ChronoText} {CH : Chrono} {CS : ChronoSpec} {CR : Cron}.
Context (q k wk : Uuid) (j0 : Job.t) (msg : string).
Context (in_queue : Job.queue_id j0 = q) (no_policy : Job.retry_policy_id j0 = None)
  (few_attempts : Job.max_attempts j0 <= 60).

(** Nothing fails but the job: no connection is lost, its row is not locked, the
    clocks are in the calendar and past its schedule. *)
Record fair (env : nat -> Env) : Prop := {
  fair_quiet : quiet env;
  fair_unlocked n : e_locked (env n) k = false;
  fair_clock n i : 0 <= e_clock (env n) i < YEAR_10000;
  fair_now n s : Job.scheduled_at j0 = Some s -> s <= e_now (env n);
}.

Lemma fail_delay (job : Job.t) d a : Job.retry_policy_id job = None -> 0 <= a < 60 ->
  Job.attempt_count job = a ->
  i32 (Job.attempt_count job + 1) = a + 1 /\
  0 <= delay_of (attached_policy job d) (a + 1) <= 300.
Proof.
  intros Hp Ha ->. split; [by apply i32_id; unfold in_width; lia|].
  unfold attached_policy. rewrite Hp. simpl. destruct (default_delay_exact (a + 1)) as [[-> _] _]; [lia|].
  assert (0 < 2 ^ (a + 1 - 1)) by (apply Z.pow_pos_nonneg; lia). lia.
Qed.

(** What settling a failed run does to the rows the counts and stages look at. *)
Lemma settle_failed j j' x dead ev tr d : jobs d !! k = Some j ->
  new_rows x dead ev (running_at k tr d) ->
  JobExecution.job_id x = k -> JobExecution.success x = false ->
  (forall e, dead = Some e -> DeadLetterEntry.job_id e = k) ->
  let d' := settle k j' x dead ev (running_at k tr d) in
  (forall i, i <> k -> jobs d' !! i = jobs d !! i) /\ jobs d' !! k = Some j' /\
  queues d' = queues d /\ workers d' = workers d /\ failures k d' = S (failures k d) /\
  dead_entries k d' = ((if dead then 1 else 0) + dead_entries k d)%nat.
Proof.
  intros Hj (Hx & Hd & _) Hxk Hxs Hdead. unfold running_at in *. rewrite Hj in *. simpl in *. split_and!.
  - intros i Hi. by rewrite !lookup_insert_ne.
  - by rewrite lookup_insert_eq.
  - done.
  - done.
  - unfold failures. simpl. by rewrite size_filter_insert.
  - unfold dead_entries. destruct dead as [e|]; [|done]. simpl. rewrite size_filter_insert; auto.
Qed.

Lemma submitted_fields j j' : submitted j = submitted j' ->
  Job.queue_id j = Job.queue_id j' /\ Job.scheduled_at j = Job.scheduled_at j' /\
  Job.retry_policy_id j = Job.retry_policy_id j' /\ Job.max_attempts j = Job.max_attempts j'.
Proof. unfold submitted. intros H. injection H. intros. split_and!; congruence. Qed.

(** What a failed run leaves, counted and staged; the job was claimed as [job]. *)
Lemma failed_run_stage a t t' d0 job env d' x tr :
  0 <= a < Job.max_attempts j0 -> stage q k wk j0 a t d0 ->
  submitted job = submitted j0 -> Job.id job = k -> Job.attempt_count job = a ->
  JobExecution.job_id x = k -> JobExecution.success x = false ->
  (forall i, 0 <= e_clock env i < YEAR_10000) -> (forall i, e_clock env i + 300 * SECOND <= t') ->
  let d := d0 <| jobs ::= <[k := job]> |> in
  (if Executor.should_dlq job then dead_lettered job x msg (running_at k tr d) d'
   else retry_scheduled env job x (delay_of (attached_policy job d) (i32 (a + 1))) (running_at k tr d) d') ->
  stage q k wk j0 (a + 1) t' d' /\ failures k d' = S (failures k d0) /\
  dead_entries k d' = ((if (a + 1 =? Job.max_attempts j0)%Z then 1 else 0) + dead_entries k d0)%nat.
Proof.
  intros Ha Hst Hsub Hid Hac Hxk Hxs Hclock Ht' d Hd'.
  destruct (submitted_fields _ _ Hsub) as (_ & _ & Hpol & Hmax). rewrite no_policy in Hpol.
  destruct (fail_delay job d a Hpol ltac:(lia) Hac) as [Hi32 Hdelay]. rewrite Hac in Hi32.
  assert (jobs d !! k = Some job) as Hj by apply lookup_insert_eq.
  assert (jobs (running_at k tr d) !! k = Some (job <| Job.status := JobStatus.Running |>
    <| Job.updated_at := tr |>)) as Hrun by (unfold running_at; rewrite Hj; apply lookup_insert_eq).
  assert (forall i, i <> k -> jobs d !! i = jobs d0 !! i) as Hd0 by (intros; by apply lookup_insert_ne).
  unfold Executor.should_dlq, dead_lettered, retry_scheduled in Hd'. cbv zeta in Hd'.
  rewrite Hac, Hid, Hi32, Hmax in Hd'.
  destruct (Z.leb_spec (Job.max_attempts j0) (a + 1)) as [Hle|Hlt].
  - destruct Hd' as (j1 & t1 & dead_id & moved & ev & Hj1 & Hrows & _ & _ & _ & ->).
    rewrite Hrun in Hj1. injection Hj1 as <-.
    edestruct settle_failed as (H1 & H2 & H3 & H4 & H5 & H6); [exact Hj|exact Hrows|done|done| |].
    { intros e [= <-]. done. }
    rewrite H5, H6. split; [|split; [done|by rewrite (proj2 (Z.eqb_eq _ _)) by lia]].
    eapply stage_rewrite; [exact Hst|intros; by rewrite H1, Hd0|exact H3|exact H4|exact H2|exact Hid
      |exact Hsub|done|].
    by rewrite (proj2 (Z.ltb_ge _ _)) by lia.
  - destruct Hd' as (j1 & t1 & i & next & ev & Hj1 & Hrows & Hadd & _ & _ & _ & ->).
    rewrite Hrun in Hj1. injection Hj1 as <-.
    edestruct settle_failed as (H1 & H2 & H3 & H4 & H5 & H6); [exact Hj|exact Hrows|done|done|done|].
    rewrite H5, H6. split; [|split; [done|by rewrite (proj2 (Z.eqb_neq _ _)) by lia]].
    eapply stage_rewrite; [exact Hst|intros; by rewrite H1, Hd0|exact H3|exact H4|exact H2|exact Hid
      |exact Hsub|done|].
    rewrite (proj2 (Z.ltb_lt _ _)) by lia. right. split; [done|]. exists next. split; [done|].
    rewrite add_seconds_in_calendar in Hadd by (auto; lia). injection Hadd as <-.
    specialize (Ht' i). unfold SECOND in *. lia.
Qed.

(** The task a poll spawned, run to its end. *)
Lemma run_counted_task job env w : quiet env -> fresh_ids env (w_db w) ->
  is_Some (jobs (w_db w) !! Job.id job) ->
  (Executor.should_dlq job = false -> forall n i, is_Some (add_seconds (e_clock (env n) i)
     (delay_of (attached_policy job (w_db w)) (i32 (Job.attempt_count job + 1))))) ->
  exists tr d eid t0 t1, let x := Executor.execution_row job wk eid t0 t1 (Err msg) in
    (if Executor.should_dlq job then dead_lettered job x msg (running_at (Job.id job) tr (w_db w)) d
     else retry_scheduled (env 4%nat) job x (delay_of (attached_policy job (w_db w))
            (i32 (Job.attempt_count job + 1))) (running_at (Job.id job) tr (w_db w)) d) /\
    w_db (run (Poller.counted_task (fun _ => Ret (Err msg)) wk job) env w).2 = d.
Proof.
  intros Hq Hf Hj Hadd.
  destruct (execute_failure_quiet msg wk job env w Hq Hf Hj Hadd) as (tr & d & eid & t0 & t1 & Hd & Hr).
  exists tr, d, eid, t0, t1. split; [exact Hd|]. apply run_exec in Hr as (n & ts & Hr).
  unfold run, Poller.counted_task. rewrite exec_bind, Hr. done.
Qed.

Lemma exec_spawn_counted handler job env n w :
  exec (Poller.spawn_counted handler wk job) env n w =
  (Returned tt, ActiveJobs.add wk 1 w, S n, [Poller.counted_task handler wk job]).
Proof. done. Qed.

(** A round with attempts left: the job runs once, and fails. *)
Lemma round_fails a t t' env w : fair env -> fresh_ids env (w_db w) ->
  0 <= a < Job.max_attempts j0 -> stage q k wk j0 a t (w_db w) -> t <= e_now (env 0%nat) ->
  (forall n i, e_clock (env n) i + 300 * SECOND <= t') ->
  let w' := round (fun _ => Ret (Err msg)) wk q env w in
  stage q k wk j0 (a + 1) t' (w_db w') /\ failures k (w_db w') = S (failures k (w_db w)) /\
  dead_entries k (w_db w') =
    ((if (a + 1 =? Job.max_attempts j0)%Z then 1 else 0) + dead_entries k (w_db w))%nat.
Proof.
  intros [Hq Hl Hclock Hnow] Hf Ha Hst Ht Ht'. unfold round. rewrite exec_promoter_round by done.
  assert (stage q k wk j0 a (e_now (env 0%nat)) (w_db w)) as Hst0 by (by eapply stage_later).
  destruct (promoted_stage q k wk j0 a _ _ Hst0) as (Hst1 & Hqd & _).
  destruct (stage_job _ _ _ _ _ _ _ Hst1) as (j & Hj & Hsub & Hac & _).
  destruct (submitted_fields _ _ Hsub) as (Hjq & Hjs & Hjp & Hjm).
  pose proof (Hqd j ltac:(lia) Hj) as Hqueued. pose proof (stage_keyed _ _ _ _ _ _ _ Hst1 k j Hj) as Hjk.
  cbv beta iota. rewrite (exec_poll_quiet q k wk j0 a (e_now (env 0%nat))
    (promoted (e_now (env 0%nat)) (w_db w)) j) by first [done | congruence].
  rewrite (claim_stage q k wk j0 a _ _ j _ Hst1 Hj Hqueued);
    [|congruence|intros s; rewrite Hjs; apply Hnow|apply Hl].
  set (d1 := promoted _ (w_db w)) in *. set (job := JobRepository.set_claimed _ _ j). cbv beta iota.
  rewrite exec_spawn_counted. cbv beta iota. cbn [foldl].
  match goal with |- context [run (Poller.counted_task ?h wk job) ?env' ?w3] =>
    destruct (run_counted_task job env' w3) as (tr & d & eid & t0 & t1 & Hd & Hr) end.
  - intros n i. apply Hq.
  - intros n i m. apply Hf.
  - exists job. simpl. by rewrite Hjk, lookup_insert_eq.
  - intros _ n i. destruct (fail_delay job (d1 <| jobs ::= <[k := job]> |>) a) as [Hi Hdelay];
      [simpl; congruence|lia|exact Hac|].
    eexists. rewrite Hi. apply add_seconds_in_calendar; [apply Hclock|]. split; [apply Hdelay|].
    etrans; [apply Hdelay|lia].
  - rewrite Hr. change (Job.id job) with (Job.id j) in Hd.
    change (Job.attempt_count job) with (Job.attempt_count j) in Hd. rewrite Hjk, Hac in Hd.
    eapply (failed_run_stage a _ t' d1 job (env 9%nat) d
      (Executor.execution_row job wk eid t0 t1 (Err msg)) tr); [lia|exact Hst1|exact Hsub|exact Hjk|exact Hac
      |exact Hjk|reflexivity|apply Hclock|apply Ht'|exact Hd].
Qed.

(** A round with no attempts left: nothing happens to the job. *)
Lemma round_over a t t' env w : fair env -> Job.max_attempts j0 <= a -> stage q k wk j0 a t (w_db w) ->
  let w' := round (fun _ => Ret (Err msg)) wk q env w in
  stage q k wk j0 a t' (w_db w') /\ failures k (w_db w') = failures k (w_db w) /\
  dead_entries k (w_db w') = dead_entries k (w_db w).
Proof.
  intros [Hq Hl Hclock Hnow] Ha Hst. unfold round. rewrite exec_promoter_round by done.
  assert (stage q k wk j0 a (e_now (env 0%nat)) (w_db w)) as Hst0 by (eapply stage_later; [done|lia]).
  destruct (promoted_stage q k wk j0 a _ _ Hst0) as (Hst1 & _ & _).
  destruct (stage_job _ _ _ _ _ _ _ Hst1) as (j & Hj & Hsub & Hac & Hstat).
  rewrite (proj2 (Z.ltb_ge _ _) Ha) in Hstat. cbv beta iota.
  rewrite (exec_poll_quiet q k wk j0 a (e_now (env 0%nat))
    (promoted (e_now (env 0%nat)) (w_db w)) j) by first [done | congruence].
  rewrite (claim_nothing q k wk j0 a _ _ j _ Hst1 Hj) by (by right). cbv beta iota. cbn [foldl].
  split; [|done]. eapply stage_later; [exact Hst1|lia].
Qed.
End failing.

(** C7: a failing job is run exactly as often as it has attempts. Take rounds of
    the promoter, a poller and the executor, far enough apart for each retry to
    be due, without lost connections, on an open queue whose only unfinished job
    has no retry policy and at most sixty attempts, and let every run fail. After
    any number [n] of rounds the job has failed min([n], attempts left) more
    times, each failure recorded; from the last attempt on it is failed, with
    exactly one more dead-letter entry, and no round runs it again.
    The rounds are an interleaving of the promoter's and the poller's loops. *)
Theorem failing_job_is_exhausted `{!UuidText, !ChronoText, !Chrono, !ChronoSpec, !Cron}
  (q k wk : Uuid) (j0 : Job.t) (msg : string) (env : nat -> nat -> Env) (w : World) (n : nat) :
  Job.queue_id j0 = q -> Job.retry_policy_id j0 = None ->
  0 <= Job.attempt_count j0 < Job.max_attempts j0 -> Job.max_attempts j0 <= 60 ->
  stage q k wk j0 (Job.attempt_count j0) (e_now (env 0%nat 0%nat)) (w_db w) ->
  (forall i, (i < n)%nat -> fair k j0 (env i) /\
     fresh_ids (env i) (w_db (rounds (fun _ => Ret (Err msg)) wk q env i w)) /\
     forall s m, e_clock (env i s) m + 300 * SECOND <= e_now (env (S i) 0%nat)) ->
  let left := Z.to_nat (Job.max_attempts j0 - Job.attempt_count j0) in
  let w' := rounds (fun _ => Ret (Err msg)) wk q env n w in
  let d' := w_db w' in
  (exists ts, rtc pool_step (loops (fun _ => Ret (Err msg)) wk q n, w) (ts, w')) /\
  failures k d' = (failures k (w_db w) + n `min` left)%nat /\
  dead_entries k d' = (dead_entries k (w_db w) + if (left <=? n)%nat then 1 else 0)%nat /\
  exists j, jobs d' !! k = Some j /\ submitted j = submitted j0 /\
    Job.attempt_count j = Job.attempt_count j0 + Z.of_nat (n `min` left) /\
    (Job.status j = JobStatus.Failed <-> (left <= n)%nat).
Proof.
  intros Hq Hpol Ha Hmax Hst Hfair left.
  assert (Z.of_nat left = Job.max_attempts j0 - Job.attempt_count j0) as Hleft by (unfold left; lia).
  clearbody left.
  cut (let d' := w_db (rounds (fun _ => Ret (Err msg)) wk q env n w) in
    stage q k wk j0 (Job.attempt_count j0 + Z.of_nat (n `min` left)) (e_now (env n 0%nat)) d' /\
    failures k d' = (failures k (w_db w) + n `min` left)%nat /\
    dead_entries k d' = (dead_entries k (w_db w) + if (left <=? n)%nat then 1 else 0)%nat).
  { intros ([_ _ _ _ (j & Hj & Hsub & Hac & Hstat)] & Hf & Hd). cbv zeta. split.
    { destruct (rounds_interleaved (fun _ => Ret (Err msg)) wk q env n 0 w) as [rest Hr].
      rewrite Nat.add_0_r in Hr. eauto. }
    split; [exact Hf|]. split; [exact Hd|]. exists j. split_and!; [done..|].
    destruct (Z.ltb_spec (Job.attempt_count j0 + Z.of_nat (n `min` left)) (Job.max_attempts j0)).
    - split; [|lia]. destruct Hstat as [->|[-> _]]; done.
    - split; [lia|done]. }
  induction n as [|n IH]; cbv zeta.
  { simpl. rewrite Z.add_0_r, Nat.add_0_r. split; [done|]. split; [done|].
    destruct left eqn:El; [lia|simpl; lia]. }
  destruct IH as (Hst' & Hf & Hd); [by auto with lia|]. cbn [rounds].
  destruct (Hfair n) as (Hfa & Hfr & Hclock); [lia|].
  set (w1 := rounds (fun _ => Ret (Err msg)) wk q env n w) in *.
  destruct (decide (n < left)%nat) as [Hlt|Hge].
  - rewrite Nat.min_l in * by lia.
    destruct (round_fails q k wk j0 msg Hq Hpol Hmax
      (Job.attempt_count j0 + Z.of_nat n) _ (e_now (env (S n) 0%nat)) (env n) w1
      Hfa Hfr ltac:(lia) Hst' (Z.le_refl _) Hclock) as (Hst2 & Hf2 & Hd2).
    rewrite ?Nat.min_l by lia. rewrite Hf2, Hd2, Hf, Hd. split_and!.
    + by replace (Job.attempt_count j0 + Z.of_nat (S n)) with (Job.attempt_count j0 + Z.of_nat n + 1) by lia.
    + lia.
    + destruct (Z.eqb_spec (Job.attempt_count j0 + Z.of_nat n + 1) (Job.max_attempts j0)),
        (Nat.leb_spec left n), (Nat.leb_spec left (S n)); lia.
  - rewrite Nat.min_r in * by lia.
    destruct (round_over q k wk j0 msg Hq (Job.attempt_count j0 + Z.of_nat left) _ (e_now (env (S n) 0%nat)) (env n) w1 Hfa ltac:(lia) Hst')
      as (Hst2 & Hf2 & Hd2).
    rewrite ?Nat.min_r by lia. rewrite Hf2, Hd2, Hf, Hd. split_and!; [done|done|].
    destruct (Nat.leb_spec left n), (Nat.leb_spec left (S n)); lia.
Qed.

Section example.
Import Toy.

(** The fixture's job of three attempts; rounds are ten minutes apart. *)
Definition ten_minutes (i n : nat) : Env :=
  Fixture.env_at (Fixture.noon + 600 * SECOND * Z.of_nat i) (20 * i + n).
Definition stubborn : Job.t := Fixture.job 20 JobStatus.Queued JobPriority.Normal 10.
Definition four_rounds (n : nat) : World :=
  rounds (fun _ => Ret (Err "boom")) Fixture.worker Fixture.queue ten_minutes n
    (Fixture.world (Fixture.with_jobs [stubborn])).

(** The ids of a round are above those of the rounds before it. *)
Definition below (n : N) (d : Db) : Prop :=
  map_Forall (fun k _ => (k < n)%N) (job_executions d) /\
  map_Forall (fun k _ => (k < n)%N) (dead_letter_queue d) /\
  map_Forall (fun k _ => (k < n)%N) (outbox_events d).
#[local] Instance below_dec n d : Decision (below n d).
Proof. unfold below. apply _. Defined.

Lemma below_fresh i d : below (1000 + 2000 * N.of_nat i) d -> fresh_ids (ten_minutes i) d.
Proof.
  intros (H1 & H2 & H3) n x m.
  assert (forall V (t : gmap N V), map_Forall (fun k _ => (k < 1000 + 2000 * N.of_nat i)%N) t ->
    t !! e_uuid (ten_minutes i n) x m = None) as Hnone.
  { intros V t Ht. apply eq_None_not_Some. intros [v Hv]. specialize (Ht _ _ Hv). simpl in Ht. lia. }
  by split_and!; apply Hnone.
Qed.

Lemma ten_minutes_fair i : (i < 4)%nat -> fair 20 stubborn (ten_minutes i).
Proof.
  intros Hi. split; try done. intros n x. unfold ten_minutes, Fixture.env_at, Fixture.noon, YEAR_10000, SECOND.
  simpl. lia.
Qed.

Lemma stubborn_stage : stage Fixture.queue 20 Fixture.worker stubborn 0 Fixture.noon
  (Fixture.with_jobs [stubborn]).
Proof.
  split.
  - apply jobs_keyed_map_Forall. compute_decide.
  - intros k j. simpl. intros [[<- _]|[_ Hk]]%lookup_insert_Some Hne; [done|]. by rewrite lookup_empty in Hk.
  - eexists. vm_compute. done.
  - vm_compute. eauto.
  - exists stubborn. split; [vm_compute; reflexivity|]. split; [reflexivity|]. split; [reflexivity|].
    simpl. by left.
Qed.

(** Three failures and one dead letter; the fourth round does nothing. *)
Lemma failing_job_is_exhausted_witness :
  failures 20 (w_db (four_rounds 4)) = 3%nat /\ dead_entries 20 (w_db (four_rounds 4)) = 1%nat /\
  Job.status <$> (jobs (w_db (four_rounds 4)) !! 20%N) = Some JobStatus.Failed.
Proof.
  destruct (failing_job_is_exhausted Fixture.queue 20 Fixture.worker stubborn "boom" ten_minutes
    (Fixture.world (Fixture.with_jobs [stubborn])) 4) as (_ & Hf & Hd & j & Hj & _ & _ & Hst).
  - reflexivity.
  - reflexivity.
  - split; [discriminate|reflexivity].
  - discriminate.
  - exact stubborn_stage.
  - intros i Hi. split; [by apply ten_minutes_fair|]. split.
    + apply below_fresh. change (below (1000 + 2000 * N.of_nat i) (w_db (four_rounds i))).
      destruct i as [|[|[|[|i]]]]; [compute_decide..|lia].
    + intros s m. unfold ten_minutes, Fixture.env_at, SECOND. simpl. lia.
  - split; [exact Hf|]. split; [exact Hd|].
    unfold four_rounds. rewrite Hj. apply (f_equal Some), Hst, Nat.leb_le. reflexivity.
Defined.
End example.
